(* ===== verification/_CoqProject ===== *)
-Q . S2P
Prelude.v
Endian.v
Text.v
Printf.v
NetBuffer.v
Date.v
TimeZone.v
ZoneFile.v
Channel.v
Service.v
Poller.v
PollPoller.v
EPollPoller.v
EventLoop.v
LoopLife.v
LoopService.v
LoopTasks.v
StringPiece.v
Sockets.v
Socket.v
Timestamp.v
TimerQueue.v
Connection.v
TcpConnection.v
OwnedConnection.v
ConnectionProgress.v
ConnectionLoop.v
Reactor.v
ReactorRuns.v
Connector.v
EventLoopThreadPool.v
TcpServer.v
ServerConnections.v
BlockQueue.v
Thread.v
ThreadPool.v
LogStream.v
AsyncLogging.v
FileUtil.v
LogFile.v
LogPipeline.v
EventLoopThread.v
StackTrace.v
WeakCallback.v
ProcessInfo.v
Acceptor.v
AcceptingServer.v
TcpClient.v
Logging.v
