(* ===== verification/Prelude.v ===== *)
(** * Verification of the dws C++ network library

    dws is a multithreaded TCP library in the reactor style: [base/] has time,
    threads, queues and logging, [net/] has the event loop and what runs in it.
    File names below are those under src/src/base and src/src/net.

    ** The program

    An [EventLoop] belongs to one thread.  Each round it asks its [Poller] (poll(2)
    or epoll(7)) which descriptors are ready, lets their [Channel]s call back, and
    runs the functors that other threads have queued; a write to an eventfd wakes it.
    A [TimerQueue] hangs on the loop by a timerfd.  [Acceptor] and [Connector] make
    sockets, a [TcpConnection] moves bytes between a socket and two [Buffer]s, a
    [TcpServer] or [TcpClient] owns connections, an [EventLoopThreadPool] of
    [EventLoopThread]s gives a server its loops.  Log lines are formatted by [Logger]
    into a [LogStream] and written by [AsyncLogging]'s thread to a [LogFile].

    ** The files

    Values and text.  This file: outcomes of C++ code, machine integers, bytes, lists,
    tactics.  Endian.v: Endian.h.  Text.v and Printf.v: the conversions of snprintf(3)
    that the sources use.  NetBuffer.v: Buffer.  Date.v, TimeZone.v, Timestamp.v: the
    classes of these names.  ZoneFile.v: the reader of TimeZone.cc against a writer of
    the file format.  StringPiece.v: views on memory.

    The reactor.  Channel.v: Channel, against the class [Host] of what a channel asks
    of the world, with [HostLaws].  Poller.v: the interface [Poller], with what every
    poller keeps ([PollerFrame]) and what a loop relies on ([PollerLaws]).
    PollPoller.v discharges both; EPollPoller.v discharges [PollerFrame] and shows that
    the class cannot keep [PollerLaws].  EventLoop.v: one thread's view of a loop, on
    any [Poller]; it is a [Host].  LoopTasks.v: the functor queue, the eventfd and
    quitting under any interleaving with other threads.  TimerQueue.v: Timer,
    TimerId, TimerQueue, and the loop's runAt, runAfter, runEvery.  LoopLife.v:
    constructor and destructor of a loop with its two channels, and the choice of the
    default poller.  Service.v: the class [Service], what the owner of a channel relies
    on when it registers the channel with a loop, changes its interest and takes it off,
    also while the loop hands out events; LoopService.v: an [EventLoop] on any lawful
    poller keeps it.

    Sockets and connections.  Sockets.v: SocketsOps.cc and InetAddress; Socket.v;
    Acceptor.v, Connector.v and TcpConnection.v, on any [Host], and on any loop that
    keeps [Service] where they need it to succeed.  ConnectionLoop.v: a connection in an
    [EventLoop] down to the descriptors.  ConnectionProgress.v: on a loop that keeps
    [Service] every handler and functor of a connection returns.  Reactor.v: the rounds
    of an [EventLoop] down to the handlers of its connections and the functors that
    destroy them, with the invariant that ties the four classes together; ReactorRuns.v:
    what holds of it, and what breaks it.  EventLoopThreadPool.v.  Connection.v: the
    class of what an owner promises to its connections and they to it; TcpServer.v and
    TcpClient.v are verified against it, OwnedConnection.v proves it of TcpConnection.v.
    ServerConnections.v: a server with real connections; AcceptingServer.v: the same
    with the server's acceptor.

    Threads.  BlockQueue.v: BlockQueue, CountDownLatch, and the member functions of
    BoundedBlockingQueue, whose constructor does not compile.  Thread.v: Thread and
    CurrentThread, with exhaustive exploration of small systems.  Every thread that
    Thread::start starts ends in a use after free or a double deletion, and what is
    built on it is verified with that: ThreadPool.v and EventLoopThread.v run their
    threads by the steps of Thread.v; AsyncLogging.v and LogPipeline.v follow the
    writing thread while it is inside threadFunc.  WeakCallback.v, StackTrace.v (with
    Exception), ProcessInfo.v.

    Logging.  LogStream.v, Logging.v, AsyncLogging.v, FileUtil.v, LogFile.v;
    LogPipeline.v: the writing thread of AsyncLogging.v with its LogFile, as one system.

    In each file one Module has the class's name; its Record has the class's members,
    its definitions the names of the functions.  A member function of an object that
    others point to takes the address and the world that holds it.

    ** How code is modelled

    A function that can fail returns [result]: an assertion that does not hold, an
    exception, undefined behaviour or the end of the process are [Err], and nothing
    follows them.  Assertions count, as the library is built without NDEBUG.  Integers
    are [Z]; where an [int], [size_t] or a narrower type can overflow the model wraps
    it ([wrapu], [wraps]) or, for signed arithmetic, faults ([no_overflow]).  [double]
    is the standard library's [spec_float] with 53 and 1024.  Heap objects are entries
    of a [gmap] by address, so a dangling pointer is a failed lookup.  What threads do
    is a step relation whose steps are critical sections, atomic accesses or system
    calls; invariants hold by induction on runs.  System calls, fopen and
    fwrite_unlocked, which may fail or write short, the clock, the allocator, the user's
    callbacks and the C library's address conversions are parameters, with documented
    behaviour as hypotheses where a theorem needs it; so is [try_lock] on a mutex that
    the caller holds, which the language leaves undefined.  [std::upper_bound] on a
    range that may be out of order is libstdc++'s bisection ([TimeZone.upper_bound]).

    Fuel occurs in few places: [Text.dec_fuel] and [Printf.scale_fuel] are logarithms of
    the number printed ([udec_value], [scale_fuel_enough] prove them enough),
    [FileUtil.read_fuel] is the number of bytes asked for, and each turn reads one;
    [TimeZone.upper_bound] has a step for each element, and each step halves the range.
    [EventLoop.while_loop] recurses on the kernel's answers; when they run out the loop
    is still in poll.  [Explore] visits the states of a finite system; the lists of
    visited states are checked to be closed, so no bound on their number is assumed.

    ** What is proved

    Data: the buffer refines a queue of bytes and no sequence of its operations faults
    within its assertions; integers survive the network order, dates the Julian day
    number, local times the zone's table (but for an hour repeated after its last
    transition); what a writer of zone files writes is what the reader returns, and what
    it returns is well formed; a StringPiece's compare, <, > and == are the dictionary
    order.

    Reactor: the poll table makes the kernel watch exactly the registered descriptors
    that have an interest, besides the sixteen entries for descriptor 0 that its
    constructor leaves, and reports exactly the ready channels; a channel's dispatch makes
    the calls that the bits of poll(2) stand for; no event reaches a channel that is gone;
    functors run once and in order; no wakeup is lost and every queued functor is run, but
    for those that the loop's own thread queues while it is not in loop(), which wait for
    the poller's timeout or another event; timers fire in order and once, whatever the
    callbacks add and cancel; a loop registers two channels when constructed and takes
    exactly these off when destroyed.

    Connections: the life cycle as the user is told it, the byte stream, draining before
    shutdown; a connection in a real loop leaves the poller as it was; however long it
    runs, a loop with connections never faults, as long as the kernel's reports are
    sensible (no hang-up without data to read but with urgent data or peer shutdown, see
    [reactor_breaks]; input buffers with room) and no callback fails or turns reading on
    in a connection that is down, and it destroys in each round the connections that were
    closed in it; the connector closes what it opens and leaves its loop as it was; the
    acceptor never leaks a descriptor; the server's registry holds exactly the live
    connections, for all connections that keep the contract, and so for those of
    TcpConnection.v, each of which keeps its invariant while the server runs; with the
    acceptor, every accepted descriptor is the socket of one connection as long as that
    lives.

    Threads and logs: a BlockQueue is first in, first out and without lost wakeups, and so
    are the tasks of a running pool (with its default size, zero, callers wait for ever);
    a stopped pool's workers leave runInThread, and a loop thread's handshake gives a
    running loop, but neither kind of thread can end, so none is ever joined; the log files
    have of the lines that threads append what fwrite_unlocked takes, in order and flushed,
    unless a file cannot be opened, at most three steps of the writing thread after the
    head of its loop; a log line has all its fields, in the minutes of the day in which it
    can be written.

    Errors: several theorems prove that a defect of the code shows, for all inputs of
    a kind: epoll loops cannot be destroyed, logging aborts in 523 minutes of a UTC day,
    messages are lost below the high-water mark, the functor of the high-water mark
    and the close of a client's connection read dangling references, starting a thread
    deletes an object twice, a hang-up with urgent data closes a connection twice.

    ** Not modelled

    Type aliases, attribute macros and casts (Callbacks.h, Types.h,
    ThreadAnnotations.h, copyable.h, noncopyable.h); the demonstration programs and
    tests; the loop's and the connection's [std::any] context; SIGPIPE; the branches
    compiled only under VALGRIND; what a thread's function throws; the compilation of
    templates, except that a definition that cannot compile is noted where it occurs.
    TcpClient.v has its connector as the calls it gets, not as the record of
    Connector.v.  In ServerConnections.v and AcceptingServer.v the channels of the other
    loops' own descriptors, and the flags that a loop sets while it dispatches, are not
    followed: what calls a handler is any interleaving of them.  Reactor.v follows them,
    for one loop that is also its server's; it leaves out timers, the high-water
    callback and other calls from other threads than [shutdown] and [forceClose]
    (OwnedConnection.v has them), the acceptor, and the eventfd
    between two rounds, on which LoopTasks.v says all there is. *)

From Stdlib Require Export ZArith Lia Strings.String Strings.Byte.
From stdpp Require Export base tactics list gmap relations.

#[global] Open Scope Z_scope.

(** ** Outcomes of C++ code *)

(** How a piece of code can stop without returning.  The library is built
    without NDEBUG by default, so a failed [assert] ends the process. *)
Inductive fault :=
| AssertFailure            (* assert(...) evaluated to false *)
| Aborted                  (* LOG_FATAL, LOG_SYSFATAL, std::abort *)
| UndefinedBehaviour       (* out-of-range access, signed overflow *)
| Exception (what : string).

Inductive result (A : Type) :=
| Ok (a : A)
| Err (f : fault).
Arguments Ok {A} _.
Arguments Err {A} _.

#[global] Instance fault_eqdec : EqDecision fault.
Proof. intros x y. unfold Decision. decide equality. apply String.string_dec. Defined.
#[global] Instance result_eqdec {A} `{EqDecision A} : EqDecision (result A).
Proof. solve_decision. Defined.

#[global] Instance result_ret : MRet result := fun _ a => Ok a.
#[global] Instance result_bind : MBind result :=
  fun _ _ k m => match m with Ok a => k a | Err f => Err f end.
#[global] Instance result_fmap : FMap result :=
  fun _ _ g m => match m with Ok a => Ok (g a) | Err f => Err f end.

(** [assert(b)]. *)
Definition assert_ (b : bool) : result unit :=
  if b then Ok tt else Err AssertFailure.

(** An access or an operation that is only defined when [b] holds. *)
Definition defined_ (b : bool) : result unit :=
  if b then Ok tt else Err UndefinedBehaviour.

Definition is_ok {A} (m : result A) : bool :=
  match m with Ok _ => true | Err _ => false end.

(** ** Machine integers *)

(** Value of [z] converted to an unsigned, respectively signed, integer of
    [w] bits (two's complement). *)
Definition wrapu (w z : Z) : Z := z mod 2 ^ w.
Definition wraps (w z : Z) : Z := (z + 2 ^ (w - 1)) mod 2 ^ w - 2 ^ (w - 1).

Definition in_u (w z : Z) : bool := (0 <=? z) && (z <? 2 ^ w).
Definition in_s (w z : Z) : bool := (- 2 ^ (w - 1) <=? z) && (z <? 2 ^ (w - 1)).

(** The results of signed [w]-bit operations: overflow is undefined. *)
Definition no_overflow (w : Z) (l : list Z) : result unit :=
  defined_ (forallb (in_s w) l).

(** ** Lists indexed by machine integers *)

Definition zlen {A} (l : list A) : Z := Z.of_nat (length l).
Definition ztake {A} (n : Z) (l : list A) : list A := take (Z.to_nat n) l.
Definition zdrop {A} (n : Z) (l : list A) : list A := drop (Z.to_nat n) l.

(** The elements at the indices [i <= k < j]. *)
Definition zslice {A} (i j : Z) (l : list A) : list A := ztake (j - i) (zdrop i l).

(** Overwrite the elements from index [i] on with [d] (memcpy, std::copy). *)
Definition zwrite {A} (i : Z) (d l : list A) : list A :=
  ztake i l ++ d ++ zdrop (i + zlen d) l.

Definition zreplicate {A} (n : Z) (a : A) : list A := replicate (Z.to_nat n) a.

(** [std::vector<char>::resize]. *)
Definition zresize {A} (a : A) (n : Z) (l : list A) : list A :=
  ztake n l ++ zreplicate (n - zlen l) a.

(** ** Bytes *)

Definition byte_val (b : byte) : Z := Z.of_N (Byte.to_N b).
Definition byte_of (z : Z) : byte := default Byte.x00 (Byte.of_N (Z.to_N (z mod 256))).

(** The characters of a literal. *)
Definition bytes_of (s : string) : list byte := list_byte_of_string s.

#[global] Instance byte_eqdec : EqDecision byte := Byte.byte_eq_dec.

#[global] Instance byte_countable : Countable byte.
Proof.
  refine (inj_countable Byte.to_N Byte.of_N _). apply Byte.of_to_N.
Defined.

(** ** Lemmas on outcomes *)

Lemma bind_ok {A B} (a : A) (k : A -> result B) : (Ok a ≫= k) = k a.
Proof. reflexivity. Qed.

Lemma bind_err {A B} (f : fault) (k : A -> result B) : (Err f ≫= k) = Err f.
Proof. reflexivity. Qed.

Lemma bind_ok_inv {A B} (m : result A) (k : A -> result B) (b : B) :
  (m ≫= k) = Ok b -> exists a, m = Ok a /\ k a = Ok b.
Proof. destruct m as [a|f]; [eauto | intros H; discriminate H]. Qed.

Lemma bind_assoc {A B C} (m : result A) (k : A -> result B) (g : B -> result C) :
  ((m ≫= k) ≫= g) = (m ≫= fun a => k a ≫= g).
Proof. by destruct m. Qed.

Lemma bind_ext {A B} (m : result A) (k k' : A -> result B) :
  (forall a, m = Ok a -> k a = k' a) -> (m ≫= k) = (m ≫= k').
Proof. intros H. destruct m as [a|f]; [by apply H|done]. Qed.

Lemma assert_true b : b = true -> assert_ b = Ok tt.
Proof. intros ->. reflexivity. Qed.

Lemma assert_decide P `{Decision P} : P -> assert_ (bool_decide P) = Ok tt.
Proof. intros HP. by apply assert_true, bool_decide_eq_true. Qed.

Lemma assert_decide_not P `{Decision P} : ~ P -> assert_ (bool_decide P) = Err AssertFailure.
Proof. intros HP. unfold assert_. by rewrite bool_decide_false. Qed.

Lemma assert_ok_inv b u : assert_ b = Ok u -> b = true.
Proof. by destruct b. Qed.

Lemma defined_true b : b = true -> defined_ b = Ok tt.
Proof. intros ->. reflexivity. Qed.

Lemma defined_ok_inv b u : defined_ b = Ok u -> b = true.
Proof. by destruct b. Qed.

(** ** Tactics *)

(** Decide the boolean comparisons of a goal with [lia]. *)
Ltac zbool :=
  repeat match goal with
  | |- (_ && _)%bool = true => apply andb_true_intro; split
  | |- (_ <=? _) = true => apply Z.leb_le
  | |- (_ <? _) = true => apply Z.ltb_lt
  | |- (_ =? _) = true => apply Z.eqb_eq
  | |- (_ <=? _) = false => apply Z.leb_gt
  | |- (_ <? _) = false => apply Z.ltb_ge
  | |- (_ =? _) = false => apply Z.eqb_neq
  end.

(** Discharge the next [assert_] or [defined_] of a goal. *)
Ltac step_assert :=
  match goal with
  | |- context [mbind ?k (assert_ ?c)] =>
      rewrite (assert_true c); [rewrite bind_ok | zbool; try lia]
  | |- context [mbind ?k (defined_ ?c)] =>
      rewrite (defined_true c); [rewrite bind_ok | zbool; try lia]
  end.

(** Open the hypotheses that say that a computation returned. *)
Ltac inv_ok :=
  repeat match goal with
  | H : (_ ≫= _) = Ok _ |- _ =>
      let a := fresh "a" in let E := fresh "E" in
      apply bind_ok_inv in H as (a & E & H)
  | H : Ok _ = Ok _ |- _ => injection H as H
  | H : Err _ = Ok _ |- _ => discriminate H
  | H : assert_ _ = Ok _ |- _ => apply assert_ok_inv in H
  | H : defined_ _ = Ok _ |- _ => apply defined_ok_inv in H
  end.

(** Two runs of one computation agree. *)
Ltac det_ok :=
  repeat match goal with
  | H1 : ?m = Ok ?x, H2 : ?m = Ok ?y |- _ =>
      assert (x = y) by congruence; clear H2; simplify_eq
  end.

(** Turn the boolean facts of the context into propositions. *)
Ltac zprop :=
  repeat match goal with
  | H : (_ && _)%bool = true |- _ => apply andb_prop in H as [? ?]
  | H : (_ <=? _) = true |- _ => apply Z.leb_le in H
  | H : (_ <? _) = true |- _ => apply Z.ltb_lt in H
  | H : (_ =? _) = true |- _ => apply Z.eqb_eq in H
  | H : (_ <=? _) = false |- _ => apply Z.leb_gt in H
  | H : (_ <? _) = false |- _ => apply Z.ltb_ge in H
  | H : (_ =? _) = false |- _ => apply Z.eqb_neq in H
  end.

(** Linear arithmetic with divisions and remainders, of both roundings. *)
Ltac div_lia := Z.to_euclidean_division_equations; lia.

(** Split on a boolean comparison and read the result as a proposition. *)
Ltac zcase b := let E := fresh "E" in destruct b eqn:E; zprop.

(** ** Lemmas on machine integers *)

Lemma wrapu_small w z : 0 <= z < 2 ^ w -> wrapu w z = z.
Proof. apply Z.mod_small. Qed.

Lemma wrapu_range w z : 0 <= w -> 0 <= wrapu w z < 2 ^ w.
Proof. intros Hw. apply Z.mod_pos_bound. lia. Qed.

Lemma wraps_small w z : 0 < w -> - 2 ^ (w - 1) <= z < 2 ^ (w - 1) -> wraps w z = z.
Proof.
  intros Hw Hz. unfold wraps.
  assert (2 ^ w = 2 * 2 ^ (w - 1)) by (rewrite <- Z.pow_succ_r by lia; f_equal; lia).
  rewrite Z.mod_small; lia.
Qed.

Lemma wraps_range w z : 0 < w -> - 2 ^ (w - 1) <= wraps w z < 2 ^ (w - 1).
Proof.
  intros Hw. unfold wraps.
  assert (2 ^ w = 2 * 2 ^ (w - 1)) by (rewrite <- Z.pow_succ_r by lia; f_equal; lia).
  pose proof (Z.mod_pos_bound (z + 2 ^ (w - 1)) (2 ^ w) ltac:(lia)). lia.
Qed.

(** Going through the unsigned type of the same width keeps a signed value. *)
Lemma wraps_wrapu w z : 0 < w -> wraps w (wrapu w z) = wraps w z.
Proof.
  intros Hw. unfold wraps, wrapu. rewrite Zplus_mod_idemp_l. reflexivity.
Qed.

Lemma in_s_iff w z : in_s w z = true <-> - 2 ^ (w - 1) <= z < 2 ^ (w - 1).
Proof. unfold in_s. rewrite andb_true_iff, Z.leb_le, Z.ltb_lt. lia. Qed.

Lemma no_overflow_ok w l :
  Forall (fun z => - 2 ^ (w - 1) <= z < 2 ^ (w - 1)) l -> no_overflow w l = Ok tt.
Proof.
  intros H. unfold no_overflow. apply defined_true, forallb_forall.
  intros z Hz. apply in_s_iff. rewrite Forall_forall in H.
  apply H. by apply list_elem_of_In.
Qed.

(** ** Lemmas on bytes *)

Lemma byte_val_range b : 0 <= byte_val b < 256.
Proof. unfold byte_val. pose proof (Byte.to_N_bounded b). lia. Qed.

Lemma byte_of_val b : byte_of (byte_val b) = b.
Proof.
  unfold byte_of. rewrite Z.mod_small by apply byte_val_range.
  unfold byte_val. rewrite N2Z.id, Byte.of_to_N. reflexivity.
Qed.

Lemma byte_val_of z : byte_val (byte_of z) = z mod 256.
Proof.
  unfold byte_of. pose proof (Z.mod_pos_bound z 256 ltac:(lia)) as Hz.
  destruct (Byte.of_N (Z.to_N (z mod 256))) as [b|] eqn:E; simpl.
  - apply Byte.to_of_N in E. unfold byte_val. rewrite E. lia.
  - apply Byte.of_N_None_iff in E. lia.
Qed.

(** ** Lemmas on lists indexed by machine integers *)

Lemma zlen_nonneg {A} (l : list A) : 0 <= zlen l.
Proof. unfold zlen. lia. Qed.

Lemma zlen_nil {A} : zlen (@nil A) = 0.
Proof. reflexivity. Qed.

Lemma zlen_cons {A} (a : A) l : zlen (a :: l) = 1 + zlen l.
Proof. unfold zlen. cbn [length]. lia. Qed.

Lemma concat_map_concat {A} (l : list (list (list A))) : concat (map (@concat A) l) = concat (concat l).
Proof. induction l as [|x l IH]; cbn; [done|]. by rewrite concat_app, IH. Qed.

Lemma zlen_app {A} (l k : list A) : zlen (l ++ k) = zlen l + zlen k.
Proof. unfold zlen. rewrite length_app. lia. Qed.

Lemma zlen_zreplicate {A} n (a : A) : zlen (zreplicate n a) = Z.max 0 n.
Proof. unfold zlen, zreplicate. rewrite length_replicate. lia. Qed.

Lemma zlen_ztake {A} n (l : list A) : zlen (ztake n l) = Z.max 0 (Z.min n (zlen l)).
Proof. unfold zlen, ztake. rewrite length_take. lia. Qed.

Lemma zlen_zdrop {A} n (l : list A) : zlen (zdrop n l) = zlen l - Z.max 0 (Z.min n (zlen l)).
Proof. unfold zlen, zdrop. rewrite length_drop. lia. Qed.

Create Rewrite HintDb zlen.
#[global] Hint Rewrite @zlen_nil @zlen_cons @zlen_app @zlen_zreplicate @zlen_ztake @zlen_zdrop : zlen.

(** Compute lengths, then decide. *)
Ltac zlen_lia :=
  autorewrite with zlen in *;
  repeat match goal with
  | l : list _ |- _ =>
      lazymatch goal with
      | H : 0 <= zlen l |- _ => fail
      | _ => pose proof (zlen_nonneg l)
      end
  end; lia.

Lemma zlen_zslice {A} i j (l : list A) :
  0 <= i <= j -> j <= zlen l -> zlen (zslice i j l) = j - i.
Proof. intros ? ?. unfold zslice. zlen_lia. Qed.

Lemma zlen_zwrite {A} i (d l : list A) :
  0 <= i -> i + zlen d <= zlen l -> zlen (zwrite i d l) = zlen l.
Proof. intros ? ?. unfold zwrite. zlen_lia. Qed.

Lemma zlen_zresize {A} (a : A) n l : 0 <= n -> zlen (zresize a n l) = n.
Proof. intros ?. unfold zresize. zlen_lia. Qed.

Lemma ztake_ztake {A} n m (l : list A) : ztake n (ztake m l) = ztake (Z.min n m) l.
Proof. unfold ztake. rewrite take_take. f_equal. lia. Qed.

Lemma zdrop_zdrop {A} n m (l : list A) : 0 <= n -> 0 <= m -> zdrop n (zdrop m l) = zdrop (m + n) l.
Proof. intros ? ?. unfold zdrop. rewrite drop_drop. f_equal. lia. Qed.

Lemma ztake_all {A} n (l : list A) : zlen l <= n -> ztake n l = l.
Proof. intros H. apply take_ge. unfold zlen in H. lia. Qed.

Lemma zdrop_all {A} n (l : list A) : zlen l <= n -> zdrop n l = [].
Proof. intros H. apply drop_ge. unfold zlen in H. lia. Qed.

Lemma ztake_nonpos {A} n (l : list A) : n <= 0 -> ztake n l = [].
Proof. intros H. unfold ztake. replace (Z.to_nat n) with 0%nat by lia. reflexivity. Qed.

Lemma zdrop_nonpos {A} n (l : list A) : n <= 0 -> zdrop n l = l.
Proof. intros H. unfold zdrop. replace (Z.to_nat n) with 0%nat by lia. reflexivity. Qed.

Lemma ztake_zdrop {A} n (l : list A) : ztake n l ++ zdrop n l = l.
Proof. apply take_drop. Qed.

Lemma ztake_app_le {A} n (l k : list A) : n <= zlen l -> ztake n (l ++ k) = ztake n l.
Proof. intros H. unfold ztake, zlen in *. apply take_app_le. lia. Qed.

Lemma ztake_app_ge {A} n (l k : list A) :
  zlen l <= n -> ztake n (l ++ k) = l ++ ztake (n - zlen l) k.
Proof.
  intros H. unfold ztake, zlen in *. rewrite take_app_ge by lia. do 2 f_equal. lia.
Qed.

Lemma zdrop_app_le {A} n (l k : list A) : n <= zlen l -> zdrop n (l ++ k) = zdrop n l ++ k.
Proof. intros H. unfold zdrop, zlen in *. apply drop_app_le. lia. Qed.

Lemma zdrop_app_ge {A} n (l k : list A) : zlen l <= n -> zdrop n (l ++ k) = zdrop (n - zlen l) k.
Proof. intros H. unfold zdrop, zlen in *. rewrite drop_app_ge by lia. f_equal. lia. Qed.

Lemma ztake_zdrop_comm {A} n m (l : list A) :
  0 <= n -> 0 <= m -> ztake n (zdrop m l) = zdrop m (ztake (m + n) l).
Proof.
  intros ? ?. unfold ztake, zdrop.
  rewrite take_drop_commute. do 2 f_equal. lia.
Qed.

(** ** Slices *)

Lemma zslice_nil {A} i j (l : list A) : j <= i -> zslice i j l = [].
Proof. intros. unfold zslice. by rewrite ztake_nonpos by lia. Qed.

Lemma zslice_full {A} (l : list A) : zslice 0 (zlen l) l = l.
Proof. unfold zslice. rewrite zdrop_nonpos, ztake_all by lia. reflexivity. Qed.

Lemma zslice_split {A} i k j (l : list A) :
  0 <= i <= k -> k <= j -> j <= zlen l -> zslice i j l = zslice i k l ++ zslice k j l.
Proof.
  intros ? ? ?. unfold zslice.
  rewrite <- (ztake_zdrop (k - i) (ztake (j - i) (zdrop i l))) at 1.
  rewrite ztake_ztake, Z.min_l by lia. f_equal.
  replace (j - i) with ((k - i) + (j - k)) by lia.
  rewrite <- ztake_zdrop_comm by lia. rewrite zdrop_zdrop by lia.
  do 2 f_equal. lia.
Qed.

(** A slice inside a written block, before it, and after it. *)
Lemma zslice_zwrite_inside {A} i d (l : list A) :
  0 <= i -> i + zlen d <= zlen l -> zslice i (i + zlen d) (zwrite i d l) = d.
Proof.
  intros ? ?. unfold zslice, zwrite.
  rewrite zdrop_app_ge by zlen_lia.
  replace (i - zlen (ztake i l)) with 0 by zlen_lia. rewrite zdrop_nonpos by lia.
  rewrite ztake_app_le by lia. apply ztake_all. lia.
Qed.

Lemma zslice_zwrite_before {A} i j k d (l : list A) :
  0 <= i -> j <= k -> 0 <= k -> k + zlen d <= zlen l ->
  zslice i j (zwrite k d l) = zslice i j l.
Proof.
  intros ? ? ? ?. destruct (decide (i <= j)); [|by rewrite !zslice_nil by lia].
  unfold zslice, zwrite. rewrite <- (ztake_zdrop k l) at 3.
  rewrite !zdrop_app_le by zlen_lia. rewrite !ztake_app_le by zlen_lia. reflexivity.
Qed.

Lemma zslice_zwrite_after {A} i j k d (l : list A) :
  0 <= k -> k + zlen d <= i -> k + zlen d <= zlen l ->
  zslice i j (zwrite k d l) = zslice i j l.
Proof.
  intros ? ? ?. unfold zslice, zwrite.
  rewrite zdrop_app_ge by zlen_lia. rewrite zdrop_app_ge by zlen_lia.
  rewrite zdrop_zdrop by zlen_lia. do 2 f_equal. zlen_lia.
Qed.

Lemma zslice_zresize {A} (a : A) i j n l :
  0 <= i -> j <= n -> j <= zlen l -> zslice i j (zresize a n l) = zslice i j l.
Proof.
  intros ? ? ?. destruct (decide (i <= j)); [|by rewrite !zslice_nil by lia].
  unfold zslice, zresize. rewrite <- (ztake_zdrop n l) at 3.
  rewrite !zdrop_app_le by zlen_lia. rewrite !ztake_app_le by zlen_lia. reflexivity.
Qed.

(** A slice of a slice. *)
Lemma ztake_zslice {A} n i j (l : list A) :
  0 <= n <= j - i -> ztake n (zslice i j l) = zslice i (i + n) l.
Proof.
  intros. unfold zslice. rewrite ztake_ztake. f_equal. lia.
Qed.

Lemma zdrop_zslice {A} n i j (l : list A) :
  0 <= i -> 0 <= n <= j - i -> zdrop n (zslice i j l) = zslice (i + n) j l.
Proof.
  intros ? ?. unfold zslice.
  replace (j - i) with (n + (j - (i + n))) by lia.
  rewrite <- ztake_zdrop_comm by lia. by rewrite zdrop_zdrop by lia.
Qed.

(** ** Reachability *)

(** A property that every step preserves holds in every reachable state. *)
Lemma rtc_invariant {S} (R : relation S) (I : S -> Prop) x y :
  (forall s t, I s -> R s t -> I t) -> rtc R x y -> I x -> I y.
Proof. intros HR. induction 1; eauto. Qed.
