(* ===== verification/Endian.v ===== *)
(** * Byte order (src/net/include/Endian.h)

    The in-memory image of an integer on the little-endian hosts the library
    is built for, and the six conversions between host and network order. *)

From S2P Require Import Prelude.

(** The object representation of an [n]-byte integer, and its value. *)
Fixpoint le_bytes (n : nat) (z : Z) : list byte :=
  match n with
  | O => []
  | S n' => byte_of z :: le_bytes n' (z / 256)
  end.

Fixpoint le_value (l : list byte) : Z :=
  match l with
  | [] => 0
  | b :: l' => byte_val b + 256 * le_value l'
  end.

(** Network order. *)
Definition be_bytes (n : nat) (z : Z) : list byte := rev (le_bytes n z).
Definition be_value (l : list byte) : Z := le_value (rev l).

(** [htobe64] and its family reverse the bytes of the representation. *)
Definition bswap (n : nat) (z : Z) : Z := le_value (rev (le_bytes n z)).

Definition hostToNetwork64 (host64 : Z) : Z := bswap 8 host64.
Definition hostToNetwork32 (host32 : Z) : Z := bswap 4 host32.
Definition hostToNetwork16 (host16 : Z) : Z := bswap 2 host16.
Definition networkToHost64 (net64 : Z) : Z := bswap 8 net64.
Definition networkToHost32 (net32 : Z) : Z := bswap 4 net32.
Definition networkToHost16 (net16 : Z) : Z := bswap 2 net16.

(** ** Lemmas *)

Lemma length_le_bytes n z : length (le_bytes n z) = n.
Proof. revert z. induction n; intros; simpl; auto. Qed.

Lemma zlen_le_bytes n z : zlen (le_bytes n z) = Z.of_nat n.
Proof. unfold zlen. by rewrite length_le_bytes. Qed.

Lemma zlen_be_bytes n z : zlen (be_bytes n z) = Z.of_nat n.
Proof. unfold zlen, be_bytes. by rewrite length_rev, length_le_bytes. Qed.

Lemma pow256_S n : 256 ^ Z.of_nat (S n) = 256 * 256 ^ Z.of_nat n.
Proof. rewrite Nat2Z.inj_succ, Z.pow_succ_r; lia. Qed.

Lemma le_value_range l : 0 <= le_value l < 256 ^ zlen l.
Proof.
  unfold zlen. induction l as [|b l IH]; [simpl; lia|].
  cbn [length le_value]. rewrite pow256_S. pose proof (byte_val_range b). lia.
Qed.

Lemma le_value_bytes n z : le_value (le_bytes n z) = z mod 256 ^ Z.of_nat n.
Proof.
  revert z. induction n as [|n IH]; intros z; [simpl; by rewrite Z.mod_1_r|].
  cbn [le_bytes le_value]. rewrite IH, byte_val_of, pow256_S.
  rewrite Z.rem_mul_r by lia. reflexivity.
Qed.

Lemma le_bytes_value l : le_bytes (length l) (le_value l) = l.
Proof.
  induction l as [|b l IH]; [reflexivity|].
  cbn [length le_bytes le_value]. pose proof (byte_val_range b). f_equal.
  - rewrite <- (byte_of_val b) at 2. unfold byte_of.
    replace (byte_val b + 256 * le_value l) with (byte_val b + le_value l * 256) by lia.
    by rewrite Z_mod_plus_full.
  - replace (byte_val b + 256 * le_value l) with (le_value l * 256 + byte_val b) by lia.
    rewrite Z.div_add_l, (Z.div_small (byte_val b)), Z.add_0_r by lia. apply IH.
Qed.

Lemma le_bytes_bswap n z : le_bytes n (bswap n z) = be_bytes n z.
Proof.
  unfold bswap, be_bytes.
  rewrite <- (length_le_bytes n z) at 1. rewrite <- length_rev.
  apply le_bytes_value.
Qed.

Lemma bswap_range n z : 0 <= bswap n z < 256 ^ Z.of_nat n.
Proof.
  unfold bswap. pose proof (le_value_range (rev (le_bytes n z))) as H.
  unfold zlen in H. by rewrite length_rev, length_le_bytes in H.
Qed.

Lemma bswap_bswap n z : bswap n (bswap n z) = z mod 256 ^ Z.of_nat n.
Proof.
  unfold bswap at 1. rewrite le_bytes_bswap. unfold be_bytes.
  rewrite rev_involutive. apply le_value_bytes.
Qed.

Lemma le_bytes_mod n z : le_bytes n (z mod 256 ^ Z.of_nat n) = le_bytes n z.
Proof.
  rewrite <- le_value_bytes. rewrite <- (length_le_bytes n z) at 1. apply le_bytes_value.
Qed.

Lemma be_bytes_mod n z : be_bytes n (z mod 256 ^ Z.of_nat n) = be_bytes n z.
Proof. unfold be_bytes. by rewrite le_bytes_mod. Qed.

(** ** Signed integers in network order *)

Lemma pow2_bytes n : 2 ^ (8 * Z.of_nat n) = 256 ^ Z.of_nat n.
Proof. rewrite Z.pow_mul_r by lia. reflexivity. Qed.

Lemma le_bytes_wrap n z : (0 < n)%nat -> le_bytes n (wraps (8 * Z.of_nat n) z) = le_bytes n z.
Proof.
  intros Hn. rewrite <- (le_bytes_mod n z), <- (le_bytes_mod n (wraps _ _)). f_equal.
  unfold wraps. rewrite <- pow2_bytes.
  rewrite Zminus_mod_idemp_l. f_equal. lia.
Qed.

(** What is written. *)
Lemma int_image n x :
  (0 < n)%nat ->
  le_bytes n (wraps (8 * Z.of_nat n) (bswap n (wrapu (8 * Z.of_nat n) x))) = be_bytes n x.
Proof.
  intros Hn. rewrite le_bytes_wrap, le_bytes_bswap by done.
  unfold wrapu. rewrite pow2_bytes. apply be_bytes_mod.
Qed.

(** What is read back. *)
Lemma int_decode n x :
  (0 < n)%nat ->
  let w := 8 * Z.of_nat n in
  wraps w (bswap n (wrapu w (wraps w (le_value (be_bytes n x))))) = wraps w x.
Proof.
  intros Hn w. subst w. set (w := 8 * Z.of_nat n).
  change (le_value (be_bytes n x)) with (bswap n x).
  assert (wrapu w (wraps w (bswap n x)) = bswap n x) as ->.
  { unfold wrapu, wraps. rewrite Zminus_mod_idemp_l.
    replace (bswap n x + 2 ^ (w - 1) - 2 ^ (w - 1)) with (bswap n x) by lia.
    apply Z.mod_small. unfold w. rewrite pow2_bytes. apply bswap_range. }
  rewrite bswap_bswap. unfold w. rewrite <- pow2_bytes. apply wraps_wrapu. lia.
Qed.
