(* ===== verification/Text.v ===== *)
(** * Text produced by the C++ standard library

    The conversions of [snprintf] and of [operator<<] on integers that the
    sources use: [%d], [%0Nd], [%Nd], [%u], and reading decimals back. *)

From S2P Require Import Prelude.

Module Text.

(** The character of a decimal digit. *)
Definition digit (n : Z) : byte := byte_of (48 + n).

(** The decimal digits of a non-negative number. *)
Fixpoint udec (fuel : nat) (n : Z) : list byte :=
  match fuel with
  | O => []
  | S f => if n <? 10 then [digit n] else udec f (n / 10) ++ [digit (n mod 10)]
  end.

(** Enough fuel: a number has at most as many decimal as binary digits. *)
Definition dec_fuel (n : Z) : nat := S (Z.to_nat (Z.log2 n)).

(** [%d], [%ld], [%u]. *)
Definition decimal (z : Z) : list byte :=
  if z <? 0 then Byte.x2d :: udec (dec_fuel (- z)) (- z) else udec (dec_fuel z) z.

(** [%0wd]: zeros between the sign and the digits. *)
Definition decimal0 (w : Z) (z : Z) : list byte :=
  let sign := if z <? 0 then [Byte.x2d] else [] in
  let d := udec (dec_fuel (Z.abs z)) (Z.abs z) in
  sign ++ zreplicate (w - zlen sign - zlen d) Byte.x30 ++ d.

(** [%wd]: spaces in front. *)
Definition decimal_sp (w : Z) (z : Z) : list byte :=
  zreplicate (w - zlen (decimal z)) Byte.x20 ++ decimal z.

(** [snprintf(buf, size, ...)] keeps [size - 1] characters of the text. *)
Definition snprintf (size : Z) (text : list byte) : list byte := ztake (size - 1) text.

(** Value of a text of decimal digits, as [atoi] reads it. *)
Fixpoint digits_value (acc : Z) (l : list byte) : Z :=
  match l with
  | [] => acc
  | b :: l' => digits_value (10 * acc + (byte_val b - 48)) l'
  end.

Definition decimal_value (l : list byte) : Z :=
  match l with
  | b :: l' => if bool_decide (b = Byte.x2d) then - digits_value 0 l' else digits_value 0 l
  | [] => 0
  end.

(** ** Lemmas *)

Lemma digit_val n : 0 <= n < 10 -> byte_val (digit n) = 48 + n.
Proof. intros. unfold digit. rewrite byte_val_of. apply Z.mod_small. lia. Qed.

Lemma digits_value_app acc l k : digits_value acc (l ++ k) = digits_value (digits_value acc l) k.
Proof. revert acc. induction l; intros; simpl; auto. Qed.

(** Fuel suffices when the number has at most that many digits. *)
Lemma udec_value fuel n :
  0 <= n < 10 ^ Z.of_nat fuel -> (0 < fuel)%nat -> digits_value 0 (udec fuel n) = n.
Proof.
  revert n. induction fuel as [|f IH]; intros n Hn Hf; [lia|].
  cbn [udec]. rewrite Nat2Z.inj_succ, Z.pow_succ_r in Hn by lia.
  zcase (n <? 10).
  - cbn [digits_value]. rewrite digit_val; lia.
  - rewrite digits_value_app. destruct f as [|f']; [simpl in Hn; lia|].
    pose proof (Z.mod_pos_bound n 10 ltac:(lia)).
    rewrite IH; [|split; [apply Z.div_pos; lia|apply Z.div_lt_upper_bound; lia]|lia].
    cbn [digits_value]. rewrite digit_val by lia.
    rewrite (Z.div_mod n 10) at 3 by lia. lia.
Qed.

Lemma dec_fuel_enough n : 0 <= n -> n < 10 ^ Z.of_nat (dec_fuel n).
Proof.
  intros Hn. destruct (decide (n = 0)) as [->|]; [done|]. unfold dec_fuel.
  rewrite Nat2Z.inj_succ, Z2Nat.id by apply Z.log2_nonneg.
  pose proof (Z.log2_spec n ltac:(lia)) as [_ H].
  eapply Z.lt_le_trans; [exact H|]. apply Z.pow_le_mono_l. lia.
Qed.

Lemma udec_dec_fuel n : 0 <= n -> digits_value 0 (udec (dec_fuel n) n) = n.
Proof. intros. apply udec_value; [|unfold dec_fuel; lia]. split; [done|by apply dec_fuel_enough]. Qed.

Lemma udec_fuel_irrelevant f g n :
  0 <= n < 10 ^ Z.of_nat f -> 0 <= n < 10 ^ Z.of_nat g -> (0 < f)%nat -> (0 < g)%nat ->
  udec f n = udec g n.
Proof.
  revert g n. induction f as [|f IH]; intros g n Hf Hg ? ?; [lia|].
  destruct g as [|g]; [lia|]. cbn [udec].
  rewrite Nat2Z.inj_succ, Z.pow_succ_r in Hf, Hg by lia.
  zcase (n <? 10); [done|]. f_equal.
  destruct f as [|f]; [simpl in Hf; lia|]. destruct g as [|g]; [simpl in Hg; lia|].
  assert (0 <= n / 10) by (apply Z.div_pos; lia).
  apply IH; [split; [done|apply Z.div_lt_upper_bound; lia]..|lia|lia].
Qed.

Lemma udec_head_digit f n : (0 < f)%nat -> 0 <= n -> exists d l, udec f n = digit d :: l /\ 0 <= d < 10.
Proof.
  revert n. induction f as [|f IH]; intros n Hf Hn; [lia|]. cbn [udec].
  zcase (n <? 10); [by exists n, []; split; [|lia]|].
  destruct f as [|f].
  - exists (n mod 10), []. split; [done|]. apply Z.mod_pos_bound. lia.
  - destruct (IH (n / 10)) as (d & l & -> & ?); [lia|apply Z.div_pos; lia|].
    by exists d, (l ++ [digit (n mod 10)]).
Qed.

Lemma digit_not_minus d : 0 <= d < 10 -> digit d <> Byte.x2d.
Proof. intros Hd E. apply (f_equal byte_val) in E. rewrite digit_val in E by done. change (byte_val Byte.x2d) with 45 in E. lia. Qed.

Lemma decimal_value_decimal z : decimal_value (decimal z) = z.
Proof.
  unfold decimal. zcase (z <? 0).
  - cbn [decimal_value]. rewrite bool_decide_true by done. rewrite udec_dec_fuel; lia.
  - destruct (udec_head_digit (dec_fuel z) z) as (d & l & Hd & ?); [unfold dec_fuel; lia|done|].
    transitivity (digits_value 0 (udec (dec_fuel z) z)); [|by apply udec_dec_fuel].
    rewrite Hd. unfold decimal_value.
    rewrite bool_decide_false; [done|]. by apply digit_not_minus.
Qed.

Lemma length_udec f n k :
  0 <= n < 10 ^ Z.of_nat k -> (0 < k)%nat -> (length (udec f n) <= k)%nat.
Proof.
  revert n k. induction f as [|f IH]; intros n k Hn Hk; [simpl; lia|]. cbn [udec].
  zcase (n <? 10); [simpl; lia|]. rewrite length_app. simpl.
  destruct k as [|k]; [lia|]. rewrite Nat2Z.inj_succ, Z.pow_succ_r in Hn by lia.
  destruct k as [|k]; [simpl in Hn; lia|].
  enough (length (udec f (n / 10)) <= S k)%nat by lia. apply IH; [|lia].
  split; [apply Z.div_pos; lia | apply Z.div_lt_upper_bound; lia].
Qed.

(** A number below [10 ^ k] has at most [k] digits. *)
Lemma zlen_decimal_le n k : 0 <= n < 10 ^ Z.of_nat k -> (0 < k)%nat -> zlen (decimal n) <= Z.of_nat k.
Proof.
  intros Hn Hk. unfold decimal. zcase (n <? 0); [lia|].
  pose proof (length_udec (dec_fuel n) n k Hn Hk). unfold zlen. lia.
Qed.

Lemma udec_not f n c : 0 <= n -> byte_val c < 48 -> c ∉ udec f n.
Proof.
  intros Hn Hc. revert n Hn. induction f as [|f IH]; intros n Hn; cbn [udec]; [by apply not_elem_of_nil|].
  assert (forall m, 0 <= m < 10 -> c <> digit m) as Hd.
  { intros m Hm ->. rewrite digit_val in Hc; lia. }
  zcase (n <? 10); [|rewrite not_elem_of_app; split; [apply IH, Z.div_pos; lia|]];
    rewrite list_elem_of_singleton; apply Hd; [lia|apply Z.mod_pos_bound; lia].
Qed.

(** A fixed-width field of digits. *)
Lemma decimal0_width w n k :
  0 <= n < 10 ^ Z.of_nat k -> (0 < k)%nat -> w = Z.of_nat k -> zlen (decimal0 w n) = w.
Proof.
  intros Hn Hk ->. unfold decimal0. zcase (n <? 0); [lia|]. rewrite Z.abs_eq by lia.
  pose proof (length_udec (dec_fuel n) n k Hn Hk). unfold zlen at 1.
  autorewrite with zlen. cbn [app]. rewrite !length_app. unfold zreplicate.
  rewrite length_replicate. unfold zlen. cbn [length]. lia.
Qed.

Lemma zlen_decimal0_le w n k :
  0 <= n < 10 ^ Z.of_nat k -> (0 < k)%nat -> zlen (decimal0 w n) <= Z.max w (Z.of_nat k).
Proof.
  intros Hn Hk. unfold decimal0. zcase (n <? 0); [lia|]. rewrite Z.abs_eq by lia.
  pose proof (length_udec (dec_fuel n) n k Hn Hk). autorewrite with zlen. unfold zlen. cbn [length]. lia.
Qed.

Lemma decimal0_value w n : 0 <= n -> digits_value 0 (decimal0 w n) = n.
Proof.
  intros Hn. unfold decimal0. zcase (n <? 0); [lia|]. rewrite Z.abs_eq by lia. cbn [app].
  rewrite digits_value_app. transitivity (digits_value 0 (udec (dec_fuel n) n)); [|by apply udec_dec_fuel].
  f_equal. unfold zreplicate. generalize (Z.to_nat (w - zlen (@nil byte) - zlen (udec (dec_fuel n) n))).
  intros k. induction k as [|k IH]; [done|]. exact IH.
Qed.

End Text.
