(* ===== verification/Printf.v ===== *)
(** * Floating-point conversions of [snprintf]

    [%.pf] and [%.Pg] of the C library on exact binary floating-point values, as
    LogStream.cc uses them: the value [m * 2^e] is scaled in integers and rounded
    to nearest, ties to even. *)

From Stdlib Require Import SpecFloat.
From S2P Require Import Prelude Text.

Module Printf.

(** [num / den] rounded to nearest, ties to even. *)
Definition round_div (num den : Z) : Z :=
  let q := num / den in
  let r := num mod den in
  if 2 * r <? den then q
  else if den <? 2 * r then q + 1
  else if Z.even q then q else q + 1.

(** [m * 2^e] as a fraction. *)
Definition numerator (m : positive) (e : Z) : Z := Z.pos m * 2 ^ Z.max e 0.
Definition denominator (e : Z) : Z := 2 ^ Z.max (- e) 0.

Definition signed (s : bool) (text : list byte) : list byte :=
  if s then Byte.x2d :: text else text.

(** ** [%.pf] *)

Definition fixed (p num den : Z) : list byte :=
  let d := round_div (num * 10 ^ p) den in
  Text.decimal (d / 10 ^ p) ++
  (if p =? 0 then [] else bytes_of "." ++ Text.decimal0 p (d mod 10 ^ p)).

Definition format_f (p : Z) (d : spec_float) : list byte :=
  match d with
  | S754_zero s => signed s (fixed p 0 1)
  | S754_infinity s => signed s (bytes_of "inf")
  | S754_nan => bytes_of "nan"
  | S754_finite s m e => signed s (fixed p (numerator m e) (denominator e))
  end.

(** ** [%.Pg] *)

(** [num / den = 10^x * num' / den'] with [1 <= num' / den' < 10]. *)
Fixpoint scale (fuel : nat) (num den x : Z) : Z * Z * Z :=
  match fuel with
  | O => (num, den, x)
  | S f =>
      if 10 * den <=? num then scale f num (10 * den) (x + 1)
      else if num <? den then scale f (10 * num) den (x - 1)
      else (num, den, x)
  end.

Definition scale_fuel (num den : Z) : nat := S (Z.to_nat (Z.log2 num + Z.log2 den)).

(** The [p] significant digits, and the decimal exponent of the first. *)
Definition significant (p num den : Z) : Z * Z :=
  let '(n, d, x) := scale (scale_fuel num den) num den 0 in
  let digits := round_div (n * 10 ^ (p - 1)) d in
  if digits =? 10 ^ p then (10 ^ (p - 1), x + 1) else (digits, x).

(** Without trailing zeros, and with the point if something is left. *)
Fixpoint strip_zeros (l : list byte) : list byte :=
  match l with
  | [] => []
  | b :: l' =>
      match strip_zeros l' with
      | [] => if bool_decide (b = Byte.x30) then [] else [b]
      | k => b :: k
      end
  end.
Definition fraction (l : list byte) : list byte :=
  match strip_zeros l with [] => [] | k => Byte.x2e :: k end.

Definition general (p num den : Z) : list byte :=
  let '(digits, x) := significant p num den in
  let text := Text.decimal0 p digits in
  if (-4 <=? x) && (x <? p) then
    if x <? 0 then Byte.x30 :: fraction (zreplicate (- x - 1) Byte.x30 ++ text)
    else ztake (x + 1) text ++ fraction (zdrop (x + 1) text)
  else
    ztake 1 text ++ fraction (zdrop 1 text) ++
    (if x <? 0 then bytes_of "e-" else bytes_of "e+") ++ Text.decimal0 2 (Z.abs x).

Definition format_g (p : Z) (d : spec_float) : list byte :=
  match d with
  | S754_zero s => signed s (bytes_of "0")
  | S754_infinity s => signed s (bytes_of "inf")
  | S754_nan => bytes_of "nan"
  | S754_finite s m e => signed s (general p (numerator m e) (denominator e))
  end.

(** ** Lemmas *)

Lemma round_div_bounds lo hi num den :
  0 < den -> lo * den <= num <= hi * den -> lo <= round_div num den <= hi.
Proof.
  intros Hd Hn. unfold round_div. pose proof (Z.div_mod num den ltac:(lia)).
  pose proof (Z.mod_pos_bound num den Hd).
  assert (lo <= num / den) by (apply Z.div_le_lower_bound; lia).
  destruct (decide (num / den < hi)); [repeat case_match; lia|].
  assert (num / den <= hi) by (apply Z.div_le_upper_bound; lia).
  assert (num mod den = 0) as -> by nia.
  zcase (2 * 0 <? den); lia.
Qed.

(** Rounding is monotone. *)
Lemma round_div_mono a b den : 0 < den -> a <= b -> round_div a den <= round_div b den.
Proof.
  intros Hd Hab. unfold round_div.
  pose proof (Z.div_mod a den ltac:(lia)). pose proof (Z.mod_pos_bound a den Hd).
  pose proof (Z.div_mod b den ltac:(lia)). pose proof (Z.mod_pos_bound b den Hd).
  pose proof (Z.div_le_mono a b den Hd Hab).
  destruct (decide (a / den = b / den)) as [E|]; [|repeat case_match; lia].
  rewrite E in *. assert (a mod den <= b mod den) by lia. repeat case_match; zprop; lia.
Qed.

Lemma scale_spec fuel num den x n d x' :
  0 < den -> 0 < num ->
  (den <= num < den * 10 ^ Z.of_nat (S fuel)) \/ (num < den <= num * 10 ^ Z.of_nat fuel) ->
  scale fuel num den x = (n, d, x') ->
  0 < d /\ d <= n < 10 * d /\ Z.abs (x' - x) <= Z.of_nat fuel.
Proof.
  revert num den x. induction fuel as [|f IH]; intros num den x Hd Hn Hb E; cbn [scale] in E.
  - injection E as <- <- <-. change (10 ^ Z.of_nat 0) with 1 in Hb. change (10 ^ Z.of_nat 1) with 10 in Hb. lia.
  - rewrite !Nat2Z.inj_succ, !Z.pow_succ_r in Hb by lia. rewrite Nat2Z.inj_succ.
    assert (0 < 10 ^ Z.of_nat f) by (apply Z.pow_pos_nonneg; lia).
    zcase (10 * den <=? num).
    + apply IH in E as (? & ? & ?); [lia|lia|lia|].
      left. rewrite Nat2Z.inj_succ, Z.pow_succ_r by lia. nia.
    + zcase (num <? den); [|injection E as <- <- <-; lia].
      apply IH in E as (? & ? & ?); [lia|lia|lia|].
      rewrite Nat2Z.inj_succ, Z.pow_succ_r by lia.
      destruct (decide (den <= 10 * num)); [left; nia|right; nia].
Qed.

Lemma scale_fuel_enough num den : 0 < num -> 0 < den ->
  (den <= num < den * 10 ^ Z.of_nat (S (scale_fuel num den))) \/
  (num < den <= num * 10 ^ Z.of_nat (scale_fuel num den)).
Proof.
  intros Hn Hd. unfold scale_fuel.
  pose proof (Z.log2_nonneg num). pose proof (Z.log2_nonneg den).
  pose proof (Z.log2_spec num Hn) as [_ Un]. pose proof (Z.log2_spec den Hd) as [_ Ud].
  rewrite !Nat2Z.inj_succ, Z2Nat.id by lia. set (k := Z.log2 num + Z.log2 den).
  assert (2 ^ Z.succ (Z.log2 num) <= 10 ^ Z.succ k) as H1.
  { transitivity (2 ^ Z.succ k); [apply Z.pow_le_mono_r; lia|apply Z.pow_le_mono_l; lia]. }
  assert (2 ^ Z.succ (Z.log2 den) <= 10 ^ Z.succ k) as H2.
  { transitivity (2 ^ Z.succ k); [apply Z.pow_le_mono_r; lia|apply Z.pow_le_mono_l; lia]. }
  rewrite (Z.pow_succ_r 10 (Z.succ k)) by lia.
  destruct (decide (den <= num)); [left|right]; nia.
Qed.

Lemma significant_spec p num den digits x :
  0 < p -> 0 < num -> 0 < den -> significant p num den = (digits, x) ->
  0 <= digits < 10 ^ p /\ Z.abs x <= Z.of_nat (scale_fuel num den) + 1.
Proof.
  intros Hp Hn Hd. unfold significant. destruct (scale _ _ _ _) as [[n d] x'] eqn:E.
  apply scale_spec in E as (Hd' & Hr & Hx); [|done|done|by apply scale_fuel_enough].
  assert (10 ^ p = 10 * 10 ^ (p - 1)) as Ep by (rewrite <- Z.pow_succ_r by lia; f_equal; lia).
  assert (0 < 10 ^ (p - 1)) by (apply Z.pow_pos_nonneg; lia).
  pose proof (round_div_bounds (10 ^ (p - 1)) (10 ^ p) (n * 10 ^ (p - 1)) d Hd' ltac:(nia)).
  zcase (round_div (n * 10 ^ (p - 1)) d =? 10 ^ p); intros [= <- <-]; lia.
Qed.

Lemma strip_zeros_length l : (length (strip_zeros l) <= length l)%nat.
Proof.
  induction l as [|b l IH]; [done|]. cbn. destruct (strip_zeros l); [|cbn in *; lia].
  case_match; cbn; lia.
Qed.

Lemma zlen_fraction l : zlen (fraction l) <= 1 + zlen l.
Proof.
  unfold fraction. pose proof (strip_zeros_length l). unfold zlen.
  destruct (strip_zeros l); cbn in *; lia.
Qed.

Lemma zlen_general p num den k :
  0 < p -> 0 < num -> 0 < den -> (2 <= k)%nat ->
  Z.of_nat (scale_fuel num den) + 1 < 10 ^ Z.of_nat k ->
  zlen (general p num den) <= p + 3 + Z.max 3 (Z.of_nat k).
Proof.
  intros Hp Hn Hd Hk Hf. unfold general. destruct (significant p num den) as [digits x] eqn:E.
  apply significant_spec in E as [Hdig Hx]; [|done..].
  set (text := Text.decimal0 p digits).
  assert (zlen text = p) as Hlen.
  { apply (Text.decimal0_width p digits (Z.to_nat p)); rewrite ?Z2Nat.id by lia; lia. }
  pose proof (zlen_fraction (zreplicate (- x - 1) Byte.x30 ++ text)).
  pose proof (zlen_fraction (zdrop (x + 1) text)). pose proof (zlen_fraction (zdrop 1 text)).
  zcase (-4 <=? x); zcase (x <? p); cbn [andb]; zcase (x <? 0); autorewrite with zlen in *; try lia;
    change (zlen (bytes_of "e-")) with 2;
    change (zlen (bytes_of "e+")) with 2; pose proof (Text.zlen_decimal0_le 2 (Z.abs x) k); lia.
Qed.

End Printf.
