(* ===== verification/NetBuffer.v ===== *)
(** * The network buffer (src/net/include/Buffer.h, src/net/src/Buffer.cc)

    Module [Buffer] holds the class: a [std::vector<char>] with a reader and a
    writer index, its operations with their assertions, the well-formedness
    invariant, and the refinement of a plain queue of bytes. *)

From S2P Require Import Prelude Endian.

Module Buffer.

Record Buffer := mkBuffer {
  buffer_ : list byte;
  readerIndex_ : Z;
  writerIndex_ : Z
}.

Definition kCheapPrepend : Z := 8.
Definition kInitialSize : Z := 1024.

(** [Buffer::kCRLF]. *)
Definition kCRLF : list byte := [Byte.x0d; Byte.x0a].

(** Arithmetic on [std::size_t] wraps around at 64 bits. *)
Definition size_t (z : Z) : Z := wrapu 64 z.

(** [std::vector<char>::max_size()]: growing beyond it throws. *)
Definition max_size : Z := 2 ^ 63 - 1.
Definition check_length (n : Z) : result unit :=
  if n <=? max_size then Ok tt else Err (Exception "std::length_error").

(** ** Observers *)

Definition readableBytes (b : Buffer) : Z := size_t (writerIndex_ b - readerIndex_ b).
Definition writableBytes (b : Buffer) : Z := size_t (zlen (buffer_ b) - writerIndex_ b).
Definition prependableBytes (b : Buffer) : Z := readerIndex_ b.

(** The characters from [peek()] on, [len] of them. *)
Definition peek_bytes (b : Buffer) (len : Z) : list byte :=
  zslice (readerIndex_ b) (readerIndex_ b + len) (buffer_ b).

(** The bytes between [peek()] and [beginWrite()]. *)
Definition content (b : Buffer) : list byte :=
  zslice (readerIndex_ b) (writerIndex_ b) (buffer_ b).

(** ** Construction *)

Definition new (initialSize : Z) : result Buffer :=
  _ ← check_length (size_t (kCheapPrepend + initialSize));
  let b := mkBuffer (zreplicate (size_t (kCheapPrepend + initialSize)) Byte.x00)
                    kCheapPrepend kCheapPrepend in
  _ ← assert_ (readableBytes b =? 0);
  _ ← assert_ (writableBytes b =? initialSize);
  _ ← assert_ (prependableBytes b =? kCheapPrepend);
  Ok b.

(** ** Searching *)

(** [std::search] for the two characters of [kCRLF]: the offset of the first
    match in [l]. *)
Fixpoint search_CRLF (l : list byte) : option Z :=
  match l with
  | c :: (c' :: _) as l' =>
      if bool_decide (c = Byte.x0d) && bool_decide (c' = Byte.x0a) then Some 0
      else Z.succ <$> search_CRLF l'
  | _ => None
  end.

(** [memchr(_, '\n', _)]. *)
Fixpoint memchr_EOL (l : list byte) : option Z :=
  match l with
  | [] => None
  | c :: l' => if bool_decide (c = Byte.x0a) then Some 0 else Z.succ <$> memchr_EOL l'
  end.

(** Positions are indices into [buffer_]; [None] is the null pointer. *)
Definition findCRLF (b : Buffer) : option Z :=
  Z.add (readerIndex_ b) <$> search_CRLF (content b).

Definition findCRLF_from (b : Buffer) (start : Z) : result (option Z) :=
  _ ← assert_ (readerIndex_ b <=? start);
  _ ← assert_ (start <=? writerIndex_ b);
  Ok (Z.add start <$> search_CRLF (zslice start (writerIndex_ b) (buffer_ b))).

Definition findEOL (b : Buffer) : option Z :=
  Z.add (readerIndex_ b) <$> memchr_EOL (peek_bytes b (readableBytes b)).

Definition findEOL_from (b : Buffer) (start : Z) : result (option Z) :=
  _ ← assert_ (readerIndex_ b <=? start);
  _ ← assert_ (start <=? writerIndex_ b);
  Ok (Z.add start <$> memchr_EOL (zslice start (writerIndex_ b) (buffer_ b))).

(** ** Consuming *)

Definition retrieveAll (b : Buffer) : Buffer :=
  mkBuffer (buffer_ b) kCheapPrepend kCheapPrepend.

Definition retrieve (b : Buffer) (len : Z) : result Buffer :=
  _ ← assert_ (len <=? readableBytes b);
  if len <? readableBytes b
  then Ok (mkBuffer (buffer_ b) (size_t (readerIndex_ b + len)) (writerIndex_ b))
  else Ok (retrieveAll b).

Definition retrieveUntil (b : Buffer) (end_ : Z) : result Buffer :=
  _ ← assert_ (readerIndex_ b <=? end_);
  _ ← assert_ (end_ <=? writerIndex_ b);
  retrieve b (size_t (end_ - readerIndex_ b)).

Definition retrieveInt64 (b : Buffer) : result Buffer := retrieve b 8.
Definition retrieveInt32 (b : Buffer) : result Buffer := retrieve b 4.
Definition retrieveInt16 (b : Buffer) : result Buffer := retrieve b 2.
Definition retrieveInt8 (b : Buffer) : result Buffer := retrieve b 1.

Definition retrieveAsString (b : Buffer) (len : Z) : result (list byte * Buffer) :=
  _ ← assert_ (len <=? readableBytes b);
  let s := peek_bytes b len in
  b' ← retrieve b len;
  Ok (s, b').

Definition retrieveAllAsString (b : Buffer) : result (list byte * Buffer) :=
  retrieveAsString b (readableBytes b).

(** The view [StringPiece]: its characters and its [int] length. *)
Definition toStringPiece (b : Buffer) : list byte * Z :=
  let len := wraps 32 (readableBytes b) in (peek_bytes b len, len).

(** ** Growing and writing *)

Definition makeSpace (b : Buffer) (len : Z) : result Buffer :=
  if size_t (writableBytes b + prependableBytes b) <? size_t (len + kCheapPrepend) then
    let n := size_t (writerIndex_ b + len) in
    _ ← check_length n;
    Ok (mkBuffer (zresize Byte.x00 n (buffer_ b)) (readerIndex_ b) (writerIndex_ b))
  else
    _ ← assert_ (kCheapPrepend <? readerIndex_ b);
    let readable := readableBytes b in
    let moved := zwrite kCheapPrepend
                        (zslice (readerIndex_ b) (writerIndex_ b) (buffer_ b)) (buffer_ b) in
    let b' := mkBuffer moved kCheapPrepend (size_t (kCheapPrepend + readable)) in
    _ ← assert_ (readable =? readableBytes b');
    Ok b'.

Definition ensureWritableBytes (b : Buffer) (len : Z) : result Buffer :=
  b' ← (if writableBytes b <? len then makeSpace b len else Ok b);
  _ ← assert_ (len <=? writableBytes b');
  Ok b'.

Definition hasWritten (b : Buffer) (len : Z) : result Buffer :=
  _ ← assert_ (len <=? writableBytes b);
  Ok (mkBuffer (buffer_ b) (readerIndex_ b) (size_t (writerIndex_ b + len))).

Definition unwrite (b : Buffer) (len : Z) : result Buffer :=
  _ ← assert_ (len <=? readableBytes b);
  Ok (mkBuffer (buffer_ b) (readerIndex_ b) (size_t (writerIndex_ b - len))).

(** [append(data, len)]: [data] holds the [len] characters. *)
Definition append (b : Buffer) (data : list byte) : result Buffer :=
  b1 ← ensureWritableBytes b (zlen data);
  let b2 := mkBuffer (zwrite (writerIndex_ b1) data (buffer_ b1))
                     (readerIndex_ b1) (writerIndex_ b1) in
  hasWritten b2 (zlen data).

(** [append(const StringPiece &)]: a negative [int] length becomes a [size_t]
    larger than any object, and copying that much is undefined. *)
Definition append_piece (b : Buffer) (str : list byte * Z) : result Buffer :=
  _ ← defined_ (0 <=? snd str);
  append b (fst str).

Definition prepend (b : Buffer) (data : list byte) : result Buffer :=
  _ ← assert_ (zlen data <=? prependableBytes b);
  let r := size_t (readerIndex_ b - zlen data) in
  Ok (mkBuffer (zwrite r data (buffer_ b)) r (writerIndex_ b)).

Definition shrink (b : Buffer) (reserve : Z) : result Buffer :=
  other0 ← new kInitialSize;
  other ← ensureWritableBytes other0 (size_t (readableBytes b + reserve));
  append_piece other (toStringPiece b).

(** ** Integers in network order *)

Definition appendInt64 (b : Buffer) (x : Z) : result Buffer :=
  let be64 := wraps 64 (hostToNetwork64 (wrapu 64 x)) in append b (le_bytes 8 be64).
Definition appendInt32 (b : Buffer) (x : Z) : result Buffer :=
  let be32 := wraps 32 (hostToNetwork32 (wrapu 32 x)) in append b (le_bytes 4 be32).
Definition appendInt16 (b : Buffer) (x : Z) : result Buffer :=
  let be16 := wraps 16 (hostToNetwork16 (wrapu 16 x)) in append b (le_bytes 2 be16).
Definition appendInt8 (b : Buffer) (x : Z) : result Buffer := append b (le_bytes 1 x).

Definition peekInt64 (b : Buffer) : result Z :=
  _ ← assert_ (8 <=? readableBytes b);
  let be64 := wraps 64 (le_value (peek_bytes b 8)) in
  Ok (wraps 64 (networkToHost64 (wrapu 64 be64))).
Definition peekInt32 (b : Buffer) : result Z :=
  _ ← assert_ (4 <=? readableBytes b);
  let be32 := wraps 32 (le_value (peek_bytes b 4)) in
  Ok (wraps 32 (networkToHost32 (wrapu 32 be32))).
Definition peekInt16 (b : Buffer) : result Z :=
  _ ← assert_ (2 <=? readableBytes b);
  let be16 := wraps 16 (le_value (peek_bytes b 2)) in
  Ok (wraps 16 (networkToHost16 (wrapu 16 be16))).
Definition peekInt8 (b : Buffer) : result Z :=
  _ ← assert_ (1 <=? readableBytes b);
  Ok (wraps 8 (le_value (peek_bytes b 1))).

Definition readInt64 (b : Buffer) : result (Z * Buffer) :=
  x ← peekInt64 b; b' ← retrieveInt64 b; Ok (x, b').
Definition readInt32 (b : Buffer) : result (Z * Buffer) :=
  x ← peekInt32 b; b' ← retrieveInt32 b; Ok (x, b').
Definition readInt16 (b : Buffer) : result (Z * Buffer) :=
  x ← peekInt16 b; b' ← retrieveInt16 b; Ok (x, b').
Definition readInt8 (b : Buffer) : result (Z * Buffer) :=
  x ← peekInt8 b; b' ← retrieveInt8 b; Ok (x, b').

Definition prependInt64 (b : Buffer) (x : Z) : result Buffer :=
  let be64 := wraps 64 (hostToNetwork64 (wrapu 64 x)) in prepend b (le_bytes 8 be64).
Definition prependInt32 (b : Buffer) (x : Z) : result Buffer :=
  let be32 := wraps 32 (hostToNetwork32 (wrapu 32 x)) in prepend b (le_bytes 4 be32).
Definition prependInt16 (b : Buffer) (x : Z) : result Buffer :=
  let be16 := wraps 16 (hostToNetwork16 (wrapu 16 x)) in prepend b (le_bytes 2 be16).
Definition prependInt8 (b : Buffer) (x : Z) : result Buffer := prepend b (le_bytes 1 x).

(** ** Reading from a descriptor *)

(** What [readv(2)] did: failed with an errno, or delivered bytes. *)
Inductive readv_result :=
| ReadvError (err : Z)
| ReadvData (d : list byte).

Definition extrabuf_size : Z := 65536.

(** Room that the two [iovec]s offer. *)
Definition iov_room (b : Buffer) : Z :=
  let writable := writableBytes b in
  if writable <? extrabuf_size then writable + extrabuf_size else writable.

(** Returns the result of [readv], the value stored through [savedErrno], and
    the buffer.  The kernel fills the writable part first, then [extrabuf]. *)
Definition readFd (b : Buffer) (r : readv_result) : result (Z * option Z * Buffer) :=
  match r with
  | ReadvError err => Ok (-1, Some err, b)
  | ReadvData d =>
      let writable := writableBytes b in
      let n := zlen d in
      let filled := zwrite (writerIndex_ b) (ztake writable d) (buffer_ b) in
      if n <=? writable then
        Ok (n, None, mkBuffer filled (readerIndex_ b) (size_t (writerIndex_ b + n)))
      else
        b' ← append (mkBuffer filled (readerIndex_ b) (zlen (buffer_ b))) (zdrop writable d);
        Ok (n, None, b')
  end.

(** ** The invariant *)

Record wf (b : Buffer) : Prop := {
  wf_reader : 0 <= readerIndex_ b <= writerIndex_ b;
  wf_writer : writerIndex_ b <= zlen (buffer_ b);
  wf_size : kCheapPrepend <= zlen (buffer_ b) <= max_size
}.

(** ** The abstract queue of bytes *)

Inductive op :=
| OpAppend (d : list byte)
| OpPrepend (d : list byte)
| OpRetrieve (len : Z)
| OpRetrieveAll
| OpRetrieveAsString (len : Z)
| OpUnwrite (len : Z)
| OpEnsureWritable (len : Z)
| OpShrink (reserve : Z)
| OpReadFd (r : readv_result).

(** Running an operation: the characters it hands to the caller, and the
    buffer it leaves. *)
Definition run (b : Buffer) (o : op) : result (list byte * Buffer) :=
  match o with
  | OpAppend d => b' ← append b d; Ok ([], b')
  | OpPrepend d => b' ← prepend b d; Ok ([], b')
  | OpRetrieve len => b' ← retrieve b len; Ok ([], b')
  | OpRetrieveAll => Ok ([], retrieveAll b)
  | OpRetrieveAsString len => retrieveAsString b len
  | OpUnwrite len => b' ← unwrite b len; Ok ([], b')
  | OpEnsureWritable len => b' ← ensureWritableBytes b len; Ok ([], b')
  | OpShrink reserve => b' ← shrink b reserve; Ok ([], b')
  | OpReadFd r => '(_, b') ← readFd b r; Ok ([], b')
  end.

(** What the operation promises on the queue of readable bytes. *)
Definition queue_step (q : list byte) (o : op) : list byte * list byte :=
  match o with
  | OpAppend d => ([], q ++ d)
  | OpPrepend d => ([], d ++ q)
  | OpRetrieve len => ([], zdrop len q)
  | OpRetrieveAll => ([], [])
  | OpRetrieveAsString len => (ztake len q, zdrop len q)
  | OpUnwrite len => ([], ztake (zlen q - len) q)
  | OpEnsureWritable _ | OpShrink _ => ([], q)
  | OpReadFd (ReadvData d) => ([], q ++ d)
  | OpReadFd (ReadvError _) => ([], q)
  end.

Fixpoint run_all (b : Buffer) (os : list op) : result (list (list byte) * Buffer) :=
  match os with
  | [] => Ok ([], b)
  | o :: os' =>
      '(out, b1) ← run b o;
      '(outs, b2) ← run_all b1 os';
      Ok (out :: outs, b2)
  end.

Fixpoint queue_all (q : list byte) (os : list op) : list (list byte) * list byte :=
  match os with
  | [] => ([], q)
  | o :: os' =>
      let '(out, q1) := queue_step q o in
      let '(outs, q2) := queue_all q1 os' in
      (out :: outs, q2)
  end.

(** Sizes are those of C++ objects, and [readv] respects the room it was
    given. *)
Definition op_args (b : Buffer) (o : op) : Prop :=
  match o with
  | OpAppend d | OpPrepend d => zlen d <= max_size
  | OpRetrieve len | OpRetrieveAsString len | OpUnwrite len => 0 <= len < 2 ^ 64
  | OpEnsureWritable len => 0 <= len <= max_size
  | OpShrink reserve => 0 <= reserve <= max_size /\ zlen (content b) < 2 ^ 31
  | OpReadFd (ReadvData d) => zlen d <= iov_room b
  | OpReadFd (ReadvError _) | OpRetrieveAll => True
  end.

(** What the assertions of an operation and the size of a vector ask for. *)
Definition op_pre (b : Buffer) (o : op) : Prop :=
  match o with
  | OpAppend d | OpReadFd (ReadvData d) => writerIndex_ b + zlen d <= max_size
  | OpPrepend d => zlen d <= prependableBytes b
  | OpRetrieve len | OpRetrieveAsString len | OpUnwrite len => len <= readableBytes b
  | OpEnsureWritable len => writerIndex_ b + len <= max_size
  | OpShrink reserve => kCheapPrepend + readableBytes b + reserve <= max_size
  | OpRetrieveAll | OpReadFd (ReadvError _) => True
  end.

(** The arguments are fine at each step of a run. *)
Fixpoint args_all (b : Buffer) (os : list op) : Prop :=
  match os with
  | [] => True
  | o :: os' =>
      op_args b o /\ match run b o with Ok (_, b1) => args_all b1 os' | Err _ => True end
  end.

(** The integer operations by width. *)
Inductive width := W64 | W32 | W16 | W8.

Definition width_bytes (w : width) : nat :=
  match w with W64 => 8 | W32 => 4 | W16 => 2 | W8 => 1 end%nat.
Definition width_bits (w : width) : Z := 8 * Z.of_nat (width_bytes w).

Definition append_int (w : width) : Buffer -> Z -> result Buffer :=
  match w with
  | W64 => appendInt64 | W32 => appendInt32 | W16 => appendInt16 | W8 => appendInt8
  end.
Definition prepend_int (w : width) : Buffer -> Z -> result Buffer :=
  match w with
  | W64 => prependInt64 | W32 => prependInt32 | W16 => prependInt16 | W8 => prependInt8
  end.
Definition read_int (w : width) : Buffer -> result (Z * Buffer) :=
  match w with
  | W64 => readInt64 | W32 => readInt32 | W16 => readInt16 | W8 => readInt8
  end.

(** ** Lemmas *)

#[local] Ltac buf := unfold kCheapPrepend, max_size in *; cbn [buffer_ readerIndex_ writerIndex_] in *.

Lemma size_t_small z : 0 <= z <= max_size -> size_t z = z.
Proof. unfold max_size. intros. apply wrapu_small. lia. Qed.

Lemma size_t_small' z : 0 <= z < 2 ^ 64 -> size_t z = z.
Proof. apply wrapu_small. Qed.

Lemma readable_wf b : wf b -> readableBytes b = writerIndex_ b - readerIndex_ b.
Proof. intros [? ? ?]. apply size_t_small. lia. Qed.

Lemma writable_wf b : wf b -> writableBytes b = zlen (buffer_ b) - writerIndex_ b.
Proof. intros [? ? ?]. apply size_t_small. lia. Qed.

Lemma zlen_content b : wf b -> zlen (content b) = writerIndex_ b - readerIndex_ b.
Proof. intros [? ? ?]. apply zlen_zslice; lia. Qed.

Lemma content_readable b : wf b -> zlen (content b) = readableBytes b.
Proof. intros H. by rewrite zlen_content, readable_wf. Qed.

Lemma peek_bytes_content b len :
  wf b -> 0 <= len <= readableBytes b -> peek_bytes b len = ztake len (content b).
Proof.
  intros H Hl. rewrite readable_wf in Hl by done. destruct H.
  unfold peek_bytes, content. rewrite ztake_zslice by lia. done.
Qed.

Lemma wf_retrieveAll b : wf b -> wf (retrieveAll b).
Proof. intros [? ? ?]. unfold retrieveAll. split; buf; lia. Qed.

Lemma content_retrieveAll b : content (retrieveAll b) = [].
Proof. apply zslice_nil. simpl. lia. Qed.

Lemma retrieve_ok b len :
  wf b -> 0 <= len <= readableBytes b ->
  exists b', retrieve b len = Ok b' /\ wf b' /\ content b' = zdrop len (content b).
Proof.
  intros H Hl. unfold retrieve. step_assert. rewrite readable_wf in * by done.
  zcase (len <? writerIndex_ b - readerIndex_ b).
  - eexists; split; [reflexivity|]. destruct H.
    rewrite size_t_small by lia. split; [split; buf; lia|].
    unfold content; simpl. by rewrite zdrop_zslice by lia.
  - eexists; split; [reflexivity|]. split; [by apply wf_retrieveAll|].
    rewrite content_retrieveAll, zdrop_all; [done|]. rewrite zlen_content by done. lia.
Qed.

Lemma retrieve_inv b len b' :
  wf b -> 0 <= len -> retrieve b len = Ok b' ->
  wf b' /\ content b' = zdrop len (content b) /\ len <= zlen (content b).
Proof.
  intros H Hl Hr. assert (len <= readableBytes b) as Hle.
  { unfold retrieve in Hr. inv_ok. zprop. done. }
  destruct (retrieve_ok b len) as (b'' & E & ? & ?); [done|lia|].
  rewrite E in Hr. injection Hr as ->. by rewrite content_readable.
Qed.

(** The vector does not have to grow beyond its maximal size. *)
Definition fits (b : Buffer) (len : Z) : Prop :=
  0 <= len <= max_size /\
  (zlen (buffer_ b) - writerIndex_ b + readerIndex_ b < len + kCheapPrepend ->
   writerIndex_ b + len <= max_size).

(** Growing or compacting keeps the content and makes the room. *)
Lemma makeSpace_ok b len :
  wf b -> writableBytes b < len -> fits b len ->
  exists b', makeSpace b len = Ok b' /\ wf b' /\ content b' = content b /\
    len <= writableBytes b' /\ Z.min kCheapPrepend (readerIndex_ b) <= readerIndex_ b'.
Proof.
  intros H Hlt [Hlen0 Hmax]. pose proof (writable_wf b H) as Hw. destruct (H) as [? ? ?].
  unfold makeSpace, prependableBytes. rewrite Hw in *.
  rewrite (size_t_small (zlen _ - _ + _)) by (buf; lia).
  rewrite (size_t_small' (len + _)) by (buf; lia).
  zcase (zlen (buffer_ b) - writerIndex_ b + readerIndex_ b <? len + kCheapPrepend).
  - rewrite size_t_small by (specialize (Hmax E); lia). unfold check_length.
    specialize (Hmax E). rewrite (proj2 (Z.leb_le _ _) Hmax), bind_ok.
    eexists; split; [reflexivity|].
    assert (zlen (zresize Byte.x00 (writerIndex_ b + len) (buffer_ b)) = writerIndex_ b + len)
      as Hlen by (apply zlen_zresize; lia).
    split_and!; [split; buf; lia | | | buf; lia].
    + unfold content; simpl. apply zslice_zresize; lia.
    + unfold writableBytes; simpl. rewrite Hlen, size_t_small; lia.
  - step_assert. rewrite readable_wf by done.
    set (d := zslice (readerIndex_ b) (writerIndex_ b) (buffer_ b)).
    assert (zlen d = writerIndex_ b - readerIndex_ b) as Hd by (apply zlen_zslice; lia).
    rewrite size_t_small by (buf; lia).
    set (b' := mkBuffer _ _ _).
    assert (zlen (zwrite kCheapPrepend d (buffer_ b)) = zlen (buffer_ b)) as Hlen.
    { apply zlen_zwrite; buf; lia. }
    assert (wf b') as Hwf by (split; subst b'; buf; lia).
    rewrite readable_wf by done. rewrite assert_true, bind_ok; [|subst b'; buf; zbool; lia].
    exists b'. split_and!; [done | done | | | subst b'; buf; lia].
    + unfold content, b'; cbn [buffer_ readerIndex_ writerIndex_].
      fold d. rewrite <- Hd. apply zslice_zwrite_inside; buf; lia.
    + rewrite writable_wf by done. subst b'; buf. lia.
Qed.

Lemma ensureWritableBytes_ok b len :
  wf b -> fits b len ->
  exists b', ensureWritableBytes b len = Ok b' /\ wf b' /\ content b' = content b /\
    len <= writableBytes b' /\ Z.min kCheapPrepend (readerIndex_ b) <= readerIndex_ b'.
Proof.
  intros H ?. unfold ensureWritableBytes.
  zcase (writableBytes b <? len).
  - destruct (makeSpace_ok b len) as (b' & -> & ? & ? & ? & ?); [done..|].
    rewrite bind_ok. step_assert. by exists b'.
  - rewrite bind_ok. step_assert. exists b. split_and!; [done..|lia].
Qed.

(** Writing [d] at [beginWrite()] and announcing it. *)
Lemma write_ok b d :
  wf b -> zlen d <= writableBytes b ->
  exists b', hasWritten (mkBuffer (zwrite (writerIndex_ b) d (buffer_ b))
                                  (readerIndex_ b) (writerIndex_ b)) (zlen d) = Ok b' /\
    wf b' /\ content b' = content b ++ d /\ readerIndex_ b' = readerIndex_ b.
Proof.
  intros H Hd. rewrite writable_wf in Hd by done. destruct (H) as [? ? ?].
  pose proof (zlen_nonneg d).
  assert (zlen (zwrite (writerIndex_ b) d (buffer_ b)) = zlen (buffer_ b)) as Hlen.
  { apply zlen_zwrite; lia. }
  unfold hasWritten, writableBytes; cbn [buffer_ readerIndex_ writerIndex_].
  rewrite Hlen, (size_t_small (_ - _)), (size_t_small (_ + _)) by lia. step_assert.
  eexists; split; [reflexivity|]. split_and!; [split; buf; lia | | done].
  unfold content; cbn [buffer_ readerIndex_ writerIndex_].
  rewrite (zslice_split _ (writerIndex_ b)) by lia.
  rewrite zslice_zwrite_before, zslice_zwrite_inside by lia. done.
Qed.

Lemma append_ok b d :
  wf b -> fits b (zlen d) ->
  exists b', append b d = Ok b' /\ wf b' /\ content b' = content b ++ d /\
    Z.min kCheapPrepend (readerIndex_ b) <= readerIndex_ b'.
Proof.
  intros H Hd. unfold append.
  destruct (ensureWritableBytes_ok b (zlen d)) as (b1 & -> & Hw1 & Hc & ? & ?);
    [done | done |].
  rewrite bind_ok. destruct (write_ok b1 d) as (b2 & -> & ? & Hc2 & Hr2); [done..|].
  exists b2. by rewrite Hc2, Hr2, Hc.
Qed.

Lemma fits_room b len : 0 <= len -> 0 <= writerIndex_ b -> writerIndex_ b + len <= max_size -> fits b len.
Proof. split; lia. Qed.

(** A successful call had room. *)
Lemma ensureWritableBytes_inv b len b' :
  wf b -> 0 <= len <= max_size -> ensureWritableBytes b len = Ok b' ->
  wf b' /\ content b' = content b /\ len <= writableBytes b' /\
  Z.min kCheapPrepend (readerIndex_ b) <= readerIndex_ b'.
Proof.
  intros H Hl Hr. destruct (decide (fits b len)) as [Hf|Hf].
  { destruct (ensureWritableBytes_ok b len H Hf) as (b'' & E & ?).
    rewrite E in Hr. by injection Hr as ->. }
  exfalso. pose proof (writable_wf b H) as Hw. destruct H. unfold fits in Hf.
  unfold ensureWritableBytes in Hr. rewrite Hw in Hr.
  rewrite (proj2 (Z.ltb_lt _ _)) in Hr by (buf; lia).
  unfold makeSpace, prependableBytes in Hr. rewrite Hw in Hr.
  rewrite (size_t_small (zlen _ - _ + _)), (size_t_small' (len + _)) in Hr by (buf; lia).
  rewrite (proj2 (Z.ltb_lt _ _)) in Hr by (buf; lia).
  rewrite (size_t_small' (_ + _)) in Hr by (buf; lia).
  unfold check_length in Hr. rewrite (proj2 (Z.leb_gt _ _)) in Hr by (buf; lia).
  discriminate Hr.
Qed.

Lemma append_inv b d b' :
  wf b -> zlen d <= max_size -> append b d = Ok b' ->
  wf b' /\ content b' = content b ++ d /\
  Z.min kCheapPrepend (readerIndex_ b) <= readerIndex_ b'.
Proof.
  intros H Hd Hr. pose proof (zlen_nonneg d). unfold append in Hr. inv_ok.
  apply ensureWritableBytes_inv in E as (? & Hc & ? & ?); [|done..].
  destruct (write_ok a d) as (b2 & E2 & ? & Hc2 & Hr2); [done..|].
  rewrite E2 in Hr. injection Hr as <-. by rewrite Hc2, Hr2, Hc.
Qed.

Lemma prepend_ok b d :
  wf b -> zlen d <= prependableBytes b ->
  exists b', prepend b d = Ok b' /\ wf b' /\ content b' = d ++ content b /\
    readerIndex_ b' = readerIndex_ b - zlen d.
Proof.
  intros H Hd. pose proof (zlen_nonneg d). unfold prepend, prependableBytes in *.
  destruct (H). step_assert. rewrite size_t_small by lia.
  assert (zlen (zwrite (readerIndex_ b - zlen d) d (buffer_ b)) = zlen (buffer_ b)) as Hlen.
  { apply zlen_zwrite; lia. }
  eexists; split; [reflexivity|]. split_and!; [split; buf; lia | | done].
  unfold content; buf. rewrite (zslice_split _ (readerIndex_ b)) by lia. f_equal.
  - replace (readerIndex_ b) with (readerIndex_ b - zlen d + zlen d) at 2 by lia.
    apply zslice_zwrite_inside; lia.
  - apply zslice_zwrite_after; lia.
Qed.

Lemma unwrite_ok b len :
  wf b -> 0 <= len <= readableBytes b ->
  exists b', unwrite b len = Ok b' /\ wf b' /\
    content b' = ztake (zlen (content b) - len) (content b).
Proof.
  intros H Hl. unfold unwrite. step_assert. rewrite zlen_content by done.
  rewrite readable_wf in Hl by done. destruct H.
  eexists; split; [reflexivity|]. rewrite size_t_small by lia. split; [split; buf; lia|].
  unfold content; buf. rewrite ztake_zslice by lia. f_equal. lia.
Qed.

Lemma new_ok n :
  0 <= n <= max_size - kCheapPrepend ->
  exists b, new n = Ok b /\ wf b /\ content b = [] /\ readerIndex_ b = kCheapPrepend /\
    writableBytes b = n.
Proof.
  intros Hn. unfold new. rewrite size_t_small by (buf; lia).
  unfold check_length. rewrite (proj2 (Z.leb_le _ _)), bind_ok by lia.
  set (b := mkBuffer _ _ _).
  assert (wf b) as H by (split; subst b; buf; rewrite ?zlen_zreplicate; lia).
  rewrite readable_wf, writable_wf by done.
  unfold prependableBytes. subst b. cbn [buffer_ readerIndex_ writerIndex_].
  rewrite zlen_zreplicate. do 2 (step_assert; [|buf; lia..]). step_assert.
  eexists; split; [reflexivity|]. split_and!; [done | by apply zslice_nil | done |].
  rewrite writable_wf by done. buf. rewrite zlen_zreplicate. lia.
Qed.

(** The bytes that go straight into the writable part. *)
Lemma fill_ok b d :
  wf b -> zlen d <= writableBytes b ->
  let b' := mkBuffer (zwrite (writerIndex_ b) d (buffer_ b)) (readerIndex_ b)
                     (writerIndex_ b + zlen d) in
  wf b' /\ content b' = content b ++ d.
Proof.
  intros H Hd b'. destruct (write_ok b d H Hd) as (b2 & E & ? & Hc & _).
  unfold hasWritten in E. inv_ok. cbn [buffer_ readerIndex_ writerIndex_] in E.
  rewrite writable_wf in Hd by done. destruct H. pose proof (zlen_nonneg d).
  rewrite size_t_small in E by lia. subst b2. done.
Qed.

Lemma readFd_cases b d :
  wf b -> zlen d <= iov_room b ->
  readFd b (ReadvData d) =
    (if zlen d <=? writableBytes b then
       Ok (zlen d, None, mkBuffer (zwrite (writerIndex_ b) d (buffer_ b)) (readerIndex_ b)
                                  (writerIndex_ b + zlen d))
     else
       b' ← append (mkBuffer (zwrite (writerIndex_ b) (ztake (writableBytes b) d) (buffer_ b))
                       (readerIndex_ b) (writerIndex_ b + zlen (ztake (writableBytes b) d)))
                   (zdrop (writableBytes b) d);
       Ok (zlen d, None, b')).
Proof.
  intros H Hd. unfold readFd. pose proof (writable_wf b H) as Hw. destruct H.
  pose proof (zlen_nonneg d). zcase (zlen d <=? writableBytes b).
  - rewrite ztake_all by lia. rewrite size_t_small by lia. done.
  - replace (writerIndex_ b + zlen _) with (zlen (buffer_ b)) by zlen_lia. done.
Qed.

(** The overflowing part of a read, spliced after a full buffer. *)
Lemma readFd_split b d :
  wf b -> writableBytes b < zlen d ->
  let b1 := mkBuffer (zwrite (writerIndex_ b) (ztake (writableBytes b) d) (buffer_ b))
                     (readerIndex_ b) (writerIndex_ b + zlen (ztake (writableBytes b) d)) in
  wf b1 /\ content b1 ++ zdrop (writableBytes b) d = content b ++ d.
Proof.
  intros H Hd b1. pose proof (writable_wf b H) as Hw. destruct (H).
  destruct (fill_ok b (ztake (writableBytes b) d) H ltac:(zlen_lia)) as [H1 Hc].
  split; [done|]. subst b1. rewrite Hc, <- app_assoc, ztake_zdrop. done.
Qed.

Lemma readFd_inv b d n e b' :
  wf b -> zlen d <= iov_room b -> readFd b (ReadvData d) = Ok (n, e, b') ->
  wf b' /\ content b' = content b ++ d /\ n = zlen d /\ e = None.
Proof.
  intros H Hd Hr. rewrite readFd_cases in Hr by done. zcase (zlen d <=? writableBytes b).
  - injection Hr as <- <- <-. by destruct (fill_ok b d H).
  - inv_ok. simplify_eq. destruct (readFd_split b d H) as [H1 Hc1]; [lia|].
    apply append_inv in E0 as (? & Hc & _); [by rewrite Hc, Hc1 | done |].
    unfold iov_room, extrabuf_size in Hd. pose proof (writable_wf b H). destruct H.
    zcase (writableBytes b <? 65536); buf; zlen_lia.
Qed.

Lemma shrink_inv b reserve b' :
  wf b -> 0 <= reserve <= max_size -> zlen (content b) < 2 ^ 31 ->
  shrink b reserve = Ok b' -> wf b' /\ content b' = content b.
Proof.
  intros H Hres Hc Hr. pose proof (zlen_nonneg (content b)).
  unfold shrink in Hr. inv_ok. destruct (new_ok kInitialSize) as (b0 & E1 & Hb0 & Hc0 & ? & ?).
  { unfold kInitialSize; buf; lia. }
  rewrite E1 in E. injection E as <-.
  rewrite content_readable in * by done.
  unfold toStringPiece, append_piece in Hr. cbn [fst snd] in Hr.
  rewrite wraps_small in Hr by lia. inv_ok.
  rewrite peek_bytes_content, <- content_readable, ztake_all in Hr by (done || lia).
  destruct (decide (readableBytes b + reserve <= max_size)) as [Hm|Hm].
  - rewrite size_t_small in E0 by lia.
    apply ensureWritableBytes_inv in E0 as (? & Hca & ? & ?); [|done|lia].
    apply append_inv in Hr as (? & Hcb & ?); [|done|rewrite content_readable by done; buf; lia].
    by rewrite Hcb, Hca, Hc0.
  - exfalso. rewrite size_t_small' in E0 by (buf; lia).
    unfold ensureWritableBytes in E0.
    rewrite (proj2 (Z.ltb_lt _ _)) in E0 by (unfold kInitialSize in *; buf; lia).
    unfold makeSpace, prependableBytes in E0.
    rewrite (size_t_small' (_ + kCheapPrepend)) in E0 by (buf; lia).
    rewrite (size_t_small' (writableBytes _ + readerIndex_ _)) in E0 by (unfold kInitialSize in *; buf; lia).
    rewrite (proj2 (Z.ltb_lt _ _)) in E0 by (unfold kInitialSize in *; buf; lia).
    pose proof (zlen_content _ Hb0) as Hz. rewrite Hc0, zlen_nil in Hz.
    destruct Hb0. rewrite (size_t_small' (_ + _)) in E0 by (buf; lia).
    unfold check_length in E0. rewrite (proj2 (Z.leb_gt _ _)) in E0 by (buf; lia).
    discriminate E0.
Qed.

(** ** Integers *)

Lemma be_bytes_1 x : be_bytes 1 x = le_bytes 1 x.
Proof. reflexivity. Qed.

Lemma int_decode_1 x : wraps 8 (le_value (be_bytes 1 x)) = wraps 8 x.
Proof. rewrite be_bytes_1, le_value_bytes. apply (wraps_wrapu 8). lia. Qed.

Lemma append_int_eq w b x : append_int w b x = append b (be_bytes (width_bytes w) x).
Proof.
  destruct w; simpl.
  - unfold appendInt64. by rewrite (int_image 8) by lia.
  - unfold appendInt32. by rewrite (int_image 4) by lia.
  - unfold appendInt16. by rewrite (int_image 2) by lia.
  - reflexivity.
Qed.

Lemma prepend_int_eq w b x : prepend_int w b x = prepend b (be_bytes (width_bytes w) x).
Proof.
  destruct w; simpl.
  - unfold prependInt64. by rewrite (int_image 8) by lia.
  - unfold prependInt32. by rewrite (int_image 4) by lia.
  - unfold prependInt16. by rewrite (int_image 2) by lia.
  - reflexivity.
Qed.

(** Reading an integer whose network image is at the front. *)
Lemma read_int_ok w b x q :
  wf b -> content b = be_bytes (width_bytes w) x ++ q ->
  - 2 ^ (width_bits w - 1) <= x < 2 ^ (width_bits w - 1) ->
  exists b', read_int w b = Ok (x, b') /\ wf b' /\ content b' = q.
Proof.
  intros H Hc Hx. set (n := Z.of_nat (width_bytes w)).
  assert (n <= readableBytes b) as Hn.
  { rewrite <- content_readable, Hc, zlen_app, zlen_be_bytes by done.
    pose proof (zlen_nonneg q). lia. }
  assert (peek_bytes b n = be_bytes (width_bytes w) x) as Hp.
  { rewrite peek_bytes_content by (done || lia). rewrite Hc.
    rewrite ztake_app_le, ztake_all by (rewrite zlen_be_bytes; lia). done. }
  destruct (retrieve_ok b n H) as (b' & Hr & ? & Hq); [lia|].
  exists b'. split; [|split; [done|]].
  2: { rewrite Hq, Hc, zdrop_app_ge by (rewrite zlen_be_bytes; lia).
       rewrite zlen_be_bytes. apply zdrop_nonpos. lia. }
  pose proof (int_decode (width_bytes w) x ltac:(destruct w; simpl; lia)) as Hd.
  cbv zeta in Hd. fold (width_bits w) in Hd.
  assert (0 < width_bits w) by (destruct w; reflexivity).
  rewrite (wraps_small _ x) in Hd by lia.
  assert (n = match w with W64 => 8 | W32 => 4 | W16 => 2 | W8 => 1 end) as En
    by (destruct w; reflexivity).
  clearbody n. destruct w; subst n; cbn [read_int]; unfold readInt64, readInt32, readInt16, readInt8,
      peekInt64, peekInt32, peekInt16, peekInt8, networkToHost64, networkToHost32, networkToHost16,
      retrieveInt64, retrieveInt32, retrieveInt16, retrieveInt8;
    step_assert; rewrite Hp, bind_ok, Hr, bind_ok; do 2 f_equal; try exact Hd.
  change (width_bytes W8) with 1%nat. rewrite int_decode_1. apply wraps_small; [lia | done].
Qed.

(** ** Searching *)

Lemma search_CRLF_spec l :
  match search_CRLF l with
  | Some i => 0 <= i /\ i + 2 <= zlen l /\ zslice i (i + 2) l = kCRLF /\
      forall j, 0 <= j < i -> zslice j (j + 2) l <> kCRLF
  | None => forall j, 0 <= j -> zslice j (j + 2) l <> kCRLF
  end.
Proof.
  assert (forall (c : byte) l j, 0 < j -> zslice j (j + 2) (c :: l) = zslice (j - 1) (j - 1 + 2) l)
    as Hcons.
  { intros c l' j Hj. unfold zslice, zdrop. replace (Z.to_nat j) with (S (Z.to_nat (j - 1))) by lia.
    simpl. f_equal. lia. }
  induction l as [|c l IH]; [intros j _; destruct (Z.to_nat j) eqn:?; unfold zslice, zdrop, ztake, kCRLF;
    by rewrite drop_nil, take_nil|].
  destruct l as [|c' l'].
  { intros j Hj Heq. apply (f_equal zlen) in Heq. unfold zslice in Heq.
    destruct (decide (j <= 0)) as [|].
    - replace j with 0 in Heq by lia. unfold kCRLF in Heq. zlen_lia.
    - unfold kCRLF in Heq. zlen_lia. }
  assert (zslice 0 2 (c :: c' :: l') = [c; c']) as H0 by reflexivity.
  change (search_CRLF (c :: c' :: l')) with
    (if bool_decide (c = Byte.x0d) && bool_decide (c' = Byte.x0a) then Some 0
     else Z.succ <$> search_CRLF (c' :: l')).
  destruct (bool_decide (c = Byte.x0d) && bool_decide (c' = Byte.x0a)) eqn:E.
  - apply andb_prop in E as [E1%bool_decide_eq_true E2%bool_decide_eq_true]. subst.
    split_and!; [lia | rewrite !zlen_cons; pose proof (zlen_nonneg l'); lia | done | lia].
  - assert (zslice 0 2 (c :: c' :: l') <> kCRLF) as Hne.
    { rewrite H0. unfold kCRLF. intros [= -> ->]. simpl in E. done. }
    destruct (search_CRLF (c' :: l')) as [i|]; cbn [fmap option_fmap option_map].
    + destruct IH as (? & ? & Hs & Hmin). split_and!; [lia | rewrite zlen_cons; lia | |].
      * rewrite Hcons by lia. by replace (Z.succ i - 1) with i by lia.
      * intros j Hj. destruct (decide (j = 0)) as [->|]; [done|].
        rewrite Hcons by lia. apply Hmin. lia.
    + intros j Hj. destruct (decide (j = 0)) as [->|]; [done|].
      rewrite Hcons by lia. apply IH. lia.
Qed.

(** ** The refinement, one operation at a time *)

Lemma readFd_ok b d :
  wf b -> zlen d <= iov_room b -> writerIndex_ b + zlen d <= max_size ->
  exists b', readFd b (ReadvData d) = Ok (zlen d, None, b').
Proof.
  intros H Hd Hm. rewrite readFd_cases by done.
  zcase (zlen d <=? writableBytes b); [eauto|].
  destruct (readFd_split b d H) as [H1 _]; [lia|].
  pose proof (writable_wf b H). destruct H.
  destruct (append_ok _ (zdrop (writableBytes b) d) H1) as (b' & -> & _); [|by exists b'].
  apply fits_room; buf; zlen_lia.
Qed.

Lemma shrink_ok b reserve :
  wf b -> 0 <= reserve -> zlen (content b) < 2 ^ 31 ->
  kCheapPrepend + readableBytes b + reserve <= max_size ->
  exists b', shrink b reserve = Ok b'.
Proof.
  intros H Hres Hc Hm. rewrite content_readable in Hc by done.
  pose proof (zlen_nonneg (content b)) as Hp. rewrite content_readable in Hp by done.
  unfold shrink.
  destruct (new_ok kInitialSize) as (b0 & -> & Hb0 & Hc0 & Hr0 & _); [by cbv|].
  rewrite bind_ok, size_t_small by (buf; lia).
  assert (writerIndex_ b0 = kCheapPrepend) as Hw0.
  { pose proof (zlen_content b0 Hb0) as Hz. rewrite Hc0, zlen_nil in Hz. lia. }
  destruct (ensureWritableBytes_ok b0 (readableBytes b + reserve)) as (b1 & -> & Hb1 & Hc1 & Hw1 & _);
    [done | apply fits_room; buf; lia |].
  rewrite bind_ok. unfold append_piece, toStringPiece; cbn [fst snd].
  rewrite wraps_small by lia. step_assert.
  rewrite peek_bytes_content, <- content_readable, ztake_all by (done || lia).
  pose proof (content_readable b H) as Hcr. rewrite writable_wf in Hw1 by done. destruct (Hb1).
  destruct (append_ok b1 (content b) Hb1) as (b2 & -> & _); [|by exists b2].
  apply fits_room; buf; lia.
Qed.

Lemma run_refines b o out b' :
  wf b -> op_args b o -> run b o = Ok (out, b') ->
  wf b' /\ queue_step (content b) o = (out, content b').
Proof.
  intros H Ha Hr. destruct o as [d|d|len| |len|len|len|reserve|[err|d]];
    cbn [run op_args queue_step] in *; inv_ok; simplify_eq.
  - destruct (append_inv b d b') as (? & -> & _); done.
  - assert (zlen d <= prependableBytes b) as Hp by (unfold prepend in E; inv_ok; zprop; done).
    destruct (prepend_ok b d H Hp) as (b2 & E2 & ? & <- & _). by det_ok.
  - destruct (retrieve_inv b len b') as (? & -> & ?); [done|lia|done|done].
  - split; [by apply wf_retrieveAll|]. by rewrite content_retrieveAll.
  - unfold retrieveAsString in Hr. inv_ok. simplify_eq.
    destruct (retrieve_inv b len b') as (? & -> & ?); [done|lia|done|].
    rewrite peek_bytes_content by (done || (zprop; lia)). done.
  - assert (len <= readableBytes b) as Hp by (unfold unwrite in E; inv_ok; zprop; done).
    destruct (unwrite_ok b len H) as (b2 & E2 & ? & <-); [lia|]. by det_ok.
  - destruct (ensureWritableBytes_inv b len b') as (? & -> & _); done.
  - destruct Ha. destruct (shrink_inv b reserve b') as (? & ->); done.
  - destruct a as [[n e] b2]. unfold readFd in *. by simplify_eq.
  - destruct a as [[n e] b2]. simplify_eq.
    destruct (readFd_inv b d n e b') as (? & -> & _); done.
Qed.

(** ** Properties *)

(** [C1] Refinement: on any well-formed buffer, any sequence of operations that
    runs without a failed assertion returns exactly the characters that the
    abstract byte queue returns, and leaves a well-formed buffer that holds the
    queue's content; growing, compacting and the scatter read are invisible. *)
Theorem buffer_refines_queue b os outs b' :
  wf b -> args_all b os -> run_all b os = Ok (outs, b') ->
  wf b' /\ queue_all (content b) os = (outs, content b').
Proof.
  revert b outs. induction os as [|o os IH]; intros b outs H Ha Hr; cbn in Hr.
  - by simplify_eq.
  - destruct Ha as [Ho Ha]. inv_ok. destruct a as [out b1]. rewrite E in Ha.
    inv_ok. destruct a as [outs1 b2]. simplify_eq.
    destruct (run_refines b o out b1) as [H1 Hq]; [done..|].
    destruct (IH b1 outs1) as [H2 Hq2]; [done..|]. split; [done|].
    cbn [queue_all]. by rewrite Hq, Hq2.
Qed.

(** [C18] Totality: an operation whose documented precondition holds (room to
    prepend, enough readable bytes, a vector that may still grow) fails none
    of the assertions of the class, throws nothing, and keeps the buffer well
    formed. *)
Theorem buffer_run_total b o :
  wf b -> op_args b o -> op_pre b o -> exists out b', run b o = Ok (out, b') /\ wf b'.
Proof.
  intros H Ha Hp.
  enough (exists r, run b o = Ok r) as ([out b'] & E).
  { exists out, b'. split; [done|]. by eapply run_refines. }
  pose proof (zlen_content b H) as Hz. pose proof (zlen_nonneg (content b)).
  destruct (H) as [? ? ?].
  destruct o as [d|d|len| |len|len|len|reserve|[err|d]]; cbn [run op_args op_pre] in *.
  - destruct (append_ok b d H) as (b' & -> & _); [apply fits_room; zlen_lia|]. eauto.
  - destruct (prepend_ok b d H Hp) as (b' & -> & _). eauto.
  - destruct (retrieve_ok b len H) as (b' & -> & _); [lia|]. eauto.
  - eauto.
  - unfold retrieveAsString. step_assert.
    destruct (retrieve_ok b len H) as (b' & -> & _); [lia|]. eauto.
  - destruct (unwrite_ok b len H) as (b' & -> & _); [lia|]. eauto.
  - destruct (ensureWritableBytes_ok b len H) as (b' & -> & _); [apply fits_room; lia|]. eauto.
  - destruct Ha. destruct (shrink_ok b reserve H) as (b' & ->); [lia|done|done|]. eauto.
  - eauto.
  - destruct (readFd_ok b d H) as (b' & ->); [done..|]. eauto.
Qed.

(** Round trips: an integer of 64, 32, 16 or 8 bits appended to a buffer is
    read back unchanged once the earlier content has been consumed, and one
    prepended in front of the content is read back at once, leaving the
    content. *)
Theorem buffer_int_roundtrip w b x :
  wf b -> - 2 ^ (width_bits w - 1) <= x < 2 ^ (width_bits w - 1) ->
  (writerIndex_ b + Z.of_nat (width_bytes w) <= max_size ->
   exists b1 b2 b3, append_int w b x = Ok b1 /\ retrieve b1 (zlen (content b)) = Ok b2 /\
     read_int w b2 = Ok (x, b3) /\ content b3 = []) /\
  (Z.of_nat (width_bytes w) <= prependableBytes b ->
   exists b1 b2, prepend_int w b x = Ok b1 /\ read_int w b1 = Ok (x, b2) /\
     content b2 = content b).
Proof.
  intros H Hx. pose proof (zlen_be_bytes (width_bytes w) x) as Hn. split; intros Hroom.
  - rewrite append_int_eq. destruct (H).
    destruct (append_ok b (be_bytes (width_bytes w) x) H) as (b1 & -> & Hb1 & Hc1 & _);
      [apply fits_room; lia|].
    pose proof (zlen_nonneg (content b)).
    destruct (retrieve_ok b1 (zlen (content b)) Hb1) as (b2 & E2 & Hb2 & Hc2).
    { rewrite <- content_readable, Hc1, zlen_app by done. lia. }
    rewrite Hc1, zdrop_app_ge, Z.sub_diag, zdrop_nonpos in Hc2 by lia.
    destruct (read_int_ok w b2 x [] Hb2) as (b3 & E3 & _ & Hc3); [by rewrite app_nil_r|done|].
    by exists b1, b2, b3.
  - rewrite prepend_int_eq.
    destruct (prepend_ok b (be_bytes (width_bytes w) x) H) as (b1 & -> & Hb1 & Hc1 & _); [lia|].
    destruct (read_int_ok w b1 x (content b) Hb1 Hc1 Hx) as (b2 & E2 & _ & Hc2).
    by exists b1, b2.
Qed.

(** [findCRLF] returns the first line end of the readable bytes: the two
    characters at the returned position are CR LF, both readable, no earlier
    readable position has them, and the null result means there is none. *)
Theorem buffer_findCRLF_first b :
  wf b ->
  match findCRLF b with
  | Some p => readerIndex_ b <= p /\ p + 2 <= writerIndex_ b /\
      zslice p (p + 2) (buffer_ b) = kCRLF /\
      forall q, readerIndex_ b <= q < p -> zslice q (q + 2) (buffer_ b) <> kCRLF
  | None => forall q, readerIndex_ b <= q -> q + 2 <= writerIndex_ b ->
      zslice q (q + 2) (buffer_ b) <> kCRLF
  end.
Proof.
  intros H. pose proof (zlen_content b H) as Hz. destruct (H).
  assert (forall i, 0 <= i -> i + 2 <= zlen (content b) ->
    zslice i (i + 2) (content b) = zslice (readerIndex_ b + i) (readerIndex_ b + i + 2) (buffer_ b))
    as Hsl.
  { intros i ? ?. unfold content. unfold zslice at 1.
    rewrite zdrop_zslice, ztake_zslice by lia. f_equal; lia. }
  pose proof (search_CRLF_spec (content b)) as Hs. unfold findCRLF.
  destruct (search_CRLF (content b)) as [i|]; cbn [fmap option_fmap option_map].
  - destruct Hs as (? & ? & Hs & Hmin). split_and!; [lia | lia | by rewrite <- Hsl |].
    intros q Hq. replace q with (readerIndex_ b + (q - readerIndex_ b)) by lia.
    rewrite <- Hsl by lia. apply Hmin. lia.
  - intros q ? ?. replace q with (readerIndex_ b + (q - readerIndex_ b)) by lia.
    rewrite <- Hsl by lia. apply Hs. lia.
Qed.

(** ** Witnesses *)

(** A small buffer: [abc] readable, CR LF after one more character. *)
Definition sample : Buffer :=
  mkBuffer (zreplicate 8 Byte.x00 ++ bytes_of "abc" ++ kCRLF ++ zreplicate 3 Byte.x00) 8 13.

Lemma sample_wf : wf sample.
Proof. split; vm_compute; split || idtac; discriminate. Qed.

Definition sample_ops : list op :=
  [OpAppend (bytes_of "0123456789"); OpPrepend (bytes_of "<");
   OpRetrieveAsString 3; OpReadFd (ReadvData (bytes_of "xyz")); OpUnwrite 1; OpRetrieve 2].

Lemma buffer_refines_queue_witness :
  exists outs b', run_all sample sample_ops = Ok (outs, b') /\
    queue_all (content sample) sample_ops = (outs, content b').
Proof.
  eexists _, _. split; [vm_compute; reflexivity|].
  apply (buffer_refines_queue sample sample_ops).
  - exact sample_wf.
  - vm_compute. repeat split; discriminate.
  - vm_compute. reflexivity.
Defined.

Lemma buffer_run_total_witness :
  exists out b', run sample (OpAppend (bytes_of "0123456789")) = Ok (out, b') /\ wf b'.
Proof.
  apply (buffer_run_total sample (OpAppend (bytes_of "0123456789")));
    [exact sample_wf | vm_compute; discriminate | vm_compute; discriminate].
Defined.

Lemma buffer_int_roundtrip_witness :
  exists b1 b2 b3, append_int W32 sample (-5) = Ok b1 /\
    retrieve b1 (zlen (content sample)) = Ok b2 /\
    read_int W32 b2 = Ok (-5, b3) /\ content b3 = [].
Proof.
  apply (buffer_int_roundtrip W32 sample (-5));
    [exact sample_wf | vm_compute; split; discriminate || reflexivity | vm_compute; discriminate].
Defined.

Lemma buffer_findCRLF_first_witness : findCRLF sample = Some 11 /\
  match findCRLF sample with
  | Some p => readerIndex_ sample <= p /\ p + 2 <= writerIndex_ sample /\
      zslice p (p + 2) (buffer_ sample) = kCRLF /\
      forall q, readerIndex_ sample <= q < p -> zslice q (q + 2) (buffer_ sample) <> kCRLF
  | None => forall q, readerIndex_ sample <= q -> q + 2 <= writerIndex_ sample ->
      zslice q (q + 2) (buffer_ sample) <> kCRLF
  end.
Proof. split; [vm_compute; reflexivity | apply (buffer_findCRLF_first sample sample_wf)]. Defined.

End Buffer.
