(* ===== verification/Date.v ===== *)
(** * Calendar dates (src/base/include/Date.h, src/base/src/Date.cc)

    Module [Date] holds the Julian day conversions in 32-bit [int] arithmetic,
    with every intermediate result checked for overflow, and their correctness
    against the Gregorian calendar. *)

From S2P Require Import Prelude Text.
#[local] Open Scope Z_scope.

Module Date.

(** [struct YearMonthDay]: an [int] and two [int8_t]. *)
Record YearMonthDay := mkYMD { year : Z; month : Z; day : Z }.

Definition kDaysPerWeek : Z := 7.

(** [detail::getJulianDayNumber].  [÷] is the division of C++, rounding towards
    zero; the list holds every result that an [int] has to hold. *)
Definition getJulianDayNumber (year month day : Z) : result Z :=
  let a := (14 - month) ÷ 12 in
  let y := year + 4800 - a in
  let m := month + 12 * a - 3 in
  let s1 := day + (153 * m + 2) ÷ 5 in
  let s2 := s1 + y * 365 in
  let s3 := s2 + y ÷ 4 in
  let s4 := s3 - y ÷ 100 in
  let s5 := s4 + y ÷ 400 in
  _ ← no_overflow 32 [14 - month; year + 4800; y; 12 * a; month + 12 * a; m; 153 * m;
        153 * m + 2; s1; y * 365; s2; s3; s4; s5; s5 - 32045];
  Ok (s5 - 32045).

(** [detail::getYearMonthDay]. *)
Definition getYearMonthDay (julianDayNumber : Z) : result YearMonthDay :=
  let a := julianDayNumber + 32044 in
  let b := (4 * a + 3) ÷ 146097 in
  let c := a - (b * 146097) ÷ 4 in
  let d := (4 * c + 3) ÷ 1461 in
  let e := c - (1461 * d) ÷ 4 in
  let m := (5 * e + 2) ÷ 153 in
  _ ← no_overflow 32 [a; 4 * a; 4 * a + 3; b * 146097; c; 4 * c; 4 * c + 3; 1461 * d; e;
        5 * e; 5 * e + 2; 153 * m; 153 * m + 2; e - (153 * m + 2) ÷ 5;
        e - (153 * m + 2) ÷ 5 + 1; 12 * (m ÷ 10); m + 3; m + 3 - 12 * (m ÷ 10);
        b * 100; b * 100 + d; b * 100 + d - 4800; b * 100 + d - 4800 + m ÷ 10];
  Ok (mkYMD (b * 100 + d - 4800 + m ÷ 10)
            (wraps 8 (m + 3 - 12 * (m ÷ 10)))
            (wraps 8 (e - (153 * m + 2) ÷ 5 + 1))).

(** [Date]: the day number is the whole state. *)
Record Date := mkDate { julianDayNumber_ : Z }.

Definition kJulianDayOf1970_01_01 : result Z := getJulianDayNumber 1970 1 1.

Definition default_date : Date := mkDate 0.
Definition of_ymd (year month day : Z) : result Date :=
  n ← getJulianDayNumber year month day; Ok (mkDate n).

(** The fields of [struct tm] that the constructor reads. *)
Definition of_tm (tm_year tm_mon tm_mday : Z) : result Date :=
  _ ← no_overflow 32 [tm_year + 1900; tm_mon + 1];
  n ← getJulianDayNumber (tm_year + 1900) (tm_mon + 1) tm_mday; Ok (mkDate n).

Definition valid (d : Date) : bool := 0 <? julianDayNumber_ d.
Definition yearMonthDay (d : Date) : result YearMonthDay := getYearMonthDay (julianDayNumber_ d).
Definition weekDay (d : Date) : result Z :=
  _ ← no_overflow 32 [julianDayNumber_ d + 1];
  Ok (wraps 8 (Z.rem (julianDayNumber_ d + 1) kDaysPerWeek)).

Definition swap (x y : Date) : Date * Date := (y, x).

(** [toIsoString] with its 32-byte buffer. *)
Definition toIsoString (d : Date) : result (list byte) :=
  ymd ← yearMonthDay d;
  Ok (Text.snprintf 32
        (Text.decimal0 4 (year ymd) ++ bytes_of "-" ++ Text.decimal0 2 (month ymd) ++
         bytes_of "-" ++ Text.decimal0 2 (day ymd))).

(** ** The Gregorian calendar *)

Definition is_leap (y : Z) : bool :=
  (y mod 4 =? 0) && (negb (y mod 100 =? 0) || (y mod 400 =? 0)).

Definition days_in_month (y m : Z) : Z :=
  if m =? 2 then (if is_leap y then 29 else 28)
  else if (m =? 4) || (m =? 6) || (m =? 9) || (m =? 11) then 30 else 31.

Definition valid_ymd (d : YearMonthDay) : bool :=
  (1 <=? month d) && (month d <=? 12) && (1 <=? day d) && (day d <=? days_in_month (year d) (month d)).

(** The day after. *)
Definition next_day (d : YearMonthDay) : YearMonthDay :=
  if day d <? days_in_month (year d) (month d) then mkYMD (year d) (month d) (day d + 1)
  else if month d <? 12 then mkYMD (year d) (month d + 1) 1
  else mkYMD (year d + 1) 1 1.

(** The years for which neither conversion overflows an [int]. *)
Definition year_min : Z := -4799.
Definition year_max : Z := 1400000.

(** The day numbers of these years. *)
Definition jdn_min : Z := -31678.
Definition jdn_max : Z := 512700000.

(** ** Lemmas *)

Lemma leap_iff y :
  is_leap y = true <-> y mod 4 = 0 /\ (y mod 100 <> 0 \/ y mod 400 = 0).
Proof.
  unfold is_leap. rewrite andb_true_iff, orb_true_iff, negb_true_iff, !Z.eqb_eq, Z.eqb_neq.
  done.
Qed.

(** Day of the year counted from March 1st, in the 12 cases. *)
Lemma month_cases (P : Z -> Prop) :
  P 1 -> P 2 -> P 3 -> P 4 -> P 5 -> P 6 -> P 7 -> P 8 -> P 9 -> P 10 -> P 11 -> P 12 ->
  forall m, 1 <= m <= 12 -> P m.
Proof.
  intros. assert (m = 1 \/ m = 2 \/ m = 3 \/ m = 4 \/ m = 5 \/ m = 6 \/ m = 7 \/ m = 8 \/
    m = 9 \/ m = 10 \/ m = 11 \/ m = 12) as Hm by lia.
  by repeat (destruct Hm as [->|Hm] || subst m).
Qed.

(** The year from March 1st and the day in it. *)
Definition march_year (d : YearMonthDay) : Z :=
  if month d <=? 2 then year d + 4799 else year d + 4800.
Definition march_month (d : YearMonthDay) : Z :=
  if month d <=? 2 then month d + 9 else month d - 3.
Definition march_day (d : YearMonthDay) : Z := day d - 1 + (153 * march_month d + 2) / 5.

(** Day number of a March-based year and day. *)
Definition jdn_of (y doy : Z) : Z := doy + 365 * y + y / 4 - y / 100 + y / 400 - 32044.

Ltac to_div := repeat (rewrite Z.quot_div_nonneg in * by lia).

Lemma getJulianDayNumber_eq d :
  valid_ymd d = true -> year_min <= year d <= year_max ->
  getJulianDayNumber (year d) (month d) (day d) = Ok (jdn_of (march_year d) (march_day d)).
Proof.
  unfold valid_ymd, year_min, year_max. intros Hv Hy. zprop.
  assert (day d <= 31) as Hd31.
  { unfold days_in_month in *. repeat case_match; lia. }
  unfold getJulianDayNumber, march_day, march_year, march_month, jdn_of.
  assert ((14 - month d) ÷ 12 = if month d <=? 2 then 1 else 0) as ->.
  { zcase (month d <=? 2); div_lia. }
  set (y := year d + 4800 - _). set (m := month d + _ - 3).
  assert (0 <= y) by (subst y; zcase (month d <=? 2); lia).
  assert (0 <= m <= 11) by (subst m; zcase (month d <=? 2); lia).
  to_div.
  assert (0 <= y / 4 <= y) by (split; [apply Z.div_pos; lia | apply Z.div_le_upper_bound; lia]).
  assert (0 <= y / 100 <= y) by (split; [apply Z.div_pos; lia | apply Z.div_le_upper_bound; lia]).
  assert (0 <= y / 400 <= y) by (split; [apply Z.div_pos; lia | apply Z.div_le_upper_bound; lia]).
  assert (0 <= (153 * m + 2) / 5 <= 400) by (split; [apply Z.div_pos; lia | apply Z.div_le_upper_bound; lia]).
  rewrite no_overflow_ok, bind_ok.
  - f_equal. subst y m. zcase (month d <=? 2).
    + replace (month d + 12 * 1 - 3) with (month d + 9) by lia.
      replace (year d + 4800 - 1) with (year d + 4799) by lia. lia.
    + replace (month d + 12 * 0 - 3) with (month d - 3) by lia.
      replace (year d + 4800 - 0) with (year d + 4800) by lia. lia.
  - repeat constructor; try (zcase (month d <=? 2); subst y m; lia).
Qed.

(** The century, the year of the century and the day of the year that the
    inverse conversion recovers. *)
Lemma century_steps y doy :
  0 <= y -> 0 <= doy <= 365 -> (doy = 365 -> is_leap (y + 1) = true) ->
  let a := jdn_of y doy + 32044 in
  let b := (4 * a + 3) / 146097 in
  let c := a - (b * 146097) / 4 in
  let d := (4 * c + 3) / 1461 in
  b = y / 100 /\ d = y mod 100 /\ c - (1461 * d) / 4 = doy.
Proof.
  intros Hy Hdoy Hleap a b c d.
  assert (doy = 365 -> (y + 1) mod 4 = 0 /\ ((y + 1) mod 100 <> 0 \/ (y + 1) mod 400 = 0)) as Hl
    by (intros E; by apply leap_iff, Hleap).
  clear Hleap.
  assert (a = doy + 365 * y + y / 4 - y / 100 + y / 400) as Ea by (subst a; unfold jdn_of; lia).
  clearbody a. revert Ea Hl b c d.
  set (B := y / 100). set (D := y mod 100). set (Q := y / 400).
  assert (y = 100 * B + D /\ 0 <= D < 100) as [Ey HD] by (subst B D; div_lia).
  assert (0 <= B - 4 * Q <= 3) as HQ by (subst B Q; div_lia).
  assert (y / 4 = 25 * B + D / 4) as -> by (subst B D; div_lia).
  set (K := D / 4). assert (0 <= D - 4 * K <= 3) as HK by (subst K; div_lia).
  intros Ea Hl b c d.
  assert (doy = 365 -> D - 4 * K = 3 /\ (D = 99 -> B - 4 * Q = 3)) as Hl2.
  { intros E. destruct (Hl E) as [H4 H100]. clear Hl b c d Ea.
    rewrite Ey in *. clearbody B D.
    split; [subst K; div_lia|]. intros E99.
    destruct H100 as [H100|H400]; [exfalso; div_lia | subst Q; div_lia]. }
  clear Hl. clearbody B D Q K.
  assert (b = B) as Eb.
  { symmetry. apply Z.div_unique with (4 * (365 * D + K + doy) + 3 - (B - 4 * Q)); lia. }
  assert (c = 365 * D + K + doy) as Ec.
  { subst c. rewrite Eb. replace (B * 146097 / 4) with (36524 * B + Q); [lia|].
    apply Z.div_unique with (B - 4 * Q); lia. }
  assert (d = D) as Ed.
  { symmetry. apply Z.div_unique with (4 * doy + 3 - (D - 4 * K)); lia. }
  split_and!; [done..|]. rewrite Ec, Ed.
  replace (1461 * D / 4) with (365 * D + K); [lia|]. apply Z.div_unique with (D - 4 * K); lia.
Qed.

(** What the inverse conversion returns for a March-based date. *)
Definition march_ymd (y doy : Z) : YearMonthDay :=
  let m := (5 * doy + 2) / 153 in
  mkYMD (y - 4800 + m / 10) (m + 3 - 12 * (m / 10)) (doy - (153 * m + 2) / 5 + 1).

Lemma getYearMonthDay_eq y doy :
  0 <= y <= year_max + 4800 -> 0 <= doy <= 365 -> (doy = 365 -> is_leap (y + 1) = true) ->
  getYearMonthDay (jdn_of y doy) = Ok (march_ymd y doy).
Proof.
  intros Hy Hdoy Hleap.
  pose proof (century_steps y doy ltac:(lia) Hdoy Hleap) as (Eb & Ed & Ee).
  unfold year_max in Hy.
  assert (0 <= jdn_of y doy + 32044 <= 366 * y + 365) as Ha by (unfold jdn_of; div_lia).
  unfold getYearMonthDay.
  set (a := jdn_of y doy + 32044) in *. clearbody a.
  assert (0 <= y / 100 <= 14048 /\ 0 <= y mod 100 < 100 /\ y = 100 * (y / 100) + y mod 100)
    as (HB & HD & Ey) by div_lia.
  rewrite (Z.quot_div_nonneg (4 * a + 3)) by lia. rewrite Eb in *.
  rewrite (Z.quot_div_nonneg (_ * 146097)) by lia.
  set (c := a - _) in *.
  assert (0 <= c <= 1000000) as Hc by (clear Ey; div_lia).
  rewrite (Z.quot_div_nonneg (4 * c + 3)) by lia. rewrite Ed in *.
  rewrite (Z.quot_div_nonneg (1461 * _)) by lia. rewrite Ee.
  assert (0 <= (5 * doy + 2) / 153 <= 11) as Hm by div_lia.
  rewrite (Z.quot_div_nonneg (5 * doy + 2)) by lia.
  set (m := (5 * doy + 2) / 153) in *.
  assert (0 <= m / 10 <= 1 /\ 0 <= (153 * m + 2) / 5 <= 337) as [Hm10 Hm5] by div_lia.
  assert (-2 <= doy - (153 * m + 2) / 5 <= 40) as Hday by (subst m; div_lia).
  rewrite !(Z.quot_div_nonneg m), !(Z.quot_div_nonneg (153 * m + 2)) by lia.
  rewrite no_overflow_ok, bind_ok.
  - rewrite !wraps_small by lia. unfold march_ymd. fold m. do 2 f_equal; lia.
  - repeat constructor; lia.
Qed.

Lemma valid_ymd_iff d :
  valid_ymd d = true <->
  1 <= month d <= 12 /\ 1 <= day d <= days_in_month (year d) (month d).
Proof. unfold valid_ymd. rewrite !andb_true_iff, !Z.leb_le. lia. Qed.

(** The calendar repeats after 400 years. *)
Lemma is_leap_4800 y : is_leap (y + 4800) = is_leap y.
Proof.
  apply eq_true_iff_eq. rewrite !leap_iff.
  replace ((y + 4800) mod 4) with (y mod 4) by div_lia.
  replace ((y + 4800) mod 100) with (y mod 100) by div_lia.
  replace ((y + 4800) mod 400) with (y mod 400) by div_lia. done.
Qed.

(** A valid date is given back by its March-based form. *)
Lemma march_ymd_of d :
  valid_ymd d = true -> year_min <= year d ->
  0 <= march_year d /\ 0 <= march_day d <= 365 /\
  (march_day d = 365 -> is_leap (march_year d + 1) = true) /\
  march_ymd (march_year d) (march_day d) = d.
Proof.
  rewrite valid_ymd_iff. destruct d as [y m d]. unfold year_min. cbn [year month day].
  intros [Hm Hd] Hy.
  unfold march_ymd, march_day, march_year, march_month; cbn [year month day].
  revert m Hm y d Hy Hd.
  apply (month_cases (fun m => forall y d, -4799 <= y -> 1 <= d <= days_in_month y m -> _));
    intros y d Hy Hd; unfold days_in_month in Hd; simpl in Hd |- *;
    try (destruct (is_leap y) eqn:El);
    (split_and!; [lia | div_lia.. | intros E | f_equal; div_lia]);
    try (exfalso; div_lia);
    replace (y + 4799 + 1) with (y + 4800) by lia; rewrite is_leap_4800; done.
Qed.

(** Conversely a March-based day is a valid date. *)
Lemma march_ymd_valid y doy :
  0 <= y -> 0 <= doy <= 365 -> (doy = 365 -> is_leap (y + 1) = true) ->
  valid_ymd (march_ymd y doy) = true /\
  march_year (march_ymd y doy) = y /\ march_day (march_ymd y doy) = doy.
Proof.
  intros Hy Hdoy Hleap. rewrite valid_ymd_iff.
  unfold march_ymd, march_day, march_year, march_month; cbn [year month day].
  set (m := (5 * doy + 2) / 153).
  assert (153 * m <= 5 * doy + 2 < 153 * m + 153) as Hm by (subst m; div_lia).
  clearbody m.
  assert (m = 0 \/ m = 1 \/ m = 2 \/ m = 3 \/ m = 4 \/ m = 5 \/ m = 6 \/ m = 7 \/ m = 8 \/
    m = 9 \/ m = 10 \/ m = 11) as Hcases by lia.
  assert (is_leap (y - 4800 + 1) = is_leap (y + 1)) as El
    by (rewrite <- (is_leap_4800 (y - 4800 + 1)); f_equal; lia).
  repeat (destruct Hcases as [->|Hcases] || subst m); unfold days_in_month; simpl;
    change (10 / 10) with 1; change (11 / 10) with 1;
    rewrite ?El; try (destruct (is_leap (y + 1)));
    try (assert (doy <> 365) by (intros ->; discriminate (Hleap eq_refl)));
    clear Hleap El; split_and!; div_lia.
Qed.

(** Every day number of the range is a March-based day. *)
Lemma jdn_of_surjective n :
  jdn_min <= n -> exists y doy, 0 <= y /\ 0 <= doy <= 365 /\
    (doy = 365 -> is_leap (y + 1) = true) /\ jdn_of y doy = n.
Proof.
  unfold jdn_min. intros Hn. set (a := n + 32044).
  set (B := (4 * a + 3) / 146097). set (Q := B / 4).
  assert (0 <= B /\ 0 <= B - 4 * Q <= 3) as [HB HQ] by (subst B Q a; div_lia).
  set (c := a - 36524 * B - Q).
  assert (0 <= 4 * c + 3 - (B - 4 * Q) < 146097) as Hc.
  { subst c. assert (146097 * B <= 4 * a + 3 < 146097 * B + 146097) by (subst B; div_lia). lia. }
  set (D := (4 * c + 3) / 1461). set (K := D / 4).
  assert (1461 * D <= 4 * c + 3 < 1461 * D + 1461) as HD by (subst D; div_lia).
  assert (4 * K <= D < 4 * K + 4) as HK by (subst K; div_lia).
  assert (y4 : (100 * B + D) / 4 = 25 * B + K) by (subst K; div_lia).
  assert (0 <= D <= 99) as HD99 by lia.
  assert (y100 : (100 * B + D) / 100 = B) by div_lia.
  assert (y400 : (100 * B + D) / 400 = Q) by (subst Q; div_lia).
  exists (100 * B + D), (c - 365 * D - K).
  clearbody D K. assert (a = c + 36524 * B + Q) as Ea by (subst c; lia). clearbody c Q B.
  split_and!; [lia | lia | lia | |].
  - intros E. apply leap_iff. assert (D - 4 * K = 3) as E3 by lia.
    split; [div_lia|]. destruct (decide (D = 99)); [right | left]; [|div_lia].
    assert (B - 4 * Q = 3) by lia. div_lia.
  - unfold jdn_of. rewrite y4, y100, y400. subst a. lia.
Qed.

Lemma jdn_of_bound y doy : 0 <= y -> 0 <= doy -> 365 * y - 32044 <= jdn_of y doy.
Proof. intros. unfold jdn_of. div_lia. Qed.

(** The conversion of a valid date, and its inverse. *)
Lemma jdn_valid d :
  valid_ymd d = true -> year_min <= year d <= year_max ->
  exists n, getJulianDayNumber (year d) (month d) (day d) = Ok n /\
    getYearMonthDay n = Ok d /\ n = jdn_of (march_year d) (march_day d).
Proof.
  intros Hv Hy. destruct (march_ymd_of d Hv) as (? & ? & ? & Hd); [lia|].
  exists (jdn_of (march_year d) (march_day d)).
  rewrite getJulianDayNumber_eq, getYearMonthDay_eq, Hd by (done ||
    (unfold march_year, year_min, year_max in *; zcase (month d <=? 2); lia)). done.
Qed.

(** March 1st follows the last day of February. *)
Lemma february_end y :
  jdn_of (y + 4800) 0 = jdn_of (y + 4799) (if is_leap y then 365 else 364) + 1.
Proof.
  unfold jdn_of. destruct (is_leap y) eqn:E.
  - apply leap_iff in E. destruct E as [? [?|?]]; div_lia.
  - assert (~ (y mod 4 = 0 /\ (y mod 100 <> 0 \/ y mod 400 = 0))) as Hn
      by (rewrite <- leap_iff, E; done).
    destruct (decide (y mod 4 = 0)); [|div_lia].
    assert (y mod 100 = 0 /\ y mod 400 <> 0) as [? ?] by lia. div_lia.
Qed.

Lemma jdn_of_S y doy : jdn_of y (doy + 1) = jdn_of y doy + 1.
Proof. unfold jdn_of. lia. Qed.

(** The March-based form of the next day. *)
Lemma next_day_march d :
  valid_ymd d = true ->
  valid_ymd (next_day d) = true /\
  jdn_of (march_year (next_day d)) (march_day (next_day d)) =
  jdn_of (march_year d) (march_day d) + 1.
Proof.
  rewrite !valid_ymd_iff. destruct d as [y m d]. cbn [year month day].
  intros [Hm Hd]. revert m Hm y d Hd.
  apply (month_cases (fun m => forall y d, 1 <= d <= days_in_month y m -> _));
    intros y d Hd; unfold next_day; cbn [year month day];
    match goal with |- context [d <? ?x] => zcase (d <? x) end;
    unfold days_in_month, march_year, march_day, march_month in *;
    simpl in *; (split; [try (destruct (is_leap y)); lia|]);
    try (rewrite <- jdn_of_S; f_equal; div_lia).
  pose proof (february_end y) as Hf. transitivity (jdn_of (y + 4800) 0); [f_equal; div_lia|].
  rewrite Hf. do 2 f_equal. destruct (is_leap y); div_lia.
Qed.

(** The inverse conversion yields the valid date of its argument. *)
Lemma jdn_inverse n :
  jdn_min <= n <= jdn_max -> exists d, getYearMonthDay n = Ok d /\ valid_ymd d = true /\
    getJulianDayNumber (year d) (month d) (day d) = Ok n.
Proof.
  intros Hn. destruct (jdn_of_surjective n) as (y & doy & Hy & Hdoy & Hl & En); [lia|].
  destruct (march_ymd_valid y doy Hy Hdoy Hl) as (Hv & Ey & Ed).
  pose proof (jdn_of_bound y doy Hy ltac:(lia)) as Hb. unfold jdn_max in Hn.
  exists (march_ymd y doy). split; [|split; [done|]].
  - rewrite <- En. apply getYearMonthDay_eq; unfold year_max; lia || done.
  - rewrite getJulianDayNumber_eq, Ey, Ed, En; [done..|].
    assert (1 <= y) by (unfold jdn_min in Hn; assert (y <> 0) by (intros ->; unfold jdn_of in En; div_lia); lia).
    unfold march_year in Ey. unfold year_min, year_max. zcase (month (march_ymd y doy) <=? 2); lia.
Qed.

(** ** Properties *)

(** [C29] Round trip: for every valid Gregorian date of the years in range, the
    conversion to a Julian day number overflows nothing and the inverse
    conversion gives the date back. *)
Theorem date_roundtrip d :
  valid_ymd d = true -> year_min <= year d <= year_max ->
  exists n, getJulianDayNumber (year d) (month d) (day d) = Ok n /\ getYearMonthDay n = Ok d.
Proof. intros Hv Hy. destruct (jdn_valid d Hv Hy) as (n & ? & ? & _). eauto. Qed.

(** Conversely every day number of the range is turned, without overflow,
    into a valid date, and that date is converted back to the number. *)
Theorem date_inverse n :
  jdn_min <= n <= jdn_max -> exists d, getYearMonthDay n = Ok d /\ valid_ymd d = true /\
    getJulianDayNumber (year d) (month d) (day d) = Ok n.
Proof. apply jdn_inverse. Qed.

(** Julian day numbers count the days of the Gregorian calendar: the day
    after a valid date, across month ends, leap days and year ends, has the
    next number, and its [weekDay] is the next one of the week. *)
Theorem date_next_day d :
  valid_ymd d = true -> year_min <= year d < year_max ->
  exists n w, of_ymd (year d) (month d) (day d) = Ok (mkDate n) /\
    of_ymd (year (next_day d)) (month (next_day d)) (day (next_day d)) = Ok (mkDate (n + 1)) /\
    (0 <= n -> weekDay (mkDate n) = Ok w /\ 0 <= w < 7 /\
               weekDay (mkDate (n + 1)) = Ok ((w + 1) mod 7)).
Proof.
  intros Hv Hy. destruct (next_day_march d Hv) as [Hv' Hn].
  destruct (jdn_valid d Hv) as (n & E & _ & En); [lia|].
  destruct (jdn_valid (next_day d) Hv') as (n' & E' & _ & En').
  { unfold next_day. repeat case_match; cbn [year]; lia. }
  rewrite Hn, <- En in En'. subst n'.
  exists n, ((n + 1) mod 7). unfold of_ymd. rewrite E, E', !bind_ok. split_and!; [done..|].
  intros Hpos. assert (n <= 514000000) as Hle.
  { rewrite En. pose proof (march_ymd_of d Hv ltac:(lia)) as (? & ? & _).
    assert (march_year d <= 1404799) by (unfold march_year, year_max in *; zcase (month d <=? 2); lia).
    unfold jdn_of. div_lia. }
  unfold weekDay, kDaysPerWeek; cbn [julianDayNumber_].
  rewrite !no_overflow_ok, !bind_ok by (repeat constructor; lia).
  rewrite !Z.rem_mod_nonneg by lia.
  pose proof (Z.mod_pos_bound (n + 1) 7 ltac:(lia)).
  pose proof (Z.mod_pos_bound (n + 1 + 1) 7 ltac:(lia)). rewrite !wraps_small by lia.
  split; [done|]. split; [apply Z.mod_pos_bound; lia|]. by rewrite Zplus_mod_idemp_l.
Qed.

(** ** Witnesses *)

Lemma date_roundtrip_witness : exists n,
  getJulianDayNumber 2024 2 29 = Ok n /\ getYearMonthDay n = Ok (mkYMD 2024 2 29).
Proof.
  apply (date_roundtrip (mkYMD 2024 2 29)); [reflexivity | vm_compute; split; discriminate].
Defined.

Lemma date_inverse_witness : exists d, getYearMonthDay 2440588 = Ok d /\ valid_ymd d = true /\
  getJulianDayNumber (year d) (month d) (day d) = Ok 2440588.
Proof. apply (date_inverse 2440588). vm_compute; split; discriminate. Defined.

Lemma date_next_day_witness : exists n w,
  of_ymd 1999 12 31 = Ok (mkDate n) /\ of_ymd 2000 1 1 = Ok (mkDate (n + 1)) /\
  (0 <= n -> weekDay (mkDate n) = Ok w /\ 0 <= w < 7 /\
             weekDay (mkDate (n + 1)) = Ok ((w + 1) mod 7)).
Proof.
  apply (date_next_day (mkYMD 1999 12 31)); [reflexivity | vm_compute; split; discriminate || reflexivity].
Defined.

Example epoch_jdn : kJulianDayOf1970_01_01 = Ok 2440588.
Proof. vm_compute. reflexivity. Qed.

Example iso_string : (d ← of_ymd 1970 1 1; toIsoString d) = Ok (bytes_of "1970-01-01").
Proof. vm_compute. reflexivity. Qed.

End Date.
