(* ===== verification/TimeZone.v ===== *)
(** * Time zones (src/base/include/TimeZone.h, src/base/src/TimeZone.cc)

    Module [TimeZone] holds the broken-down time conversions, the TZif reader
    and the two searches of the transition table. *)

From S2P Require Import Prelude Endian Text Date.

Module TimeZone.

Record DateTime := mkDateTime {
  dt_year : Z; dt_month : Z; dt_day : Z; dt_hour : Z; dt_minute : Z; dt_second : Z
}.

Definition default_DateTime : DateTime := mkDateTime 0 0 0 0 0 0.

Record Transition := mkTransition { utc_time : Z; local_time : Z; local_time_index : Z }.
Record LocalTime := mkLocalTime { utc_offset : Z; is_dst : bool; index : Z }.

Record Data := mkData {
  transitions : list Transition;
  local_times : list LocalTime;
  abbreviation : list byte;
  time_zone_string : list byte
}.

Definition empty_Data : Data := mkData [] [] [] [].

Definition addLocalTime (d : Data) (offset : Z) (dst : bool) (idx : Z) : Data :=
  mkData (transitions d) (local_times d ++ [mkLocalTime offset dst idx])
         (abbreviation d) (time_zone_string d).

(** [local_times.at(i)] throws out of range; [local_times[i]] is undefined. *)
Definition at_ {A} (l : list A) (i : Z) : result A :=
  if i <? 0 then Err (Exception "std::out_of_range") else
  match l !! Z.to_nat i with Some a => Ok a | None => Err (Exception "std::out_of_range") end.
Definition nth_ {A} (l : list A) (i : Z) : result A :=
  if i <? 0 then Err UndefinedBehaviour else
  match l !! Z.to_nat i with Some a => Ok a | None => Err UndefinedBehaviour end.

Definition addTransition (d : Data) (utc : Z) (idx : Z) : result Data :=
  lt ← at_ (local_times d) (wrapu 64 idx);
  _ ← no_overflow 64 [utc + utc_offset lt];
  Ok (mkData (transitions d ++ [mkTransition utc (utc + utc_offset lt) (wraps 32 (wrapu 64 idx))])
             (local_times d) (abbreviation d) (time_zone_string d)).

Definition kSecondsPerDay : Z := 24 * 60 * 60.

(** ** Broken-down time *)

(** [fillHMS]: the number of minutes goes through an [int8_t]. *)
Definition fillHMS (seconds : Z) (dt : DateTime) : DateTime :=
  let second := wraps 8 (Z.rem seconds 60) in
  let minutes := wraps 8 (seconds ÷ 60) in
  mkDateTime (dt_year dt) (dt_month dt) (dt_day dt)
    (wraps 8 (minutes ÷ 60)) (wraps 8 (Z.rem minutes 60)) second.

Definition BreakTime (t : Z) : result DateTime :=
  let seconds0 := wraps 32 (Z.rem t kSecondsPerDay) in
  let days0 := wraps 32 (t ÷ kSecondsPerDay) in
  let seconds := if seconds0 <? 0 then seconds0 + kSecondsPerDay else seconds0 in
  let days := if seconds0 <? 0 then days0 - 1 else days0 in
  k ← Date.kJulianDayOf1970_01_01;
  _ ← no_overflow 32 [seconds; days; days + k];
  ymd ← Date.yearMonthDay (Date.mkDate (days + k));
  let dt := fillHMS seconds default_DateTime in
  Ok (mkDateTime (Date.year ymd) (Date.month ymd) (Date.day ymd)
        (dt_hour dt) (dt_minute dt) (dt_second dt)).

Definition fromUTCTime (dt : DateTime) : result Z :=
  date ← Date.of_ymd (dt_year dt) (dt_month dt) (dt_day dt);
  let secondsInDay := dt_hour dt * 3600 + dt_minute dt * 60 + dt_second dt in
  k ← Date.kJulianDayOf1970_01_01;
  let days := Date.julianDayNumber_ date - k in
  _ ← no_overflow 32 [dt_hour dt * 3600; dt_minute dt * 60;
        dt_hour dt * 3600 + dt_minute dt * 60; secondsInDay; days];
  _ ← no_overflow 64 [days * kSecondsPerDay; days * kSecondsPerDay + secondsInDay];
  Ok (days * kSecondsPerDay + secondsInDay).

Definition toUTCTime (secondsSinceEpoch : Z) : result DateTime := BreakTime secondsSinceEpoch.

Definition toIsoString (dt : DateTime) : list byte :=
  Text.snprintf 64
    (Text.decimal0 4 (dt_year dt) ++ bytes_of "-" ++ Text.decimal0 2 (dt_month dt) ++
     bytes_of "-" ++ Text.decimal0 2 (dt_day dt) ++ bytes_of " " ++
     Text.decimal0 2 (dt_hour dt) ++ bytes_of ":" ++ Text.decimal0 2 (dt_minute dt) ++
     bytes_of ":" ++ Text.decimal0 2 (dt_second dt)).

(** [DateTime(const struct tm &)]: the years of a [tm] count from 1900, the months
    from 0. *)
Definition DateTime_of_tm (tm_year tm_mon tm_mday tm_hour tm_min tm_sec : Z) : result DateTime :=
  _ ← no_overflow 32 [tm_year + 1900; tm_mon + 1];
  Ok (mkDateTime (tm_year + 1900) (wraps 8 (tm_mon + 1)) (wraps 8 tm_mday) (wraps 8 tm_hour) (wraps 8 tm_min)
    (wraps 8 tm_sec)).

(** ** Searching the transition table *)

(** [std::upper_bound]. The standard gives its result only on a range that [p]
    partitions, and a file may hold transitions out of order; this is the search as
    libstdc++ writes it, which halves the range whatever it holds: [len] elements from
    [first] on are left, and the middle one decides which half is kept. The range
    gets shorter at each step, so [length l] steps are enough. *)
Fixpoint upper_bound_from {A} (fuel : nat) (p : A -> bool) (l : list A) (first len : nat) : nat :=
  match fuel, len with
  | S fuel', S _ =>
      let half := Nat.div2 len in
      match l !! (first + half)%nat with
      | Some a => if p a then upper_bound_from fuel' p l first half
                  else upper_bound_from fuel' p l (first + half + 1) (len - half - 1)
      | None => first
      end
  | _, _ => first
  end.
Definition upper_bound {A} (p : A -> bool) (l : list A) : nat :=
  upper_bound_from (length l) p l 0 (length l).

(** [findLocalTime(int64_t utcTime)]. *)
Definition findLocalTime (d : Data) (utcTime : Z) : result LocalTime :=
  match transitions d with
  | [] => nth_ (local_times d) 0
  | front :: _ =>
      if utcTime <? utc_time front then nth_ (local_times d) 0
      else
        let i := upper_bound (fun tr => utcTime <? utc_time tr) (transitions d) in
        _ ← assert_ (negb (Nat.eqb i 0));
        if negb (Nat.eqb i (length (transitions d))) then
          transI ← nth_ (transitions d) (Z.of_nat i - 1);
          nth_ (local_times d) (local_time_index transI)
        else
          back ← nth_ (transitions d) (Z.of_nat (length (transitions d)) - 1);
          nth_ (local_times d) (local_time_index back)
  end.

(** [findLocalTime(const DateTime &, bool)], from the point where [localtime]
    is known. *)
Definition findLocalTime_local (d : Data) (localtime : Z) (postTransition : bool)
  : result LocalTime :=
  match transitions d with
  | [] => nth_ (local_times d) 0
  | front :: _ =>
      if localtime <? local_time front then nth_ (local_times d) 0
      else
        let i := upper_bound (fun tr => localtime <? local_time tr) (transitions d) in
        _ ← assert_ (negb (Nat.eqb i 0));
        if Nat.eqb i (length (transitions d)) then
          back ← nth_ (transitions d) (Z.of_nat (length (transitions d)) - 1);
          nth_ (local_times d) (local_time_index back)
        else
          transI ← nth_ (transitions d) (Z.of_nat i);
          prior_trans ← nth_ (transitions d) (Z.of_nat i - 1);
          prior_local ← nth_ (local_times d) (local_time_index prior_trans);
          _ ← no_overflow 64 [utc_time transI - 1; utc_time transI - 1 + utc_offset prior_local];
          let prior_second := utc_time transI - 1 + utc_offset prior_local in
          if prior_second <? localtime then
            if postTransition then nth_ (local_times d) (local_time_index transI)
            else nth_ (local_times d) (local_time_index prior_trans)
          else
            transJ ← nth_ (transitions d) (Z.of_nat i - 1);
            '(prior_trans2, prior_second2) ←
              (if Nat.eqb (i - 1) 0 then Ok (prior_trans, prior_second)
               else
                 pt ← nth_ (transitions d) (Z.of_nat i - 2);
                 pl ← nth_ (local_times d) (local_time_index pt);
                 _ ← no_overflow 64 [utc_time transJ - 1; utc_time transJ - 1 + utc_offset pl];
                 Ok (pt, utc_time transJ - 1 + utc_offset pl));
            if localtime <=? prior_second2 then
              if postTransition then nth_ (local_times d) (local_time_index transJ)
              else nth_ (local_times d) (local_time_index prior_trans2)
            else nth_ (local_times d) (local_time_index transJ)
  end.

Definition findLocalTime_DateTime (d : Data) (lt : DateTime) (postTransition : bool)
  : result LocalTime :=
  localtime ← fromUTCTime lt; findLocalTime_local d localtime postTransition.

(** ** The class: [data_] is null for an invalid zone *)

Definition TimeZone : Type := option Data.

Definition valid (tz : TimeZone) : bool := match tz with Some _ => true | None => false end.

Definition fixed (eastOfUtc : Z) (name : list byte) : TimeZone :=
  let d := addLocalTime empty_Data eastOfUtc false 0 in
  Some (mkData (transitions d) (local_times d) name (time_zone_string d)).

Definition UTC : TimeZone := fixed 0 (bytes_of "UTC").

(** The local time and the offset written through [utc_offset]. *)
Definition toLocalTime (tz : TimeZone) (seconds : Z) : result (DateTime * Z) :=
  match tz with
  | None => Err AssertFailure
  | Some d =>
      local ← findLocalTime d seconds;
      _ ← no_overflow 64 [seconds + utc_offset local];
      dt ← BreakTime (seconds + utc_offset local);
      Ok (dt, utc_offset local)
  end.

Definition fromLocalTime (tz : TimeZone) (localtime : DateTime) (postTransition : bool) : result Z :=
  match tz with
  | None => Err AssertFailure
  | Some d =>
      local ← findLocalTime_DateTime d localtime postTransition;
      localSeconds ← fromUTCTime localtime;
      _ ← no_overflow 64 [localSeconds - utc_offset local];
      Ok (localSeconds - utc_offset local)
  end.

(** ** Reading TZif files *)

(** [detail::File]: the bytes of an open file and the position in it. *)
Record File := mkFile { contents : list byte; pos : Z }.

(** [fread] of at most [n] bytes. *)
Definition fread (f : File) (n : Z) : list byte * File :=
  let d := ztake n (zdrop (pos f) (contents f)) in
  (d, mkFile (contents f) (pos f + zlen d)).

(** [fread] of exactly [n] bytes, or [std::logic_error]. *)
Definition fread_exactly (what : string) (n : Z) (f : File) : result (list byte * File) :=
  let '(d, f') := fread f n in
  if zlen d =? n then Ok (d, f') else Err (Exception what).

(** The C string at the start of a buffer: the characters before the first
    NUL, and whether there is one. *)
Fixpoint c_string (l : list byte) : list byte * bool :=
  match l with
  | [] => ([], false)
  | b :: l' => if bool_decide (b = Byte.x00) then ([], true)
               else let '(s, z) := c_string l' in (b :: s, z)
  end.

Section Reader.

(** What the conversion of [buf.data()] to a [std::string] makes of the memory
    behind the buffer when the buffer holds no NUL: undefined by the language;
    [Ok s] when the allocator left the characters [s] and a NUL there. *)
Context (overread : result (list byte)).

Definition readBytes (n : Z) (f : File) : result (list byte * File) :=
  if n <? 0 then Err (Exception "std::length_error") else
  '(d, f') ← fread_exactly "no enough data" n f;
  match c_string d with
  | (s, true) => Ok (s, f')
  | (s, false) => tail ← (if n =? 0 then Err UndefinedBehaviour else overread); Ok (s ++ tail, f')
  end.

Definition readToEnd (f : File) : list byte * File :=
  (zdrop (pos f) (contents f), mkFile (contents f) (Z.max (pos f) (zlen (contents f)))).

Definition readInt64 (f : File) : result (Z * File) :=
  '(d, f') ← fread_exactly "bad int64_t data" 8 f;
  Ok (wraps 64 (networkToHost64 (wrapu 64 (wraps 64 (le_value d)))), f').
Definition readInt32 (f : File) : result (Z * File) :=
  '(d, f') ← fread_exactly "bad int32_t data" 4 f;
  Ok (wraps 32 (networkToHost32 (wrapu 32 (wraps 32 (le_value d)))), f').
Definition readUInt8 (f : File) : result (Z * File) :=
  '(d, f') ← fread_exactly "bad uint8_t data" 1 f; Ok (le_value d, f').

(** [fseek(_, bytes, SEEK_CUR)]: moving before the start fails. *)
Definition skip (bytes : Z) (f : File) : File :=
  if pos f + bytes <? 0 then f else mkFile (contents f) (pos f + bytes).

(** [n] reads one after the other. *)
Fixpoint read_n {A} (n : nat) (rd : File -> result (A * File)) (f : File)
  : result (list A * File) :=
  match n with
  | O => Ok ([], f)
  | S n' => '(a, f1) ← rd f; '(l, f2) ← read_n n' rd f1; Ok (a :: l, f2)
  end.

(** [reserve(n)] with an [int]. *)
Definition reserve (n : Z) : result unit :=
  if n <? 0 then Err (Exception "std::length_error") else Ok tt.

Definition readLocalTime (f : File) : result ((Z * bool * Z) * File) :=
  '(gmtoff, f1) ← readInt32 f;
  '(isdst, f2) ← readUInt8 f1;
  '(abbrind, f3) ← readUInt8 f2;
  Ok ((gmtoff, negb (isdst =? 0), abbrind), f3).

Fixpoint addTransitions (d : Data) (l : list (Z * Z)) : result Data :=
  match l with
  | [] => Ok d
  | (t, i) :: l' => d' ← addTransition d t i; addTransitions d' l'
  end.

Definition readDataBlock (f0 : File) (data : Data) (v1 : bool) : result (bool * Data * File) :=
  let time_size := if v1 then 4 else 8 in
  '(isutccnt, f1) ← readInt32 f0;
  '(isstdcnt, f2) ← readInt32 f1;
  '(leapcnt, f3) ← readInt32 f2;
  '(timecnt, f4) ← readInt32 f3;
  '(typecnt, f5) ← readInt32 f4;
  '(charcnt, f6) ← readInt32 f5;
  if negb (leapcnt =? 0) then Ok (false, data, f6) else
  if negb (isutccnt =? 0) && negb (isutccnt =? typecnt) then Ok (false, data, f6) else
  if negb (isstdcnt =? 0) && negb (isstdcnt =? typecnt) then Ok (false, data, f6) else
  _ ← reserve timecnt;
  '(trans, f7) ← read_n (Z.to_nat timecnt) (if v1 then readInt32 else readInt64) f6;
  '(localtimes, f8) ← read_n (Z.to_nat timecnt) readUInt8 f7;
  _ ← reserve typecnt;
  '(types, f9) ← read_n (Z.to_nat typecnt) readLocalTime f8;
  let data1 := fold_left (fun d '(off, dst, i) => addLocalTime d off dst i) types data in
  data2 ← addTransitions data1 (combine trans localtimes);
  '(abbr, f10) ← readBytes charcnt f9;
  let f11 := skip (leapcnt * (time_size + 4)) f10 in
  let f12 := skip isstdcnt f11 in
  let f13 := skip isutccnt f12 in
  let data3 := mkData (transitions data2) (local_times data2) abbr (time_zone_string data2) in
  if v1 then Ok (true, data3, f13)
  else let '(tzs, f14) := readToEnd f13 in
       Ok (true, mkData (transitions data3) (local_times data3) (abbreviation data3) tzs, f14).

(** The body of the [try] block. *)
Definition readTimeZoneFile_try (f0 : File) (data : Data) : result (bool * Data) :=
  '(head, f1) ← readBytes 4 f0;
  if negb (bool_decide (head = bytes_of "TZif")) then Err (Exception "bad head") else
  '(version, f2) ← readBytes 1 f1;
  '(_, f3) ← readBytes 15 f2;
  '(isgmtcnt, f4) ← readInt32 f3;
  '(isstdcnt, f5) ← readInt32 f4;
  '(leapcnt, f6) ← readInt32 f5;
  '(timecnt, f7) ← readInt32 f6;
  '(typecnt, f8) ← readInt32 f7;
  '(charcnt, f9) ← readInt32 f8;
  if bool_decide (version = bytes_of "2") then
    _ ← no_overflow 32 [6 * typecnt; 8 * leapcnt];
    let sk := wrapu 64 (4 * timecnt + timecnt + 6 * typecnt + charcnt + 8 * leapcnt +
                        isstdcnt + isgmtcnt) in
    let f10 := skip (wraps 64 sk) f9 in
    '(head2, f11) ← readBytes 4 f10;
    if negb (bool_decide (head2 = bytes_of "TZif")) then Err (Exception "bad head") else
    let f12 := skip 16 f11 in
    '(ok, d, _) ← readDataBlock f12 data false; Ok (ok, d)
  else
    let f10 := skip (-4 * 6) f9 in
    '(ok, d, _) ← readDataBlock f10 data true; Ok (ok, d).

(** [file] is [None] when [fopen] fails.  Exceptions are caught. *)
Definition readTimeZoneFile (file : option (list byte)) (data : Data) : result (bool * Data) :=
  match file with
  | None => Ok (false, data)
  | Some bytes =>
      match readTimeZoneFile_try (mkFile bytes 0) data with
      | Err (Exception _) => Ok (false, data)
      | r => r
      end
  end.

Definition loadZoneFile (file : option (list byte)) : result TimeZone :=
  '(ok, d) ← readTimeZoneFile file empty_Data;
  Ok (if ok : bool then Some d else None).

(** [TimeZone::China]: [fs] gives the contents of the files that open. *)
Definition China (fs : list byte -> option (list byte)) : result TimeZone :=
  loadZoneFile (fs (bytes_of "/usr/share/zoneinfo/Asia/Shanghai")).

End Reader.

(** ** Lemmas *)

Lemma epoch_day : Date.kJulianDayOf1970_01_01 = Ok 2440588.
Proof. vm_compute. reflexivity. Qed.

(** The day number and the second of the day, rounded down as C++ does after
    its correction. *)
Definition day_of (t : Z) : Z := t / kSecondsPerDay + 2440588.
Definition second_of_day (t : Z) : Z := t mod kSecondsPerDay.

(** The time of day [h:m:s] as a number of seconds. *)
Definition hms (dt : DateTime) : Z := dt_hour dt * 3600 + dt_minute dt * 60 + dt_second dt.

Lemma split_day t :
  (if Z.rem t 86400 <? 0 then Z.rem t 86400 + 86400 else Z.rem t 86400) = t mod 86400 /\
  (if Z.rem t 86400 <? 0 then t ÷ 86400 - 1 else t ÷ 86400) = t / 86400.
Proof. zcase (Z.rem t 86400 <? 0); split; div_lia. Qed.

Lemma BreakTime_eq t :
  Date.jdn_min <= day_of t <= Date.jdn_max ->
  exists ymd, Date.getYearMonthDay (day_of t) = Ok ymd /\ Date.valid_ymd ymd = true /\
    Date.getJulianDayNumber (Date.year ymd) (Date.month ymd) (Date.day ymd) = Ok (day_of t) /\
    BreakTime t = Ok (fillHMS (second_of_day t)
      (mkDateTime (Date.year ymd) (Date.month ymd) (Date.day ymd) 0 0 0)).
Proof.
  intros Ht. destruct (Date.jdn_inverse _ Ht) as (ymd & E & Hv & Ej).
  exists ymd. split_and!; [done..|].
  unfold BreakTime. unfold day_of, kSecondsPerDay, Date.jdn_min, Date.jdn_max in *.
  change (24 * 60 * 60) with 86400 in *.
  rewrite (wraps_small 32 (t ÷ 86400)) by div_lia. rewrite (wraps_small 32 (Z.rem t 86400)) by div_lia.
  destruct (split_day t) as [-> ->].
  pose proof (Z.mod_pos_bound t 86400 ltac:(lia)).
  rewrite epoch_day, bind_ok, no_overflow_ok, bind_ok by (repeat constructor; lia).
  unfold Date.yearMonthDay; cbn [Date.julianDayNumber_]. rewrite E, bind_ok. done.
Qed.

Lemma fillHMS_hms s dt :
  0 <= s < 86400 ->
  let r := fillHMS s dt in
  hms r = wraps 8 (s / 60) * 60 + s mod 60 /\ dt_year r = dt_year dt /\
  dt_month r = dt_month dt /\ dt_day r = dt_day dt /\ dt_second r = s mod 60 /\
  -127 <= dt_minute r <= 127 /\ -127 <= dt_hour r <= 127.
Proof.
  intros Hs r. subst r. unfold fillHMS, hms; cbn [dt_hour dt_minute dt_second dt_year dt_month dt_day].
  rewrite (Z.quot_div_nonneg s), (Z.rem_mod_nonneg s) by lia.
  pose proof (wraps_range 8 (s / 60) ltac:(lia)) as Hm. simpl in Hm.
  set (m := wraps 8 (s / 60)) in *. clearbody m.
  pose proof (Z.mod_pos_bound s 60 ltac:(lia)).
  rewrite !wraps_small by (simpl; div_lia). split_and!; try done; div_lia.
Qed.

Lemma fromUTCTime_eq dt n :
  Date.getJulianDayNumber (dt_year dt) (dt_month dt) (dt_day dt) = Ok n ->
  -1000000000 <= n <= 1000000000 -> -127 <= dt_hour dt <= 127 -> -127 <= dt_minute dt <= 127 ->
  -127 <= dt_second dt <= 127 ->
  fromUTCTime dt = Ok ((n - 2440588) * 86400 + hms dt).
Proof.
  intros E Hn Hh Hm Hs. unfold fromUTCTime, Date.of_ymd. rewrite E, !bind_ok, epoch_day, bind_ok.
  cbn [Date.julianDayNumber_]. unfold kSecondsPerDay. change (24 * 60 * 60) with 86400.
  rewrite !no_overflow_ok, !bind_ok by (repeat constructor; lia). reflexivity.
Qed.

(** ** Well-formed transition tables *)

(** Every transition points at a local time type, and its [local_time] is its
    [utc_time] in that type: what [addTransition] establishes. *)
Definition table_ok (d : Data) : Prop :=
  forall tr, tr ∈ transitions d -> 0 <= local_time_index tr /\
    exists lt, local_times d !! Z.to_nat (local_time_index tr) = Some lt /\
      local_time tr = utc_time tr + utc_offset lt.

(** Offset in force after a transition. *)
Definition offset_of (tr : Transition) : Z := local_time tr - utc_time tr.

(** The file lists the transitions in increasing order, in UTC and on the local
    clock, and after a transition the clock catches up before the next one. *)
Record sorted (d : Data) : Prop := {
  sorted_utc : forall i j a b, (i < j)%nat -> transitions d !! i = Some a ->
    transitions d !! j = Some b -> utc_time a < utc_time b;
  sorted_local : forall i j a b, (i < j)%nat -> transitions d !! i = Some a ->
    transitions d !! j = Some b -> local_time a < local_time b;
  sorted_gap : forall i a b c, transitions d !! i = Some a -> transitions d !! S i = Some b ->
    transitions d !! S (S i) = Some c ->
    utc_time b + offset_of a <= utc_time c + offset_of b /\
    utc_time b + offset_of a <= local_time c;
  sorted_range : forall tr, tr ∈ transitions d ->
    - 2 ^ 60 < utc_time tr < 2 ^ 60 /\ - 2 ^ 31 <= offset_of tr < 2 ^ 31
}.

Lemma table_ok_addTransition d t i d' :
  table_ok d -> 0 <= i < 2 ^ 31 -> addTransition d t i = Ok d' -> table_ok d'.
Proof.
  intros H Hi Hr. unfold addTransition, at_ in Hr. rewrite wrapu_small in Hr by lia.
  inv_ok. rewrite (proj2 (Z.ltb_ge i 0)) in E by lia.
  destruct (local_times d !! Z.to_nat i) as [lt|] eqn:El; [|discriminate].
  simplify_eq. intros tr Htr. cbn [transitions local_times] in *.
  apply elem_of_app in Htr as [Htr|Htr]; [by apply H|].
  apply list_elem_of_singleton in Htr as ->. cbn. rewrite wraps_small by lia.
  split; [lia|]. by exists a.
Qed.

(** Between an element that fails [p], or the start, and one that satisfies it, or
    the end, the search keeps two such ends. *)
Lemma upper_bound_from_spec {A} (p : A -> bool) l fuel : forall first len r,
  (len <= fuel)%nat -> (first + len <= length l)%nat ->
  (forall k a, first = S k -> l !! k = Some a -> p a = false) ->
  (forall a, l !! (first + len)%nat = Some a -> p a = true) ->
  upper_bound_from fuel p l first len = r ->
  (r <= length l)%nat /\ (forall a, l !! r = Some a -> p a = true) /\
  (forall k a, r = S k -> l !! k = Some a -> p a = false).
Proof.
  induction fuel as [|fuel IH]; intros first len r Hf Hl Hlo Hhi <-.
  { assert (len = 0)%nat as -> by lia. rewrite Nat.add_0_r in *. by split_and!. }
  destruct len as [|n]; [rewrite Nat.add_0_r in *; by split_and!|].
  cbn [upper_bound_from]. cbv zeta. set (half := Nat.div2 (S n)).
  assert (half < S n)%nat as Hh by (apply Nat.lt_div2; lia).
  destruct (lookup_lt_is_Some_2 l (first + half)) as [a Ea]; [lia|]. rewrite Ea.
  destruct (p a) eqn:Ep.
  - apply (IH first half); [lia..|done| |done]. intros b Hb. congruence.
  - apply (IH (first + half + 1) (S n - half - 1))%nat; [lia..| | |done].
    + intros k b Hk Hb. assert (k = first + half)%nat as -> by lia. congruence.
    + by replace (first + half + 1 + (S n - half - 1))%nat with (first + S n)%nat by lia.
Qed.

(** Whatever the range, the element found satisfies the predicate and the one before
    it does not. *)
Lemma upper_bound_spec {A} (p : A -> bool) l :
  (upper_bound p l <= length l)%nat /\
  (forall a, l !! upper_bound p l = Some a -> p a = true) /\
  (forall k a, upper_bound p l = S k -> l !! k = Some a -> p a = false).
Proof.
  apply (upper_bound_from_spec p l (length l) 0 (length l)); [lia..| | |done].
  - lia.
  - intros a Ha. apply lookup_lt_Some in Ha. lia.
Qed.

(** On a partitioned range: the position of the last element that does not satisfy
    the predicate. *)
Lemma upper_bound_at {A} (p : A -> bool) l k a :
  l !! k = Some a -> p a = false -> (forall i b, (k < i)%nat -> l !! i = Some b -> p b = true) ->
  (forall i b, (i < k)%nat -> l !! i = Some b -> p b = false) -> upper_bound p l = S k.
Proof.
  intros Hk Ha Hn Hb. destruct (upper_bound_spec p l) as (Hle & H1 & H2).
  destruct (Nat.lt_total (upper_bound p l) (S k)) as [Hlt|[|Hgt]]; [|done|].
  - destruct (lookup_lt_is_Some_2 l (upper_bound p l)) as [b E].
    { pose proof (lookup_lt_Some _ _ _ Hk). lia. }
    pose proof (H1 b E). destruct (decide (upper_bound p l = k)) as [Ek|].
    + rewrite Ek in E. congruence.
    + pose proof (Hb (upper_bound p l) b ltac:(lia) E). congruence.
  - destruct (upper_bound p l) as [|m]; [lia|]. destruct (lookup_lt_is_Some_2 l m) as [b E]; [lia|].
    pose proof (H2 m b eq_refl E). pose proof (Hn m b ltac:(lia) E). congruence.
Qed.

(** When the bound is exceeded at one position of an ordered list, it is from there on. *)
Lemma exceeded_from {A} (f : A -> Z) (l : list A) t k :
  (forall i j a b, (i < j)%nat -> l !! i = Some a -> l !! j = Some b -> f a < f b) ->
  (forall b, l !! S k = Some b -> t < f b) ->
  forall i b, (k < i)%nat -> l !! i = Some b -> t < f b.
Proof.
  intros Hs Hn i b Hi Hb. destruct (lookup_lt_is_Some_2 l (S k)) as [c Ec].
  { apply lookup_lt_Some in Hb. lia. }
  specialize (Hn c Ec). destruct (decide (i = S k)) as [->|]; [by simplify_eq|].
  pose proof (Hs (S k) i c b ltac:(lia) Ec Hb). lia.
Qed.

Lemma nth_some {A} (l : list A) (i : nat) a : l !! i = Some a -> nth_ l (Z.of_nat i) = Ok a.
Proof.
  intros H. unfold nth_. rewrite (proj2 (Z.ltb_ge _ _)) by lia. by rewrite Nat2Z.id, H.
Qed.

Lemma nth_table d tr :
  table_ok d -> tr ∈ transitions d ->
  exists lt, nth_ (local_times d) (local_time_index tr) = Ok lt /\ utc_offset lt = offset_of tr.
Proof.
  intros H Htr. destruct (H tr Htr) as (Hi & lt & El & Eq). exists lt. split.
  - unfold nth_. rewrite (proj2 (Z.ltb_ge _ _)) by lia. by rewrite El.
  - unfold offset_of. lia.
Qed.

(** At a time between two transitions the earlier one rules. *)
Lemma findLocalTime_at d t k tr :
  table_ok d -> sorted d -> transitions d !! k = Some tr -> utc_time tr <= t ->
  (forall tr', transitions d !! S k = Some tr' -> t < utc_time tr') ->
  findLocalTime d t = nth_ (local_times d) (local_time_index tr).
Proof.
  intros Ht Hs Hk Hle Hn. unfold findLocalTime.
  assert (upper_bound (fun x => t <? utc_time x) (transitions d) = S k) as Eub.
  { apply upper_bound_at with tr; [done | by apply Z.ltb_ge | |].
    - intros i b Hi Hb. apply Z.ltb_lt. by apply (exceeded_from utc_time (transitions d) t k (sorted_utc d Hs) Hn i b).
    - intros i b Hi Hb. apply Z.ltb_ge. pose proof (sorted_utc d Hs i k b tr Hi Hb Hk). lia. }
  destruct (transitions d) as [|f l] eqn:El; [done|]. rewrite <- El in *.
  assert (utc_time f <= t) as Hf.
  { destruct k as [|k]; [rewrite El in Hk; simpl in Hk; by simplify_eq|].
    pose proof (sorted_utc d Hs 0 (S k) f tr ltac:(lia)) as H0. rewrite El in H0 at 1.
    specialize (H0 eq_refl Hk). lia. }
  rewrite (proj2 (Z.ltb_ge _ _) Hf), Eub. rewrite assert_true, bind_ok by done.
  pose proof (lookup_lt_Some _ _ _ Hk) as Hlen.
  replace (Z.of_nat (S k) - 1) with (Z.of_nat k) by lia.
  destruct (Nat.eqb (S k) (length (transitions d))) eqn:Elast; cbn [negb].
  - apply Nat.eqb_eq in Elast. rewrite <- Elast.
    replace (Z.of_nat (S k) - 1) with (Z.of_nat k) by lia. by rewrite (nth_some _ _ _ Hk), bind_ok.
  - by rewrite (nth_some _ _ _ Hk), bind_ok.
Qed.

(** The position that the search on the local clock finds. *)
Lemma local_upper_bound d x k tr :
  sorted d -> transitions d !! k = Some tr -> local_time tr <= x ->
  (forall nx, transitions d !! S k = Some nx -> x < local_time nx) ->
  upper_bound (fun y => x <? local_time y) (transitions d) = S k.
Proof.
  intros Hs Hk Hle Hn. apply upper_bound_at with tr; [done | by apply Z.ltb_ge | |].
  - intros i b Hi Hb. apply Z.ltb_lt. by apply (exceeded_from local_time (transitions d) x k (sorted_local d Hs) Hn i b).
  - intros i b Hi Hb. apply Z.ltb_ge. pose proof (sorted_local d Hs i k b tr Hi Hb Hk). lia.
Qed.

Lemma local_front d x k tr :
  sorted d -> transitions d !! k = Some tr -> local_time tr <= x ->
  exists f l, transitions d = f :: l /\ local_time f <= x.
Proof.
  intros Hs Hk Hle. destruct (transitions d) as [|f l] eqn:El; [done|].
  exists f, l. split; [done|]. destruct k as [|k]; [simpl in Hk; by simplify_eq|].
  pose proof (sorted_local d Hs 0 (S k) f tr ltac:(lia)) as H0. rewrite El in H0.
  specialize (H0 eq_refl Hk). lia.
Qed.

(** Past the prologue of the function. *)
Ltac local_prologue Hs Hk Hle Hn :=
  unfold findLocalTime_local;
  pose proof (local_upper_bound _ _ _ _ Hs Hk Hle Hn) as Eub;
  destruct (local_front _ _ _ _ Hs Hk Hle) as (f & l & El & Hf);
  match goal with d : Data |- _ => destruct (transitions d) as [|f' l'] eqn:El'; [done|];
    rewrite <- El' in *; assert (f' = f) as -> by congruence end;
  rewrite (proj2 (Z.ltb_ge _ _) Hf), Eub, assert_true, bind_ok by done.

(** After the last transition. *)
Lemma local_after_last d x k tr post :
  sorted d -> transitions d !! k = Some tr -> local_time tr <= x ->
  S k = length (transitions d) ->
  findLocalTime_local d x post = nth_ (local_times d) (local_time_index tr).
Proof.
  intros Hs Hk Hle Hlen.
  assert (forall nx, transitions d !! S k = Some nx -> x < local_time nx) as Hn.
  { intros nx Hnx. apply lookup_lt_Some in Hnx. lia. }
  local_prologue Hs Hk Hle Hn. rewrite <- Hlen, Nat.eqb_refl.
  replace (Z.of_nat (S k) - 1) with (Z.of_nat k) by lia. by rewrite (nth_some _ _ _ Hk), bind_ok.
Qed.

Lemma sorted_no_overflow d tr o :
  sorted d -> tr ∈ transitions d -> - 2 ^ 31 <= o < 2 ^ 31 ->
  no_overflow 64 [utc_time tr - 1; utc_time tr - 1 + o] = Ok tt.
Proof.
  intros Hs Htr Ho. destruct (sorted_range d Hs tr Htr) as [? ?].
  apply no_overflow_ok. repeat constructor; lia.
Qed.

(** Before the clock of the current offset reaches the next transition. *)
Lemma local_current d x k tr nx :
  table_ok d -> sorted d -> transitions d !! k = Some tr -> local_time tr <= x ->
  transitions d !! S k = Some nx -> x < local_time nx -> x <= utc_time nx - 1 + offset_of tr ->
  findLocalTime_local d x true = nth_ (local_times d) (local_time_index tr).
Proof.
  intros Ht Hs Hk Hle Hnx Hlt Hps.
  assert (forall nx', transitions d !! S k = Some nx' -> x < local_time nx') as Hn
    by (intros nx' Hnx'; congruence).
  assert (tr ∈ transitions d) as Hin by (by apply list_elem_of_lookup_2 in Hk).
  assert (nx ∈ transitions d) as Hin' by (by apply list_elem_of_lookup_2 in Hnx).
  destruct (nth_table d tr Ht Hin) as (lt & Elt & Eo).
  destruct (sorted_range d Hs tr Hin) as [_ Hor].
  local_prologue Hs Hk Hle Hn.
  pose proof (lookup_lt_Some _ _ _ Hnx) as Hlen.
  rewrite (proj2 (Nat.eqb_neq _ _)) by lia.
  rewrite (nth_some _ _ _ Hnx), bind_ok.
  replace (Z.of_nat (S k) - 1) with (Z.of_nat k) by lia. rewrite (nth_some _ _ _ Hk), bind_ok.
  rewrite Elt, bind_ok, Eo, (sorted_no_overflow d nx _ Hs Hin' Hor), bind_ok.
  rewrite (proj2 (Z.ltb_ge _ _)) by lia. rewrite bind_ok.
  replace (S k - 1)%nat with k by lia.
  destruct (Nat.eqb k 0) eqn:Ek.
  - rewrite bind_ok. by destruct (_ <=? _).
  - apply Nat.eqb_neq in Ek.
    destruct (lookup_lt_is_Some_2 (transitions d) (k - 1)) as [pt Hpt]; [lia|].
    assert (pt ∈ transitions d) as Hinp by (by apply list_elem_of_lookup_2 in Hpt).
    destruct (nth_table d pt Ht Hinp) as (pl & Epl & Epo).
    destruct (sorted_range d Hs pt Hinp) as [_ Hpr].
    replace (Z.of_nat (S k) - 2) with (Z.of_nat (k - 1)) by lia.
    rewrite (nth_some _ _ _ Hpt), bind_ok, Epl, bind_ok, Epo.
    rewrite (sorted_no_overflow d tr _ Hs Hin Hpr), !bind_ok. by destruct (_ <=? _).
Qed.

(** In the hour that the clock shows twice, the first reading. *)
Lemma local_repeated d x k a b c :
  table_ok d -> sorted d -> transitions d !! k = Some a -> transitions d !! S k = Some b ->
  transitions d !! S (S k) = Some c -> local_time b <= x -> x < local_time c ->
  x <= utc_time c - 1 + offset_of b -> x <= utc_time b - 1 + offset_of a ->
  findLocalTime_local d x false = nth_ (local_times d) (local_time_index a).
Proof.
  intros Ht Hs Ha Hb Hc Hle Hlt Hpc Hpb.
  assert (forall nx', transitions d !! S (S k) = Some nx' -> x < local_time nx') as Hn
    by (intros nx' Hnx'; congruence).
  assert (a ∈ transitions d) as Hina by (by apply list_elem_of_lookup_2 in Ha).
  assert (b ∈ transitions d) as Hinb by (by apply list_elem_of_lookup_2 in Hb).
  assert (c ∈ transitions d) as Hinc by (by apply list_elem_of_lookup_2 in Hc).
  destruct (nth_table d a Ht Hina) as (la & Ela & Eoa).
  destruct (nth_table d b Ht Hinb) as (lb & Elb & Eob).
  destruct (sorted_range d Hs a Hina) as [_ Hra]. destruct (sorted_range d Hs b Hinb) as [_ Hrb].
  local_prologue Hs Hb Hle Hn.
  pose proof (lookup_lt_Some _ _ _ Hc) as Hlen.
  rewrite (proj2 (Nat.eqb_neq _ _)) by lia.
  rewrite (nth_some _ _ _ Hc), bind_ok.
  replace (Z.of_nat (S (S k)) - 1) with (Z.of_nat (S k)) by lia.
  rewrite (nth_some _ _ _ Hb), bind_ok, Elb, bind_ok, Eob.
  rewrite (sorted_no_overflow d c _ Hs Hinc Hrb), bind_ok.
  rewrite (proj2 (Z.ltb_ge _ _)), bind_ok by lia.
  rewrite (proj2 (Nat.eqb_neq (S (S k) - 1) 0)) by lia.
  replace (Z.of_nat (S (S k)) - 2) with (Z.of_nat k) by lia.
  rewrite (nth_some _ _ _ Ha), bind_ok, Ela, bind_ok, Eoa.
  rewrite (sorted_no_overflow d b _ Hs Hinb Hra), !bind_ok.
  by rewrite (proj2 (Z.leb_le _ _)) by lia.
Qed.

(** ** The reader without luck from the allocator *)

Lemma c_string_length l s : c_string l = (s, true) -> zlen s < zlen l.
Proof.
  revert s. induction l as [|b l IH]; intros s E; simpl in E; [done|].
  rewrite zlen_cons. pose proof (zlen_nonneg l).
  case_bool_decide; [simplify_eq; rewrite zlen_nil; lia|].
  destruct (c_string l) as [s' z] eqn:E'. simplify_eq. rewrite zlen_cons.
  specialize (IH s' eq_refl). lia.
Qed.

Lemma readBytes_strict n f s f' :
  0 < n -> readBytes (Err UndefinedBehaviour) n f = Ok (s, f') -> zlen s < n.
Proof.
  intros Hn Hr. unfold readBytes in Hr. rewrite (proj2 (Z.ltb_ge n 0)) in Hr by lia.
  inv_ok. destruct a as [d f1]. unfold fread_exactly in E.
  destruct (fread f n) as [d' f2] eqn:Ef. zcase (zlen d' =? n); [simplify_eq|discriminate].
  destruct (c_string d) as [s' []] eqn:Ec; [|destruct (_ =? 0); discriminate].
  simplify_eq. by apply c_string_length.
Qed.

(** ** Properties *)

(** [C35] Times of day in UTC.  In the whole supported range [toUTCTime] succeeds
    and its year, month and day are the valid date of the instant, and its
    second is right; but converting the result back with [fromUTCTime] gives
    the instant again exactly when it lies in the first 128 minutes of its day:
    the minute count is stored in an [int8_t] and wraps after that. *)
Theorem utc_roundtrip_iff t :
  Date.jdn_min <= day_of t <= Date.jdn_max ->
  exists dt, toUTCTime t = Ok dt /\
    Date.valid_ymd (Date.mkYMD (dt_year dt) (dt_month dt) (dt_day dt)) = true /\
    Date.getJulianDayNumber (dt_year dt) (dt_month dt) (dt_day dt) = Ok (day_of t) /\
    dt_second dt = t mod 60 /\
    (fromUTCTime dt = Ok t <-> t mod kSecondsPerDay < 128 * 60).
Proof.
  intros Ht. destruct (BreakTime_eq t Ht) as (ymd & _ & Hv & Ej & Eb).
  unfold toUTCTime. rewrite Eb. eexists; split; [reflexivity|].
  assert (0 <= second_of_day t < 86400) as Hs.
  { unfold second_of_day, kSecondsPerDay. change (24 * 60 * 60) with 86400. div_lia. }
  destruct (fillHMS_hms (second_of_day t)
    (mkDateTime (Date.year ymd) (Date.month ymd) (Date.day ymd) 0 0 0) Hs)
    as (Hh & -> & -> & -> & Es & Hm & Hho).
  cbn [dt_year dt_month dt_day]. split_and!.
  - destruct ymd; done.
  - done.
  - rewrite Es. unfold second_of_day, kSecondsPerDay. change (24 * 60 * 60) with 86400. div_lia.
  - rewrite (fromUTCTime_eq _ (day_of t)); [|done| |done|done|].
    2: { unfold Date.jdn_min, Date.jdn_max in Ht. lia. }
    2: { rewrite Es. div_lia. }
    rewrite Hh. unfold day_of, second_of_day, kSecondsPerDay in *.
    change (24 * 60 * 60) with 86400 in *.
    assert (0 <= t mod 86400 / 60 < 1440) as Hmin by div_lia.
    split.
    + intros [= E]. pose proof (wraps_range 8 (t mod 86400 / 60) ltac:(lia)) as Hw. simpl in Hw.
      div_lia.
    + intros Hlt. rewrite wraps_small by (simpl; div_lia). f_equal. div_lia.
Qed.

(** [C34] The two searches of the transition table agree: for an instant ruled by
    transition [k], the local clock shows [t + offset], and looking that reading
    up with one of the two settings of [postTransition] finds the same offset,
    so the instant is recovered.  This needs a reading that is not repeated
    after the last transition of the table, where the code ignores the TZ
    string. *)
Theorem local_time_recovered d t k tr :
  table_ok d -> sorted d -> transitions d !! k = Some tr -> utc_time tr <= t ->
  (forall nx, transitions d !! S k = Some nx -> t < utc_time nx /\
     (t + offset_of tr < local_time nx \/ (S (S k) < length (transitions d))%nat)) ->
  exists lt, findLocalTime d t = Ok lt /\ utc_offset lt = offset_of tr /\
    exists post lt', findLocalTime_local d (t + utc_offset lt) post = Ok lt' /\
      t + utc_offset lt - utc_offset lt' = t.
Proof.
  intros Ht Hs Hk Hle Hn.
  destruct (nth_table d tr Ht) as (lt & Elt & Eo); [by apply list_elem_of_lookup_2 in Hk|].
  exists lt. rewrite (findLocalTime_at d t k tr); [|done..|intros nx Hnx; by apply Hn].
  split_and!; [done..|]. rewrite Eo.
  enough (exists post, findLocalTime_local d (t + offset_of tr) post =
    nth_ (local_times d) (local_time_index tr)) as (post & E).
  { exists post, lt. rewrite E, Elt. split; [done|lia]. }
  assert (local_time tr <= t + offset_of tr) as Hl by (unfold offset_of; lia).
  destruct (transitions d !! S k) as [nx|] eqn:Enx.
  - destruct (Hn nx eq_refl) as [Hlt Hamb].
    assert (t + offset_of tr <= utc_time nx - 1 + offset_of tr) as Hps by lia.
    destruct (decide (t + offset_of tr < local_time nx)) as [Hcur|Hrep].
    + exists true. by apply (local_current d _ k tr nx).
    + destruct Hamb as [|Hlen]; [lia|].
      destruct (lookup_lt_is_Some_2 _ _ Hlen) as [c Ec].
      destruct (sorted_gap d Hs k tr nx c Hk Enx Ec) as [Hg1 Hg2].
      exists false. apply (local_repeated d _ k tr nx c); try done; lia.
  - exists true. apply (local_after_last d _ k tr); [done..|].
    pose proof (lookup_lt_Some _ _ _ Hk). apply lookup_ge_None in Enx. lia.
Qed.

(** [readBytes] builds its result from [buf.data()], which has no
    terminating NUL, so in the semantics of the language alone no file is ever
    accepted: whatever the bytes of the file, the reader reports failure or
    reads past the end of its buffer. *)
Theorem readTimeZoneFile_never_accepts file data ok d :
  readTimeZoneFile (Err UndefinedBehaviour) file data = Ok (ok, d) -> ok = false.
Proof.
  unfold readTimeZoneFile. intros Hr. destruct file as [bytes|]; [|by simplify_eq].
  destruct (readTimeZoneFile_try _ _ _) as [[ok' d']|[]] eqn:E; try (by simplify_eq).
  exfalso. unfold readTimeZoneFile_try in E.
  apply bind_ok_inv in E as ([head f1] & Eh & E).
  apply readBytes_strict in Eh; [|lia].
  case_bool_decide as Eq; [|discriminate E]. subst head. cbv in Eh. discriminate Eh.
Qed.

(** ** Witnesses *)

(** A table with a clock that goes forward, back, and forward again. *)
Definition sample_zone : Data :=
  mkData [mkTransition 1000000 1028800 0; mkTransition 2000000 2032400 1;
          mkTransition 3000000 3028800 0; mkTransition 4000000 4032400 1]
         [mkLocalTime 28800 false 0; mkLocalTime 32400 true 4] [] [].

Lemma sample_table_ok : table_ok sample_zone.
Proof.
  unfold table_ok. intros tr Htr. cbn [transitions sample_zone] in Htr. set_unfold.
  destruct_or!; simplify_eq; cbn; (split; [lia|]); eauto.
Qed.

Lemma sample_sorted : sorted sample_zone.
Proof.
  split.
  - intros i j a b Hij Ha Hb. unfold sample_zone in *; cbn [transitions] in *.
    do 4 (destruct i as [|i]; [injection Ha as <-; do 4 (destruct j as [|j];
      [try lia; injection Hb as <-; cbn; lia|]); discriminate Hb|]). discriminate Ha.
  - intros i j a b Hij Ha Hb. unfold sample_zone in *; cbn [transitions] in *.
    do 4 (destruct i as [|i]; [injection Ha as <-; do 4 (destruct j as [|j];
      [try lia; injection Hb as <-; cbn; lia|]); discriminate Hb|]). discriminate Ha.
  - intros i a b c Ha Hb Hc. unfold sample_zone in *; cbn [transitions] in *.
    do 2 (destruct i as [|i]; [injection Ha as <-; injection Hb as <-; injection Hc as <-;
      unfold offset_of; cbn [utc_time local_time]; lia|]).
    destruct i as [|[|]]; discriminate Hc.
  - intros tr Htr. cbn [transitions sample_zone] in Htr. set_unfold.
    destruct_or!; simplify_eq; unfold offset_of; cbn [utc_time local_time]; lia.
Qed.

Lemma utc_roundtrip_iff_witness : exists dt, toUTCTime 86399 = Ok dt /\
    Date.valid_ymd (Date.mkYMD (dt_year dt) (dt_month dt) (dt_day dt)) = true /\
    Date.getJulianDayNumber (dt_year dt) (dt_month dt) (dt_day dt) = Ok (day_of 86399) /\
    dt_second dt = 86399 mod 60 /\
    (fromUTCTime dt = Ok 86399 <-> 86399 mod kSecondsPerDay < 128 * 60).
Proof. apply (utc_roundtrip_iff 86399). vm_compute; split; discriminate. Defined.

(** In the second pass of a repeated hour. *)
Lemma local_time_recovered_witness :
  exists lt, findLocalTime sample_zone 2999000 = Ok lt /\ utc_offset lt = 32400 /\
    exists post lt', findLocalTime_local sample_zone (2999000 + utc_offset lt) post = Ok lt' /\
      2999000 + utc_offset lt - utc_offset lt' = 2999000.
Proof.
  apply (local_time_recovered sample_zone 2999000 1 (mkTransition 2000000 2032400 1)).
  - exact sample_table_ok.
  - exact sample_sorted.
  - reflexivity.
  - vm_compute; discriminate.
  - intros nx [= <-]. split; [reflexivity | right; vm_compute; lia].
Defined.

Definition not_a_zone_file : list byte := bytes_of "ab" ++ [Byte.x00; Byte.x00].

Lemma readTimeZoneFile_never_accepts_witness :
  readTimeZoneFile (Err UndefinedBehaviour) (Some not_a_zone_file) empty_Data
    = Ok (false, empty_Data) /\ false = false.
Proof.
  split; [vm_compute; reflexivity|].
  apply (readTimeZoneFile_never_accepts (Some not_a_zone_file) empty_Data false empty_Data).
  vm_compute; reflexivity.
Defined.

(** 23:59:59 comes out as 97 minutes before midnight. *)
Example minutes_wrap : toUTCTime 86399 = Ok (mkDateTime 1970 1 1 (-1) (-37) 59).
Proof. vm_compute. reflexivity. Qed.

End TimeZone.
