(* ===== verification/ZoneFile.v ===== *)
(** * Zone files: the reader of TimeZone.cc against the format it reads

    TimeZone.v has the reader.  Here is a writer of TZif files (RFC 8536), the
    format's two versions, as a reference: what is written is read back, and
    whatever the reader accepts is a table in which every look-up succeeds. *)

From S2P Require Import Prelude Endian TimeZone.

Module ZoneFile.
Import TimeZone.

(** ** Reading what was written *)

(** A file of which [before] is read. *)
Definition opened (before rest : list byte) : File := mkFile (before ++ rest) (zlen before).

(** [rd] reads back what [enc] writes of the values that [ok] describes, and
    yields no others. *)
Class Coding {A} (rd : File -> result (A * File)) (enc : A -> list byte) (ok : A -> Prop) := {
  reads before rest a : ok a -> rd (opened before (enc a ++ rest)) = Ok (a, opened (before ++ enc a) rest);
  yields f a f' : rd f = Ok (a, f') -> ok a
}.

Definition in_int (w : Z) (x : Z) : Prop := - 2 ^ (w - 1) <= x < 2 ^ (w - 1).
Definition in_byte (x : Z) : Prop := 0 <= x < 256.

Lemma opened_app before l rest : opened before (l ++ rest) = mkFile ((before ++ l) ++ rest) (zlen before).
Proof. unfold opened. by rewrite app_assoc. Qed.

Lemma fread_opened what n before l rest : zlen l = n ->
  fread_exactly what n (opened before (l ++ rest)) = Ok (l, opened (before ++ l) rest).
Proof.
  intros <-. unfold fread_exactly, fread, opened. cbn [pos contents].
  rewrite zdrop_app_ge, Z.sub_diag, zdrop_nonpos, ztake_app_le, ztake_all, Z.eqb_refl by lia.
  by rewrite zlen_app, app_assoc.
Qed.

Lemma fread_exactly_length what n f l f' : fread_exactly what n f = Ok (l, f') -> zlen l = n.
Proof.
  unfold fread_exactly. destruct (fread f n) as [d g]. zcase (zlen d =? n); [|done]. by intros [= -> ->].
Qed.

Lemma skip_opened before l rest : skip (zlen l) (opened before (l ++ rest)) = opened (before ++ l) rest.
Proof.
  unfold skip. cbn [pos contents opened]. pose proof (zlen_nonneg before). pose proof (zlen_nonneg l).
  rewrite (proj2 (Z.ltb_ge _ _)) by lia. unfold opened. by rewrite zlen_app, app_assoc.
Qed.

Lemma skip_opened_nil before rest : skip 0 (opened before rest) = opened before rest.
Proof. pose proof (skip_opened before [] rest) as E. by rewrite app_nil_r in E. Qed.

Lemma rewind_opened before l rest :
  skip (- zlen l) (opened (before ++ l) rest) = opened before (l ++ rest).
Proof.
  unfold skip. cbn [pos contents opened]. rewrite zlen_app. pose proof (zlen_nonneg before).
  rewrite (proj2 (Z.ltb_ge _ _)) by lia. unfold opened. rewrite app_assoc. f_equal. lia.
Qed.

Instance readInt32_coding : Coding readInt32 (be_bytes 4) (in_int 32).
Proof.
  split.
  - intros before rest a Ha. unfold readInt32. rewrite fread_opened, bind_ok by apply zlen_be_bytes.
    unfold networkToHost32. by rewrite (int_decode 4), wraps_small by (lia || done).
  - intros f a f' E. unfold readInt32 in E. inv_ok. destruct a0 as [d g]. inv_ok. subst.
    by apply wraps_range.
Qed.

Instance readInt64_coding : Coding readInt64 (be_bytes 8) (in_int 64).
Proof.
  split.
  - intros before rest a Ha. unfold readInt64. rewrite fread_opened, bind_ok by apply zlen_be_bytes.
    unfold networkToHost64. by rewrite (int_decode 8), wraps_small by (lia || done).
  - intros f a f' E. unfold readInt64 in E. inv_ok. destruct a0 as [d g]. inv_ok. subst.
    by apply wraps_range.
Qed.

Instance readUInt8_coding : Coding readUInt8 (le_bytes 1) in_byte.
Proof.
  split.
  - intros before rest a Ha. unfold readUInt8. rewrite fread_opened, bind_ok by apply zlen_le_bytes.
    rewrite le_value_bytes, Z.mod_small by (unfold in_byte in Ha; lia). done.
  - intros f a f' E. unfold readUInt8 in E. inv_ok. destruct a0 as [d g]. inv_ok. subst.
    pose proof (le_value_range d) as Hd. by rewrite (fread_exactly_length _ _ _ _ _ E0) in Hd.
Qed.

(** A local time type. *)
Definition type_bytes (x : Z * bool * Z) : list byte :=
  let '(off, dst, i) := x in be_bytes 4 off ++ le_bytes 1 (if dst : bool then 1 else 0) ++ le_bytes 1 i.
Definition type_ok (x : Z * bool * Z) : Prop := let '(off, _, i) := x in in_int 32 off /\ in_byte i.

Instance readLocalTime_coding : Coding readLocalTime type_bytes type_ok.
Proof.
  split.
  - intros before rest [[off dst] i] [Ho Hi]. unfold readLocalTime, type_bytes.
    rewrite <- !app_assoc, reads, bind_ok by done.
    rewrite reads, bind_ok by (by destruct dst). rewrite reads, bind_ok by done.
    rewrite !app_assoc. by destruct dst.
  - intros f [[off dst] i] f' E. unfold readLocalTime in E. inv_ok. destruct a as [off' f1]. inv_ok.
    destruct a as [d f2]. inv_ok. destruct a as [j f3]. inv_ok. simplify_eq. split; by eapply yields.
Qed.

Instance read_n_coding {A} n rd (enc : A -> list byte) ok : Coding rd enc ok ->
  Coding (read_n n rd) (flat_map enc) (fun l => length l = n /\ Forall ok l).
Proof.
  intros Hc. split.
  - intros before rest l [<- Hl]. revert before. induction Hl as [|a l Ha Hl IH]; intros before.
    + cbn. by rewrite app_nil_r.
    + cbn [length read_n flat_map]. by rewrite <- app_assoc, reads, bind_ok, IH, bind_ok, <- app_assoc.
  - induction n as [|n IH]; intros f l f' E; cbn [read_n] in E.
    + inv_ok. by simplify_eq.
    + inv_ok. destruct a as [a f1]. inv_ok. destruct a0 as [k f2]. inv_ok. simplify_eq.
      apply IH in E1 as [<- Hk]. split; [done|]. constructor; [by eapply yields|done].
Qed.

(** ** Well-typed tables *)

Definition time_typed (lt : LocalTime) : Prop := in_int 32 (utc_offset lt) /\ in_byte (index lt).
Definition transition_typed (tr : Transition) : Prop :=
  in_int 64 (utc_time tr) /\ in_int 64 (local_time tr) /\ in_byte (local_time_index tr).

(** Every member fits its C++ type, every transition points at a local time type, and
    its local time is its time in that type. *)
Record typed (d : Data) : Prop := {
  typed_table : table_ok d;
  typed_times : Forall time_typed (local_times d);
  typed_transitions : Forall transition_typed (transitions d)
}.

Definition added (d : Data) (ts : list (Z * bool * Z)) : Data :=
  fold_left (fun d '(off, dst, i) => addLocalTime d off dst i) ts d.
Definition time_of (x : Z * bool * Z) : LocalTime := let '(off, dst, i) := x in mkLocalTime off dst i.

Lemma added_eq ts d :
  added d ts = mkData (transitions d) (local_times d ++ map time_of ts) (abbreviation d) (time_zone_string d).
Proof.
  unfold added. revert d. induction ts as [|[[off dst] i] ts IH]; intros d; cbn [fold_left map].
  - rewrite app_nil_r. by destruct d.
  - rewrite IH. cbn. by rewrite <- app_assoc.
Qed.

Lemma addTransition_typed d t i d' :
  typed d -> in_int 64 t -> in_byte i -> addTransition d t i = Ok d' -> typed d'.
Proof.
  intros [Ht Hl Htr] Hbt Hi E. unfold in_byte in Hi.
  pose proof (table_ok_addTransition d t i d' Ht ltac:(lia) E) as Ht'.
  unfold addTransition in E. rewrite wrapu_small in E by lia. inv_ok. subst d'. split; [done..|].
  cbn. apply Forall_app. split; [done|]. apply Forall_singleton. split_and!; [done| |].
  - apply defined_ok_inv in E1. cbn in E1. rewrite andb_true_r in E1. by apply in_s_iff in E1.
  - cbn. rewrite wraps_small by lia. done.
Qed.

Lemma addTransitions_typed l d d' :
  typed d -> Forall (fun x => in_int 64 (fst x) /\ in_byte (snd x)) l -> addTransitions d l = Ok d' -> typed d'.
Proof.
  intros Hd Hl. revert d Hd. induction Hl as [|[t i] l [Ht Hi] Hl IH]; intros d Hd E; cbn in E.
  - inv_ok. by subst.
  - inv_ok. eapply IH; [|done]. by eapply addTransition_typed.
Qed.

(** The time of a transition, in either version. *)
Definition readTime (v1 : bool) : File -> result (Z * File) := if v1 then readInt32 else readInt64.
Definition time_bytes (v1 : bool) : Z -> list byte := be_bytes (if v1 then 4 else 8).
Definition time_ok (v1 : bool) : Z -> Prop := in_int (if v1 then 32 else 64).

Instance readTime_coding v1 : Coding (readTime v1) (time_bytes v1) (time_ok v1).
Proof. destruct v1; [apply readInt32_coding|apply readInt64_coding]. Qed.

Lemma time_ok_64 v1 t : time_ok v1 t -> in_int 64 t.
Proof. destruct v1; [|done]. unfold time_ok, in_int. lia. Qed.

Lemma typed_added ts : Forall type_ok ts -> typed (added empty_Data ts).
Proof.
  intros Hts. rewrite added_eq. split; [by intros tr ?%not_elem_of_nil| |done].
  cbn. apply Forall_map. by apply (Forall_impl _ _ _ Hts); intros [[]].
Qed.

Lemma readDataBlock_typed over f v1 d f' :
  readDataBlock over f empty_Data v1 = Ok (true, d, f') -> typed d.
Proof.
  intros E. unfold readDataBlock in E.
  repeat lazymatch type of E with ((readInt32 _ ≫= _) = _) =>
    apply bind_ok_inv in E as ([? ?] & _ & E) end.
  do 3 (destruct (_ : bool) in E; [discriminate E|]).
  apply bind_ok_inv in E as (? & _ & E). apply bind_ok_inv in E as ([trans f7] & Etr & E).
  apply bind_ok_inv in E as ([idx f8] & Eidx & E). apply bind_ok_inv in E as (? & _ & E).
  apply bind_ok_inv in E as ([types f9] & Ety & E). apply bind_ok_inv in E as (d2 & Ed & E).
  apply bind_ok_inv in E as ([abbr f10] & _ & E).
  assert (typed d2) as [H1 H2 H3].
  { change (if v1 then readInt32 else readInt64) with (readTime v1) in Etr.
    apply (yields (Coding := read_n_coding _ _ _ _ _)) in Etr as [_ Htr].
    apply (yields (Coding := read_n_coding _ _ _ _ _)) in Eidx as [_ Hidx].
    apply (yields (Coding := read_n_coding _ _ _ _ _)) in Ety as [_ Hty].
    eapply addTransitions_typed; [by apply typed_added| |exact Ed].
    apply Forall_forall. intros [t i] Hin. split.
    - eapply time_ok_64, Forall_forall; [exact Htr|]. by eapply elem_of_zip_l.
    - eapply Forall_forall; [exact Hidx|]. by eapply elem_of_zip_r. }
  destruct v1; cbn in E; simplify_eq; by split.
Qed.

(** ** Every look-up succeeds *)

(** The look-up gives one of the zone's local time types. *)
Definition found (d : Data) (r : result LocalTime) : Prop := exists lt, r = Ok lt /\ lt ∈ local_times d.

Lemma nth_found d i lt : 0 <= i -> local_times d !! Z.to_nat i = Some lt -> found d (nth_ (local_times d) i).
Proof.
  intros Hi E. exists lt. unfold nth_. rewrite (proj2 (Z.ltb_ge i 0)) by done. rewrite E.
  split; [done|]. by eapply list_elem_of_lookup_2.
Qed.

Lemma front_found d : local_times d <> [] -> found d (nth_ (local_times d) 0).
Proof.
  intros Hd. destruct (local_times d !! 0%nat) as [lt|] eqn:E; [by apply (nth_found d 0 lt)|].
  apply lookup_ge_None in E. by destruct (local_times d); cbn in E; [|lia].
Qed.

Lemma table_found d k (Hd : table_ok d) : (k < length (transitions d))%nat ->
  exists tr lt, nth_ (transitions d) (Z.of_nat k) = Ok tr /\ tr ∈ transitions d /\
    nth_ (local_times d) (local_time_index tr) = Ok lt /\ found d (nth_ (local_times d) (local_time_index tr)) /\
    lt ∈ local_times d.
Proof.
  intros Hk. destruct (lookup_lt_is_Some_2 _ _ Hk) as [tr Etr]. pose proof (list_elem_of_lookup_2 _ _ _ Etr) as Hin.
  destruct (Hd tr Hin) as (Hi & lt & Elt & _). pose proof (nth_found d _ lt Hi Elt) as Hf.
  exists tr. destruct Hf as (lt' & E & Hlt). exists lt'. split_and!; [by apply nth_some|done..|by exists lt'|done].
Qed.

Lemma upper_bound_range {A} (p : A -> bool) a l : p a = false ->
  (1 <= upper_bound p (a :: l) <= length (a :: l))%nat.
Proof.
  intros Ha. destruct (upper_bound_spec p (a :: l)) as (Hle & H1 & _). split; [|done].
  destruct (upper_bound p (a :: l)); [|lia]. specialize (H1 a eq_refl). congruence.
Qed.

Lemma findLocalTime_found d t : table_ok d -> local_times d <> [] -> found d (findLocalTime d t).
Proof.
  intros Hd Hl. unfold findLocalTime. destruct (transitions d) as [|front l] eqn:El; [by apply front_found|].
  zcase (t <? utc_time front); [by apply front_found|].
  pose proof (upper_bound_range (fun tr => t <? utc_time tr) front l ltac:(apply Z.ltb_ge; lia)) as Hub.
  revert Hub. set (i := upper_bound _ _). intros Hub. rewrite assert_true, bind_ok by (destruct i; [lia|done]).
  rewrite <- El in *. destruct (Nat.eqb i _) eqn:Ei; cbn [negb].
  - destruct (table_found d (length (transitions d) - 1) Hd ltac:(lia)) as (tr & lt & Etr & _ & _ & Hf & _).
    replace (Z.of_nat (length (transitions d)) - 1) with (Z.of_nat (length (transitions d) - 1)) by lia.
    by rewrite Etr, bind_ok.
  - destruct (table_found d (i - 1) Hd ltac:(lia)) as (tr & lt & Etr & _ & _ & Hf & _).
    replace (Z.of_nat i - 1) with (Z.of_nat (i - 1)) by lia. by rewrite Etr, bind_ok.
Qed.

(** Times far enough from the end of 64 bits. *)
Definition moderate (d : Data) : Prop :=
  forall tr, tr ∈ transitions d -> - 2 ^ 62 <= utc_time tr < 2 ^ 62.

Lemma prior_defined d tr lt : typed d -> moderate d -> tr ∈ transitions d -> lt ∈ local_times d ->
  no_overflow 64 [utc_time tr - 1; utc_time tr - 1 + utc_offset lt] = Ok tt.
Proof.
  intros Hd Hm Htr Hlt. specialize (Hm tr Htr).
  destruct (proj1 (Forall_forall _ _) (typed_times _ Hd) lt Hlt) as [Ho _]. unfold in_int in Ho.
  apply no_overflow_ok. repeat constructor; lia.
Qed.

Lemma findLocalTime_local_found d x post : typed d -> moderate d -> local_times d <> [] ->
  found d (findLocalTime_local d x post).
Proof.
  intros Hd Hm Hl. pose proof (typed_table _ Hd) as Ht. unfold findLocalTime_local.
  destruct (transitions d) as [|front l] eqn:El; [by apply front_found|].
  zcase (x <? local_time front); [by apply front_found|].
  pose proof (upper_bound_range (fun tr => x <? local_time tr) front l ltac:(apply Z.ltb_ge; lia)) as Hub.
  revert Hub. set (i := upper_bound _ _). intros Hub. rewrite assert_true, bind_ok by (destruct i; [lia|done]).
  rewrite <- El in *. destruct (Nat.eqb i _) eqn:Ei.
  - destruct (table_found d (length (transitions d) - 1) Ht ltac:(lia)) as (tr & lt & Etr & _ & _ & Hf & _).
    replace (Z.of_nat (length (transitions d)) - 1) with (Z.of_nat (length (transitions d) - 1)) by lia.
    by rewrite Etr, bind_ok.
  - apply Nat.eqb_neq in Ei.
    destruct (table_found d i Ht ltac:(lia)) as (tI & lI & EI & HI & _ & HfI & _).
    destruct (table_found d (i - 1) Ht ltac:(lia)) as (tJ & lJ & EJ & HJ & ElJ & HfJ & HlJ).
    replace (Z.of_nat i - 1) with (Z.of_nat (i - 1)) by lia.
    pose proof HfJ as HfJ'. rewrite ElJ in HfJ'. rewrite EI, bind_ok, EJ, bind_ok, ElJ, bind_ok, (prior_defined d) by done. rewrite bind_ok.
    cbv zeta. destruct (_ <? x); [by destruct post|]. rewrite bind_ok.
    destruct (Nat.eqb (i - 1) 0) eqn:E1; [rewrite bind_ok; cbv beta iota; destruct (x <=? _); [by destruct post|done]|].
    apply Nat.eqb_neq in E1.
    destruct (table_found d (i - 2) Ht ltac:(lia)) as (tK & lK & EK & HK & ElK & HfK & HlK).
    replace (Z.of_nat i - 2) with (Z.of_nat (i - 2)) by lia.
    pose proof HfK as HfK'. rewrite ElK in HfK'. rewrite EK, bind_ok, ElK, bind_ok, (prior_defined d) by done. rewrite !bind_ok.
    cbv beta iota. destruct (x <=? _); [by destruct post|done].
Qed.

(** ** The format *)

(** The counts that precede a block: of UT/local and standard/wall indicators, leap
    seconds, transitions, local time types, and characters of designations. *)
Record Counts := mkCounts { isutccnt : Z; isstdcnt : Z; leapcnt : Z; timecnt : Z; typecnt : Z; charcnt : Z }.

Definition count_list (c : Counts) : list Z :=
  [isutccnt c; isstdcnt c; leapcnt c; timecnt c; typecnt c; charcnt c].
Definition counts_bytes (c : Counts) : list byte := flat_map (be_bytes 4) (count_list c).
Definition counts_ok (c : Counts) : Prop := Forall (fun n => 0 <= n < 2 ^ 31) (count_list c).

(** What a block has beside the table: the designations after the first one, and the
    indicators, which are of no use to the reader. *)
Record Rest := mkRest { more : list byte; std : list byte; ut : list byte }.

Definition counts_of (d : Data) (r : Rest) : Counts :=
  mkCounts (zlen (ut r)) (zlen (std r)) 0 (zlen (transitions d)) (zlen (local_times d))
    (zlen (abbreviation d) + 1 + zlen (more r)).
Definition type_of (lt : LocalTime) : Z * bool * Z := (utc_offset lt, is_dst lt, index lt).

Definition data_bytes (v1 : bool) (d : Data) (r : Rest) : list byte :=
  flat_map (time_bytes v1) (map utc_time (transitions d)) ++
  flat_map (le_bytes 1) (map local_time_index (transitions d)) ++
  flat_map type_bytes (map type_of (local_times d)) ++
  (abbreviation d ++ Byte.x00 :: more r) ++ std r ++ ut r.

Definition header (version : byte) : list byte :=
  bytes_of "TZif" ++ [version] ++ replicate 15 Byte.x00.

(** A file of version 1, and one of version 2, which has a block of version 1 first,
    for old readers, and ends with a footer. *)
Definition file_v1 (d : Data) (r : Rest) : list byte :=
  header Byte.x00 ++ counts_bytes (counts_of d r) ++ data_bytes true d r.
Definition file_v2 (c : Counts) (old : list byte) (d : Data) (r : Rest) : list byte :=
  header Byte.x32 ++ counts_bytes c ++ old ++
  header Byte.x32 ++ counts_bytes (counts_of d r) ++ data_bytes false d r ++ time_zone_string d.

(** What a writer of a version may be given. *)
Record writable (v1 : bool) (d : Data) (r : Rest) : Prop := {
  wr_typed : typed d;
  wr_times : Forall (fun tr => time_ok v1 (utc_time tr)) (transitions d);
  wr_counts : counts_ok (counts_of d r);
  wr_abbreviation : Byte.x00 ∉ abbreviation d;
  wr_std : std r = [] \/ length (std r) = length (local_times d);
  wr_ut : ut r = [] \/ length (ut r) = length (local_times d)
}.

(** The size of a block of version 1. *)
Definition old_size (c : Counts) : Z :=
  4 * timecnt c + timecnt c + 6 * typecnt c + charcnt c + 8 * leapcnt c + isstdcnt c + isutccnt c.

(** ** Reading it back *)

Lemma c_string_nul l k : Byte.x00 ∉ l -> c_string (l ++ Byte.x00 :: k) = (l, true).
Proof.
  induction l as [|b l IH]; intros Hl; cbn; [done|]. apply not_elem_of_cons in Hl as [Hb Hl].
  by rewrite bool_decide_false, IH.
Qed.

Lemma readBytes_nul over n before l k rest : Byte.x00 ∉ l -> zlen (l ++ Byte.x00 :: k) = n ->
  readBytes over n (opened before ((l ++ Byte.x00 :: k) ++ rest)) = Ok (l, opened (before ++ l ++ Byte.x00 :: k) rest).
Proof.
  intros Hl Hn. pose proof (zlen_nonneg (l ++ Byte.x00 :: k)). unfold readBytes.
  rewrite (proj2 (Z.ltb_ge n 0)), fread_opened, bind_ok by lia. by rewrite c_string_nul.
Qed.

(** The allocator left a NUL after the buffer. *)
Lemma readBytes_lucky n before l rest : 0 < n -> zlen l = n -> c_string l = (l, false) ->
  readBytes (Ok []) n (opened before (l ++ rest)) = Ok (l, opened (before ++ l) rest).
Proof.
  intros H0 Hn Hl. unfold readBytes. rewrite (proj2 (Z.ltb_ge n 0)), fread_opened, bind_ok, Hl by lia.
  rewrite (proj2 (Z.eqb_neq n 0)) by lia. by rewrite bind_ok, app_nil_r.
Qed.

Lemma addTransition_back d tr lt : transition_typed tr ->
  local_times d !! Z.to_nat (local_time_index tr) = Some lt -> local_time tr = utc_time tr + utc_offset lt ->
  addTransition d (utc_time tr) (local_time_index tr)
    = Ok (mkData (transitions d ++ [tr]) (local_times d) (abbreviation d) (time_zone_string d)).
Proof.
  intros (Hu & Hl & Hi) E El. unfold in_byte in Hi. unfold addTransition, at_. rewrite wrapu_small by lia.
  rewrite (proj2 (Z.ltb_ge _ _)), E, bind_ok, <- El by lia.
  rewrite no_overflow_ok, bind_ok, wraps_small by (repeat constructor; (apply Hl || lia)). by destruct tr.
Qed.

Lemma addTransitions_back d trs : Forall transition_typed trs ->
  (forall tr, tr ∈ trs -> exists lt, local_times d !! Z.to_nat (local_time_index tr) = Some lt /\
     local_time tr = utc_time tr + utc_offset lt) ->
  addTransitions d (combine (map utc_time trs) (map local_time_index trs))
    = Ok (mkData (transitions d ++ trs) (local_times d) (abbreviation d) (time_zone_string d)).
Proof.
  intros Ht. revert d. induction Ht as [|tr trs Ht Hts IH]; intros d Hin; cbn.
  - rewrite app_nil_r. by destruct d.
  - destruct (Hin tr ltac:(by left)) as (lt & E & El). rewrite (addTransition_back _ _ lt), bind_ok by done.
    rewrite IH; cbn; [by rewrite <- app_assoc|]. intros tr' Htr'. apply Hin. by right.
Qed.

Lemma map_time_of ts : map time_of (map type_of ts) = ts.
Proof. rewrite map_map. rewrite <- (map_id ts) at 2. apply map_ext. by intros []. Qed.

Lemma count_int c n : counts_ok c -> n ∈ count_list c -> in_int 32 n.
Proof. intros Hc Hn. pose proof (proj1 (Forall_forall _ _) Hc n Hn) as Hb. unfold in_int. cbn in Hb. lia. Qed.

(** The six counts, as both callers read them. *)
Lemma read_counts {A} before c rest (k : Z -> Z -> Z -> Z -> Z -> Z -> File -> result A) : counts_ok c ->
  ('(n1, f1) ← readInt32 (opened before (counts_bytes c ++ rest)); '(n2, f2) ← readInt32 f1;
   '(n3, f3) ← readInt32 f2; '(n4, f4) ← readInt32 f3; '(n5, f5) ← readInt32 f4; '(n6, f6) ← readInt32 f5;
   k n1 n2 n3 n4 n5 n6 f6)
  = k (isutccnt c) (isstdcnt c) (leapcnt c) (timecnt c) (typecnt c) (charcnt c)
      (opened (before ++ counts_bytes c) rest).
Proof.
  intros Hc. unfold counts_bytes. cbn [count_list flat_map]. rewrite app_nil_r, <- !app_assoc.
  do 6 (rewrite reads, bind_ok by (apply (count_int c); [done|unfold count_list; set_solver])).
  by rewrite <- !app_assoc.
Qed.

Section Block.
Context (v1 : bool) (d : Data) (r : Rest) (Hw : writable v1 d r).

Lemma times_ok : length (map utc_time (transitions d)) = Z.to_nat (zlen (transitions d)) /\
  Forall (time_ok v1) (map utc_time (transitions d)).
Proof using Hw. split; [unfold zlen; rewrite length_map; lia|]. apply Forall_map, Hw. Qed.

Lemma indices_ok : length (map local_time_index (transitions d)) = Z.to_nat (zlen (transitions d)) /\
  Forall in_byte (map local_time_index (transitions d)).
Proof using Hw.
  split; [unfold zlen; rewrite length_map; lia|]. apply Forall_map.
  apply (Forall_impl _ _ _ (typed_transitions _ (wr_typed _ _ _ Hw))). by intros tr (_ & _ & ?).
Qed.

Lemma types_ok : length (map type_of (local_times d)) = Z.to_nat (zlen (local_times d)) /\
  Forall type_ok (map type_of (local_times d)).
Proof using Hw.
  split; [unfold zlen; rewrite length_map; lia|]. apply Forall_map.
  apply (Forall_impl _ _ _ (typed_times _ (wr_typed _ _ _ Hw))). by intros [].
Qed.

Lemma indicators_ok (l : list byte) : l = [] \/ length l = length (local_times d) ->
  negb (zlen l =? 0) && negb (zlen l =? zlen (local_times d)) = false.
Proof using. unfold zlen. intros [->| ->]; cbn; [done|]. by rewrite Z.eqb_refl, andb_false_r. Qed.

Lemma reserve_zlen {A} (l : list A) : reserve (zlen l) = Ok tt.
Proof using. unfold reserve. rewrite (proj2 (Z.ltb_ge _ _)); [done|apply zlen_nonneg]. Qed.

(** A block is read back, up to what follows the designations. *)
Lemma readDataBlock_back over before rest :
  exists f, readDataBlock over (opened before (counts_bytes (counts_of d r) ++ data_bytes v1 d r ++ rest)) empty_Data v1
    = Ok (true, mkData (transitions d) (local_times d) (abbreviation d) (if v1 then [] else rest), f).
Proof using Hw.
  unfold readDataBlock. cbv zeta. rewrite read_counts by apply Hw. unfold counts_of.
  cbn [isutccnt isstdcnt leapcnt timecnt typecnt charcnt]. rewrite Z.eqb_refl. cbn [negb].
  rewrite !indicators_ok by apply Hw. rewrite (reserve_zlen (transitions d)), bind_ok. unfold data_bytes. rewrite <- !app_assoc.
  change (if v1 then readInt32 else readInt64) with (readTime v1).
  rewrite reads, bind_ok by apply times_ok. rewrite reads, bind_ok by apply indices_ok.
  rewrite (reserve_zlen (local_times d)), bind_ok, reads, bind_ok by apply types_ok.
  change (fold_left _ (map type_of (local_times d)) empty_Data) with (added empty_Data (map type_of (local_times d))).
  rewrite added_eq, map_time_of. cbv zeta.
  destruct (wr_typed _ _ _ Hw) as [Ht _ Htr].
  rewrite addTransitions_back, bind_ok by (done || intros tr Hin; destruct (Ht tr Hin) as (_ & lt & ? & ?); by exists lt).
  rewrite (app_assoc (abbreviation d)), (readBytes_nul over), bind_ok
    by (apply (wr_abbreviation _ _ _ Hw) || (rewrite zlen_app, zlen_cons; lia)).
  rewrite Z.mul_0_l, skip_opened_nil, !skip_opened. destruct v1; [by eexists|].
  unfold readToEnd, opened. cbn [pos contents]. rewrite zdrop_app_ge, Z.sub_diag, zdrop_nonpos by lia. by eexists.
Qed.
End Block.

Lemma opened_0 l : mkFile l 0 = opened [] l.
Proof. reflexivity. Qed.

Lemma zlen_counts c : zlen (counts_bytes c) = 24.
Proof. unfold counts_bytes. cbn [count_list flat_map]. rewrite !zlen_app, !zlen_be_bytes. reflexivity. Qed.

Lemma read_header before v c rest : counts_ok c ->
  readBytes (Ok []) 4 (opened before (header v ++ counts_bytes c ++ rest))
    = Ok (bytes_of "TZif", opened (before ++ bytes_of "TZif") ([v] ++ replicate 15 Byte.x00 ++ counts_bytes c ++ rest)).
Proof. intros Hc. unfold header. rewrite <- !app_assoc. by apply readBytes_lucky. Qed.

Lemma read_zeros before rest :
  readBytes (Ok []) 15 (opened before (replicate 15 Byte.x00 ++ rest))
    = Ok ([], opened (before ++ replicate 15 Byte.x00) rest).
Proof. apply (readBytes_nul (Ok []) 15 before [] (replicate 14 Byte.x00)); [apply not_elem_of_nil|done]. Qed.

(** The head of a file up to its counts. *)
Lemma read_head v c rest (k : list byte -> File -> result (bool * Data)) s : counts_ok c ->
  c_string [v] = (s, bool_decide (v = Byte.x00)) ->
  ('(head, f1) ← readBytes (Ok []) 4 (mkFile (header v ++ counts_bytes c ++ rest) 0);
   if negb (bool_decide (head = bytes_of "TZif")) then Err (Exception "bad head") else
   '(version, f2) ← readBytes (Ok []) 1 f1;
   '(_, f3) ← readBytes (Ok []) 15 f2;
   k version f3) = k s (opened (header v) (counts_bytes c ++ rest)).
Proof.
  intros Hc Hs. rewrite opened_0, read_header, bind_ok by done. rewrite bool_decide_true by done. cbn [negb].
  assert (readBytes (Ok []) 1 (opened ([] ++ bytes_of "TZif") ([v] ++ replicate 15 Byte.x00 ++ counts_bytes c ++ rest))
    = Ok (s, opened (([] ++ bytes_of "TZif") ++ [v]) (replicate 15 Byte.x00 ++ counts_bytes c ++ rest))) as ->.
  { unfold readBytes. rewrite fread_opened by done. cbn [Z.ltb Z.compare]. rewrite bind_ok, Hs.
    case_bool_decide; [done|]. cbn. by rewrite app_nil_r. }
  by rewrite bind_ok, read_zeros, bind_ok.
Qed.

Lemma read_v1 d r : writable true d r ->
  readTimeZoneFile (Ok []) (Some (file_v1 d r)) empty_Data
    = Ok (true, mkData (transitions d) (local_times d) (abbreviation d) []).
Proof.
  intros Hw. unfold readTimeZoneFile, file_v1, readTimeZoneFile_try.
  rewrite (read_head _ _ _ _ []) by (done || apply Hw). rewrite read_counts by apply Hw.
  rewrite bool_decide_false by done. cbv zeta.
  replace (-4 * 6) with (- zlen (counts_bytes (counts_of d r))) by by rewrite zlen_counts.
  rewrite rewind_opened.
  destruct (readDataBlock_back true d r Hw (Ok []) (header Byte.x00) []) as [f Hf]. rewrite app_nil_r in Hf.
  by rewrite Hf, bind_ok.
Qed.

Lemma read_v2 c old d r : writable false d r -> counts_ok c -> 6 * typecnt c < 2 ^ 31 -> 8 * leapcnt c < 2 ^ 31 ->
  zlen old = old_size c ->
  readTimeZoneFile (Ok []) (Some (file_v2 c old d r)) empty_Data = Ok (true, d).
Proof.
  intros Hw Hc H6 H8 Hold. unfold readTimeZoneFile, file_v2, readTimeZoneFile_try.
  rewrite (read_head _ _ _ _ [Byte.x32]), read_counts, bool_decide_true by done.
  assert (Forall (fun n => 0 <= n < 2 ^ 31) (count_list c)) as Hb by done.
  unfold count_list in Hb. rewrite !Forall_cons in Hb. destruct Hb as (? & ? & ? & ? & ? & ? & _).
  rewrite no_overflow_ok, bind_ok by (repeat constructor; lia). cbv zeta.
  unfold old_size in Hold.
  replace (wraps 64 (wrapu 64 _)) with (zlen old)
    by (rewrite Hold, wrapu_small, wraps_small by lia; lia).
  rewrite skip_opened, read_header, bind_ok by apply Hw. rewrite bool_decide_true by done. cbn [negb].
  rewrite app_assoc. change 16 with (zlen ([Byte.x32] ++ replicate 15 Byte.x00)). rewrite skip_opened.
  destruct (readDataBlock_back false d r Hw (Ok []) (((((header Byte.x32 ++ counts_bytes c) ++ old) ++ bytes_of "TZif") ++ [Byte.x32] ++ replicate 15 Byte.x00)) (time_zone_string d)) as [f Hf].
  rewrite Hf, bind_ok. by destruct d.
Qed.

(** ** Properties *)

(** [C27] Zone files are read back.  Whatever table one writes in the format of version
    1 or 2, with any indicators, further designations and, in version 2, any block for
    old readers, is the table that the reader gives, as long as the byte behind the
    reader's buffer, which it reads, is NUL. *)
Theorem zone_file_roundtrip d r :
  (writable true d r -> time_zone_string d = [] -> loadZoneFile (Ok []) (Some (file_v1 d r)) = Ok (Some d)) /\
  (forall c old, writable false d r -> counts_ok c -> 6 * typecnt c < 2 ^ 31 -> 8 * leapcnt c < 2 ^ 31 ->
     zlen old = old_size c -> loadZoneFile (Ok []) (Some (file_v2 c old d r)) = Ok (Some d)).
Proof.
  split; unfold loadZoneFile.
  - intros Hw Hs. rewrite read_v1, bind_ok, <- Hs by done. by destruct d.
  - intros c old Hw Hc H6 H8 Hold. by rewrite read_v2, bind_ok.
Qed.

(** [C28] Accepted zone files.  Whatever the bytes of a file and whatever is behind the
    reader's buffer, a zone that is accepted is well typed: members fit their types,
    and every transition points at a local time type and has its local time in it.  So
    looking up an instant, or a clock reading that is not near the end of 64 bits,
    gives one of the zone's types and is never out of bounds, unless the file lists
    no type at all: then every look-up is undefined. *)
Theorem zone_file_typed over file d :
  loadZoneFile over file = Ok (Some d) ->
  typed d /\
  (local_times d <> [] -> forall t, found d (findLocalTime d t)) /\
  (local_times d <> [] -> moderate d -> forall x post, found d (findLocalTime_local d x post)) /\
  (local_times d = [] -> forall t, findLocalTime d t = Err UndefinedBehaviour).
Proof.
  intros E. unfold loadZoneFile in E. apply bind_ok_inv in E as ([ok d'] & E & Eok).
  destruct ok; [|done]. injection Eok as ->.
  assert (typed d) as Hd.
  { unfold readTimeZoneFile in E. destruct file as [bytes|]; [|done].
    destruct (readTimeZoneFile_try _ _ _) as [[ok' d']|[]] eqn:Et; try discriminate E. injection E as -> ->.
    unfold readTimeZoneFile_try in Et. inv_ok. repeat (case_match || inv_ok); simplify_eq;
      by eapply readDataBlock_typed. }
  pose proof (typed_table _ Hd) as Ht. split_and!; [done| | |].
  - intros Hl t. by apply findLocalTime_found.
  - intros Hl Hm x post. by apply findLocalTime_local_found.
  - intros Hl t. unfold findLocalTime. rewrite Hl. destruct (transitions d) as [|tr l] eqn:Etr; [done|].
    destruct (Ht tr ltac:(rewrite Etr; by left)) as (_ & lt & E0 & _). by rewrite Hl in E0.
Qed.

(** Zones of no type are accepted.  A file whose count of local time types is zero,
    which the format forbids, is a zone, and no instant can be looked up in it. *)
Theorem zone_without_types_accepted :
  loadZoneFile (Ok []) (Some (file_v1 empty_Data (mkRest [] [] []))) = Ok (Some empty_Data) /\
  forall t, findLocalTime empty_Data t = Err UndefinedBehaviour.
Proof. split; [vm_compute; reflexivity|done]. Qed.

(** ** Witnesses *)

(** Eight hours east of UTC, nine in summer. *)
Definition summer : Data :=
  mkData (transitions sample_zone) (local_times sample_zone) (bytes_of "CST") (bytes_of "CST-8").
Definition summer_rest : Rest :=
  mkRest (bytes_of "CDT" ++ [Byte.x00]) [Byte.x00; Byte.x00] [].

(** A block for old readers, with one type and a leap second. *)
Definition old_counts : Counts := mkCounts 0 1 1 0 1 4.
Definition old_block : list byte := replicate 19 Byte.x01.
Definition summer_file : list byte := file_v2 old_counts old_block summer summer_rest.

Lemma summer_writable : writable false summer summer_rest.
Proof.
  split; [split; [exact sample_table_ok|..]| | | | |].
  1-4: repeat constructor; vm_compute; intuition discriminate.
  - apply (bool_decide_unpack _). vm_compute. exact I.
  - by right.
  - by left.
Qed.

Lemma zone_file_roundtrip_witness : loadZoneFile (Ok []) (Some summer_file) = Ok (Some summer).
Proof.
  apply (proj2 (zone_file_roundtrip summer summer_rest)).
  - exact summer_writable.
  - repeat constructor; vm_compute; intuition discriminate.
  - reflexivity.
  - reflexivity.
  - reflexivity.
Defined.

Lemma zone_file_typed_witness : typed summer /\ found summer (findLocalTime summer 2999000).
Proof.
  destruct (zone_file_typed (Ok []) (Some summer_file) summer) as (Ht & Hf & _); [vm_compute; reflexivity|].
  split; [exact Ht|]. apply Hf. discriminate.
Defined.

End ZoneFile.
