(* ===== verification/Channel.v ===== *)
(** * [dws::net::Channel]: Channel.h, Channel.cc

    A channel is the registration of one file descriptor with an event loop.
    Channels are reached through pointers, from their owner, from the poller
    and from the loop, so they live in a heap of the surrounding world [W]; the
    class [Host] is what a channel asks of that world. *)

From S2P Require Import Prelude Text.

Module Channel.

(** ** Event bits of poll(2) *)

Definition POLLIN : Z := 1.
Definition POLLPRI : Z := 2.
Definition POLLOUT : Z := 4.
Definition POLLERR : Z := 8.
Definition POLLHUP : Z := 16.
Definition POLLNVAL : Z := 32.
Definition POLLRDHUP : Z := 0x2000.

Definition kNoneEvent : Z := 0.
Definition kReadEvent : Z := Z.lor POLLIN POLLPRI.
Definition kWriteEvent : Z := POLLOUT.

(** [if (bits & mask)] *)
Definition has_bits (bits mask : Z) : bool := negb (Z.land bits mask =? 0).

(** ** The record *)

(** Pointers are object numbers.  A [std::function] is a name whose behaviour
    the world knows; [None] is an empty function. *)
Record Channel := mkChannel {
  loop_ : Z;
  fd_ : Z;
  events_ : Z;
  revents_ : Z;
  index_ : Z;
  logHup_ : bool;
  tie_ : option Z;
  tied_ : bool;
  eventHandling_ : bool;
  addedToLoop_ : bool;
  readCallback_ : option Z;
  writeCallback_ : option Z;
  closeCallback_ : option Z;
  errorCallback_ : option Z
}.

Definition new (loop fd : Z) : Channel :=
  mkChannel loop fd 0 0 (-1) true None false false false None None None None.

Definition set_events (ev : Z) (c : Channel) : Channel :=
  mkChannel (loop_ c) (fd_ c) ev (revents_ c) (index_ c) (logHup_ c) (tie_ c) (tied_ c)
    (eventHandling_ c) (addedToLoop_ c) (readCallback_ c) (writeCallback_ c)
    (closeCallback_ c) (errorCallback_ c).
Definition set_revents (rev : Z) (c : Channel) : Channel :=
  mkChannel (loop_ c) (fd_ c) (events_ c) rev (index_ c) (logHup_ c) (tie_ c) (tied_ c)
    (eventHandling_ c) (addedToLoop_ c) (readCallback_ c) (writeCallback_ c)
    (closeCallback_ c) (errorCallback_ c).
Definition set_index (idx : Z) (c : Channel) : Channel :=
  mkChannel (loop_ c) (fd_ c) (events_ c) (revents_ c) idx (logHup_ c) (tie_ c) (tied_ c)
    (eventHandling_ c) (addedToLoop_ c) (readCallback_ c) (writeCallback_ c)
    (closeCallback_ c) (errorCallback_ c).
Definition doNotLogHup (c : Channel) : Channel :=
  mkChannel (loop_ c) (fd_ c) (events_ c) (revents_ c) (index_ c) false (tie_ c) (tied_ c)
    (eventHandling_ c) (addedToLoop_ c) (readCallback_ c) (writeCallback_ c)
    (closeCallback_ c) (errorCallback_ c).
Definition tie (obj : Z) (c : Channel) : Channel :=
  mkChannel (loop_ c) (fd_ c) (events_ c) (revents_ c) (index_ c) (logHup_ c) (Some obj) true
    (eventHandling_ c) (addedToLoop_ c) (readCallback_ c) (writeCallback_ c)
    (closeCallback_ c) (errorCallback_ c).
Definition set_eventHandling (b : bool) (c : Channel) : Channel :=
  mkChannel (loop_ c) (fd_ c) (events_ c) (revents_ c) (index_ c) (logHup_ c) (tie_ c) (tied_ c)
    b (addedToLoop_ c) (readCallback_ c) (writeCallback_ c)
    (closeCallback_ c) (errorCallback_ c).
Definition set_addedToLoop (b : bool) (c : Channel) : Channel :=
  mkChannel (loop_ c) (fd_ c) (events_ c) (revents_ c) (index_ c) (logHup_ c) (tie_ c) (tied_ c)
    (eventHandling_ c) b (readCallback_ c) (writeCallback_ c)
    (closeCallback_ c) (errorCallback_ c).
Definition setReadCallback (cb : option Z) (c : Channel) : Channel :=
  mkChannel (loop_ c) (fd_ c) (events_ c) (revents_ c) (index_ c) (logHup_ c) (tie_ c) (tied_ c)
    (eventHandling_ c) (addedToLoop_ c) cb (writeCallback_ c)
    (closeCallback_ c) (errorCallback_ c).
Definition setWriteCallback (cb : option Z) (c : Channel) : Channel :=
  mkChannel (loop_ c) (fd_ c) (events_ c) (revents_ c) (index_ c) (logHup_ c) (tie_ c) (tied_ c)
    (eventHandling_ c) (addedToLoop_ c) (readCallback_ c) cb
    (closeCallback_ c) (errorCallback_ c).
Definition setCloseCallback (cb : option Z) (c : Channel) : Channel :=
  mkChannel (loop_ c) (fd_ c) (events_ c) (revents_ c) (index_ c) (logHup_ c) (tie_ c) (tied_ c)
    (eventHandling_ c) (addedToLoop_ c) (readCallback_ c) (writeCallback_ c)
    cb (errorCallback_ c).
Definition setErrorCallback (cb : option Z) (c : Channel) : Channel :=
  mkChannel (loop_ c) (fd_ c) (events_ c) (revents_ c) (index_ c) (logHup_ c) (tie_ c) (tied_ c)
    (eventHandling_ c) (addedToLoop_ c) (readCallback_ c) (writeCallback_ c)
    (closeCallback_ c) cb.

Definition isNoneEvent (c : Channel) : bool := events_ c =? kNoneEvent.
Definition isWriting (c : Channel) : bool := has_bits (events_ c) kWriteEvent.
Definition isReading (c : Channel) : bool := has_bits (events_ c) kReadEvent.

Definition flag_names : list (Z * string) :=
  [(POLLIN, "IN "); (POLLPRI, "PRI "); (POLLOUT, "OUT "); (POLLHUP, "HUP ");
   (POLLRDHUP, "RDHUP "); (POLLERR, "ERR "); (POLLNVAL, "NVAL ")]%string.

(** The static [eventsToString], and its two uses. *)
Definition eventsToString_of (fd ev : Z) : list byte :=
  Text.decimal fd ++ bytes_of ": " ++
  concat (map (fun p => if has_bits ev (fst p) then bytes_of (snd p) else []) flag_names).
Definition eventsToString (c : Channel) : list byte := eventsToString_of (fd_ c) (events_ c).
Definition reventsToString (c : Channel) : list byte := eventsToString_of (fd_ c) (revents_ c).

(** ** What a channel asks of the world *)

Class Host (W : Type) := {
  chan_of : W -> Z -> option Channel;                   (* dereference *)
  put_chan : Z -> Channel -> W -> W;                    (* write through the pointer *)
  free_chan : Z -> W -> W;                              (* the end of its lifetime *)
  loop_updateChannel : Z -> Z -> W -> result W;         (* loop_->updateChannel(this) *)
  loop_removeChannel : Z -> Z -> W -> result W;
  loop_hasChannel : Z -> Z -> W -> result bool;
  loop_isInLoopThread : Z -> W -> bool
}.

(** Everything of a channel but the slot number the poller keeps in it. *)
Definition strip (c : Channel) : Channel := set_index 0 c.

(** The world stores channels, and registering a channel only renumbers. *)
Class HostLaws (W : Type) `{Host W} : Prop := {
  chan_put_eq : forall c ch w, chan_of (put_chan c ch w) c = Some ch;
  chan_put_ne : forall c d ch w, c <> d -> chan_of (put_chan c ch w) d = chan_of w d;
  chan_free_ne : forall c d w, c <> d -> chan_of (free_chan c w) d = chan_of w d;
  update_keeps : forall l c w w', loop_updateChannel l c w = Ok w' ->
    forall d, strip <$> chan_of w' d = strip <$> chan_of w d;
  remove_keeps : forall l c w w', loop_removeChannel l c w = Ok w' ->
    forall d, strip <$> chan_of w' d = strip <$> chan_of w d
}.

Section Operations.
Context {W : Type} `{Host W}.

Definition deref (w : W) (c : Z) : result Channel :=
  match chan_of w c with Some ch => Ok ch | None => Err UndefinedBehaviour end.

Definition modify (c : Z) (f : Channel -> Channel) (w : W) : result W :=
  ch ← deref w c; Ok (put_chan c (f ch) w).

Definition update (c : Z) (w : W) : result W :=
  w ← modify c (set_addedToLoop true) w;
  ch ← deref w c;
  loop_updateChannel (loop_ ch) c w.

Definition remove (c : Z) (w : W) : result W :=
  ch ← deref w c;
  _ ← assert_ (isNoneEvent ch);
  w ← modify c (set_addedToLoop false) w;
  loop_removeChannel (loop_ ch) c w.

(** [events_ = f(events_); update();] *)
Definition change_events (f : Z -> Z) (c : Z) (w : W) : result W :=
  w ← modify c (fun ch => set_events (f (events_ ch)) ch) w;
  update c w.

Definition enableReading : Z -> W -> result W := change_events (fun ev => Z.lor ev kReadEvent).
Definition disableReading : Z -> W -> result W :=
  change_events (fun ev => Z.land ev (Z.lnot kReadEvent)).
Definition enableWriting : Z -> W -> result W := change_events (fun ev => Z.lor ev kWriteEvent).
Definition disableWriting : Z -> W -> result W :=
  change_events (fun ev => Z.land ev (Z.lnot kWriteEvent)).
Definition disableAll : Z -> W -> result W := change_events (fun _ => kNoneEvent).

(** [~Channel]. *)
Definition destroy (c : Z) (w : W) : result W :=
  ch ← deref w c;
  _ ← assert_ (negb (eventHandling_ ch));
  _ ← assert_ (negb (addedToLoop_ ch));
  _ ← (if loop_isInLoopThread (loop_ ch) w then
         has ← loop_hasChannel (loop_ ch) c w; assert_ (negb has)
       else Ok tt);
  Ok (free_chan c w).

(** ** Event dispatch *)

Section Dispatch.
(** Calling a stored function, with the time for the read callback; taking and
    dropping a strong reference through a weak one. *)
Context (call : Z -> option Z -> W -> result W).
Context (lock : Z -> W -> option W) (unlock : Z -> W -> result W).

(** [if (bits) { if (cb) cb(); }], reading the channel again each time. *)
Definition fire (c : Z) (test : Z -> bool) (cb : Channel -> option Z) (arg : option Z) (w : W)
  : result W :=
  ch ← deref w c;
  if test (revents_ ch) then
    match cb ch with Some f => call f arg w | None => Ok w end
  else Ok w.

Definition closes (rev : Z) : bool := has_bits rev POLLHUP && negb (has_bits rev POLLIN).
Definition fails (rev : Z) : bool := has_bits rev (Z.lor POLLERR POLLNVAL).
Definition reads (rev : Z) : bool := has_bits rev (Z.lor POLLIN (Z.lor POLLPRI POLLRDHUP)).
Definition writes (rev : Z) : bool := has_bits rev POLLOUT.

Definition handleEventWithGuard (c receiveTime : Z) (w : W) : result W :=
  w ← modify c (set_eventHandling true) w;
  w ← fire c closes closeCallback_ None w;
  w ← fire c fails errorCallback_ None w;
  w ← fire c reads readCallback_ (Some receiveTime) w;
  w ← fire c writes writeCallback_ None w;
  modify c (set_eventHandling false) w.

Definition handleEvent (c receiveTime : Z) (w : W) : result W :=
  ch ← deref w c;
  if tied_ ch then
    match tie_ ch with
    | Some obj =>
        match lock obj w with
        | Some w => w ← handleEventWithGuard c receiveTime w; unlock obj w
        | None => Ok w
        end
    | None => Ok w
    end
  else handleEventWithGuard c receiveTime w.

(** The specification, apart from the masks: what poll(2) reports, as the bits
    of [revents] by their positions, and what they stand for. *)
Inductive condition := Input | Urgent | Output | Failure | HangUp | Invalid | PeerShut.

Definition bit_of (e : condition) : Z :=
  match e with
  | Input => 0 | Urgent => 1 | Output => 2 | Failure => 3 | HangUp => 4 | Invalid => 5 | PeerShut => 13
  end.
Definition reported (rev : Z) (e : condition) : bool := Z.testbit rev (bit_of e).

Definition hung_up (rev : Z) : bool := reported rev HangUp && negb (reported rev Input).
Definition broken (rev : Z) : bool := reported rev Failure || reported rev Invalid.
Definition readable (rev : Z) : bool := reported rev Input || reported rev Urgent || reported rev PeerShut.
Definition writable (rev : Z) : bool := reported rev Output.

(** The calls that a set of returned events stands for, in order. *)
Definition dispatch (ch : Channel) (receiveTime : Z) : list (Z * option Z) :=
  let when (b : bool) (cb : option Z) (arg : option Z) :=
    if b then match cb with Some f => [(f, arg)] | None => [] end else [] in
  when (hung_up (revents_ ch)) (closeCallback_ ch) None ++
  when (broken (revents_ ch)) (errorCallback_ ch) None ++
  when (readable (revents_ ch)) (readCallback_ ch) (Some receiveTime) ++
  when (writable (revents_ ch)) (writeCallback_ ch) None.

Fixpoint run_calls (l : list (Z * option Z)) (w : W) : result W :=
  match l with
  | [] => Ok w
  | (f, arg) :: l => w ← call f arg w; run_calls l w
  end.

End Dispatch.
End Operations.

(** ** Interest as two switches *)

Inductive request := EnableReading | DisableReading | EnableWriting | DisableWriting | DisableAll.

Definition request_op {W} `{Host W} (r : request) : Z -> W -> result W :=
  match r with
  | EnableReading => enableReading
  | DisableReading => disableReading
  | EnableWriting => enableWriting
  | DisableWriting => disableWriting
  | DisableAll => disableAll
  end.

Fixpoint requests {W} `{Host W} (rs : list request) (c : Z) (w : W) : result W :=
  match rs with
  | [] => Ok w
  | r :: rs => w ← request_op r c w; requests rs c w
  end.

(** The specification: is reading wanted, is writing wanted. *)
Definition switch (s : bool * bool) (r : request) : bool * bool :=
  match r with
  | EnableReading => (true, snd s)
  | DisableReading => (false, snd s)
  | EnableWriting => (fst s, true)
  | DisableWriting => (fst s, false)
  | DisableAll => (false, false)
  end.

Definition interest_bits (s : bool * bool) : Z :=
  Z.lor (if fst s then kReadEvent else 0) (if snd s then kWriteEvent else 0).

(** The new value of [events_]. *)
Definition request_bits (r : request) (ev : Z) : Z :=
  match r with
  | EnableReading => Z.lor ev kReadEvent
  | DisableReading => Z.land ev (Z.lnot kReadEvent)
  | EnableWriting => Z.lor ev kWriteEvent
  | DisableWriting => Z.land ev (Z.lnot kWriteEvent)
  | DisableAll => kNoneEvent
  end.

Lemma request_bits_switch r s : request_bits r (interest_bits s) = interest_bits (switch s r).
Proof. by destruct r, s as [[] []]. Qed.

Section Laws.
Context {W : Type} `{HostLaws W}.

Lemma modify_ok c f w ch : chan_of w c = Some ch -> modify c f w = Ok (put_chan c (f ch) w).
Proof. intros E. unfold modify, deref. by rewrite E. Qed.

(** The other channels stay as they are. *)
Definition others (c : Z) (w w' : W) : Prop :=
  forall d, d <> c -> strip <$> chan_of w' d = strip <$> chan_of w d.

#[global] Instance others_preorder c : PreOrder (others c).
Proof.
  split; [by intros w d|]. intros w1 w2 w3 H12 H23 d Hd. by rewrite H23, H12.
Qed.

Lemma modify_others c f w w' : modify c f w = Ok w' -> others c w w'.
Proof.
  unfold modify. intros Hr. inv_ok. subst w'. intros d Hd. by rewrite chan_put_ne by congruence.
Qed.

Lemma request_others r c w w' : request_op r c w = Ok w' -> others c w w'.
Proof.
  intros Hr. assert (change_events (request_bits r) c w = Ok w') as Hc by (destruct r; exact Hr).
  unfold change_events, update in Hc. inv_ok.
  etrans; [by eapply modify_others|]. etrans; [by eapply modify_others|].
  intros d _. by eapply update_keeps.
Qed.

Lemma remove_others c w w' : remove c w = Ok w' -> others c w w'.
Proof.
  unfold remove. intros Hr. inv_ok. etrans; [by eapply modify_others|].
  intros d _. by eapply remove_keeps.
Qed.

Lemma destroy_others c w w' : destroy c w = Ok w' -> others c w w'.
Proof.
  unfold destroy. intros Hr. inv_ok. subst w'. intros d Hd. by rewrite chan_free_ne by congruence.
Qed.

Lemma request_events r c w w' ch :
  chan_of w c = Some ch -> request_op r c w = Ok w' ->
  exists ch', chan_of w' c = Some ch' /\
    strip ch' = strip (set_addedToLoop true (set_events (request_bits r (events_ ch)) ch)).
Proof.
  intros Ec Hr.
  assert (change_events (request_bits r) c w = Ok w') as Hc by (destruct r; exact Hr).
  unfold change_events in Hc. rewrite (modify_ok _ _ _ _ Ec), bind_ok in Hc.
  unfold update in Hc. erewrite modify_ok, bind_ok in Hc by apply chan_put_eq.
  unfold deref in Hc. rewrite chan_put_eq, bind_ok in Hc.
  pose proof (update_keeps _ _ _ _ Hc c) as Hk. rewrite chan_put_eq in Hk.
  destruct (chan_of w' c) as [ch'|]; [|by simplify_eq/=]. apply (inj Some) in Hk. by exists ch'.
Qed.

(** The channel has been registered, and not removed since. *)
Definition registered (c : Z) (w : W) : Prop := exists ch, chan_of w c = Some ch /\ addedToLoop_ ch = true.

Lemma request_registered r c w w' ch : chan_of w c = Some ch -> request_op r c w = Ok w' -> registered c w'.
Proof.
  intros Ec Hr. destruct (request_events _ _ _ _ _ Ec Hr) as (ch' & Ec' & Es). exists ch'. split; [done|].
  exact (f_equal addedToLoop_ Es).
Qed.

Lemma modify_registered c f w w' : (forall ch, addedToLoop_ ch = true -> addedToLoop_ (f ch) = true) ->
  modify c f w = Ok w' -> registered c w -> registered c w'.
Proof.
  intros Hf Hm (ch & Ec & Ha). rewrite (modify_ok _ _ _ _ Ec) in Hm. injection Hm as <-. eexists.
  split; [apply chan_put_eq|auto].
Qed.

Lemma others_registered c d w w' : others c w w' -> d <> c -> registered d w -> registered d w'.
Proof.
  intros Ho Hne (ch & Ec & Ha). specialize (Ho _ Hne). rewrite Ec in Ho.
  destruct (chan_of w' d) as [ch'|] eqn:Ec'; [|done]. apply (inj Some) in Ho. exists ch'.
  split; [done|]. rewrite <- Ha. exact (f_equal addedToLoop_ Ho).
Qed.

(** It cannot be destroyed. *)
Lemma destroy_registered c w : registered c w -> destroy c w = Err AssertFailure.
Proof.
  intros (ch & Ec & Ha). unfold destroy, deref. rewrite Ec, bind_ok, Ha. by destruct (eventHandling_ ch).
Qed.

Lemma requests_events rs c w w' ch s :
  chan_of w c = Some ch -> events_ ch = interest_bits s -> requests rs c w = Ok w' ->
  exists ch', chan_of w' c = Some ch' /\ events_ ch' = interest_bits (foldl switch s rs).
Proof.
  revert w ch s. induction rs as [|r rs IH]; intros w ch s Ec Es Hr; cbn [requests] in Hr.
  - inv_ok. subst. by exists ch.
  - inv_ok. destruct (request_events _ _ _ _ _ Ec E) as (ch1 & Ec1 & Hs).
    apply (IH a ch1); [done| |done].
    apply (f_equal events_) in Hs. cbn in Hs. by rewrite Hs, Es, request_bits_switch.
Qed.

End Laws.

Lemma interest_isReading ch s : events_ ch = interest_bits s -> isReading ch = fst s.
Proof. intros E. unfold isReading. rewrite E. by destruct s as [[] []]. Qed.

Lemma interest_isWriting ch s : events_ ch = interest_bits s -> isWriting ch = snd s.
Proof. intros E. unfold isWriting. rewrite E. by destruct s as [[] []]. Qed.

Lemma interest_isNone ch s :
  events_ ch = interest_bits s -> isNoneEvent ch = negb (fst s) && negb (snd s).
Proof. intros E. unfold isNoneEvent. rewrite E. by destruct s as [[] []]. Qed.

(** ** Dispatch against its specification *)

Lemma has_bits_lor rev a b : has_bits rev (Z.lor a b) = has_bits rev a || has_bits rev b.
Proof.
  unfold has_bits. rewrite Z.land_lor_distr_r.
  apply eq_true_iff_eq. rewrite orb_true_iff, !negb_true_iff, !Z.eqb_neq, Z.lor_eq_0_iff.
  destruct (decide (Z.land rev a = 0)); tauto.
Qed.

(** A mask of one bit tests that bit, so the masks test the conditions. *)
Lemma has_bits_testbit rev k m : 0 <= k -> m = 2 ^ k -> has_bits rev m = Z.testbit rev k.
Proof.
  intros Hk ->. unfold has_bits. destruct (Z.testbit rev k) eqn:E.
  - apply negb_true_iff, Z.eqb_neq. intros H0. apply (f_equal (fun z => Z.testbit z k)) in H0.
    by rewrite Z.land_spec, E, Z.pow2_bits_true, Z.bits_0 in H0 by done.
  - apply negb_false_iff, Z.eqb_eq, Z.bits_inj'. intros n Hn.
    rewrite Z.land_spec, Z.bits_0, Z.pow2_bits_eqb by done. destruct (Z.eqb_spec k n) as [<-|]; [by rewrite E|].
    by rewrite andb_false_r.
Qed.

Lemma closes_spec rev : closes rev = hung_up rev.
Proof.
  unfold closes, hung_up, reported, POLLHUP, POLLIN.
  by rewrite (has_bits_testbit rev 4 16), (has_bits_testbit rev 0 1) by done.
Qed.
Lemma fails_spec rev : fails rev = broken rev.
Proof.
  unfold fails, broken, reported, POLLERR, POLLNVAL. rewrite has_bits_lor.
  by rewrite (has_bits_testbit rev 3 8), (has_bits_testbit rev 5 32) by done.
Qed.
Lemma reads_spec rev : reads rev = readable rev.
Proof.
  unfold reads, readable, reported, POLLIN, POLLPRI, POLLRDHUP. rewrite !has_bits_lor, orb_assoc.
  by rewrite (has_bits_testbit rev 0 1), (has_bits_testbit rev 1 2), (has_bits_testbit rev 13 0x2000) by done.
Qed.
Lemma writes_spec rev : writes rev = writable rev.
Proof. by apply (has_bits_testbit rev 2). Qed.

Lemma in_reads rev : reported rev Input = true -> closes rev = false /\ reads rev = true.
Proof.
  intros Hin. rewrite closes_spec, reads_spec. unfold hung_up, readable. rewrite Hin.
  by rewrite andb_false_r.
Qed.

Section DispatchLaws.
Context {W : Type} `{HostLaws W} (call : Z -> option Z -> W -> result W).

(** What dispatch reads of a channel. *)
Definition handlers (ch : Channel) :=
  (revents_ ch, closeCallback_ ch, errorCallback_ ch, readCallback_ ch, writeCallback_ ch).

(** The callbacks neither destroy the channel nor change its handlers. *)
Definition calls_keep (c : Z) : Prop := forall f arg w w',
  call f arg w = Ok w' -> handlers <$> chan_of w' c = handlers <$> chan_of w c.

Lemma fire_eq c test cb arg w ch ch0 :
  chan_of w c = Some ch -> handlers ch = handlers ch0 -> cb ch = cb ch0 ->
  fire call c test cb arg w = run_calls call
    (if test (revents_ ch0) then match cb ch0 with Some f => [(f, arg)] | None => [] end else []) w.
Proof.
  intros Ec Hh Hcb. unfold fire, deref. rewrite Ec, bind_ok.
  assert (revents_ ch = revents_ ch0) as -> by (injection Hh; auto). rewrite Hcb.
  destruct (test _), (cb ch0) as [f|]; try reflexivity.
  cbn [run_calls]. by destruct (call f arg w).
Qed.

Lemma run_calls_app l k w : run_calls call (l ++ k) w = (run_calls call l w ≫= run_calls call k).
Proof.
  revert w. induction l as [|[f arg] l IH]; intros w; [done|]. cbn [run_calls app].
  destruct (call f arg w) as [w'|e]; [apply IH|done].
Qed.

Lemma run_calls_keep c l w w' :
  calls_keep c -> run_calls call l w = Ok w' ->
  handlers <$> chan_of w' c = handlers <$> chan_of w c.
Proof.
  intros Hk. revert w. induction l as [|[f arg] l IH]; intros w Hr; cbn [run_calls] in Hr;
    inv_ok; [by subst|]. by rewrite (IH _ Hr), (Hk _ _ _ _ E).
Qed.

(** The channel still has the handlers it was dispatched with. *)
Definition known (c : Z) (ch0 : Channel) (w : W) : Prop :=
  handlers <$> chan_of w c = Some (handlers ch0).

Lemma known_fire c test cb arg ch0 w :
  (forall ch, handlers ch = handlers ch0 -> cb ch = cb ch0) -> known c ch0 w ->
  fire call c test cb arg w = run_calls call
    (if test (revents_ ch0) then match cb ch0 with Some f => [(f, arg)] | None => [] end else []) w.
Proof.
  intros Hcb Hk. unfold known in Hk. destruct (chan_of w c) as [ch|] eqn:Ec; [|by simplify_eq/=].
  assert (handlers ch = handlers ch0) as Hh by (unfold handlers in *; simpl in Hk; congruence).
  by apply fire_eq with ch; [..|apply Hcb].
Qed.

Lemma known_run c ch0 l w w' :
  calls_keep c -> run_calls call l w = Ok w' -> known c ch0 w -> known c ch0 w'.
Proof. intros Hc Hr Hk. unfold known. by rewrite (run_calls_keep _ _ _ _ Hc Hr). Qed.

Lemma guard_dispatch c t w ch :
  calls_keep c -> chan_of w c = Some ch ->
  handleEventWithGuard call c t w =
    (run_calls call (dispatch ch t) (put_chan c (set_eventHandling true ch) w)
       ≫= modify c (set_eventHandling false)).
Proof.
  intros Hc Ec. unfold handleEventWithGuard. rewrite (modify_ok _ _ _ _ Ec), bind_ok.
  set (w1 := put_chan _ _ _). assert (known c ch w1) as Hk.
  { unfold known, w1. by rewrite chan_put_eq. }
  clearbody w1. unfold dispatch. rewrite <- closes_spec, <- fails_spec, <- reads_spec, <- writes_spec.
  rewrite !run_calls_app, !bind_assoc.
  rewrite (known_fire _ _ _ _ ch) by (first [done | intros ? [=]; congruence]).
  apply bind_ext; intros w2 E2. pose proof (known_run _ _ _ _ _ Hc E2 Hk) as Hk2.
  rewrite run_calls_app, bind_assoc.
  rewrite (known_fire _ _ _ _ ch) by (first [done | intros ? [=]; congruence]).
  apply bind_ext; intros w3 E3. pose proof (known_run _ _ _ _ _ Hc E3 Hk2) as Hk3.
  rewrite run_calls_app, bind_assoc.
  rewrite (known_fire _ _ _ _ ch) by (first [done | intros ? [=]; congruence]).
  apply bind_ext; intros w4 E4. pose proof (known_run _ _ _ _ _ Hc E4 Hk3) as Hk4.
  by rewrite (known_fire _ _ _ _ ch) by (first [done | intros ? [=]; congruence]).
Qed.

End DispatchLaws.

(** ** Properties *)

(** The interest set.  Whatever the order in which reading and writing are
    enabled and disabled, [events_] is the set of bits of two switches, each in
    the position last asked for: enabling or disabling one never disturbs the
    other, and [isReading], [isWriting] and [isNoneEvent] read them back. *)
Theorem channel_interest_refines {W} `{HostLaws W} rs c w w' ch s :
  chan_of w c = Some ch -> events_ ch = interest_bits s -> requests rs c w = Ok w' ->
  exists ch', chan_of w' c = Some ch' /\
    isReading ch' = fst (foldl switch s rs) /\ isWriting ch' = snd (foldl switch s rs) /\
    isNoneEvent ch' = negb (isReading ch') && negb (isWriting ch').
Proof.
  intros Ec Es Hr. destruct (requests_events _ _ _ _ _ _ Ec Es Hr) as (ch' & Ec' & E').
  exists ch'. split; [done|].
  rewrite (interest_isReading _ _ E'), (interest_isWriting _ _ E'), (interest_isNone _ _ E').
  done.
Qed.

(** [C19] Event dispatch.  When the callbacks leave the channel alive, its handlers
    and its returned events in place, [handleEventWithGuard] is exactly the calls
    that the bits of poll(2) in [revents] stand for, in this order: close for a
    hang-up without input, error for an error or an invalid descriptor, read for
    input, urgent data or a peer that has shut down, with the receive time, and
    write for output.  A hang-up with data still to read does not close, and the
    channel is not marked as handling afterwards. *)
Theorem channel_dispatch {W} `{HostLaws W} call c t w ch :
  calls_keep call c -> chan_of w c = Some ch ->
  handleEventWithGuard call c t w =
    (run_calls call (dispatch ch t) (put_chan c (set_eventHandling true ch) w)
       ≫= modify c (set_eventHandling false)) /\
  (forall w', handleEventWithGuard call c t w = Ok w' ->
     exists ch', chan_of w' c = Some ch' /\ eventHandling_ ch' = false) /\
  (reported (revents_ ch) Input = true -> closes (revents_ ch) = false /\
     reads (revents_ ch) = true).
Proof.
  intros Hc Ec. split_and!.
  - by apply guard_dispatch.
  - intros w' Hw. rewrite (guard_dispatch _ _ _ _ _ Hc Ec) in Hw.
    apply bind_ok_inv in Hw as (w1 & _ & Hw). unfold modify in Hw. inv_ok. subst.
    by rewrite chan_put_eq; eexists.
  - apply in_reads.
Qed.

(** ** A host for concrete runs *)

(** Channels alone, with a loop that accepts every registration. *)
Definition store : Type := gmap Z Channel.

#[export] Instance store_host : Host store := {
  chan_of w c := w !! c;
  put_chan c ch w := <[c:=ch]> w;
  free_chan c w := delete c w;
  loop_updateChannel _ _ w := Ok w;
  loop_removeChannel _ _ w := Ok w;
  loop_hasChannel _ _ _ := Ok false;
  loop_isInLoopThread _ _ := true
}.

#[export] Instance store_laws : HostLaws store.
Proof.
  split.
  - intros c ch w. apply lookup_insert_eq.
  - intros c d ch w Hne. by apply lookup_insert_ne.
  - intros c d w Hne. by apply lookup_delete_ne.
  - by intros l c w w' [= <-] d.
  - by intros l c w w' [= <-] d.
Qed.

Lemma channel_interest_refines_witness :
  exists ch', chan_of (W:=store) {[ 7 := set_addedToLoop true (set_events 4 (new 1 5)) ]} 7 = Some ch' /\
    isReading ch' = false /\ isWriting ch' = true /\
    isNoneEvent ch' = negb (isReading ch') && negb (isWriting ch').
Proof.
  apply (channel_interest_refines (W:=store) [EnableReading; EnableWriting; DisableReading] 7
    {[ 7 := new 1 5 ]} _ (new 1 5) (false, false)); reflexivity.
Defined.

(** Every callback does nothing. *)
Definition quiet (f : Z) (arg : option Z) (w : store) : result store := Ok w.

Lemma channel_dispatch_witness :
  let ch := setReadCallback (Some 3) (set_revents (Z.lor POLLIN POLLHUP) (new 1 5)) in
  let w : store := {[ 7 := ch ]} in
  handleEventWithGuard quiet 7 9 w = Ok w /\ dispatch ch 9 = [(3, Some 9)].
Proof.
  intros ch w. split; [|reflexivity].
  rewrite (proj1 (channel_dispatch quiet 7 9 w ch ltac:(by intros f arg w1 w2 [= <-])
    ltac:(reflexivity))). vm_compute. reflexivity.
Defined.

End Channel.
