(* ===== verification/Service.v ===== *)
(** * A loop that serves channels

    What the owners of channels rely on when they register them, change their
    interest and take them off: Channel.h and EventLoop.h, seen from a client.
    Channel.v's [Host] says what the calls are, this class that they succeed, and what
    they do to the loop's registry.  LoopService.v proves it of EventLoop.v. *)

From S2P Require Import Prelude Channel.

Module Service.

(** [registry]: the channels registered, by descriptor.  [asked]: what the kernel is
    asked about, [None] for a descriptor that is registered but ignored.  [turning l]:
    the caller is in the thread of the loop [l], which serves.  [room n]: the loop can
    take so many more channels.  [removable c]: the loop is not about to hand an event
    to [c], so that the assertion of [removeChannel] holds. *)
Class Service (W : Type) `{Channel.Host W} := {
  registry : W -> gmap Z Z;
  asked : W -> gmap Z (option Z);
  turning : Z -> W -> Prop;
  room : nat -> W -> Prop;
  removable : Z -> W -> Prop;

  make l c ch w : turning l w -> Channel.chan_of w c = None ->
    let w' := Channel.put_chan c ch w in
    turning l w' /\ registry w' = registry w /\ asked w' = asked w /\
    (forall n, room n w -> room n w') /\ (forall d, removable d w -> removable d w');
  touch l c ch ch' w : turning l w -> Channel.chan_of w c = Some ch ->
    Channel.fd_ ch' = Channel.fd_ ch -> Channel.index_ ch' = Channel.index_ ch ->
    let w' := Channel.put_chan c ch' w in
    turning l w' /\ registry w' = registry w /\ asked w' = asked w /\
    (forall n, room n w -> room n w') /\ (forall d, removable d w -> removable d w');
  register l r c ch w n : turning l w -> room (S n) w -> Channel.chan_of w c = Some ch ->
    Channel.loop_ ch = l -> Channel.index_ ch = -1 -> 0 <= Channel.fd_ ch ->
    registry w !! Channel.fd_ ch = None ->
    exists w', Channel.request_op r c w = Ok w' /\ turning l w' /\
      registry w' = <[Channel.fd_ ch := c]> (registry w) /\
      asked w' = <[Channel.fd_ ch := Some (wraps 16 (Channel.request_bits r (Channel.events_ ch)))]> (asked w) /\
      room n w' /\ (forall d, removable d w -> removable d w');
  change l r c ch w : turning l w -> Channel.chan_of w c = Some ch -> Channel.loop_ ch = l ->
    registry w !! Channel.fd_ ch = Some c ->
    let ev := Channel.request_bits r (Channel.events_ ch) in
    exists w', Channel.request_op r c w = Ok w' /\ turning l w' /\ registry w' = registry w /\
      asked w' = <[Channel.fd_ ch := if ev =? Channel.kNoneEvent then None else Some (wraps 16 ev)]> (asked w) /\
      (forall n, room n w -> room n w') /\ (forall d, removable d w -> removable d w');
  unregister l c ch w : turning l w -> Channel.chan_of w c = Some ch -> Channel.loop_ ch = l ->
    registry w !! Channel.fd_ ch = Some c -> Channel.isNoneEvent ch = true ->
    asked w !! Channel.fd_ ch = Some None -> removable c w ->
    exists w', Channel.remove c w = Ok w' /\ turning l w' /\
      registry w' = delete (Channel.fd_ ch) (registry w) /\
      asked w' = delete (Channel.fd_ ch) (asked w) /\
      (forall n, room n w -> room (S n) w') /\ (forall d, removable d w -> removable d w');
  unmake l c ch w : turning l w -> Channel.chan_of w c = Some ch -> Channel.loop_ ch = l ->
    Channel.eventHandling_ ch = false -> Channel.addedToLoop_ ch = false ->
    registry w !! Channel.fd_ ch = None ->
    exists w', Channel.destroy c w = Ok w' /\ turning l w' /\ registry w' = registry w /\
      asked w' = asked w /\ (forall n, room n w -> room n w') /\
      (forall d, removable d w -> removable d w')
}.

(** Taking a channel off, as its owners do. *)
Lemma take_off {W} `{SV : Service W} `{!Channel.HostLaws W} l c ch (w : W) :
  turning l w -> removable c w -> Channel.chan_of w c = Some ch -> Channel.loop_ ch = l ->
  registry w !! Channel.fd_ ch = Some c ->
  exists w1 w', Channel.disableAll c w = Ok w1 /\ Channel.remove c w1 = Ok w' /\ turning l w' /\
    registry w' = delete (Channel.fd_ ch) (registry w) /\ (forall n, room n w -> room (S n) w') /\
    (forall d, removable d w -> removable d w').
Proof.
  intros Ht Hrm Hc Hl Hr.
  destruct (change l Channel.DisableAll c ch w Ht Hc Hl Hr) as (w1 & E1 & Ht1 & Er1 & Ea1 & Hn1 & Hd1).
  destruct (Channel.request_events _ _ _ _ _ Hc E1) as (ch1 & Hc1 & Hs1).
  assert (Channel.fd_ ch1 = Channel.fd_ ch) as Hf by exact (f_equal Channel.fd_ Hs1).
  destruct (unregister l c ch1 w1 Ht1 Hc1) as (w2 & E2 & Ht2 & Er2 & _ & Hn2 & Hd2).
  - rewrite <- Hl. exact (f_equal Channel.loop_ Hs1).
  - by rewrite Er1, Hf.
  - apply Z.eqb_eq. exact (f_equal Channel.events_ Hs1).
  - by rewrite Ea1, Hf, lookup_insert_eq.
  - by apply Hd1.
  - exists w1, w2. split_and!; [exact E1|done|done|by rewrite Er2, Er1, Hf|by auto|by auto].
Qed.

(** ** Between two rounds *)

(** The loop hands out no events, so every channel may be taken off. *)
Section Idle.
Context {W : Type} `{Channel.HostLaws W} {SV : Service W}.

Definition idle (l : Z) (w : W) : Prop := turning l w /\ forall c, removable c w.

Lemma idle_make l c ch w : idle l w -> Channel.chan_of w c = None ->
  idle l (Channel.put_chan c ch w) /\ registry (Channel.put_chan c ch w) = registry w /\
  forall n, room n w -> room n (Channel.put_chan c ch w).
Proof. intros [Ht Hq] Hc. destruct (make l c ch w Ht Hc) as (? & ? & _ & ? & ?). split_and!; [split; auto|done..]. Qed.

Lemma idle_register l r c ch w n : idle l w -> room (S n) w -> Channel.chan_of w c = Some ch ->
  Channel.loop_ ch = l -> Channel.index_ ch = -1 -> 0 <= Channel.fd_ ch ->
  registry w !! Channel.fd_ ch = None ->
  exists w', Channel.request_op r c w = Ok w' /\ idle l w' /\
    registry w' = <[Channel.fd_ ch := c]> (registry w) /\ room n w'.
Proof.
  intros [Ht Hq] Hn Hc Hl Hx Hf Hr.
  destruct (register l r c ch w n) as (w' & E & ? & ? & _ & ? & ?); [done..|].
  exists w'. split_and!; [done|split; auto|done..].
Qed.

Lemma idle_take_off l c ch w : idle l w -> Channel.chan_of w c = Some ch -> Channel.loop_ ch = l ->
  registry w !! Channel.fd_ ch = Some c ->
  exists w1 w', Channel.disableAll c w = Ok w1 /\ Channel.remove c w1 = Ok w' /\ idle l w' /\
    registry w' = delete (Channel.fd_ ch) (registry w) /\ forall n, room n w -> room (S n) w'.
Proof.
  intros [Ht Hq] Hc Hl Hr. destruct (take_off l c ch w) as (w1 & w' & E1 & E2 & ? & ? & ? & ?); [done..|].
  exists w1, w'. split_and!; [done..|split; auto|done|done].
Qed.

Lemma idle_unmake l c ch w : idle l w -> Channel.chan_of w c = Some ch -> Channel.loop_ ch = l ->
  Channel.eventHandling_ ch = false -> Channel.addedToLoop_ ch = false ->
  registry w !! Channel.fd_ ch = None ->
  exists w', Channel.destroy c w = Ok w' /\ idle l w' /\ registry w' = registry w /\
    forall n, room n w -> room n w'.
Proof.
  intros [Ht Hq] Hc Hl He Ha Hr.
  destruct (unmake l c ch w) as (w' & E & ? & ? & _ & ? & ?); [done..|]. exists w'.
  split_and!; [done|split; auto|done..].
Qed.

End Idle.

(** What [take_off] leaves of the channel. *)
Lemma taken_off {W} `{Channel.HostLaws W} c ch (w w1 w' : W) :
  Channel.chan_of w c = Some ch -> Channel.disableAll c w = Ok w1 -> Channel.remove c w1 = Ok w' ->
  exists ch', Channel.chan_of w' c = Some ch' /\
    Channel.strip ch' = Channel.strip (Channel.set_addedToLoop false (Channel.set_events Channel.kNoneEvent ch)).
Proof.
  intros Hc E1 E2. destruct (Channel.request_events Channel.DisableAll c w w1 ch Hc E1) as (ch1 & Hc1 & Hs1).
  unfold Channel.remove in E2. inv_ok. unfold Channel.deref in E. rewrite Hc1 in E. injection E as <-.
  rewrite (Channel.modify_ok _ _ _ _ Hc1) in E3. injection E3 as <-.
  pose proof (Channel.remove_keeps _ _ _ _ E2 c) as Hk. rewrite Channel.chan_put_eq in Hk.
  destruct (Channel.chan_of w' c) as [ch'|]; [|done]. apply (inj Some) in Hk. exists ch'. split; [done|].
  rewrite Hk. exact (f_equal (Channel.set_addedToLoop false) Hs1).
Qed.

End Service.
