(* ===== verification/Poller.v ===== *)
(** * [dws::net::Poller]: Poller.h, Poller.cc

    The interface of the I/O multiplexers.  The class [Poller] has the virtual
    operations, [PollerLaws] what an event loop relies on; the interface is
    proved of PollPoller.v, and EPollPoller.v proves which part of it fails. *)

From S2P Require Import Prelude Channel.

Module Poller.

(** The channels of the program, by address. *)
Abbreviation heap := (gmap Z Channel.Channel).

Definition deref (h : heap) (c : Z) : result Channel.Channel :=
  match h !! c with Some ch => Ok ch | None => Err UndefinedBehaviour end.

(** [assertInLoopThread] aborts in any other thread. *)
Definition assertInLoopThread (inLoop : bool) : result unit :=
  if inLoop then Ok tt else Err Aborted.

Class Poller (P : Type) := {
  (** What the system call of [poll] leaves behind. *)
  Answer : Type;
  channels_ : P -> gmap Z Z;
  updateChannel : bool -> Z -> P -> heap -> result (P * heap);
  removeChannel : bool -> Z -> P -> heap -> result (P * heap);
  poll : Answer -> P -> heap -> result (list Z * P * heap)
}.
Arguments Answer P {_}.

(** Is [c] the channel recorded for its descriptor? *)
Definition hasChannel {P} `{Poller P} (inLoop : bool) (c : Z) (p : P) (h : heap) : result bool :=
  _ ← assertInLoopThread inLoop;
  ch ← deref h c;
  Ok match channels_ p !! Channel.fd_ ch with Some d => d =? c | None => false end.

(** The channels of [h'] are those of [h], up to the slot numbers. *)
Definition renumbered (h h' : heap) : Prop :=
  forall c, Channel.strip <$> h' !! c = Channel.strip <$> h !! c.

(** Store the returned events of the ready channels, in order. *)
Fixpoint mark_ready (l : list (Z * Z)) (h : heap) : heap :=
  match l with
  | [] => h
  | (c, rev) :: l => mark_ready l (alter (Channel.set_revents rev) c h)
  end.

(** What both pollers keep, whatever is done with them: only slot numbers of
    channels change, an update never takes a channel off the map, and a removal
    takes off no other. *)
Class PollerFrame (P : Type) `{Poller P} : Prop := {
  update_renumbers p h b c p' h' : updateChannel b c p h = Ok (p', h') -> renumbered h h';
  remove_renumbers p h b c p' h' : removeChannel b c p h = Ok (p', h') -> renumbered h h';
  update_keeps_others p h b c p' h' fd d : updateChannel b c p h = Ok (p', h') ->
    channels_ p !! fd = Some d -> channels_ p' !! fd = Some d;
  remove_keeps_others p h b c p' h' fd d : removeChannel b c p h = Ok (p', h') ->
    d <> c -> channels_ p !! fd = Some d -> channels_ p' !! fd = Some d
}.

(** What a poller promises.  [interest p] is what the kernel is asked about:
    [Some ev] for a descriptor watched for [ev], [None] for one that is
    registered but ignored; [load p] is the size of its tables.  [lawful p a l]: the answer [a] is what the system
    call documents, with [l] the ready descriptors and their events. *)
Class PollerLaws (P : Type) `{Poller P} := {
  inv : P -> heap -> Prop;
  interest : P -> gmap Z (option Z);
  load : P -> Z;
  lawful : P -> Answer P -> list (Z * Z) -> Prop;

  registered_channel p h fd c : inv p h -> channels_ p !! fd = Some c ->
    exists ch, h !! c = Some ch /\ Channel.fd_ ch = fd /\ 0 <= fd /\ Channel.index_ ch <> -1;
  inv_renamed p h h' : inv p h ->
    (forall c ch, h !! c = Some ch -> channels_ p !! Channel.fd_ ch = Some c -> exists ch',
       h' !! c = Some ch' /\ Channel.fd_ ch' = Channel.fd_ ch /\
       Channel.index_ ch' = Channel.index_ ch) -> inv p h';

  add_channel p h c ch : inv p h -> load p < 2 ^ 31 - 1 -> h !! c = Some ch ->
    Channel.index_ ch = -1 -> 0 <= Channel.fd_ ch -> channels_ p !! Channel.fd_ ch = None ->
    exists p' idx, updateChannel true c p h = Ok (p', <[c := Channel.set_index idx ch]> h) /\
      inv p' (<[c := Channel.set_index idx ch]> h) /\
      channels_ p' = <[Channel.fd_ ch := c]> (channels_ p) /\
      interest p' = <[Channel.fd_ ch := Some (wraps 16 (Channel.events_ ch))]> (interest p) /\
      load p' = load p + 1;
  modify_channel p h c ch : inv p h -> h !! c = Some ch ->
    channels_ p !! Channel.fd_ ch = Some c ->
    exists p', updateChannel true c p h = Ok (p', h) /\ inv p' h /\
      channels_ p' = channels_ p /\
      interest p' = <[Channel.fd_ ch := if Channel.isNoneEvent ch then None
                                        else Some (wraps 16 (Channel.events_ ch))]> (interest p) /\
      load p' = load p;
  remove_channel p h c ch : inv p h -> h !! c = Some ch ->
    channels_ p !! Channel.fd_ ch = Some c -> Channel.isNoneEvent ch = true ->
    interest p !! Channel.fd_ ch = Some None ->
    exists p' h', removeChannel true c p h = Ok (p', h') /\ inv p' h' /\ renumbered h h' /\
      channels_ p' = delete (Channel.fd_ ch) (channels_ p) /\
      interest p' = delete (Channel.fd_ ch) (interest p) /\ load p' = load p - 1 /\
      (forall d, (forall fd, channels_ p !! fd <> Some d) -> h' !! d = h !! d);

  poll_ready p h a l : inv p h -> lawful p a l ->
    exists cs p' h', poll a p h = Ok (cs, p', h') /\ inv p' h' /\
      channels_ p' = channels_ p /\ interest p' = interest p /\ load p' = load p /\
      NoDup l.*1 /\
      Forall2 (fun c fr => channels_ p !! fst fr = Some c /\
        exists ev, interest p !! fst fr = Some (Some ev)) cs l /\
      h' = mark_ready (zip cs (map snd l)) h
}.

(** ** Lemmas for the implementations *)

Lemma in_loop : assertInLoopThread true = Ok tt.
Proof. reflexivity. Qed.

Lemma deref_ok (h : heap) c ch : h !! c = Some ch -> deref h c = Ok ch.
Proof. intros E. unfold deref. by rewrite E. Qed.

Lemma renumbered_refl h : renumbered h h.
Proof. by intros c. Qed.

Lemma renumbered_alter h c idx : renumbered h (alter (Channel.set_index idx) c h).
Proof.
  intros d. destruct (decide (c = d)) as [<-|Hne].
  - rewrite lookup_alter_eq. by destruct (h !! c).
  - by rewrite lookup_alter_ne.
Qed.

Lemma alter_present (h : heap) c idx ch :
  h !! c = Some ch -> alter (Channel.set_index idx) c h = <[c := Channel.set_index idx ch]> h.
Proof.
  intros E. apply map_eq. intros d. destruct (decide (c = d)) as [<-|Hne].
  - by rewrite lookup_alter_eq, lookup_insert_eq, E.
  - by rewrite lookup_alter_ne, lookup_insert_ne.
Qed.

Lemma renumbered_lookup (h h' : heap) c ch :
  renumbered h h' -> h !! c = Some ch ->
  exists ch', h' !! c = Some ch' /\ Channel.strip ch' = Channel.strip ch.
Proof.
  intros Hr E. specialize (Hr c). rewrite E in Hr. destruct (h' !! c) as [ch'|]; [|by simplify_eq/=].
  apply (inj Some) in Hr. by exists ch'.
Qed.

(** Recording returned events touches neither descriptors nor slots. *)
Lemma mark_ready_lookup l (h : heap) c :
  (fun ch => (Channel.fd_ ch, Channel.index_ ch)) <$> mark_ready l h !! c =
  (fun ch => (Channel.fd_ ch, Channel.index_ ch)) <$> h !! c.
Proof.
  revert h. induction l as [|[d rev] l IH]; intros h; [done|]. cbn [mark_ready].
  rewrite IH. destruct (decide (d = c)) as [->|Hne].
  - rewrite lookup_alter_eq. by destruct (h !! c).
  - by rewrite lookup_alter_ne.
Qed.

Lemma mark_ready_some l (h : heap) c ch :
  h !! c = Some ch -> exists ch', mark_ready l h !! c = Some ch' /\
    Channel.fd_ ch' = Channel.fd_ ch /\ Channel.index_ ch' = Channel.index_ ch.
Proof.
  intros E. pose proof (mark_ready_lookup l h c) as H. rewrite E in H.
  destruct (mark_ready l h !! c) as [ch'|]; [|by simplify_eq/=].
  apply (inj Some) in H. injection H as H1 H2. by exists ch'.
Qed.

Lemma mark_ready_other (l : list (Z * Z)) (h : heap) c : c ∉ l.*1 -> mark_ready l h !! c = h !! c.
Proof.
  revert h. induction l as [|[d rev] l IH]; intros h Hc; [done|]. cbn in *.
  apply not_elem_of_cons in Hc as [Hne Hc]. rewrite IH by done.
  by rewrite lookup_alter_ne.
Qed.

Lemma mark_ready_at (l : list (Z * Z)) (h : heap) c rev ch :
  NoDup l.*1 -> (c, rev) ∈ l -> h !! c = Some ch ->
  mark_ready l h !! c = Some (Channel.set_revents rev ch).
Proof.
  revert h ch. induction l as [|[d r] l IH]; intros h ch Hnd Hin Hc;
    [by apply not_elem_of_nil in Hin|].
  cbn in *. apply NoDup_cons in Hnd as [Hd Hnd].
  apply elem_of_cons in Hin as [[= -> ->]|Hin].
  - rewrite mark_ready_other by done. by rewrite lookup_alter_eq, Hc.
  - apply IH; [done..|]. rewrite lookup_alter_ne; [done|]. intros ->.
    apply Hd. apply list_elem_of_fmap. by exists (c, rev).
Qed.

(** ** The registry a poller implements *)

(** A client sets the interest of a channel and updates it, or removes it. *)
Inductive client_op := Update (c ev : Z) | Remove (c : Z).

Fixpoint run {P} `{Poller P} (os : list client_op) (p : P) (h : heap) : result (P * heap) :=
  match os with
  | [] => Ok (p, h)
  | Update c ev :: os =>
      '(p, h) ← updateChannel true c p (alter (Channel.set_events ev) c h); run os p h
  | Remove c :: os => '(p, h) ← removeChannel true c p h; run os p h
  end.

(** The specification: descriptors to channels, with [None] for an ignored one,
    and the channels that were ever registered. *)
Definition registry : Type := gmap Z (Z * option Z) * gset Z.

Definition registry_step (fd_of : Z -> Z) (s : registry) (o : client_op) : option registry :=
  let '(reg, used) := s in
  match o with
  | Update c ev =>
      match reg !! fd_of c with
      | Some (d, _) =>
          if decide (d = c)
          then Some (<[fd_of c := (c, if ev =? 0 then None else Some ev)]> reg, used) else None
      | None => if decide (c ∈ used) then None
                else Some (<[fd_of c := (c, Some ev)]> reg, {[c]} ∪ used)
      end
  | Remove c =>
      match reg !! fd_of c with
      | Some (d, None) => if decide (d = c) then Some (delete (fd_of c) reg, used) else None
      | _ => None
      end
  end.

Fixpoint registry_run (fd_of : Z -> Z) (s : registry) (os : list client_op) : option registry :=
  match os with
  | [] => Some s
  | o :: os => s ← registry_step fd_of s o; registry_run fd_of s os
  end.

Definition op_channel (o : client_op) : Z := match o with Update c _ => c | Remove c => c end.
Definition op_small (o : client_op) : Prop :=
  match o with Update _ ev => - 2 ^ 15 <= ev < 2 ^ 15 | Remove _ => True end.

Section Registry.
Context {P : Type} `{PollerLaws P}.

(** The poller's maps are those of the registry, and the heap fits them. *)
Record simulates (fd_of : Z -> Z) (s : registry) (p : P) (h : heap) : Prop := {
  sim_inv : inv p h;
  sim_channels : channels_ p = fst <$> fst s;
  sim_interest : interest p = snd <$> fst s;
  sim_heap : forall c ch, h !! c = Some ch -> Channel.fd_ ch = fd_of c /\ 0 <= fd_of c /\
    (c ∉ snd s -> Channel.index_ ch = -1);
  sim_events : forall fd c i, fst s !! fd = Some (c, i) -> c ∈ snd s /\
    exists ch, h !! c = Some ch /\ fd_of c = fd /\ Channel.events_ ch = default 0 i
}.

Lemma strip_fields ch ch' : Channel.strip ch' = Channel.strip ch ->
  Channel.fd_ ch' = Channel.fd_ ch /\ Channel.events_ ch' = Channel.events_ ch.
Proof.
  intros Hs. split; [apply (f_equal Channel.fd_ Hs) | apply (f_equal Channel.events_ Hs)].
Qed.

Lemma events_inv p h c ev :
  inv p h -> inv p (alter (Channel.set_events ev) c h).
Proof.
  intros Hi. apply (inv_renamed p h); [done|]. intros d ch Hd _.
  destruct (decide (c = d)) as [->|Hne].
  - exists (Channel.set_events ev ch). by rewrite lookup_alter_eq, Hd.
  - exists ch. by rewrite lookup_alter_ne.
Qed.

(** Changing one channel's events in the heap. *)
Lemma events_heap (fd_of : Z -> Z) (used : gset Z) (h : heap) c ev :
  (forall d ch, h !! d = Some ch -> Channel.fd_ ch = fd_of d /\ 0 <= fd_of d /\
     (d ∉ used -> Channel.index_ ch = -1)) ->
  forall d ch, alter (Channel.set_events ev) c h !! d = Some ch ->
    Channel.fd_ ch = fd_of d /\ 0 <= fd_of d /\ (d ∉ used -> Channel.index_ ch = -1).
Proof.
  intros Hh d ch Hd. destruct (decide (c = d)) as [->|Hne].
  - rewrite lookup_alter_eq in Hd. destruct (h !! d) as [ch0|] eqn:E; [|by simplify_eq/=].
    injection Hd as <-. apply (Hh _ _ E).
  - rewrite lookup_alter_ne in Hd by done. by apply Hh.
Qed.

Section Step.
Context (fd_of : Z -> Z) (reg : gmap Z (Z * option Z)) (used : gset Z) (p : P) (h : heap).
Context (HS : simulates fd_of (reg, used) p h).

Lemma sim_modify c ev i ch :
  reg !! fd_of c = Some (c, i) -> - 2 ^ 15 <= ev < 2 ^ 15 -> h !! c = Some ch ->
  let h1 := alter (Channel.set_events ev) c h in
  exists p', updateChannel true c p h1 = Ok (p', h1) /\ load p' = load p /\
    simulates fd_of (<[fd_of c := (c, if ev =? 0 then None else Some ev)]> reg, used) p' h1.
Proof using HS.
  intros Hr Hev Hc h1. destruct HS as [Hi Hch Hin Hh He]. cbn [fst snd] in *.
  destruct (Hh c ch Hc) as (Hfd & Hnn & _).
  assert (h1 !! c = Some (Channel.set_events ev ch)) as Hc1
    by (unfold h1; by rewrite lookup_alter_eq, Hc).
  destruct (modify_channel p h1 c (Channel.set_events ev ch)) as (p' & Hrun & Hi' & Hch' & Hin' & Hl');
    [by apply events_inv | done | cbn; by rewrite Hfd, Hch, lookup_fmap, Hr |].
  cbn in Hin'. rewrite Hfd, wraps_small in Hin' by (simpl; lia).
  unfold Channel.isNoneEvent, Channel.kNoneEvent in Hin'. cbn in Hin'.
  exists p'. split_and!; [done..|]. split; cbn [fst snd].
  - done.
  - rewrite Hch', Hch, fmap_insert. symmetry. apply insert_id. by rewrite lookup_fmap, Hr.
  - by rewrite Hin', Hin, fmap_insert.
  - by apply events_heap.
  - intros fd d j Hd. apply lookup_insert_Some in Hd as [[<- [= <- <-]]|[Hne Hd]].
    + split; [apply (He _ _ _ Hr)|]. exists (Channel.set_events ev ch). split_and!; [done..|].
      cbn. zcase (ev =? 0); [done|done].
    + destruct (He _ _ _ Hd) as (Hu & ch' & Hd1 & Hf & Hev'). split; [done|]. exists ch'.
      split_and!; [|done..]. unfold h1. rewrite lookup_alter_ne; [done|]. congruence.
Qed.

Lemma sim_add c ev ch :
  reg !! fd_of c = None -> c ∉ used -> - 2 ^ 15 <= ev < 2 ^ 15 -> h !! c = Some ch ->
  load p < 2 ^ 31 - 1 ->
  exists p' h', updateChannel true c p (alter (Channel.set_events ev) c h) = Ok (p', h') /\
    load p' = load p + 1 /\ (forall d, is_Some (h !! d) -> is_Some (h' !! d)) /\
    simulates fd_of (<[fd_of c := (c, Some ev)]> reg, {[c]} ∪ used) p' h'.
Proof using HS.
  intros Hr Hu Hev Hc Hl. destruct HS as [Hi Hch Hin Hh He]. cbn [fst snd] in *.
  destruct (Hh c ch Hc) as (Hfd & Hnn & Hidx).
  set (h1 := alter (Channel.set_events ev) c h).
  assert (h1 !! c = Some (Channel.set_events ev ch)) as Hc1
    by (unfold h1; by rewrite lookup_alter_eq, Hc).
  destruct (add_channel p h1 c (Channel.set_events ev ch))
    as (p' & idx & Hrun & Hi' & Hch' & Hin' & Hl');
    [by apply events_inv | done | done | by apply Hidx | cbn; lia
    | cbn; by rewrite Hfd, Hch, lookup_fmap, Hr |].
  cbn in Hin', Hch'. rewrite Hfd in Hin', Hch'. rewrite wraps_small in Hin' by (simpl; lia).
  eexists p', _. split_and!; [done | done | |].
  - intros d Hd. apply lookup_insert_is_Some'. right. by apply lookup_alter_is_Some.
  - split; cbn [fst snd].
    + done.
    + by rewrite Hch', Hch, fmap_insert.
    + by rewrite Hin', Hin, fmap_insert.
    + intros d ch' Hd. apply lookup_insert_Some in Hd as [[<- <-]|[Hne Hd]].
      * split_and!; [done|done|set_unfold; tauto].
      * destruct (events_heap _ _ _ _ ev Hh d ch' Hd) as (? & ? & Hx).
        split_and!; [done|done|]. intros Hd'. apply Hx. set_unfold; tauto.
    + intros fd d j Hd. apply lookup_insert_Some in Hd as [[<- [= <- <-]]|[Hne Hd]].
      * split; [set_unfold; tauto|]. eexists. by rewrite lookup_insert_eq.
      * destruct (He _ _ _ Hd) as (Hu' & ch' & Hd1 & Hf & Hev'). split; [set_unfold; tauto|].
        exists ch'. split_and!; [|done..].
        unfold h1. rewrite lookup_insert_ne, lookup_alter_ne by congruence. done.
Qed.

Lemma sim_remove c ch :
  reg !! fd_of c = Some (c, None) -> h !! c = Some ch ->
  exists p' h', removeChannel true c p h = Ok (p', h') /\
    load p' <= load p /\ (forall d, is_Some (h !! d) -> is_Some (h' !! d)) /\
    simulates fd_of (delete (fd_of c) reg, used) p' h'.
Proof using HS.
  intros Hr Hc. destruct HS as [Hi Hch Hin Hh He]. cbn [fst snd] in *.
  destruct (Hh c ch Hc) as (Hfd & Hnn & _). destruct (He _ _ _ Hr) as (Hu & ch0 & Hc0 & _ & Hev).
  assert (ch0 = ch) as -> by congruence. cbn in Hev.
  destruct (remove_channel p h c ch) as (p' & h' & Hrun & Hi' & Hren & Hch' & Hin' & Hl' & Hoth);
    [done | done | by rewrite Hfd, Hch, lookup_fmap, Hr | by apply Z.eqb_eq
    | by rewrite Hfd, Hin, lookup_fmap, Hr |].
  rewrite Hfd in Hch', Hin'. exists p', h'. split_and!; [done | lia | |].
  - intros d [chd Hd]. destruct (renumbered_lookup _ _ _ _ Hren Hd) as (x & Hx & _). by exists x.
  - split; cbn [fst snd].
    + done.
    + by rewrite Hch', Hch, fmap_delete.
    + by rewrite Hin', Hin, fmap_delete.
    + intros d chd Hd.
      assert (Channel.strip <$> h !! d = Some (Channel.strip chd)) as Hd0
        by (by rewrite <- (Hren d), Hd).
      destruct (h !! d) as [chd0|] eqn:Hd1; [|by simplify_eq/=].
      apply (inj Some), strip_fields in Hd0 as [Hf0 _].
      destruct (Hh d chd0 Hd1) as (Hf & Hnd & Hx). split_and!; [congruence|done|].
      intros Hdu. rewrite Hoth in Hd; [by rewrite Hd1 in Hd; simplify_eq; apply Hx|].
      intros fd Hfd'. rewrite Hch, lookup_fmap in Hfd'.
      destruct (reg !! fd) as [[d' i]|] eqn:Er; simplify_eq/=. by apply He in Er as [? _].
    + intros fd d j Hd. apply lookup_delete_Some in Hd as [Hne Hd].
      destruct (He _ _ _ Hd) as (Hu' & ch' & Hd1 & Hf & Hev'). split; [done|].
      destruct (renumbered_lookup _ _ _ _ Hren Hd1) as (ch2 & Hd2 & Hs).
      apply strip_fields in Hs as [Hs1 Hs2]. exists ch2. split_and!; [done|done|congruence].
Qed.

End Step.

Lemma sim_step fd_of s s' o p h :
  simulates fd_of s p h -> registry_step fd_of s o = Some s' -> op_small o ->
  is_Some (h !! op_channel o) -> load p < 2 ^ 31 - 1 ->
  exists p' h', run [o] p h = Ok (p', h') /\ load p' <= load p + 1 /\
    (forall d, is_Some (h !! d) -> is_Some (h' !! d)) /\ simulates fd_of s' p' h'.
Proof.
  destruct s as [reg used]. intros HS Hstep Hsm [ch Hc] Hl. destruct o as [c ev|c];
    cbn [op_channel op_small registry_step run] in *.
  - destruct (reg !! fd_of c) as [[d i]|] eqn:Er.
    + destruct (decide (d = c)) as [->|]; [|done]. injection Hstep as <-.
      destruct (sim_modify _ _ _ _ _ HS c ev i ch Er Hsm Hc) as (p' & Hrun & Hl' & HS').
      rewrite Hrun, bind_ok. eexists _, _. split_and!; [done|lia| |done].
      intros d Hd. by apply lookup_alter_is_Some.
    + destruct (decide (c ∈ used)); [done|]. injection Hstep as <-.
      destruct (sim_add _ _ _ _ _ HS c ev ch Er) as (p' & h' & Hrun & Hl' & Hd & HS'); [done..|].
      rewrite Hrun, bind_ok. eexists _, _. split_and!; [done|lia|done..].
  - destruct (reg !! fd_of c) as [[d [i|]]|] eqn:Er; try done.
    destruct (decide (d = c)) as [->|]; [|done]. injection Hstep as <-.
    destruct (sim_remove _ _ _ _ _ HS c ch Er Hc) as (p' & h' & Hrun & Hl' & Hd & HS').
    rewrite Hrun, bind_ok. eexists _, _. split_and!; [done|lia|done..].
Qed.

Lemma run_cons o os p h p' h' :
  run [o] p h = Ok (p', h') -> run (o :: os) p h = run os p' h'.
Proof.
  destruct o as [c ev|c]; cbn [run]; intros Hr; inv_ok; destruct a as [p1 h1];
    inv_ok; simplify_eq; by rewrite E, bind_ok.
Qed.

Lemma sim_run fd_of os : forall s s' p h,
  simulates fd_of s p h -> registry_run fd_of s os = Some s' -> Forall op_small os ->
  (forall o, o ∈ os -> is_Some (h !! op_channel o)) -> load p + zlen os < 2 ^ 31 ->
  exists p' h', run os p h = Ok (p', h') /\ simulates fd_of s' p' h'.
Proof.
  induction os as [|o os IH]; intros s s' p h HS Hr Hsm Hh Hl; cbn [registry_run] in Hr.
  - injection Hr as <-. by exists p, h.
  - destruct (registry_step fd_of s o) as [s1|] eqn:E1; [|done]. cbn in Hr.
    apply Forall_cons in Hsm as [Hsm1 Hsm]. rewrite zlen_cons in Hl. pose proof (zlen_nonneg os).
    destruct (sim_step _ _ _ _ _ _ HS E1 Hsm1) as (p1 & h1 & Hrun & Hl1 & Hd & HS1);
      [apply Hh, list_elem_of_here | lia |].
    rewrite (run_cons _ _ _ _ _ _ Hrun).
    apply (IH s1); [done..| |lia].
    intros o' Ho'. apply Hd, Hh. by apply list_elem_of_further.
Qed.

End Registry.

End Poller.
