(* ===== verification/PollPoller.v ===== *)
(** * [dws::net::PollPoller]: PollPoller.h, PollPoller.cc

    The multiplexer on poll(2): the table of [pollfd] entries handed to the
    system call, and in each channel the slot of its entry. *)

From S2P Require Import Prelude Channel Poller.
Import Poller.

Module PollPoller.

Record pollfd := mkPollfd { pfd_fd : Z; pfd_events : Z; pfd_revents : Z }.

Record PollPoller := mkPollPoller { pp_channels : gmap Z Z; pollfds_ : list pollfd }.

Definition kInitEventListSize : nat := 16.

(** [pollfds_(kInitEventListSize)]: sixteen entries of zeros. *)
Definition blank : pollfd := mkPollfd 0 0 0.
Definition new : PollPoller := mkPollPoller ∅ (replicate kInitEventListSize blank).

Definition int16 (z : Z) : Z := wraps 16 z.

Definition updateChannel (inLoop : bool) (c : Z) (p : PollPoller) (h : heap)
  : result (PollPoller * heap) :=
  _ ← assertInLoopThread inLoop;
  ch ← deref h c;
  let fd := Channel.fd_ ch in
  let events := Channel.events_ ch in
  if Channel.index_ ch <? 0 then
    _ ← assert_ (bool_decide (pp_channels p !! fd = None));
    let pollfds := pollfds_ p ++ [mkPollfd fd (int16 events) 0] in
    let idx := wraps 32 (wrapu 64 (zlen pollfds - 1)) in
    Ok (mkPollPoller (<[fd := c]> (pp_channels p)) pollfds, alter (Channel.set_index idx) c h)
  else
    _ ← assert_ (bool_decide (is_Some (pp_channels p !! fd)));
    _ ← assert_ (bool_decide (pp_channels p !! fd = Some c));
    let index := Channel.index_ ch in
    _ ← assert_ ((0 <=? index) && (index <? wraps 32 (zlen (pollfds_ p))));
    match pollfds_ p !! Z.to_nat index with
    | None => Err UndefinedBehaviour
    | Some pfd =>
        _ ← assert_ ((pfd_fd pfd =? fd) || (pfd_fd pfd =? - fd - 1));
        let fd' := if Channel.isNoneEvent ch then - fd - 1 else fd in
        Ok (mkPollPoller (pp_channels p)
              (<[Z.to_nat index := mkPollfd fd' (int16 events) 0]> (pollfds_ p)), h)
    end.

(** [iter_swap] of two entries, and [pop_back]. *)
Definition iter_swap (l : list pollfd) (i j : nat) : list pollfd :=
  match l !! i, l !! j with
  | Some a, Some b => <[i := b]> (<[j := a]> l)
  | _, _ => l
  end.
Definition pop_back (l : list pollfd) : list pollfd := take (length l - 1) l.

Definition removeChannel (inLoop : bool) (c : Z) (p : PollPoller) (h : heap)
  : result (PollPoller * heap) :=
  _ ← assertInLoopThread inLoop;
  ch ← deref h c;
  let fd := Channel.fd_ ch in
  _ ← assert_ (bool_decide (is_Some (pp_channels p !! fd)));
  _ ← assert_ (bool_decide (pp_channels p !! fd = Some c));
  _ ← assert_ (Channel.isNoneEvent ch);
  let index := Channel.index_ ch in
  let l := pollfds_ p in
  _ ← assert_ ((0 <=? index) && (index <? wraps 32 (zlen l)));
  match l !! Z.to_nat index, last l with
  | Some pfd, Some back =>
      _ ← assert_ ((pfd_fd pfd =? - fd - 1) && (pfd_events pfd =? Channel.events_ ch));
      let channels := delete fd (pp_channels p) in
      if index =? wrapu 64 (zlen l - 1) then Ok (mkPollPoller channels (pop_back l), h)
      else
        let channelAtEnd := if pfd_fd back <? 0 then - pfd_fd back - 1 else pfd_fd back in
        match channels !! channelAtEnd with
        | None => Err UndefinedBehaviour      (* a null channel *)
        | Some d =>
            _ ← deref h d;
            Ok (mkPollPoller channels (pop_back (iter_swap l (Z.to_nat index) (length l - 1))),
                alter (Channel.set_index index) d h)
        end
  | _, _ => Err UndefinedBehaviour
  end.

(** What poll(2) leaves: its result, [errno], and [revents] of every entry. *)
Record poll_answer := mkAnswer { numEvents : Z; err : Z; revents_out : list Z }.

Fixpoint set_all_revents (l : list pollfd) (revs : list Z) : list pollfd :=
  match l, revs with
  | e :: l, r :: revs => mkPollfd (pfd_fd e) (pfd_events e) r :: set_all_revents l revs
  | _, _ => l
  end.

(** The loop over the table, [n] events still to be found. *)
Fixpoint fillActiveChannels (l : list pollfd) (n : Z) (channels : gmap Z Z) (h : heap)
  : result (list Z * heap) :=
  match l with
  | [] => Ok ([], h)
  | pfd :: l =>
      if n <=? 0 then Ok ([], h)
      else if 0 <? pfd_revents pfd then
        match channels !! pfd_fd pfd with
        | None => Err AssertFailure
        | Some c =>
            ch ← deref h c;
            _ ← assert_ (Channel.fd_ ch =? pfd_fd pfd);
            '(active, h) ← fillActiveChannels l (n - 1) channels
                             (alter (Channel.set_revents (pfd_revents pfd)) c h);
            Ok (c :: active, h)
        end
      else fillActiveChannels l n channels h
  end.

(** Both other branches only log; the condition [err == EINTR] of the last one
    selects which failures are reported, not what is returned. *)
Definition poll (a : poll_answer) (p : PollPoller) (h : heap)
  : result (list Z * PollPoller * heap) :=
  let p := mkPollPoller (pp_channels p) (set_all_revents (pollfds_ p) (revents_out a)) in
  if 0 <? numEvents a then
    '(active, h) ← fillActiveChannels (pollfds_ p) (numEvents a) (pp_channels p) h;
    Ok (active, p, h)
  else Ok ([], p, h).

(** Is the failure of poll(2) reported? *)
Definition EINTR : Z := 4.
Definition poll_logs_error (a : poll_answer) : bool :=
  negb (0 <? numEvents a) && negb (numEvents a =? 0) && (err a =? EINTR).

#[global] Instance poll_poller : Poller PollPoller := {
  Answer := poll_answer;
  Poller.channels_ := pp_channels;
  Poller.updateChannel := updateChannel;
  Poller.removeChannel := removeChannel;
  Poller.poll := poll
}.

(** ** The invariant of the table *)

(** The descriptor of an entry, watched or ignored ([-fd - 1]). *)
Definition entry_fd (e : pollfd) : Z := if pfd_fd e <? 0 then - pfd_fd e - 1 else pfd_fd e.

(** What the entry asks the kernel. *)
Definition entry_interest (e : pollfd) : option Z :=
  if pfd_fd e <? 0 then None else Some (pfd_events e).

(** Channel [c], at [ch], is registered for [fd] with the entry [e]. *)
Record slot (p : PollPoller) (h : heap) (fd c : Z) (ch : Channel.Channel) (e : pollfd) : Prop := {
  slot_heap : h !! c = Some ch;
  slot_fd : Channel.fd_ ch = fd;
  slot_nonneg : 0 <= fd;
  slot_index : 16 <= Channel.index_ ch;
  slot_entry : pollfds_ p !! Z.to_nat (Channel.index_ ch) = Some e;
  slot_entry_fd : entry_fd e = fd;
  slot_ignored : pfd_fd e < 0 -> pfd_events e = 0
}.

(** The sixteen entries of the constructor stay at the front; behind them,
    registered channels and entries correspond one to one. *)
Record wf (p : PollPoller) (h : heap) : Prop := {
  wf_length : 16 <= zlen (pollfds_ p) < 2 ^ 31;
  wf_blank : forall i e, (i < 16)%nat -> pollfds_ p !! i = Some e ->
    pfd_fd e = 0 /\ pfd_events e = 0;
  wf_chan : forall fd c, pp_channels p !! fd = Some c -> exists ch e, slot p h fd c ch e;
  wf_slot : forall i e, (16 <= i)%nat -> pollfds_ p !! i = Some e ->
    exists fd c ch, pp_channels p !! fd = Some c /\ slot p h fd c ch e /\
      Channel.index_ ch = Z.of_nat i
}.

(** The part of the table behind the sixteen entries, by descriptor. *)
Definition interest (p : PollPoller) : gmap Z (option Z) :=
  list_to_map (map (fun e => (entry_fd e, entry_interest e)) (drop 16 (pollfds_ p))).

(** What poll(2) looks at in the whole table: the descriptors that are not
    negative, with their events. *)
Definition asks (e : pollfd) : option (Z * Z) :=
  if pfd_fd e <? 0 then None else Some (pfd_fd e, pfd_events e).
Definition asked (p : PollPoller) : list (Z * Z) := omap asks (pollfds_ p).

(** What a registry of interests wants it to look at. *)
Definition wanted (m : gmap Z (option Z)) : list (Z * Z) :=
  omap (fun '(fd, x) => ev ← x; Some (fd, ev)) (map_to_list m).

Definition has_room (p : PollPoller) : Prop := zlen (pollfds_ p) < 2 ^ 31 - 1.

(** The entries that poll(2) reports, with the descriptors. *)
Definition ready (l : list pollfd) : list (Z * Z) :=
  map (fun e => (pfd_fd e, pfd_revents e)) (List.filter (fun e => 0 <? pfd_revents e) l).

(** poll(2) as documented: [revents] is zero for a negative descriptor, and the
    result counts the others that are not zero.  Descriptor 0 must not be in an
    exceptional state, since the sixteen first entries watch it. *)
Record lawful (p : PollPoller) (a : poll_answer) (l : list (Z * Z)) : Prop := {
  lawful_length : length (revents_out a) = length (pollfds_ p);
  lawful_blank : forall i r, (i < 16)%nat -> revents_out a !! i = Some r -> r = 0;
  lawful_ignored : forall i r e, revents_out a !! i = Some r -> pollfds_ p !! i = Some e ->
    pfd_fd e < 0 -> r = 0;
  lawful_ready : l = ready (set_all_revents (pollfds_ p) (revents_out a));
  lawful_count : numEvents a = zlen l
}.

(** ** Lemmas on the table *)

Lemma entry_fd_cases e fd : 0 <= fd -> entry_fd e = fd <-> pfd_fd e = fd \/ pfd_fd e = - fd - 1.
Proof. intros Hfd. unfold entry_fd. zcase (pfd_fd e <? 0); lia. Qed.

Lemma slot_fun p h fd c ch e ch' e' :
  slot p h fd c ch e -> slot p h fd c ch' e' -> ch = ch' /\ e = e'.
Proof.
  intros [H1 _ _ _ H2 _ _] [H1' _ _ _ H2' _ _].
  assert (ch = ch') as -> by congruence. split; congruence.
Qed.

(** Entries are told apart by their slots. *)
Lemma slot_inj p h fd c ch e fd' c' ch' e' :
  slot p h fd c ch e -> slot p h fd' c' ch' e' ->
  Channel.index_ ch = Channel.index_ ch' -> fd = fd'.
Proof.
  intros [_ _ _ _ H2 H3 _] [_ _ _ _ H2' H3' _] Hi. rewrite Hi in H2. congruence.
Qed.

Lemma slot_addr p h fd c ch e fd' ch' e' :
  slot p h fd c ch e -> slot p h fd' c ch' e' -> fd = fd'.
Proof. intros [H1 H2 _ _ _ _ _] [H1' H2' _ _ _ _ _]. congruence. Qed.

Lemma slot_bound p h fd c ch e :
  slot p h fd c ch e -> 16 <= Channel.index_ ch < zlen (pollfds_ p).
Proof.
  intros [_ _ _ H1 H2 _ _]. apply lookup_lt_Some in H2. unfold zlen. lia.
Qed.

Lemma interest_nodup p h :
  wf p h -> NoDup (map (fun e => (entry_fd e, entry_interest e)) (drop 16 (pollfds_ p))).*1.
Proof.
  intros Hw. apply NoDup_alt. intros i j fd Hi Hj.
  change ((map (fun e => (entry_fd e, entry_interest e)) (drop 16 (pollfds_ p))).*1) with
    (fst <$> ((fun e => (entry_fd e, entry_interest e)) <$> drop 16 (pollfds_ p))) in *.
  rewrite <- list_fmap_compose, list_lookup_fmap, lookup_drop in Hi, Hj.
  destruct (pollfds_ p !! (16 + i)%nat) as [e|] eqn:Ei; [|by simplify_eq/=].
  destruct (pollfds_ p !! (16 + j)%nat) as [e'|] eqn:Ej; [|by simplify_eq/=].
  simplify_eq/=.
  destruct (wf_slot _ _ Hw (16 + i)%nat e ltac:(lia) Ei) as (fd & c & ch & Hc & Hs & Hx).
  destruct (wf_slot _ _ Hw (16 + j)%nat e' ltac:(lia) Ej) as (fd' & c' & ch' & Hc' & Hs' & Hx').
  assert (fd = fd') as <- by (destruct Hs, Hs'; congruence).
  assert (c = c') as <- by congruence.
  destruct (slot_fun _ _ _ _ _ _ _ _ Hs Hs') as [<- _]. lia.
Qed.

Lemma interest_iff p h fd x :
  wf p h -> interest p !! fd = Some x <->
  exists i e, (16 <= i)%nat /\ pollfds_ p !! i = Some e /\ entry_fd e = fd /\ entry_interest e = x.
Proof.
  intros Hw. unfold interest. rewrite <- elem_of_list_to_map by (by apply interest_nodup with h).
  change (map (fun e => (entry_fd e, entry_interest e)) (drop 16 (pollfds_ p))) with
    ((fun e => (entry_fd e, entry_interest e)) <$> drop 16 (pollfds_ p)).
  rewrite list_elem_of_fmap. split.
  - intros (e & [= -> ->] & He). apply list_elem_of_lookup in He as [i Hi].
    rewrite lookup_drop in Hi. exists (16 + i)%nat, e. split_and!; (done || lia).
  - intros (i & e & Hi & He & <- & <-). exists e. split; [done|].
    apply list_elem_of_lookup. exists (i - 16)%nat. rewrite lookup_drop.
    by replace (16 + (i - 16))%nat with i by lia.
Qed.

(** The interest of a registered channel is that of its entry. *)
Lemma interest_slot p h fd c ch e :
  wf p h -> slot p h fd c ch e -> interest p !! fd = Some (entry_interest e).
Proof.
  intros Hw Hs. apply (interest_iff _ h); [done|]. pose proof (slot_bound _ _ _ _ _ _ Hs).
  destruct Hs. exists (Z.to_nat (Channel.index_ ch)), e. split_and!; (done || lia).
Qed.

(** The whole table: the constructor's entries and the registered interests. *)
Lemma asked_blanks l :
  (forall i e, l !! i = Some e -> pfd_fd e = 0 /\ pfd_events e = 0) ->
  omap asks l = replicate (length l) (0, 0).
Proof.
  induction l as [|e l IH]; intros Hl; [done|]. destruct (Hl 0%nat e eq_refl) as [H1 H2].
  cbn. unfold asks at 1. rewrite H1, H2. cbn. f_equal. apply IH. intros i. apply (Hl (S i)).
Qed.

Lemma asked_wanted l :
  omap asks l =
  omap (fun '(fd, x) => ev ← x; Some (fd, ev)) (map (fun e => (entry_fd e, entry_interest e)) l).
Proof.
  induction l as [|e l IH]; [done|]. cbn. rewrite <- IH. unfold asks at 1.
  unfold entry_fd, entry_interest. by destruct (pfd_fd e <? 0).
Qed.

Lemma asked_table p h :
  wf p h -> asked p ≡ₚ replicate 16 (0, 0) ++ wanted (interest p).
Proof.
  intros Hw. unfold asked. rewrite <- (take_drop 16 (pollfds_ p)) at 1. rewrite omap_app.
  pose proof (wf_length _ _ Hw) as Hl. unfold zlen in Hl.
  rewrite asked_blanks.
  - rewrite length_take, Nat.min_l by lia. f_equiv. rewrite asked_wanted. apply omap_Permutation.
    symmetry. apply map_to_list_to_map. by apply interest_nodup with h.
  - intros i e He. apply lookup_take_Some in He as [He Hi]. by apply (wf_blank _ _ Hw i).
Qed.

Lemma wf_new h : wf new h.
Proof.
  split; cbn [new pollfds_ pp_channels].
  - vm_compute. split; [discriminate|reflexivity].
  - intros i e _ He. apply lookup_replicate in He as [-> _]. done.
  - intros fd c Hc. by rewrite lookup_empty in Hc.
  - intros i e Hi He. apply lookup_replicate in He as [_ He].
    unfold kInitEventListSize in He. lia.
Qed.

(** A registration is untouched when its channel and its entry are. *)
Lemma slot_frame p h p' h' fd c ch e :
  slot p h fd c ch e -> h' !! c = h !! c ->
  pollfds_ p' !! Z.to_nat (Channel.index_ ch) = pollfds_ p !! Z.to_nat (Channel.index_ ch) ->
  slot p' h' fd c ch e.
Proof. intros [] Hh He. split; first [assumption | congruence]. Qed.

(** ** [updateChannel] *)

Lemma int16_zero : int16 0 = 0.
Proof. reflexivity. Qed.

Lemma entry_new fd ev : 0 <= fd -> entry_fd (mkPollfd fd ev 0) = fd.
Proof. intros. unfold entry_fd; cbn. zcase (fd <? 0); lia. Qed.

Section Add.
Context (p : PollPoller) (h : heap) (c fd : Z) (ch : Channel.Channel).
Context (Hw : wf p h) (Hroom : has_room p) (Hc : h !! c = Some ch).
Context (Hnew : Channel.index_ ch = -1) (Hfd : 0 <= fd).
Context (Hch : Channel.fd_ ch = fd) (Hfree : pp_channels p !! fd = None).

Let idx := zlen (pollfds_ p).
Let p' := mkPollPoller (<[fd := c]> (pp_channels p))
            (pollfds_ p ++ [mkPollfd fd (int16 (Channel.events_ ch)) 0]).
Let h' := <[c := Channel.set_index idx ch]> h.

Lemma add_run : updateChannel true c p h = Ok (p', h').
Proof using Hw Hroom Hc Hnew Hfree Hch.
  pose proof (wf_length _ _ Hw) as Hl. unfold has_room in Hroom.
  unfold updateChannel. rewrite in_loop, bind_ok, (deref_ok _ _ _ Hc), bind_ok, Hnew, Hch.
  cbn [Z.ltb Z.compare]. rewrite assert_decide, bind_ok by done.
  unfold p', h', idx. rewrite (alter_present _ _ _ _ Hc).
  replace (wraps 32 (wrapu 64 (zlen (pollfds_ p ++ [mkPollfd fd (int16 (Channel.events_ ch)) 0]) - 1)))
    with (zlen (pollfds_ p)); [done|].
  rewrite zlen_app, zlen_cons, zlen_nil, wrapu_small, wraps_small; lia.
Qed.

Lemma add_new_slot :
  slot p' h' fd c (Channel.set_index idx ch) (mkPollfd fd (int16 (Channel.events_ ch)) 0).
Proof using Hw Hfd Hch.
  pose proof (wf_length _ _ Hw) as Hl. split; cbn.
  - apply lookup_insert_eq.
  - done.
  - done.
  - unfold idx. lia.
  - unfold idx, zlen. rewrite Nat2Z.id. by rewrite list_lookup_middle.
  - by apply entry_new.
  - lia.
Qed.

Lemma add_old_slot fd1 c1 ch1 e : slot p h fd1 c1 ch1 e -> slot p' h' fd1 c1 ch1 e.
Proof using Hc Hnew.
  intros Hs. pose proof (slot_bound _ _ _ _ _ _ Hs) as Hb.
  apply (slot_frame p h); [done| |].
  - apply lookup_insert_ne. intros <-. destruct Hs. assert (ch1 = ch) as -> by congruence. lia.
  - cbn. apply lookup_app_l. unfold zlen in Hb. lia.
Qed.

Lemma add_wf : wf p' h'.
Proof using Hw Hroom Hc Hnew Hfd Hfree Hch.
  pose proof (wf_length _ _ Hw) as Hl. unfold has_room in Hroom. split.
  - cbn. rewrite zlen_app, zlen_cons, zlen_nil. lia.
  - intros i e Hi He. cbn in He. rewrite lookup_app_l in He by (unfold zlen in Hl; lia).
    by apply (wf_blank _ _ Hw i).
  - intros fd1 c1 Hc1. cbn in Hc1. apply lookup_insert_Some in Hc1 as [[<- <-]|[Hne Hc1]].
    + eexists _, _. apply add_new_slot.
    + destruct (wf_chan _ _ Hw _ _ Hc1) as (ch1 & e & Hs). exists ch1, e. by apply add_old_slot.
  - intros i e Hi He. cbn in He. apply lookup_app_Some in He as [He|[Hge He]].
    + destruct (wf_slot _ _ Hw i e Hi He) as (fd1 & c1 & ch1 & Hc1 & Hs & Hx).
      exists fd1, c1, ch1. split_and!; [|by apply add_old_slot|done].
      cbn. rewrite lookup_insert_ne; [done|]. intros <-. by rewrite Hfree in Hc1.
    + apply list_lookup_singleton_Some in He as [Hz <-].
      exists fd, c, (Channel.set_index idx ch).
      split_and!; [cbn; apply lookup_insert_eq | apply add_new_slot |].
      cbn. unfold idx, zlen. lia.
Qed.

Lemma add_interest :
  interest p' = <[fd := Some (int16 (Channel.events_ ch))]> (interest p).
Proof using Hw Hroom Hc Hnew Hfd Hfree Hch.
  apply map_eq. intros fd1. apply option_eq. intros x.
  rewrite (interest_iff _ h' _ _ add_wf), lookup_insert_Some, (interest_iff _ h _ _ Hw).
  assert (entry_interest (mkPollfd fd (int16 (Channel.events_ ch)) 0) =
          Some (int16 (Channel.events_ ch))) as Hi.
  { unfold entry_interest; cbn. by rewrite (proj2 (Z.ltb_ge fd 0)) by lia. }
  pose proof (wf_length _ _ Hw) as Hl. split.
  - intros (i & e & H1 & H2 & H3 & H4). cbn in H2. apply lookup_app_Some in H2 as [H2|[_ H2]].
    + right. split; [|by exists i, e]. intros <-.
      destruct (wf_slot _ _ Hw i e H1 H2) as (fd2 & c2 & ch2 & Hc2 & Hs & _).
      destruct Hs as [_ _ _ _ _ Hs _]. rewrite H3 in Hs. subst fd2. by rewrite Hfree in Hc2.
    + apply list_lookup_singleton_Some in H2 as [_ <-]. left.
      rewrite entry_new in H3 by done. by rewrite <- H4, Hi.
  - intros [[<- <-]|[Hne (i & e & H1 & H2 & H3 & H4)]].
    + exists (length (pollfds_ p)), (mkPollfd fd (int16 (Channel.events_ ch)) 0).
      split_and!; [unfold zlen in Hl; lia | cbn; by apply list_lookup_middle |
        by apply entry_new | done].
    + exists i, e. split_and!; try done. cbn. by apply lookup_app_l_Some.
Qed.

End Add.

(** Updating a registered channel rewrites its entry. *)
Section Modify.
Context (p : PollPoller) (h : heap) (c fd : Z) (ch : Channel.Channel) (e : pollfd).
Context (Hw : wf p h) (Hs : slot p h fd c ch e) (Hc : pp_channels p !! fd = Some c).

Let e' := mkPollfd (if Channel.isNoneEvent ch then - fd - 1 else fd)
            (int16 (Channel.events_ ch)) 0.
Let p' := mkPollPoller (pp_channels p) (<[Z.to_nat (Channel.index_ ch) := e']> (pollfds_ p)).

Lemma modify_run : updateChannel true c p h = Ok (p', h).
Proof using Hw Hs Hc.
  pose proof (slot_bound _ _ _ _ _ _ Hs) as Hb. pose proof (wf_length _ _ Hw) as Hl.
  destruct Hs as [Hh Hf Hn Hi He Hfe _]. unfold updateChannel.
  rewrite in_loop, bind_ok, (deref_ok _ _ _ Hh), bind_ok, Hf.
  rewrite (proj2 (Z.ltb_ge _ _)) by lia.
  rewrite assert_decide, bind_ok by eauto. rewrite assert_decide, bind_ok by done.
  rewrite wraps_small by lia. step_assert. rewrite He.
  rewrite assert_true; [done|]. apply orb_true_iff. rewrite !Z.eqb_eq. by apply entry_fd_cases.
Qed.

Lemma modify_entry : entry_fd e' = fd /\ (pfd_fd e' < 0 -> pfd_events e' = 0) /\
  entry_interest e' = if Channel.isNoneEvent ch then None else Some (int16 (Channel.events_ ch)).
Proof using Hs.
  destruct Hs as [_ _ Hn _ _ _ _]. unfold e', entry_fd, entry_interest; cbn.
  destruct (Channel.isNoneEvent ch) eqn:Ee.
  - rewrite (proj2 (Z.ltb_lt _ _)) by lia. split_and!; [lia| |done].
    intros _. unfold Channel.isNoneEvent, Channel.kNoneEvent in Ee. zprop. by rewrite Ee.
  - rewrite (proj2 (Z.ltb_ge _ _)) by lia. split_and!; [done|lia|done].
Qed.

Lemma modify_slot_self : slot p' h fd c ch e'.
Proof using Hw Hs.
  pose proof (slot_bound _ _ _ _ _ _ Hs) as Hb. pose proof modify_entry as (H1 & H2 & _).
  destruct Hs as [Hh Hf Hn Hi He _ _]. split; try done. cbn.
  apply list_lookup_insert_eq. unfold zlen in Hb. lia.
Qed.

Lemma modify_slot_other fd1 c1 ch1 e1 :
  fd1 <> fd -> slot p h fd1 c1 ch1 e1 -> slot p' h fd1 c1 ch1 e1.
Proof using Hs.
  intros Hne H1. apply (slot_frame p h); [done..|]. cbn. apply list_lookup_insert_ne.
  intros Heq. apply Hne. symmetry. apply (slot_inj _ _ _ _ _ _ _ _ _ _ Hs H1).
  destruct Hs, H1. lia.
Qed.

(** The other entries, by slot. *)
Lemma modify_lookup i e1 :
  pollfds_ p' !! i = Some e1 <->
  (i = Z.to_nat (Channel.index_ ch) /\ e1 = e') \/
  (i <> Z.to_nat (Channel.index_ ch) /\ pollfds_ p !! i = Some e1).
Proof using Hs.
  pose proof (slot_bound _ _ _ _ _ _ Hs) as Hb. cbn. rewrite list_lookup_insert_Some.
  unfold zlen in Hb. split; [intros [(-> & <- & _)|[Hne H1]]; [by left|right; split; [lia|done]]|].
  intros [[-> ->]|[Hne H1]]; [left; split_and!; (done || lia) | by right].
Qed.

Lemma modify_wf : wf p' h.
Proof using Hw Hs Hc.
  pose proof (wf_length _ _ Hw) as Hl. pose proof (slot_bound _ _ _ _ _ _ Hs) as Hb. split.
  - unfold zlen in *. cbn. by rewrite length_insert.
  - intros i e1 Hi He. apply modify_lookup in He as [[-> _]|[_ He]]; [lia|].
    by apply (wf_blank _ _ Hw i).
  - intros fd1 c1 Hc1. cbn in Hc1. destruct (decide (fd1 = fd)) as [->|Hne].
    + assert (c1 = c) as -> by congruence. eexists _, _. apply modify_slot_self.
    + destruct (wf_chan _ _ Hw _ _ Hc1) as (ch1 & e1 & H1). exists ch1, e1.
      by apply modify_slot_other.
  - intros i e1 Hi He. apply modify_lookup in He as [[-> ->]|[Hni He]].
    + exists fd, c, ch. split_and!; [done|apply modify_slot_self|lia].
    + destruct (wf_slot _ _ Hw i e1 Hi He) as (fd1 & c1 & ch1 & Hc1 & H1 & Hx).
      exists fd1, c1, ch1. split_and!; [done| |done]. apply modify_slot_other; [|done].
      intros ->. assert (c1 = c) as -> by congruence.
      destruct (slot_fun _ _ _ _ _ _ _ _ Hs H1) as [-> _]. lia.
Qed.

Lemma modify_interest :
  interest p' = <[fd := if Channel.isNoneEvent ch then None
                        else Some (int16 (Channel.events_ ch))]> (interest p).
Proof using Hw Hs Hc.
  apply map_eq. intros fd1. destruct (decide (fd1 = fd)) as [->|Hne].
  - rewrite lookup_insert_eq. rewrite (interest_slot _ _ _ _ _ _ modify_wf modify_slot_self).
    f_equal. apply modify_entry.
  - rewrite lookup_insert_ne by done. apply option_eq. intros x.
    rewrite (interest_iff _ h _ _ modify_wf), (interest_iff _ h _ _ Hw).
    pose proof modify_entry as (Hee & _ & _).
    split; intros (i & e1 & H1 & H2 & H3 & H4); exists i, e1; split_and!; try done.
    + apply modify_lookup in H2 as [[_ ->]|[_ H2]]; [congruence|done].
    + apply modify_lookup. right. split; [|done]. intros ->.
      destruct Hs as [_ _ _ _ He Hf _]. congruence.
Qed.

End Modify.

(** ** [removeChannel] *)

Lemma length_iter_swap l i j : length (iter_swap l i j) = length l.
Proof.
  unfold iter_swap. destruct (l !! i); [|done]. destruct (l !! j); [|done].
  by rewrite !length_insert.
Qed.

(** The table without its entry [i], the last entry moved into the gap. *)
Lemma swap_out_lookup l i j e back :
  (i < length l - 1)%nat -> last l = Some back ->
  pop_back (iter_swap l i (length l - 1)) !! j = Some e <->
  (j = i /\ e = back) \/ (j <> i /\ (j < length l - 1)%nat /\ l !! j = Some e).
Proof.
  intros Hi Hb. unfold pop_back, iter_swap. rewrite last_lookup in Hb.
  replace (Init.Nat.pred (length l)) with (length l - 1)%nat in Hb by lia. rewrite Hb.
  destruct (lookup_lt_is_Some_2 l i) as [a Ha]; [lia|]. rewrite Ha, !length_insert.
  destruct (decide (j < length l - 1)%nat) as [Hj|Hj].
  - rewrite lookup_take_lt by done. destruct (decide (j = i)) as [->|Hne].
    + rewrite list_lookup_insert_eq by (rewrite length_insert; lia). split.
      * intros [= ->]. by left.
      * intros [[_ ->]|[? _]]; [done|congruence].
    + rewrite !list_lookup_insert_ne by lia. split; [by right|].
      intros [[-> _]|(_ & _ & H)]; [congruence|done].
  - rewrite lookup_take_ge by lia. split; [done|]. intros [[-> _]|(_ & ? & _)]; lia.
Qed.

Section Remove.
Context (p : PollPoller) (h : heap) (c fd : Z) (ch : Channel.Channel) (e : pollfd).
Context (Hw : wf p h) (Hs : slot p h fd c ch e) (Hc : pp_channels p !! fd = Some c).
Context (Hnone : Channel.isNoneEvent ch = true) (Hoff : pfd_fd e < 0).

(** Both ways of shrinking the table give this state. *)
Record removed (p' : PollPoller) (h' : heap) : Prop := {
  removed_channels : pp_channels p' = delete fd (pp_channels p);
  removed_length : S (length (pollfds_ p')) = length (pollfds_ p);
  removed_old : forall i e1, i <> Z.to_nat (Channel.index_ ch) -> pollfds_ p' !! i = Some e1 ->
    pollfds_ p !! i = Some e1;
  removed_front : forall i, (i < 16)%nat -> pollfds_ p' !! i = pollfds_ p !! i;
  removed_slot : forall fd1 c1 ch1 e1, fd1 <> fd -> pp_channels p !! fd1 = Some c1 ->
    slot p h fd1 c1 ch1 e1 -> exists ch2, slot p' h' fd1 c1 ch2 e1;
  removed_back : forall i e1, (16 <= i)%nat -> pollfds_ p' !! i = Some e1 ->
    exists fd1 c1 ch1, fd1 <> fd /\ pp_channels p !! fd1 = Some c1 /\ slot p' h' fd1 c1 ch1 e1 /\
      Channel.index_ ch1 = Z.of_nat i;
  removed_renumbered : renumbered h h';
  removed_others : forall d, (forall fd1, pp_channels p !! fd1 <> Some d) -> h' !! d = h !! d
}.

Lemma back_exists : exists back, last (pollfds_ p) = Some back /\
  pollfds_ p !! (length (pollfds_ p) - 1)%nat = Some back.
Proof using Hs.
  pose proof (slot_bound _ _ _ _ _ _ Hs) as Hb. unfold zlen in Hb.
  destruct (lookup_lt_is_Some_2 (pollfds_ p) (length (pollfds_ p) - 1)) as [back Hb']; [lia|].
  exists back. split; [|done]. rewrite last_lookup, <- Hb'. f_equal. lia.
Qed.

(** Another registered channel has another slot. *)
Lemma other_index fd1 c1 ch1 e1 :
  slot p h fd1 c1 ch1 e1 -> fd1 <> fd -> Channel.index_ ch1 <> Channel.index_ ch.
Proof using Hs.
  intros H1 Hne Hx. apply Hne. by apply (slot_inj _ _ _ _ _ _ _ _ _ _ H1 Hs).
Qed.

Lemma other_fd fd1 c1 ch1 e1 :
  slot p h fd1 c1 ch1 e1 -> pp_channels p !! fd1 = Some c1 ->
  Channel.index_ ch1 <> Channel.index_ ch -> fd1 <> fd.
Proof using Hs Hc.
  intros H1 Hc1 Hx ->. assert (c1 = c) as -> by congruence.
  by destruct (slot_fun _ _ _ _ _ _ _ _ Hs H1) as [<- _].
Qed.

(** The assertions hold. *)
Lemma remove_asserts back :
  last (pollfds_ p) = Some back ->
  removeChannel true c p h =
    if Channel.index_ ch =? zlen (pollfds_ p) - 1
    then Ok (mkPollPoller (delete fd (pp_channels p)) (pop_back (pollfds_ p)), h)
    else match delete fd (pp_channels p) !! entry_fd back with
         | None => Err UndefinedBehaviour
         | Some d => _ ← deref h d;
             Ok (mkPollPoller (delete fd (pp_channels p))
                   (pop_back (iter_swap (pollfds_ p) (Z.to_nat (Channel.index_ ch))
                                (length (pollfds_ p) - 1))),
                 alter (Channel.set_index (Channel.index_ ch)) d h)
         end.
Proof using Hw Hs Hc Hnone Hoff.
  intros Hback. pose proof (slot_bound _ _ _ _ _ _ Hs) as Hb. pose proof (wf_length _ _ Hw) as Hl.
  destruct Hs as [Hh Hf Hn Hi He Hfe Hig]. unfold removeChannel.
  rewrite in_loop, bind_ok, (deref_ok _ _ _ Hh), bind_ok, Hf.
  rewrite assert_decide, bind_ok by eauto. rewrite assert_decide, bind_ok by done.
  rewrite (assert_true _ Hnone), bind_ok, wraps_small by lia. step_assert.
  rewrite He, Hback.
  assert (Channel.events_ ch = 0) as -> by (by apply Z.eqb_eq in Hnone).
  apply entry_fd_cases in Hfe; [|done].
  rewrite (Hig Hoff), assert_true, bind_ok by (zbool; lia).
  by rewrite wrapu_small by lia.
Qed.

Lemma removed_last :
  Channel.index_ ch = zlen (pollfds_ p) - 1 ->
  removed (mkPollPoller (delete fd (pp_channels p)) (pop_back (pollfds_ p))) h.
Proof using Hw Hs Hc.
  intros Hlast. pose proof (slot_bound _ _ _ _ _ _ Hs) as Hb. unfold pop_back, zlen in *.
  split; cbn.
  - done.
  - rewrite length_take. lia.
  - intros i e1 _ H1. by apply lookup_take_Some in H1 as [H1 _].
  - intros i H16. apply lookup_take_lt. lia.
  - intros fd1 c1 ch1 e1 Hne _ H1. exists ch1. apply (slot_frame p h); [done..|]. cbn.
    apply lookup_take_lt. pose proof (slot_bound _ _ _ _ _ _ H1) as Hb1.
    pose proof (other_index _ _ _ _ H1 Hne). unfold zlen in Hb1. lia.
  - intros i e1 H16 H1. apply lookup_take_Some in H1 as [H1 Hlt].
    destruct (wf_slot _ _ Hw i e1 H16 H1) as (fd1 & c1 & ch1 & Hc1 & Hs1 & Hx).
    exists fd1, c1, ch1. split_and!; [| done | | done].
    + apply (other_fd _ _ _ _ Hs1 Hc1). lia.
    + apply (slot_frame p h); [done..|]. cbn. apply lookup_take_lt. lia.
  - apply renumbered_refl.
  - done.
Qed.

Section Middle.
Context (back : pollfd) (fdb d : Z) (chd : Channel.Channel).
Context (Hback : last (pollfds_ p) = Some back).
Context (Hsd : slot p h fdb d chd back) (Hcd : pp_channels p !! fdb = Some d).
Context (Hxd : Channel.index_ chd = zlen (pollfds_ p) - 1).
Context (Hmid : Channel.index_ ch < zlen (pollfds_ p) - 1).

Let p' := mkPollPoller (delete fd (pp_channels p))
  (pop_back (iter_swap (pollfds_ p) (Z.to_nat (Channel.index_ ch)) (length (pollfds_ p) - 1))).
Let h' := <[d:=Channel.set_index (Channel.index_ ch) chd]> h.

Lemma middle_lookup j e1 : pollfds_ p' !! j = Some e1 <->
  (j = Z.to_nat (Channel.index_ ch) /\ e1 = back) \/
  (j <> Z.to_nat (Channel.index_ ch) /\ (j < length (pollfds_ p) - 1)%nat /\
   pollfds_ p !! j = Some e1).
Proof using Hs Hback Hmid.
  pose proof (slot_bound _ _ _ _ _ _ Hs) as Hb. unfold zlen in *.
  apply swap_out_lookup; [lia|done].
Qed.

Lemma middle_moved : slot p' h' fdb d (Channel.set_index (Channel.index_ ch) chd) back.
Proof using Hs Hback Hmid Hsd.
  pose proof (slot_bound _ _ _ _ _ _ Hs) as Hb. destruct Hsd. split; try done; cbn.
  - apply lookup_insert_eq.
  - lia.
  - apply middle_lookup. by left.
Qed.

Lemma middle_stays fd1 c1 ch1 e1 :
  slot p h fd1 c1 ch1 e1 -> fd1 <> fd -> fd1 <> fdb -> slot p' h' fd1 c1 ch1 e1.
Proof using Hs Hback Hmid Hsd Hxd.
  intros H1 Hne Hneb. pose proof (slot_bound _ _ _ _ _ _ H1) as Hb1.
  pose proof (other_index _ _ _ _ H1 Hne) as Hx.
  assert (Channel.index_ chd <> Channel.index_ ch1) as Hxb.
  { intros Hxe. apply Hneb. symmetry. by apply (slot_inj _ _ _ _ _ _ _ _ _ _ Hsd H1). }
  apply (slot_frame p h); [done| |].
  - apply lookup_insert_ne. intros <-. apply Hneb.
    by apply (slot_addr _ _ _ _ _ _ _ _ _ H1 Hsd).
  - rewrite (slot_entry _ _ _ _ _ _ H1). apply middle_lookup. right.
    pose proof (slot_entry _ _ _ _ _ _ H1). pose proof (slot_bound _ _ _ _ _ _ Hs).
    clear Hoff. unfold zlen in *. split_and!; [lia|lia|done].
Qed.

Lemma removed_middle : removed p' h'.
Proof using Hw Hs Hc Hback Hmid Hsd Hxd Hcd.
  pose proof (slot_bound _ _ _ _ _ _ Hs) as Hb. split.
  - done.
  - cbn. unfold pop_back. rewrite length_take, length_iter_swap. unfold zlen in *. lia.
  - intros i e1 Hne H1. apply middle_lookup in H1 as [[-> _]|(_ & _ & H1)]; done.
  - intros i H16. apply option_eq. intros e1. rewrite middle_lookup. unfold zlen in *.
    split; [intros [[-> _]|(_ & _ & H1)]; [lia|done]|].
    intros H1. right. split_and!; [lia|lia|done].
  - intros fd1 c1 ch1 e1 Hne Hc1 H1. destruct (decide (fd1 = fdb)) as [->|Hneb].
    + assert (c1 = d) as -> by congruence.
      destruct (slot_fun _ _ _ _ _ _ _ _ Hsd H1) as [_ <-]. eexists. apply middle_moved.
    + exists ch1. by apply middle_stays.
  - intros i e1 H16 H1. apply middle_lookup in H1 as [[-> ->]|(Hne & Hlt & H1)].
    + exists fdb, d, (Channel.set_index (Channel.index_ ch) chd).
      split_and!; [apply (other_fd _ _ _ _ Hsd Hcd); lia | done | apply middle_moved | cbn; lia].
    + destruct (wf_slot _ _ Hw i e1 H16 H1) as (fd1 & c1 & ch1 & Hc1 & Hs1 & Hx).
      assert (fd1 <> fd) as Hne1 by (apply (other_fd _ _ _ _ Hs1 Hc1); lia).
      exists fd1, c1, ch1. split_and!; [done | done | | done].
      apply middle_stays; [done..|]. intros ->. assert (c1 = d) as -> by congruence.
      destruct (slot_fun _ _ _ _ _ _ _ _ Hsd Hs1) as [<- _]. unfold zlen in *. lia.
  - unfold h'. rewrite <- alter_present by apply Hsd. apply renumbered_alter.
  - intros d1 Hd1. apply lookup_insert_ne. intros <-. by apply (Hd1 fdb).
Qed.

End Middle.

Lemma remove_run : exists p' h', removeChannel true c p h = Ok (p', h') /\ removed p' h'.
Proof using Hw Hs Hc Hnone Hoff.
  pose proof (slot_bound _ _ _ _ _ _ Hs) as Hb. destruct back_exists as (back & Hback & Hlast).
  rewrite (remove_asserts _ Hback). zcase (Channel.index_ ch =? zlen (pollfds_ p) - 1).
  - eexists _, _. split; [reflexivity|]. by apply removed_last.
  - destruct (wf_slot _ _ Hw (length (pollfds_ p) - 1) back ltac:(unfold zlen in *; lia) Hlast)
      as (fdb & d & chd & Hcd & Hsd & Hxd).
    assert (Channel.index_ chd = zlen (pollfds_ p) - 1) as Hxd' by (unfold zlen in *; lia).
    rewrite (slot_entry_fd _ _ _ _ _ _ Hsd).
    rewrite lookup_delete_ne, Hcd by (symmetry; apply (other_fd _ _ _ _ Hsd Hcd); lia).
    rewrite (deref_ok _ _ _ (slot_heap _ _ _ _ _ _ Hsd)), bind_ok.
    rewrite (alter_present _ _ _ _ (slot_heap _ _ _ _ _ _ Hsd)).
    eexists _, _. split; [reflexivity|]. apply (removed_middle back fdb d chd); (done || lia).
Qed.

Lemma removed_wf p' h' : removed p' h' -> wf p' h'.
Proof using Hw Hs.
  intros [R1 R2 R3 R4 R5 R6 R7 R8]. pose proof (wf_length _ _ Hw) as Hl.
  pose proof (slot_bound _ _ _ _ _ _ Hs) as Hb. unfold zlen in *. split.
  - unfold zlen. lia.
  - intros i e1 Hi H1. rewrite R4 in H1 by done. by apply (wf_blank _ _ Hw i).
  - intros fd1 c1 H1. rewrite R1 in H1. apply lookup_delete_Some in H1 as [Hne H1].
    destruct (wf_chan _ _ Hw _ _ H1) as (ch1 & e1 & Hs1).
    destruct (R5 fd1 c1 ch1 e1 ltac:(congruence) H1 Hs1) as [ch2 Hs2]. by exists ch2, e1.
  - intros i e1 Hi H1. destruct (R6 i e1 Hi H1) as (fd1 & c1 & ch1 & Hne & Hc1 & Hs1 & Hx).
    exists fd1, c1, ch1. split_and!; [|done..]. by rewrite R1, lookup_delete_ne by congruence.
Qed.

Lemma removed_interest p' h' : removed p' h' -> interest p' = delete fd (interest p).
Proof using Hw Hs Hc.
  intros HR. pose proof (removed_wf _ _ HR) as Hw'. destruct HR as [R1 R2 R3 R4 R5 R6 R7 R8].
  apply map_eq. intros fd1. destruct (decide (fd1 = fd)) as [->|Hne].
  - rewrite lookup_delete_eq. apply eq_None_not_Some. intros [x Hx].
    apply (interest_iff _ h' _ _ Hw') in Hx as (i & e1 & Hi & H1 & H2 & _).
    destruct (R6 i e1 Hi H1) as (fd1 & c1 & ch1 & Hne & _ & Hs1 & _).
    by rewrite (slot_entry_fd _ _ _ _ _ _ Hs1) in H2.
  - rewrite lookup_delete_ne by done. destruct (pp_channels p !! fd1) as [c1|] eqn:Hc1.
    + destruct (wf_chan _ _ Hw _ _ Hc1) as (ch1 & e1 & Hs1).
      destruct (R5 fd1 c1 ch1 e1 Hne Hc1 Hs1) as [ch2 Hs2].
      by rewrite (interest_slot _ _ _ _ _ _ Hw' Hs2), (interest_slot _ _ _ _ _ _ Hw Hs1).
    + trans (@None (option Z)).
      * apply eq_None_not_Some. intros [x Hx].
        apply (interest_iff _ h' _ _ Hw') in Hx as (i & e1 & Hi & H1 & H2 & _).
        destruct (R6 i e1 Hi H1) as (fd2 & c2 & ch2 & _ & Hc2 & Hs2 & _).
        rewrite (slot_entry_fd _ _ _ _ _ _ Hs2) in H2. congruence.
      * symmetry. apply eq_None_not_Some. intros [x Hx].
        apply (interest_iff _ h _ _ Hw) in Hx as (i & e1 & Hi & H1 & H2 & _).
        destruct (wf_slot _ _ Hw i e1 Hi H1) as (fd2 & c2 & ch2 & Hc2 & Hs2 & _).
        rewrite (slot_entry_fd _ _ _ _ _ _ Hs2) in H2. congruence.
Qed.

End Remove.

(** ** [poll] *)

Lemma set_all_length l revs : length (set_all_revents l revs) = length l.
Proof. revert revs. induction l as [|e l IH]; intros [|r revs]; cbn; auto. Qed.

Lemma set_all_lookup l revs i e : set_all_revents l revs !! i = Some e ->
  exists e0, l !! i = Some e0 /\ pfd_fd e = pfd_fd e0 /\ pfd_events e = pfd_events e0 /\
    (forall r, revs !! i = Some r -> pfd_revents e = r).
Proof.
  revert revs i. induction l as [|e0 l IH]; intros revs i He; [by destruct revs|].
  destruct revs as [|r revs]; [exists e; by split_and!|].
  destruct i as [|i]; cbn in *; [injection He as <-; exists e0; split_and!; [done..|by intros r' [= ->]]|].
  by apply IH.
Qed.

Lemma set_all_same l revs i : (fun e => (pfd_fd e, pfd_events e)) <$> set_all_revents l revs !! i =
  (fun e => (pfd_fd e, pfd_events e)) <$> l !! i.
Proof.
  revert revs i. induction l as [|e l IH]; intros [|r revs] [|i]; try done. cbn. apply IH.
Qed.

Definition polled (p : PollPoller) (revs : list Z) : PollPoller :=
  mkPollPoller (pp_channels p) (set_all_revents (pollfds_ p) revs).

Lemma entry_fd_same e e' : pfd_fd e = pfd_fd e' -> entry_fd e = entry_fd e'.
Proof. unfold entry_fd. by intros ->. Qed.

Lemma polled_slot p h revs fd c ch e :
  slot p h fd c ch e -> exists e', slot (polled p revs) h fd c ch e' /\
    entry_interest e' = entry_interest e.
Proof.
  intros [H1 H2 H3 H4 H5 H6 H7].
  pose proof (set_all_same (pollfds_ p) revs (Z.to_nat (Channel.index_ ch))) as Hs.
  rewrite H5 in Hs. destruct (set_all_revents _ _ !! _) as [e'|] eqn:He'; [|by simplify_eq/=].
  apply (inj Some) in Hs. injection Hs as Hfd Hev.
  exists e'. split; [|unfold entry_interest; by rewrite Hfd, Hev].
  split; try done; [by rewrite (entry_fd_same _ _ Hfd) | by rewrite Hfd, Hev].
Qed.

Lemma polled_wf p h revs : wf p h -> wf (polled p revs) h.
Proof.
  intros Hw. split; cbn.
  - unfold zlen. rewrite set_all_length. apply (wf_length _ _ Hw).
  - intros i e Hi He. apply set_all_lookup in He as (e0 & He & -> & -> & _).
    by apply (wf_blank _ _ Hw i).
  - intros fd c Hc. destruct (wf_chan _ _ Hw _ _ Hc) as (ch & e & Hs).
    destruct (polled_slot _ _ revs _ _ _ _ Hs) as (e' & Hs' & _). eauto.
  - intros i e Hi He. pose proof He as He'. apply set_all_lookup in He' as (e0 & He0 & _).
    destruct (wf_slot _ _ Hw i e0 Hi He0) as (fd & c & ch & Hc & Hs & Hx).
    exists fd, c, ch. split_and!; [done| |done].
    destruct (polled_slot _ _ revs _ _ _ _ Hs) as (e' & Hs' & _).
    pose proof (slot_entry _ _ _ _ _ _ Hs') as Hent. cbn in Hent.
    rewrite Hx, Nat2Z.id in Hent. congruence.
Qed.

Lemma polled_interest p h revs : wf p h -> interest (polled p revs) = interest p.
Proof.
  intros _. unfold interest, polled. cbn [pollfds_]. f_equal. apply list_eq. intros i.
  change (map (fun e => (entry_fd e, entry_interest e)) ?l) with
    ((fun e => (entry_fd e, entry_interest e)) <$> l).
  rewrite !list_lookup_fmap, !lookup_drop.
  pose proof (set_all_same (pollfds_ p) revs (16 + i)) as Hs.
  destruct (set_all_revents _ _ !! _) as [e|], (pollfds_ p !! _) as [e'|]; try by simplify_eq/=.
  apply (inj Some) in Hs. injection Hs as Hfd Hev. cbn. unfold entry_interest.
  by rewrite (entry_fd_same _ _ Hfd), Hfd, Hev.
Qed.

Lemma ready_cons e l : ready (e :: l) =
  if 0 <? pfd_revents e then (pfd_fd e, pfd_revents e) :: ready l else ready l.
Proof. unfold ready. cbn [List.filter]. by destruct (0 <? pfd_revents e). Qed.

(** The loop finds every entry with events, and stops after the last one. *)
Lemma scan_ok l channels h :
  (forall e, e ∈ l -> 0 < pfd_revents e -> exists c ch,
     channels !! pfd_fd e = Some c /\ h !! c = Some ch /\ Channel.fd_ ch = pfd_fd e) ->
  exists cs, fillActiveChannels l (zlen (ready l)) channels h =
      Ok (cs, mark_ready (zip cs (map snd (ready l))) h) /\
    Forall2 (fun c fr => channels !! fst fr = Some c) cs (ready l).
Proof.
  revert h. induction l as [|e l IH]; intros h Hl; [by exists []|].
  rewrite ready_cons. cbn [fillActiveChannels]. zcase (0 <? pfd_revents e).
  - rewrite zlen_cons. cbn [map snd]. pose proof (zlen_nonneg (ready l)).
    rewrite (proj2 (Z.leb_gt _ _)) by lia.
    destruct (Hl e ltac:(by apply list_elem_of_here) E) as (c & ch & Hc & Hh & Hf).
    rewrite Hc, (deref_ok _ _ _ Hh), bind_ok, Hf.
    rewrite (assert_true _ (Z.eqb_refl _)), bind_ok.
    destruct (IH (alter (Channel.set_revents (pfd_revents e)) c h)) as (cs & Hr & HF).
    { intros e1 He1 Hp1. destruct (Hl e1 ltac:(by apply list_elem_of_further) Hp1)
        as (c1 & ch1 & Hc1 & Hh1 & Hf1). destruct (decide (c = c1)) as [->|Hne].
      - exists c1, (Channel.set_revents (pfd_revents e) ch1).
        rewrite lookup_alter_eq, Hh1. by split_and!.
      - exists c1, ch1. by rewrite lookup_alter_ne. }
    replace (1 + zlen (ready l) - 1) with (zlen (ready l)) by lia.
    rewrite Hr, bind_ok. exists (c :: cs). split; [done|]. by constructor.
  - destruct (IH h) as (cs & Hr & HF).
    { intros e1 He1. apply Hl. by apply list_elem_of_further. }
    exists cs. split; [|done]. zcase (zlen (ready l) <=? 0); [|done].
    destruct (ready l) as [|x r]; [|rewrite zlen_cons in *; pose proof (zlen_nonneg r); lia].
    inversion HF; subst. by cbn.
Qed.

(** An entry with events belongs to a watched channel. *)
Lemma lawful_at p h a l i e :
  wf p h -> lawful p a l -> set_all_revents (pollfds_ p) (revents_out a) !! i = Some e ->
  0 < pfd_revents e -> exists c ch e0, pp_channels p !! pfd_fd e = Some c /\
    slot p h (pfd_fd e) c ch e0 /\ Channel.index_ ch = Z.of_nat i /\ pfd_fd e0 = pfd_fd e.
Proof.
  intros Hw Hl Hi Hp. destruct (set_all_lookup _ _ _ _ Hi) as (e0 & He0 & Hfd & Hev & Hr).
  destruct (lookup_lt_is_Some_2 (revents_out a) i) as [r Hri].
  { rewrite (lawful_length _ _ _ Hl). by apply lookup_lt_Some in He0. }
  specialize (Hr r Hri). destruct (decide (i < 16)%nat) as [Hlt|Hge].
  - pose proof (lawful_blank _ _ _ Hl i r Hlt Hri). lia.
  - destruct (wf_slot _ _ Hw i e0 ltac:(lia) He0) as (fd & c & ch & Hc & Hs & Hx).
    assert (pfd_fd e0 = fd) as Hfd0.
    { destruct Hs as [_ _ Hn _ _ Hf _]. apply entry_fd_cases in Hf; [|done].
      destruct Hf as [Hf|Hf]; [done|].
      pose proof (lawful_ignored _ _ _ Hl i r e0 Hri He0 ltac:(lia)). lia. }
    exists c, ch, e0. assert (pfd_fd e = fd) as -> by congruence. done.
Qed.

Lemma lawful_entry p h a l e :
  wf p h -> lawful p a l -> e ∈ set_all_revents (pollfds_ p) (revents_out a) ->
  0 < pfd_revents e -> exists c ch e0, pp_channels p !! pfd_fd e = Some c /\
    slot p h (pfd_fd e) c ch e0 /\ pfd_fd e0 = pfd_fd e.
Proof.
  intros Hw Hl He Hp. apply list_elem_of_lookup in He as [i Hi].
  destruct (lawful_at p h a l i e Hw Hl Hi Hp) as (c & ch & e0 & ? & ? & _ & ?). eauto 6.
Qed.

Lemma ready_elem fr l : fr ∈ ready l <-> exists e, e ∈ l /\ 0 < pfd_revents e /\ fr = (pfd_fd e, pfd_revents e).
Proof.
  unfold ready. rewrite list_elem_of_In, in_map_iff. split.
  - intros (e & <- & He). apply filter_In in He as [He Hp]. zprop. exists e. by rewrite list_elem_of_In.
  - intros (e & He & Hp & ->). exists e. split; [done|]. apply filter_In. rewrite <- list_elem_of_In.
    split; [done|]. by zbool.
Qed.

(** A descriptor is reported once. *)
Lemma ready_nodup l :
  (forall i j e f, l !! i = Some e -> l !! j = Some f -> 0 < pfd_revents e -> 0 < pfd_revents f ->
     pfd_fd e = pfd_fd f -> i = j) -> NoDup (ready l).*1.
Proof.
  induction l as [|e l IH]; intros Hl; [constructor|].
  assert (NoDup (ready l).*1) as Hnd.
  { apply IH. intros i j f g Hi Hj ? ? ?. enough (S i = S j) by lia. by apply (Hl (S i) (S j) f g). }
  rewrite ready_cons. zcase (0 <? pfd_revents e); [|done]. apply NoDup_cons. split; [|done].
  intros Hin. apply list_elem_of_fmap in Hin as ([fd r] & Hfd & Hin). cbn in Hfd. subst fd.
  apply ready_elem in Hin as (f & Hf & Hp & [= Hfd ->]). apply list_elem_of_lookup in Hf as [j Hj].
  by pose proof (Hl 0%nat (S j) e f eq_refl Hj E Hp Hfd).
Qed.

Lemma lawful_nodup p h a l : wf p h -> lawful p a l -> NoDup l.*1.
Proof.
  intros Hw Hl. rewrite (lawful_ready _ _ _ Hl). apply ready_nodup. intros i j e f Hi Hj He Hf Hfd.
  destruct (lawful_at p h a l i e Hw Hl Hi He) as (c & ch & e0 & Hc & [] & Hx & _).
  destruct (lawful_at p h a l j f Hw Hl Hj Hf) as (d & ch' & f0 & Hd & [] & Hx' & _).
  rewrite Hfd in Hc. assert (c = d) as -> by congruence. assert (ch = ch') as -> by congruence. lia.
Qed.

(** What is reported was asked for. *)
Lemma lawful_interest p h a l fr : wf p h -> lawful p a l -> fr ∈ l ->
  exists ev, interest p !! fst fr = Some (Some ev).
Proof.
  intros Hw Hl Hin. rewrite (lawful_ready _ _ _ Hl) in Hin.
  apply ready_elem in Hin as (e & He & Hp & ->). cbn.
  destruct (lawful_entry p h a l e Hw Hl He Hp) as (c & ch & e0 & Hc & Hs & Hf).
  rewrite (interest_slot _ _ _ _ _ _ Hw Hs). unfold entry_interest. destruct Hs.
  rewrite (proj2 (Z.ltb_ge (pfd_fd e0) 0)) by lia. eauto.
Qed.

Lemma poll_run p h a l : wf p h -> lawful p a l ->
  exists cs, poll a p h = Ok (cs, polled p (revents_out a), mark_ready (zip cs (map snd l)) h) /\
    Forall2 (fun c fr => pp_channels p !! fst fr = Some c) cs l.
Proof.
  intros Hw Hl. rewrite (lawful_ready _ _ _ Hl). unfold poll.
  rewrite (lawful_count _ _ _ Hl), (lawful_ready _ _ _ Hl).
  destruct (scan_ok (set_all_revents (pollfds_ p) (revents_out a)) (pp_channels p) h) as (cs & Hr & HF).
  { intros e He Hp. destruct (lawful_entry p h a l e) as (c & ch & e0 & ? & [] & _); eauto. }
  exists cs. split; [|done]. cbn [pollfds_ pp_channels].
  zcase (0 <? zlen (ready (set_all_revents (pollfds_ p) (revents_out a)))).
  - by rewrite Hr, bind_ok.
  - destruct (ready _) as [|x r]; [|rewrite zlen_cons in *; pose proof (zlen_nonneg r); lia].
    inversion HF; subst. done.
Qed.

Lemma update_renumbers p h b c p' h' : updateChannel b c p h = Ok (p', h') -> renumbered h h'.
Proof.
  unfold updateChannel. intros Hr. inv_ok. destruct (Channel.index_ a0 <? 0); inv_ok.
  - subst. apply renumbered_alter.
  - destruct (pollfds_ p !! _); [|discriminate]. inv_ok. subst. apply renumbered_refl.
Qed.

Lemma remove_renumbers p h b c p' h' : removeChannel b c p h = Ok (p', h') -> renumbered h h'.
Proof.
  unfold removeChannel. intros Hr. inv_ok.
  destruct (pollfds_ p !! _); [|discriminate]. destruct (last _); [|discriminate]. inv_ok.
  destruct (_ =? wrapu 64 _); [inv_ok; subst; apply renumbered_refl|].
  destruct (delete _ _ !! _); [|discriminate]. inv_ok. subst. apply renumbered_alter.
Qed.

Lemma update_keeps_map p h b c p' h' fd d :
  updateChannel b c p h = Ok (p', h') -> pp_channels p !! fd = Some d ->
  pp_channels p' !! fd = Some d.
Proof.
  unfold updateChannel. intros Hr Hd. apply bind_ok_inv in Hr as (u & _ & Hr).
  apply bind_ok_inv in Hr as (ch & _ & Hr). destruct (Channel.index_ ch <? 0).
  - apply bind_ok_inv in Hr as (u1 & E & Hr). inv_ok. apply bool_decide_eq_true in E.
    simplify_eq. cbn. rewrite lookup_insert_ne; congruence.
  - inv_ok. destruct (pollfds_ p !! _); [|discriminate]. by inv_ok; simplify_eq.
Qed.

Lemma remove_keeps_map p h b c p' h' fd d :
  removeChannel b c p h = Ok (p', h') -> d <> c -> pp_channels p !! fd = Some d ->
  pp_channels p' !! fd = Some d.
Proof.
  unfold removeChannel. intros Hr Hne Hd. apply bind_ok_inv in Hr as (u & _ & Hr).
  apply bind_ok_inv in Hr as (ch & _ & Hr). apply bind_ok_inv in Hr as (u1 & _ & Hr).
  apply bind_ok_inv in Hr as (u2 & E & Hr). apply assert_ok_inv, bool_decide_eq_true in E.
  assert (pp_channels p' = delete (Channel.fd_ ch) (pp_channels p)) as ->.
  { inv_ok. destruct (pollfds_ p !! _); [|discriminate]. destruct (last _); [|discriminate].
    inv_ok. destruct (_ =? wrapu 64 _); [by inv_ok; simplify_eq|].
    destruct (delete _ _ !! _); [|discriminate]. by inv_ok; simplify_eq. }
  rewrite lookup_delete_ne; congruence.
Qed.

#[global] Instance poll_poller_frame : PollerFrame PollPoller.
Proof.
  split; [exact update_renumbers | exact remove_renumbers | exact update_keeps_map | exact remove_keeps_map].
Qed.

(** ** The poller interface holds *)

Lemma wf_frame p h h' : wf p h ->
  (forall c ch, h !! c = Some ch -> pp_channels p !! Channel.fd_ ch = Some c -> exists ch',
     h' !! c = Some ch' /\ Channel.fd_ ch' = Channel.fd_ ch /\
     Channel.index_ ch' = Channel.index_ ch) -> wf p h'.
Proof.
  intros [W1 W2 W3 W4] Hh.
  assert (forall fd c ch e, pp_channels p !! fd = Some c -> slot p h fd c ch e ->
    exists ch', slot p h' fd c ch' e /\ Channel.index_ ch' = Channel.index_ ch) as Hm.
  { intros fd c ch e Hc [S1 S2 S3 S4 S5 S6 S7].
    destruct (Hh c ch S1 ltac:(by rewrite S2)) as (ch' & H1 & H2 & H3).
    exists ch'. split; [|done]. split; rewrite ?H2, ?H3; done. }
  split; [done|done| |].
  - intros fd c Hc. destruct (W3 fd c Hc) as (ch & e & Hs).
    destruct (Hm _ _ _ _ Hc Hs) as (ch' & Hs' & _). eauto.
  - intros i e Hi He. destruct (W4 i e Hi He) as (fd & c & ch & Hc & Hs & Hx).
    destruct (Hm _ _ _ _ Hc Hs) as (ch' & Hs' & Hx'). exists fd, c, ch'. split_and!; congruence.
Qed.

#[global, refine] Instance poll_poller_laws : PollerLaws PollPoller := {
  inv := wf;
  Poller.interest := interest;
  load p := zlen (pollfds_ p);
  Poller.lawful := lawful;
  registered_channel := _
}.
Proof.
  - intros p h fd c Hw Hc. destruct (wf_chan _ _ Hw _ _ Hc) as (ch & e & []).
    exists ch. split_and!; (done || lia).
  - apply wf_frame.
  - intros p h c ch Hw Hl Hc Hx Hfd Hf.
    exists (mkPollPoller (<[Channel.fd_ ch := c]> (pp_channels p))
              (pollfds_ p ++ [mkPollfd (Channel.fd_ ch) (int16 (Channel.events_ ch)) 0])),
      (zlen (pollfds_ p)).
    split_and!; [by apply add_run | by apply add_wf | done | by apply (add_interest p h c) |].
    cbn. rewrite zlen_app, zlen_cons, zlen_nil. lia.
  - intros p h c ch Hw Hc Hr. destruct (wf_chan _ _ Hw _ _ Hr) as (ch' & e & Hs).
    assert (ch' = ch) as -> by (destruct Hs; congruence).
    eexists. split_and!; [by eapply modify_run | by eapply modify_wf | done
      | by eapply modify_interest |]. cbn. unfold zlen. by rewrite length_insert.
  - intros p h c ch Hw Hc Hr Hnone Hint. destruct (wf_chan _ _ Hw _ _ Hr) as (ch' & e & Hs).
    assert (ch' = ch) as -> by (destruct Hs; congruence).
    assert (pfd_fd e < 0) as Hoff.
    { rewrite (interest_slot _ _ _ _ _ _ Hw Hs) in Hint. unfold entry_interest in Hint.
      zcase (pfd_fd e <? 0); [done|discriminate]. }
    destruct (remove_run _ _ _ _ _ _ Hw Hs Hr Hnone Hoff) as (p' & h' & Hrun & HR).
    exists p', h'. split_and!; [done | by eapply removed_wf | apply HR | apply HR
      | by eapply removed_interest | | apply HR].
    unfold zlen. destruct HR. lia.
  - intros p h a l Hw Hl. destruct (poll_run _ _ _ _ Hw Hl) as (cs & Hrun & HF).
    exists cs, (polled p (revents_out a)), (mark_ready (zip cs (map snd l)) h).
    split_and!; [done | | done | by eapply polled_interest | | by eapply lawful_nodup | | done].
    + apply (wf_frame _ h); [by apply polled_wf|]. intros c ch Hc _. by apply mark_ready_some.
    + cbn. unfold zlen. by rewrite set_all_length.
    + apply Forall2_same_length_lookup. split; [by apply Forall2_length in HF|].
      intros i c fr Hc Hfr. split; [by apply (Forall2_lookup_lr _ _ _ i _ _ HF)|].
      apply (lawful_interest p h a l); [done|done|]. by apply list_elem_of_lookup_2 in Hfr.
Defined.

(** Distinct entries have distinct channels. *)
Lemma active_nodup p h (cs : list Z) (l : list (Z * Z)) :
  wf p h -> NoDup l.*1 -> Forall2 (fun c fr => pp_channels p !! fst fr = Some c) cs l -> NoDup cs.
Proof.
  intros Hw Hnd HF. apply NoDup_alt. intros i j c Hi Hj.
  destruct (Forall2_lookup_l _ _ _ _ _ HF Hi) as ([fd1 r1] & H1 & Hc1).
  destruct (Forall2_lookup_l _ _ _ _ _ HF Hj) as ([fd2 r2] & H2 & Hc2). cbn in *.
  destruct (wf_chan _ _ Hw _ _ Hc1) as (ch1 & e1 & Hs1).
  destruct (wf_chan _ _ Hw _ _ Hc2) as (ch2 & e2 & Hs2).
  pose proof (slot_addr _ _ _ _ _ _ _ _ _ Hs1 Hs2) as ->.
  apply (NoDup_lookup l.*1 i j fd2); [done| |]; rewrite list_lookup_fmap.
  - by rewrite H1.
  - by rewrite H2.
Qed.

(** ** Properties *)


(** Polling.  When poll(2) answers as documented, [poll] returns one
    channel for each ready descriptor, in table order and each once, with the
    reported events stored in it; no other channel is touched, and the table
    still watches what it did. *)
Theorem poll_poller_reports p h a (l : list (Z * Z)) :
  wf p h -> lawful p a l ->
  exists cs p' h', poll a p h = Ok (cs, p', h') /\ NoDup cs /\
    Forall2 (fun c fr => pp_channels p !! fst fr = Some c) cs l /\
    (forall i c fd rev, cs !! i = Some c -> l !! i = Some (fd, rev) ->
       exists ch, h !! c = Some ch /\ h' !! c = Some (Channel.set_revents rev ch)) /\
    (forall c, c ∉ cs -> h' !! c = h !! c) /\ interest p' = interest p.
Proof.
  intros Hw Hl. pose proof (lawful_nodup _ _ _ _ Hw Hl) as Hnd. destruct (poll_run _ _ _ _ Hw Hl) as (cs & Hrun & HF).
  pose proof (active_nodup _ _ _ _ Hw Hnd HF) as Hcs.
  assert ((zip cs (map snd l)).*1 = cs) as Hz.
  { apply fst_zip. rewrite length_map. by rewrite (Forall2_length _ _ _ HF). }
  exists cs, (polled p (revents_out a)), (mark_ready (zip cs (map snd l)) h).
  split_and!; [done..| | |by eapply polled_interest].
  - intros i c fd rev Hc Hfr. pose proof (Forall2_lookup_lr _ _ _ _ _ _ HF Hc Hfr) as Hreg. cbn in Hreg.
    destruct (wf_chan _ _ Hw _ _ Hreg) as (ch & e & Hs). exists ch.
    split; [apply Hs|]. apply mark_ready_at; [by rewrite Hz| |apply Hs].
    apply list_elem_of_lookup. exists i. apply lookup_zip_Some. split; [done|].
    change (map snd l) with (snd <$> l). by rewrite list_lookup_fmap, Hfr.
  - intros c Hc. apply mark_ready_other. by rewrite Hz.
Qed.

(** The sixteen entries of the constructor.  They are zero, so they watch
    descriptor 0: as soon as the standard input is closed or hung up, poll(2)
    reports it in the first entry and [poll] fails an assertion, in a program
    that never registered descriptor 0. *)
Theorem poll_poller_stdin_fault p h a r revs :
  wf p h -> pp_channels p !! 0 = None -> revents_out a = r :: revs -> 0 < r ->
  0 < numEvents a -> poll a p h = Err AssertFailure.
Proof.
  intros Hw H0 Hr Hpos Hn. unfold poll. rewrite (proj2 (Z.ltb_lt _ _)) by done.
  pose proof (wf_length _ _ Hw) as Hl. pose proof (wf_blank _ _ Hw 0 ) as Hb.
  destruct p as [chs [|e l]]; cbn [pollfds_ pp_channels] in *.
  { rewrite zlen_nil in Hl. lia. }
  destruct (Hb e ltac:(lia) ltac:(done)) as [Hfd _]. rewrite Hr. cbn [set_all_revents].
  cbn [fillActiveChannels pfd_revents pfd_fd]. rewrite (proj2 (Z.leb_gt _ _)) by done.
  rewrite (proj2 (Z.ltb_lt _ _)) by done. by rewrite Hfd, H0.
Qed.

(** A channel that is registered without interest (its first update is
    [disableAll]) cannot be removed, whatever its flags are by then: the entry is
    only parked by a later update, and [removeChannel] fails its assertion. *)
Theorem poll_poller_parks_late p h c ch :
  wf p h -> has_room p -> h !! c = Some ch -> Channel.index_ ch = -1 -> 0 <= Channel.fd_ ch ->
  pp_channels p !! Channel.fd_ ch = None -> Channel.isNoneEvent ch = true ->
  exists p' idx, updateChannel true c p h = Ok (p', <[c := Channel.set_index idx ch]> h) /\
    wf p' (<[c := Channel.set_index idx ch]> h) /\
    forall h' ch', h' !! c = Some ch' -> Channel.fd_ ch' = Channel.fd_ ch -> Channel.index_ ch' = idx ->
      Channel.events_ ch' = Channel.events_ ch -> removeChannel true c p' h' = Err AssertFailure.
Proof.
  intros Hw Hl Hc Hx Hfd Hf Hnone.
  eexists _, _. pose proof (add_wf p h c (Channel.fd_ ch) ch Hw Hl Hc Hx Hfd eq_refl Hf) as Hw'.
  split_and!; [by apply (add_run p h c (Channel.fd_ ch)) | done |].
  intros h' ch' Hc' Ef Ex Ee. pose proof (wf_length _ _ Hw) as Hlen. unfold has_room in Hl.
  unfold removeChannel. rewrite in_loop, bind_ok, (deref_ok _ _ _ Hc'), bind_ok. cbn [pp_channels pollfds_].
  rewrite Ef, Ex, Ee, lookup_insert_eq, assert_decide, bind_ok by eauto. rewrite assert_decide, bind_ok by done.
  rewrite (assert_true (Channel.isNoneEvent ch')), bind_ok by (unfold Channel.isNoneEvent in *; congruence).
  set (back := mkPollfd _ _ _).
  assert (zlen (pollfds_ p ++ [back]) = zlen (pollfds_ p) + 1) as -> by zlen_lia.
  rewrite wraps_small by lia. step_assert.
  replace (Z.to_nat (zlen (pollfds_ p))) with (length (pollfds_ p)) by (unfold zlen; lia).
  rewrite list_lookup_middle by done. rewrite last_snoc.
  unfold back; cbn [pfd_fd pfd_events].
  by rewrite (proj2 (Z.eqb_neq (Channel.fd_ ch) _)) by lia.
Qed.

(** ** Concrete runs *)

Definition sample_heap : heap :=
  {[ 10 := Channel.new 1 5; 11 := Channel.new 1 6; 12 := Channel.new 1 7 ]}.

Definition sample_ops : list client_op :=
  [Update 10 3; Update 11 3; Update 12 4; Update 10 0; Remove 10; Update 12 0].

Lemma sample_fds c ch : sample_heap !! c = Some ch ->
  Channel.fd_ ch = c - 5 /\ 0 <= c - 5 /\ Channel.index_ ch = -1.
Proof.
  unfold sample_heap. intros Hc.
  apply lookup_insert_Some in Hc as [[<- <-]|[_ Hc]]; [by split_and!|].
  apply lookup_insert_Some in Hc as [[<- <-]|[_ Hc]]; [by split_and!|].
  apply lookup_singleton_Some in Hc as [<- <-]. by split_and!.
Qed.


(** One channel, not yet and already registered; the latter readable. *)
Definition one_channel (events index : Z) : Channel.Channel :=
  Channel.set_index index (Channel.set_events events (Channel.new 1 5)).
Definition idle_heap (events : Z) : heap := {[ 10 := one_channel events (-1) ]}.
Definition one_heap : heap := <[ 10 := one_channel 3 16 ]> (idle_heap 3).
Definition one_poller : PollPoller :=
  mkPollPoller {[ 5 := 10 ]} (replicate 16 blank ++ [mkPollfd 5 3 0]).
Definition one_answer : poll_answer := mkAnswer 1 0 (replicate 16 0 ++ [1]).

Lemma one_wf : wf one_poller one_heap.
Proof.
  refine (add_wf new (idle_heap 3) 10 5 (one_channel 3 (-1)) (wf_new _) _ _ _ _ _ _);
    vm_compute; done.
Qed.

Lemma one_lawful : lawful one_poller one_answer [(5, 1)].
Proof.
  split; try reflexivity.
  - intros i r Hi Hr. cbn [one_answer revents_out] in Hr.
    rewrite lookup_app_l in Hr by (rewrite length_replicate; lia).
    by apply lookup_replicate in Hr as [-> _].
  - intros i r e Hr He Hn. cbn [one_answer revents_out one_poller pollfds_] in *.
    apply lookup_app_Some in He as [He|[Hge He]].
    + apply lookup_replicate in He as [-> _]. cbn in Hn. lia.
    + apply list_lookup_singleton_Some in He as [_ <-]. cbn in Hn. lia.
Qed.

Lemma poll_poller_reports_witness :
  exists cs p' h', poll one_answer one_poller one_heap = Ok (cs, p', h') /\ NoDup cs /\
    Forall2 (fun c fr => pp_channels one_poller !! fst fr = Some c) cs [(5, 1)] /\
    (forall i c fd rev, cs !! i = Some c -> [(5, 1)] !! i = Some (fd, rev) ->
       exists ch, one_heap !! c = Some ch /\ h' !! c = Some (Channel.set_revents rev ch)) /\
    (forall c, c ∉ cs -> h' !! c = one_heap !! c) /\ interest p' = interest one_poller.
Proof.
  apply (poll_poller_reports one_poller one_heap one_answer [(5, 1)]).
  - exact one_wf.
  - exact one_lawful.
Defined.

(** Standard input hung up (POLLHUP) before any channel exists. *)
Lemma poll_poller_stdin_fault_witness :
  poll (mkAnswer 1 0 (16 :: replicate 15 0)) new ∅ = Err AssertFailure.
Proof.
  apply (poll_poller_stdin_fault new ∅ _ 16 (replicate 15 0)); [apply wf_new|done..].
Defined.

Lemma poll_poller_parks_late_witness :
  exists p' h', updateChannel true 10 new (idle_heap 0) = Ok (p', h') /\ wf p' h' /\
    removeChannel true 10 p' h' = Err AssertFailure.
Proof.
  destruct (poll_poller_parks_late new (idle_heap 0) 10 (one_channel 0 (-1))) as (p' & idx & E & Hw & Hr);
    [apply wf_new|vm_compute; done..|].
  exists p', (<[10 := Channel.set_index idx (one_channel 0 (-1))]> (idle_heap 0)). split_and!; [exact E|exact Hw|].
  by eapply Hr; [apply lookup_insert_eq|..].
Defined.

End PollPoller.
