(* ===== verification/EPollPoller.v ===== *)
(** * [dws::net::EPollPoller]: EPollPoller.h, EPollPoller.cc

    The multiplexer on epoll(7), the default one.  The kernel's side of an
    epoll descriptor is a parameter.  The file shows how far the class keeps the
    contract of Poller.v: the first registration of a channel, and no more. *)

From S2P Require Import Prelude Channel Poller.
Import Poller.

Module EPollPoller.

Definition kNew : Z := -1.
Definition kAdded : Z := 1.
Definition kDeleted : Z := 2.

Definition kInitEventListSize : Z := 16.

(** [operation] of epoll_ctl(2). *)
Inductive operation := EPOLL_CTL_ADD | EPOLL_CTL_DEL | EPOLL_CTL_MOD.

Definition operationToString (o : operation) : string :=
  match o with EPOLL_CTL_ADD => "ADD" | EPOLL_CTL_DEL => "DEL" | EPOLL_CTL_MOD => "MOD" end.

Section EPoll.
(** The state of an epoll descriptor, and epoll_ctl(2) on it: the new state and
    whether it succeeded, for an operation, a descriptor, its events and the
    pointer kept with them. *)
Context {K : Type} (epoll_ctl : K -> operation -> Z -> Z -> Z -> K * bool).

(** [events_size]: the length of [events_], the room for returned events. *)
Record EPollPoller := mkEPollPoller {
  ep_channels : gmap Z Z; epollfd_ : K; events_size : Z
}.

(** The constructor; [fresh] is what epoll_create1(2) returned. *)
Definition new (fresh : option K) : result EPollPoller :=
  match fresh with
  | Some k => Ok (mkEPollPoller ∅ k kInitEventListSize)
  | None => Err Aborted
  end.

(** A failure to delete is only logged. *)
Definition update (o : operation) (c : Z) (ch : Channel.Channel) (p : EPollPoller)
  : result EPollPoller :=
  let '(k, ok) := epoll_ctl (epollfd_ p) o (Channel.fd_ ch) (Channel.events_ ch) c in
  let p := mkEPollPoller (ep_channels p) k (events_size p) in
  if ok then Ok p
  else match o with EPOLL_CTL_DEL => Ok p | _ => Err Aborted end.

(** [channel->set_index(index)] stores the index that was just read, where
    [kAdded] was meant. *)
Definition updateChannel (inLoop : bool) (c : Z) (p : EPollPoller) (h : heap)
  : result (EPollPoller * heap) :=
  _ ← assertInLoopThread inLoop;
  ch ← deref h c;
  let index := Channel.index_ ch in
  let fd := Channel.fd_ ch in
  if (index =? kNew) || (index =? kDeleted) then
    p ← (if index =? kNew then
           _ ← assert_ (bool_decide (ep_channels p !! fd = None));
           Ok (mkEPollPoller (<[fd := c]> (ep_channels p)) (epollfd_ p) (events_size p))
         else
           _ ← assert_ (bool_decide (is_Some (ep_channels p !! fd)));
           _ ← assert_ (bool_decide (ep_channels p !! fd = Some c));
           Ok p);
    let h := alter (Channel.set_index index) c h in
    p ← update EPOLL_CTL_ADD c ch p;
    Ok (p, h)
  else
    _ ← assert_ (bool_decide (is_Some (ep_channels p !! fd)));
    _ ← assert_ (bool_decide (ep_channels p !! fd = Some c));
    _ ← assert_ (index =? kAdded);
    if Channel.isNoneEvent ch then
      p ← update EPOLL_CTL_DEL c ch p;
      Ok (p, alter (Channel.set_index kDeleted) c h)
    else
      p ← update EPOLL_CTL_MOD c ch p;
      Ok (p, h).

Definition removeChannel (inLoop : bool) (c : Z) (p : EPollPoller) (h : heap)
  : result (EPollPoller * heap) :=
  _ ← assertInLoopThread inLoop;
  ch ← deref h c;
  let fd := Channel.fd_ ch in
  _ ← assert_ (bool_decide (is_Some (ep_channels p !! fd)));
  _ ← assert_ (bool_decide (ep_channels p !! fd = Some c));
  _ ← assert_ (Channel.isNoneEvent ch);
  let index := Channel.index_ ch in
  _ ← assert_ ((index =? kAdded) || (index =? kDeleted));
  let p := mkEPollPoller (delete fd (ep_channels p)) (epollfd_ p) (events_size p) in
  p ← (if index =? kAdded then update EPOLL_CTL_DEL c ch p else Ok p);
  Ok (p, alter (Channel.set_index kNew) c h).

(** What epoll_wait(2) leaves: its result, [errno], and the returned events with
    their pointers, as many as the result says. *)
Record epoll_answer := mkAnswer { numEvents : Z; err : Z; returned : list (Z * Z) }.

(** The loop over the first [numEvents] events. *)
Fixpoint fillActiveChannels (l : list (Z * Z)) (channels : gmap Z Z) (h : heap)
  : result (list Z * heap) :=
  match l with
  | [] => Ok ([], h)
  | (events, c) :: l =>
      ch ← deref h c;
      _ ← assert_ (bool_decide (is_Some (channels !! Channel.fd_ ch)));
      _ ← assert_ (bool_decide (channels !! Channel.fd_ ch = Some c));
      '(active, h) ← fillActiveChannels l channels (alter (Channel.set_revents events) c h);
      Ok (c :: active, h)
  end.

(** The test is on [errno], where the number of events was meant. *)
Definition poll (a : epoll_answer) (p : EPollPoller) (h : heap)
  : result (list Z * EPollPoller * heap) :=
  if 0 <? err a then
    _ ← assert_ (wrapu 64 (numEvents a) <=? events_size p);
    '(active, h) ← fillActiveChannels (returned a) (ep_channels p) h;
    let size := if wrapu 64 (numEvents a) =? events_size p
                then events_size p * 2 else events_size p in
    Ok (active, mkEPollPoller (ep_channels p) (epollfd_ p) size, h)
  else Ok ([], p, h).

(** Is an error reported?  Only when [errno] is not positive either. *)
Definition EINTR : Z := 4.
Definition poll_logs_error (a : epoll_answer) : bool :=
  negb (0 <? err a) && negb (numEvents a =? 0) && negb (err a =? EINTR).

#[global] Instance epoll_poller : Poller EPollPoller := {
  Answer := epoll_answer;
  Poller.channels_ := ep_channels;
  Poller.updateChannel := updateChannel;
  Poller.removeChannel := removeChannel;
  Poller.poll := poll
}.

(** ** What does hold *)

Lemma update_channels o c ch p p' : update o c ch p = Ok p' -> ep_channels p' = ep_channels p.
Proof.
  unfold update. destruct (epoll_ctl _ _ _ _ _) as [k []]; [|destruct o]; intros; by simplify_eq.
Qed.

#[global] Instance epoll_poller_frame : PollerFrame EPollPoller.
Proof.
  split; intros p h b c p' h'; cbn; unfold updateChannel, removeChannel.
  - intros Hr. apply bind_ok_inv in Hr as (u & _ & Hr). apply bind_ok_inv in Hr as (ch & _ & Hr).
    destruct (_ || _); [|inv_ok; destruct (Channel.isNoneEvent ch)]; inv_ok; simplify_eq;
      (apply renumbered_alter || apply renumbered_refl).
  - intros Hr. inv_ok. simplify_eq. apply renumbered_alter.
  - intros fd d Hr Hd. apply bind_ok_inv in Hr as (u & _ & Hr).
    apply bind_ok_inv in Hr as (ch & _ & Hr). destruct (_ || _).
    + apply bind_ok_inv in Hr as (p1 & Hp1 & Hr). apply bind_ok_inv in Hr as (p2 & Hu & Hr).
      apply update_channels in Hu. injection Hr as <- _. rewrite Hu.
      destruct (_ =? kNew); [|by inv_ok; simplify_eq].
      apply bind_ok_inv in Hp1 as (u1 & E & Hp1). apply assert_ok_inv, bool_decide_eq_true in E.
      injection Hp1 as <-. cbn. rewrite lookup_insert_ne; congruence.
    + apply bind_ok_inv in Hr as (u1 & _ & Hr). apply bind_ok_inv in Hr as (u2 & _ & Hr).
      apply bind_ok_inv in Hr as (u3 & _ & Hr).
      destruct (Channel.isNoneEvent ch); apply bind_ok_inv in Hr as (p2 & Hu & Hr);
        apply update_channels in Hu; injection Hr as <- _; by rewrite Hu.
  - intros fd d Hr Hne Hd. apply bind_ok_inv in Hr as (u & _ & Hr).
    apply bind_ok_inv in Hr as (ch & _ & Hr). apply bind_ok_inv in Hr as (u1 & _ & Hr).
    apply bind_ok_inv in Hr as (u2 & E & Hr). apply assert_ok_inv, bool_decide_eq_true in E.
    apply bind_ok_inv in Hr as (u3 & _ & Hr). apply bind_ok_inv in Hr as (u4 & _ & Hr).
    apply bind_ok_inv in Hr as (p1 & Hp1 & Hr). injection Hr as <- _.
    assert (ep_channels p1 = delete (Channel.fd_ ch) (ep_channels p)) as ->.
    { destruct (_ =? kAdded); [by apply update_channels in Hp1 | by simplify_eq]. }
    rewrite lookup_delete_ne; congruence.
Qed.

(** ** A registered channel keeps the index of a new one *)

(** Every registered channel still has index [kNew], and so has every other. *)
Definition stuck (p : EPollPoller) (h : heap) : Prop :=
  forall c ch, h !! c = Some ch -> Channel.index_ ch = kNew.

Lemma stuck_update b c p h p' h' :
  stuck p h -> updateChannel b c p h = Ok (p', h') ->
  exists ch, h !! c = Some ch /\ ep_channels p !! Channel.fd_ ch = None /\
    ep_channels p' = <[Channel.fd_ ch := c]> (ep_channels p) /\ stuck p' h' /\ renumbered h h'.
Proof.
  intros Hs Hr. unfold updateChannel in Hr. apply bind_ok_inv in Hr as (u & _ & Hr).
  apply bind_ok_inv in Hr as (ch & Ec & Hr). unfold deref in Ec.
  destruct (h !! c) as [ch'|] eqn:Hc; [|discriminate]. injection Ec as ->.
  rewrite (Hs c ch Hc) in Hr. cbn [kNew kDeleted Z.eqb Pos.eqb orb] in Hr.
  apply bind_ok_inv in Hr as (p1 & E1 & Hr). apply bind_ok_inv in E1 as (u1 & E & E1).
  apply bind_ok_inv in Hr as (p2 & E2 & Hr). inv_ok. apply bool_decide_eq_true in E. simplify_eq.
  exists ch. split_and!; [done|done| | |].
  - unfold update in E2. destruct (epoll_ctl _ _ _ _ _) as [k []]; by simplify_eq.
  - intros d chd Hd. destruct (decide (c = d)) as [<-|Hne].
    + rewrite lookup_alter_eq, Hc in Hd. by injection Hd as <-.
    + rewrite lookup_alter_ne in Hd by done. by apply (Hs d).
  - apply renumbered_alter.
Qed.

Lemma stuck_remove b c p h : stuck p h ->
  exists f, removeChannel b c p h = Err f.
Proof.
  intros Hs. destruct (removeChannel b c p h) as [[p' h']|f] eqn:Hr; [|by exists f]. exfalso.
  unfold removeChannel in Hr. apply bind_ok_inv in Hr as (u & _ & Hr).
  apply bind_ok_inv in Hr as (ch & Ec & Hr). unfold deref in Ec.
  destruct (h !! c) as [ch'|] eqn:Hc; [|discriminate]. injection Ec as ->.
  rewrite (Hs c ch Hc) in Hr. inv_ok. discriminate.
Qed.

(** The faults of a second registration and of a removal. *)
Lemma stuck_again c p h ch : stuck p h -> h !! c = Some ch ->
  is_Some (ep_channels p !! Channel.fd_ ch) ->
  updateChannel true c p h = Err AssertFailure /\ removeChannel true c p h = Err AssertFailure.
Proof.
  intros Hs Hc [d Hd]. split.
  - unfold updateChannel. rewrite in_loop, bind_ok, (deref_ok _ _ _ Hc), bind_ok, (Hs c ch Hc).
    cbn [kNew kDeleted Z.eqb Pos.eqb orb]. rewrite assert_decide_not by congruence. done.
  - unfold removeChannel. rewrite in_loop, bind_ok, (deref_ok _ _ _ Hc), bind_ok, (Hs c ch Hc).
    rewrite (assert_decide (is_Some (ep_channels p !! Channel.fd_ ch))), bind_ok by (by exists d).
    destruct (decide (ep_channels p !! Channel.fd_ ch = Some c)).
    + rewrite assert_decide, bind_ok by done. by destruct (Channel.isNoneEvent ch).
    + by rewrite assert_decide_not.
Qed.

(** ** Runs of registrations and removals *)

(** The descriptors that a sequence of client operations updates, in order;
    [None] if it removes a channel. *)
Fixpoint updates_only (h : heap) (os : list client_op) : option (list Z) :=
  match os with
  | [] => Some []
  | Update c _ :: os => ch ← h !! c; fds ← updates_only h os; Some (Channel.fd_ ch :: fds)
  | Remove _ :: _ => None
  end.

Lemma updates_only_renumbered h h' os :
  (forall c, Channel.fd_ <$> h' !! c = Channel.fd_ <$> h !! c) ->
  updates_only h' os = updates_only h os.
Proof.
  intros Hr. induction os as [|[c ev|c] os IH]; [done| |done]. cbn.
  specialize (Hr c). destruct (h' !! c) as [ch'|], (h !! c) as [ch|]; try by simplify_eq/=.
  apply (inj Some) in Hr. cbn. by rewrite IH, Hr.
Qed.

Lemma set_events_fds (h : heap) c ev d :
  Channel.fd_ <$> alter (Channel.set_events ev) c h !! d = Channel.fd_ <$> h !! d.
Proof.
  destruct (decide (c = d)) as [->|Hne].
  - rewrite lookup_alter_eq. by destruct (h !! d).
  - by rewrite lookup_alter_ne.
Qed.

Lemma stuck_run os : forall p h p' h', stuck p h -> run os p h = Ok (p', h') ->
  exists fds, updates_only h os = Some fds /\ NoDup fds /\
    forall fd, fd ∈ fds -> ep_channels p !! fd = None.
Proof.
  induction os as [|[c ev|c] os IH]; intros p h p' h' Hs Hr; cbn [run] in Hr.
  - exists []. split_and!; [done|constructor|intros fd Hfd; by apply not_elem_of_nil in Hfd].
  - apply bind_ok_inv in Hr as ([p1 h1] & Hu & Hr).
    assert (stuck p (alter (Channel.set_events ev) c h)) as Hs1.
    { intros d ch Hd. destruct (decide (c = d)) as [->|Hne].
      - rewrite lookup_alter_eq in Hd. destruct (h !! d) eqn:E; [|by simplify_eq/=].
        apply (inj Some) in Hd as <-. exact (Hs d _ E).
      - rewrite lookup_alter_ne in Hd by done. by apply (Hs d). }
    destruct (stuck_update _ _ _ _ _ _ Hs1 Hu) as (ch & Hc & Hnone & Hch & Hs2 & Hren).
    destruct (IH _ _ _ _ Hs2 Hr) as (fds & Hf & Hnd & Hin).
    assert (forall d, Channel.fd_ <$> h1 !! d = Channel.fd_ <$> h !! d) as Hfds.
    { intros d. rewrite <- (set_events_fds h c ev d). specialize (Hren d).
      destruct (h1 !! d), (alter _ _ _ !! d); try by simplify_eq/=.
      apply (inj Some), strip_fields in Hren as [Hren _]. cbn. by rewrite Hren. }
    rewrite (updates_only_renumbered h h1 os Hfds) in Hf.
    assert (Channel.fd_ <$> h !! c = Some (Channel.fd_ ch)) as Hc0
      by (by rewrite <- (set_events_fds h c ev c), Hc).
    destruct (h !! c) as [ch0|] eqn:E0; [|by simplify_eq/=].
    apply (inj Some) in Hc0.
    exists (Channel.fd_ ch0 :: fds). rewrite Hc0. split_and!.
    + cbn [updates_only]. rewrite E0. cbn. rewrite Hf. cbn. by rewrite Hc0.
    + constructor; [|done]. intros Hd. specialize (Hin _ Hd).
      by rewrite Hch, lookup_insert_eq in Hin.
    + intros fd Hfd. apply elem_of_cons in Hfd as [->|Hfd]; [done|].
      specialize (Hin fd Hfd). rewrite Hch in Hin. by apply lookup_insert_None in Hin as [? _].
  - apply bind_ok_inv in Hr as (x & Hrm & _). destruct (stuck_remove true c p h Hs) as [f Hf].
    assert (removeChannel true c p h = Ok x) by exact Hrm. congruence.
Qed.

Lemma fill_run l channels h :
  (forall ev c, (ev, c) ∈ l -> exists ch, h !! c = Some ch /\
     channels !! Channel.fd_ ch = Some c) ->
  fillActiveChannels l channels h =
    Ok (map snd l, mark_ready (map (fun p => (snd p, fst p)) l) h).
Proof.
  revert h. induction l as [|[ev c] l IH]; intros h Hl; [done|]. cbn [fillActiveChannels].
  destruct (Hl ev c ltac:(by apply list_elem_of_here)) as (ch & Hc & Hr).
  rewrite (deref_ok _ _ _ Hc), bind_ok, assert_decide, bind_ok by eauto.
  rewrite assert_decide, bind_ok by done. rewrite IH; [done|].
  intros ev1 c1 Hin. destruct (Hl ev1 c1 ltac:(by apply list_elem_of_further)) as (ch1 & Hc1 & Hr1).
  destruct (decide (c = c1)) as [->|Hne].
  - exists (Channel.set_revents ev ch1). by rewrite lookup_alter_eq, Hc1.
  - exists ch1. by rewrite lookup_alter_ne.
Qed.

(** ** Properties *)

(** One registration each.  With any kernel, when all channels are new, a
    sequence of updates and removals that runs without a failed assertion holds
    no removal and no second update of a descriptor: the first update stores
    [kNew] again, where [kAdded] was meant. *)
Theorem epoll_registers_once os p h p' h' :
  (forall c ch, h !! c = Some ch -> Channel.index_ ch = kNew) ->
  run os p h = Ok (p', h') ->
  exists fds, updates_only h os = Some fds /\ NoDup fds.
Proof.
  intros Hnew Hr. destruct (stuck_run os p h p' h' Hnew Hr) as (fds & Hf & Hnd & _). by exists fds.
Qed.

(** In particular, after a channel's first update succeeds, changing its
    interest and removing it both end the process. *)
Theorem epoll_update_then_stuck c p h p' h' :
  (forall d ch, h !! d = Some ch -> Channel.index_ ch = kNew) ->
  updateChannel true c p h = Ok (p', h') ->
  updateChannel true c p' h' = Err AssertFailure /\
  removeChannel true c p' h' = Err AssertFailure.
Proof.
  intros Hnew Hu. destruct (stuck_update _ _ _ _ _ _ Hnew Hu) as (ch & Hc & _ & Hch & Hs & Hren).
  destruct (renumbered_lookup _ _ _ _ Hren Hc) as (ch' & Hc' & Hst).
  apply strip_fields in Hst as [Hfd _].
  apply (stuck_again c p' h' ch' Hs Hc'). rewrite Hch, Hfd, lookup_insert_eq. eauto.
Qed.

(** The result of epoll_wait(2) is not looked at.  With [errno] zero, no
    event is delivered, however many the kernel returned; with [errno] positive,
    the returned events are delivered, but a failed wait (a signal, for example)
    fails an assertion. *)
Theorem epoll_poll_by_errno a p h :
  0 <= events_size p < 2 ^ 63 ->
  (forall ev c, (ev, c) ∈ returned a -> exists ch, h !! c = Some ch /\
     ep_channels p !! Channel.fd_ ch = Some c) ->
  (err a = 0 -> poll a p h = Ok ([], p, h)) /\
  (0 < err a -> 0 <= numEvents a <= events_size p -> exists p',
     poll a p h = Ok (map snd (returned a), p', mark_ready (map (fun q => (snd q, fst q)) (returned a)) h)) /\
  (0 < err a -> numEvents a = -1 -> poll a p h = Err AssertFailure).
Proof.
  intros Hsz Hret. unfold poll. split_and!.
  - by intros ->.
  - intros He Hn. rewrite (proj2 (Z.ltb_lt _ _)) by done. rewrite wrapu_small by lia. step_assert.
    rewrite (fill_run _ _ _ Hret), bind_ok. eauto.
  - intros He Hn. rewrite (proj2 (Z.ltb_lt _ _)), Hn by done.
    change (wrapu 64 (-1)) with (2 ^ 64 - 1). unfold assert_.
    by rewrite (proj2 (Z.leb_gt _ _)) by lia.
Qed.

End EPoll.

(** ** Concrete runs *)

(** A kernel that accepts everything and remembers nothing. *)
Definition accepting (k : unit) (o : operation) (fd events ptr : Z) : unit * bool := (tt, true).

Definition epoll0 : EPollPoller (K:=unit) := mkEPollPoller ∅ tt 16.
Definition two_channels : heap := {[ 10 := Channel.new 1 5; 11 := Channel.new 1 6 ]}.

Lemma two_new d ch : two_channels !! d = Some ch -> Channel.index_ ch = kNew.
Proof.
  unfold two_channels. intros Hd.
  apply lookup_insert_Some in Hd as [[_ <-]|[_ Hd]]; [done|].
  by apply lookup_singleton_Some in Hd as [_ <-].
Qed.

(** Two first updates run. *)
Lemma epoll_registers_once_witness :
  exists fds, updates_only two_channels [Update 10 3; Update 11 3] = Some fds /\ NoDup fds.
Proof.
  eapply (epoll_registers_once accepting [Update 10 3; Update 11 3] epoll0 two_channels).
  - exact two_new.
  - vm_compute. reflexivity.
Defined.

Lemma epoll_update_then_stuck_witness :
  exists p' h', updateChannel accepting true 10 epoll0 two_channels = Ok (p', h') /\
    updateChannel accepting true 10 p' h' = Err AssertFailure /\
    removeChannel accepting true 10 p' h' = Err AssertFailure.
Proof.
  eexists _, _. split; [vm_compute; reflexivity|].
  apply (epoll_update_then_stuck accepting 10 epoll0 two_channels); [exact two_new|].
  vm_compute. reflexivity.
Defined.

(** One event returned, [errno] clear. *)
Lemma epoll_poll_by_errno_witness :
  poll (mkAnswer 1 0 [(1, 10)]) (mkEPollPoller {[ 5 := 10 ]} tt 16) two_channels =
    Ok ([], mkEPollPoller {[ 5 := 10 ]} tt 16, two_channels).
Proof.
  apply (epoll_poll_by_errno (mkAnswer 1 0 [(1, 10)]) (mkEPollPoller {[ 5 := 10 ]} tt 16)
           two_channels); [cbn; lia| |done].
  intros ev c Hin. cbn in Hin. apply list_elem_of_singleton in Hin. simplify_eq.
  exists (Channel.new 1 5). by split.
Defined.

End EPollPoller.
