(* ===== verification/EventLoop.v ===== *)
(** * [dws::net::EventLoop]: EventLoop.h, EventLoop.cc, on one thread

    The reactor: registration through the poller, the iteration of [loop], and
    the queue of functors.  User code (callbacks and functors) is a list of the
    operations it performs.  What other threads may do in between is in
    LoopTasks.v. *)

From S2P Require Import Prelude Channel Poller PollPoller.
Import Poller.

Module EventLoop.

(** What a callback or a functor does, in order. *)
#[warnings="-register-all"]
Inductive cmd :=
| Interest (c : Z) (r : Channel.request)        (* c->enableReading() and so on *)
| RemoveChannel (c : Z)                         (* c->remove() *)
| NewChannel (c fd : Z) (rcb wcb ccb ecb : option Z)
| DestroyChannel (c : Z)
| Tie (c obj : Z)                               (* c->tie(obj) *)
| Release (obj : Z)                             (* drop a strong reference *)
| RunInLoop (f : list cmd)
| QueueInLoop (f : list cmd)
| Quit
| HandleRead.                                   (* EventLoop::handleRead *)

Definition functor : Type := list cmd.

Definition kPollTimeMs : Z := 10000.

(** The eventfd counter is at most [2^64 - 2]; a write beyond that fails. *)
Definition eventfd_max : Z := 2 ^ 64 - 2.
Definition eventfd_write (n : Z) : Z := if n + 1 <=? eventfd_max then n + 1 else n.

Section Loop.
Context {P : Type} `{Poller P}.

(** [tid]: the thread that runs.  [owners]: objects held by [shared_ptr], with
    their reference counts and the channels they own. *)
Record EventLoop := mkLoop {
  this_ : Z;
  threadId_ : Z;
  tid : Z;
  looping_ : bool;
  quit_ : bool;
  eventHandling_ : bool;
  callingPendingFunctors_ : bool;
  iteration_ : Z;
  pollReturnTime_ : Z;
  poller_ : P;
  channels : heap;
  owners : gmap Z (Z * list Z);
  wakeup_count : Z;
  activeChannels_ : list Z;
  currentActiveChannel_ : option Z;
  pendingFunctors_ : list functor
}.

Definition with_chans (p : P) (h : heap) (w : EventLoop) : EventLoop :=
  mkLoop (this_ w) (threadId_ w) (tid w) (looping_ w) (quit_ w) (eventHandling_ w)
    (callingPendingFunctors_ w) (iteration_ w) (pollReturnTime_ w) p h (owners w)
    (wakeup_count w) (activeChannels_ w) (currentActiveChannel_ w) (pendingFunctors_ w).
Definition with_owners (o : gmap Z (Z * list Z)) (w : EventLoop) : EventLoop :=
  mkLoop (this_ w) (threadId_ w) (tid w) (looping_ w) (quit_ w) (eventHandling_ w)
    (callingPendingFunctors_ w) (iteration_ w) (pollReturnTime_ w) (poller_ w) (channels w) o
    (wakeup_count w) (activeChannels_ w) (currentActiveChannel_ w) (pendingFunctors_ w).
Definition with_queue (n : Z) (fs : list functor) (w : EventLoop) : EventLoop :=
  mkLoop (this_ w) (threadId_ w) (tid w) (looping_ w) (quit_ w) (eventHandling_ w)
    (callingPendingFunctors_ w) (iteration_ w) (pollReturnTime_ w) (poller_ w) (channels w)
    (owners w) n (activeChannels_ w) (currentActiveChannel_ w) fs.
Definition with_quit (b : bool) (w : EventLoop) : EventLoop :=
  mkLoop (this_ w) (threadId_ w) (tid w) (looping_ w) b (eventHandling_ w)
    (callingPendingFunctors_ w) (iteration_ w) (pollReturnTime_ w) (poller_ w) (channels w)
    (owners w) (wakeup_count w) (activeChannels_ w) (currentActiveChannel_ w) (pendingFunctors_ w).
Definition with_calling (b : bool) (w : EventLoop) : EventLoop :=
  mkLoop (this_ w) (threadId_ w) (tid w) (looping_ w) (quit_ w) (eventHandling_ w)
    b (iteration_ w) (pollReturnTime_ w) (poller_ w) (channels w) (owners w) (wakeup_count w)
    (activeChannels_ w) (currentActiveChannel_ w) (pendingFunctors_ w).
Definition with_looping (b : bool) (w : EventLoop) : EventLoop :=
  mkLoop (this_ w) (threadId_ w) (tid w) b (quit_ w) (eventHandling_ w)
    (callingPendingFunctors_ w) (iteration_ w) (pollReturnTime_ w) (poller_ w) (channels w)
    (owners w) (wakeup_count w) (activeChannels_ w) (currentActiveChannel_ w) (pendingFunctors_ w).
Definition with_current (b : bool) (c : option Z) (w : EventLoop) : EventLoop :=
  mkLoop (this_ w) (threadId_ w) (tid w) (looping_ w) (quit_ w) b
    (callingPendingFunctors_ w) (iteration_ w) (pollReturnTime_ w) (poller_ w) (channels w)
    (owners w) (wakeup_count w) (activeChannels_ w) c (pendingFunctors_ w).
Definition with_poll (p : P) (h : heap) (active : list Z) (now : Z) (w : EventLoop) : EventLoop :=
  mkLoop (this_ w) (threadId_ w) (tid w) (looping_ w) (quit_ w) (eventHandling_ w)
    (callingPendingFunctors_ w) (iteration_ w + 1) now p h (owners w) (wakeup_count w)
    active (currentActiveChannel_ w) (pendingFunctors_ w).

(** ** Threads *)

Definition isInLoopThread (w : EventLoop) : bool := threadId_ w =? tid w.

(** [abortNotInLoopThread] logs at FATAL level, which aborts. *)
Definition assertInLoopThread (w : EventLoop) : result unit :=
  Poller.assertInLoopThread (isInLoopThread w).

(** ** Registration *)

Definition updateChannel (c : Z) (w : EventLoop) : result EventLoop :=
  ch ← deref (channels w) c;
  _ ← assert_ (Channel.loop_ ch =? this_ w);
  _ ← assertInLoopThread w;
  '(p, h) ← Poller.updateChannel (isInLoopThread w) c (poller_ w) (channels w);
  Ok (with_chans p h w).

Definition removeChannel (c : Z) (w : EventLoop) : result EventLoop :=
  ch ← deref (channels w) c;
  _ ← assert_ (Channel.loop_ ch =? this_ w);
  _ ← assertInLoopThread w;
  _ ← (if eventHandling_ w then
         assert_ (bool_decide (currentActiveChannel_ w = Some c) ||
                  bool_decide (c ∉ activeChannels_ w))
       else Ok tt);
  '(p, h) ← Poller.removeChannel (isInLoopThread w) c (poller_ w) (channels w);
  Ok (with_chans p h w).

Definition hasChannel (c : Z) (w : EventLoop) : result bool :=
  ch ← deref (channels w) c;
  _ ← assert_ (Channel.loop_ ch =? this_ w);
  _ ← assertInLoopThread w;
  Poller.hasChannel (isInLoopThread w) c (poller_ w) (channels w).

(** A channel reaches its loop through [loop_]; this world has one loop. *)
#[global] Instance loop_host : Channel.Host EventLoop := {
  Channel.chan_of w c := channels w !! c;
  Channel.put_chan c ch w := with_chans (poller_ w) (<[c := ch]> (channels w)) w;
  Channel.free_chan c w := with_chans (poller_ w) (delete c (channels w)) w;
  Channel.loop_updateChannel _ c w := updateChannel c w;
  Channel.loop_removeChannel _ c w := removeChannel c w;
  Channel.loop_hasChannel _ c w := hasChannel c w;
  Channel.loop_isInLoopThread _ w := isInLoopThread w
}.

(** ** Tasks *)

Definition wakeup (w : EventLoop) : EventLoop :=
  with_queue (eventfd_write (wakeup_count w)) (pendingFunctors_ w) w.

Definition handleRead (w : EventLoop) : EventLoop := with_queue 0 (pendingFunctors_ w) w.

Definition quit (w : EventLoop) : EventLoop :=
  let w := with_quit true w in
  if isInLoopThread w then w else wakeup w.

Definition queueInLoop (f : functor) (w : EventLoop) : EventLoop :=
  let w := with_queue (wakeup_count w) (pendingFunctors_ w ++ [f]) w in
  if negb (isInLoopThread w) || callingPendingFunctors_ w then wakeup w else w.

Definition queueSize (w : EventLoop) : Z := zlen (pendingFunctors_ w).

(** ** Reference counts *)

Fixpoint destroy_all (cs : list Z) (w : EventLoop) : result EventLoop :=
  match cs with
  | [] => Ok w
  | c :: cs => w ← Channel.destroy c w; destroy_all cs w
  end.

Definition lock (obj : Z) (w : EventLoop) : option EventLoop :=
  '(n, cs) ← owners w !! obj; Some (with_owners (<[obj := (n + 1, cs)]> (owners w)) w).

(** The last reference destroys the object and the channels it owns. *)
Definition release (obj : Z) (w : EventLoop) : result EventLoop :=
  match owners w !! obj with
  | None => Err UndefinedBehaviour
  | Some (n, cs) =>
      if n =? 1 then destroy_all cs (with_owners (delete obj (owners w)) w)
      else Ok (with_owners (<[obj := (n - 1, cs)]> (owners w)) w)
  end.

(** ** User code *)

Definition newChannel (c fd : Z) (rcb wcb ccb ecb : option Z) (w : EventLoop) : result EventLoop :=
  _ ← defined_ (bool_decide (channels w !! c = None));
  let ch := Channel.setErrorCallback ecb (Channel.setCloseCallback ccb
    (Channel.setWriteCallback wcb (Channel.setReadCallback rcb (Channel.new (this_ w) fd)))) in
  Ok (Channel.put_chan c ch w).

(** [runInLoop] calls at once in the loop's thread, and queues in another. *)
Fixpoint exec_cmd (x : cmd) (w : EventLoop) : result EventLoop :=
  match x with
  | Interest c r => Channel.request_op r c w
  | RemoveChannel c => Channel.remove c w
  | NewChannel c fd rcb wcb ccb ecb => newChannel c fd rcb wcb ccb ecb w
  | DestroyChannel c => Channel.destroy c w
  | Tie c obj => Channel.modify c (Channel.tie obj) w
  | Release obj => release obj w
  | RunInLoop f =>
      if isInLoopThread w
      then (fix go (l : list cmd) (w : EventLoop) : result EventLoop :=
              match l with [] => Ok w | x :: l => w ← exec_cmd x w; go l w end) f w
      else Ok (queueInLoop f w)
  | QueueInLoop f => Ok (queueInLoop f w)
  | Quit => Ok (quit w)
  | HandleRead => Ok (handleRead w)
  end.

Fixpoint exec (l : list cmd) (w : EventLoop) : result EventLoop :=
  match l with
  | [] => Ok w
  | x :: l => w ← exec_cmd x w; exec l w
  end.

Definition runInLoop (f : functor) (w : EventLoop) : result EventLoop :=
  if isInLoopThread w then exec f w else Ok (queueInLoop f w).

Fixpoint run_functors (fs : list functor) (w : EventLoop) : result EventLoop :=
  match fs with
  | [] => Ok w
  | f :: fs => w ← exec f w; run_functors fs w
  end.

Definition doPendingFunctors (w : EventLoop) : result EventLoop :=
  let w := with_calling true w in
  let functors := pendingFunctors_ w in
  let w := with_queue (wakeup_count w) [] w in
  w ← run_functors functors w;
  Ok (with_calling false w).

(** ** The loop *)

Section Code.
(** The callbacks, by name. *)
Context (code : Z -> option Z -> functor).

Definition call (f : Z) (arg : option Z) (w : EventLoop) : result EventLoop := exec (code f arg) w.

Definition handleEvent (c : Z) (w : EventLoop) : result EventLoop :=
  Channel.handleEvent call lock release c (pollReturnTime_ w) w.

Fixpoint dispatch_active (handle : Z -> EventLoop -> result EventLoop) (l : list Z)
  (w : EventLoop) : result EventLoop :=
  match l with
  | [] => Ok w
  | c :: l => w ← handle c (with_current true (Some c) w); dispatch_active handle l w
  end.

(** [printActiveChannels]: the messages of a round, when the level is TRACE. *)
Fixpoint printActiveChannels (l : list Z) (w : EventLoop) : result (list (list byte)) :=
  match l with
  | [] => Ok []
  | c :: l =>
      ch ← deref (channels w) c;
      rest ← printActiveChannels l w;
      Ok ((bytes_of "{" ++ Channel.reventsToString ch ++ bytes_of "} ") :: rest)
  end.

(** One round: what poll(2) or epoll_wait(2) left, and the time of return. *)
Definition iterate_with (handle : Z -> EventLoop -> result EventLoop) (a : Answer P) (now : Z)
  (w : EventLoop) : result EventLoop :=
  '(active, p, h) ← Poller.poll a (poller_ w) (channels w);
  let w := with_poll p h active now w in
  let w := with_current true (currentActiveChannel_ w) w in
  w ← dispatch_active handle (activeChannels_ w) w;
  doPendingFunctors (with_current false None w).

Definition iterate : Answer P -> Z -> EventLoop -> result EventLoop := iterate_with handleEvent.

(** [loop], on the answers that the kernel will give; the answers left over, or
    [None] when they run out in a blocked poll. *)
Fixpoint while_loop (answers : list (Answer P * Z)) (w : EventLoop)
  : result (option (list (Answer P * Z)) * EventLoop) :=
  if quit_ w then Ok (Some answers, w)
  else match answers with
  | [] => Ok (None, w)
  | (a, now) :: answers => w ← iterate a now w; while_loop answers w
  end.

Definition loop (answers : list (Answer P * Z)) (w : EventLoop)
  : result (option (list (Answer P * Z)) * EventLoop) :=
  _ ← assert_ (negb (looping_ w));
  _ ← assertInLoopThread w;
  '(rest, w) ← while_loop answers (with_quit false (with_looping true w));
  Ok (rest, match rest with Some _ => with_looping false w | None => w end).

End Code.
End Loop.
Arguments EventLoop P : clear implicits.

(** ** Induction on user code *)

Fixpoint cmd_size (x : cmd) : nat :=
  match x with
  | RunInLoop f | QueueInLoop f => S (list_sum (map cmd_size f))
  | _ => 1
  end.

Lemma cmd_size_pos x : (0 < cmd_size x)%nat.
Proof. destruct x; cbn; lia. Qed.

(** ** What operations keep, the loop keeps *)

Section Preserved.
Context {P : Type} `{Poller P} (Q : EventLoop P -> Prop).

(** One operation of user code; a functor that is run is a sequence of others. *)
Definition basic (x : cmd) (w w' : EventLoop P) : Prop :=
  match x with RunInLoop f => w' = queueInLoop f w | _ => exec_cmd x w = Ok w' end.

Lemma exec_cmd_run f (w : EventLoop P) : exec_cmd (RunInLoop f) w =
  if isInLoopThread w then exec f w else Ok (queueInLoop f w).
Proof.
  cbn [exec_cmd]. destruct (isInLoopThread w); [|done].
  revert w. induction f as [|x f IH]; intros w; [done|]. cbn [exec].
  destruct (exec_cmd x w); [apply IH|done].
Qed.

Context (Hbasic : forall x w w', basic x w w' -> Q w -> Q w').

Lemma exec_preserves l w w' : Q w -> exec l w = Ok w' -> Q w'.
Proof using Hbasic.
  assert (forall n l w w', (list_sum (map cmd_size l) <= n)%nat -> Q w -> exec l w = Ok w' -> Q w')
    as Hn; [|by apply (Hn (list_sum (map cmd_size l)) l w w')]. clear l w w'.
  induction n as [n IHn] using lt_wf_ind. intros l. induction l as [|x l IH]; intros w w' Hs Hq Hr.
  - by injection Hr as <-.
  - change (cmd_size x + list_sum (map cmd_size l) <= n)%nat in Hs.
    apply bind_ok_inv in Hr as (w1 & Hx & Hr). pose proof (cmd_size_pos x) as Hpos.
    assert (Q w1) as Hq1.
    { pose proof (Hbasic x w w1) as Hb. destruct x as [| | | | | |f|f| |]; try exact (Hb Hx Hq).
      rewrite exec_cmd_run in Hx. cbn in Hs. destruct (isInLoopThread w).
      - apply (IHn (list_sum (map cmd_size f)) ltac:(lia) f w w1); [lia|done..].
      - injection Hx as <-. by apply Hb. }
    by apply (IHn (list_sum (map cmd_size l)) ltac:(lia) l w1).
Qed.

Lemma run_functors_preserves fs w w' : Q w -> run_functors fs w = Ok w' -> Q w'.
Proof using Hbasic.
  revert w. induction fs as [|f fs IH]; intros w Hq Hr; cbn in Hr; [by injection Hr as <-|].
  apply bind_ok_inv in Hr as (w1 & Hx & Hr). apply (IH w1); [|done]. by apply exec_preserves in Hx.
Qed.

(** The parts of the state that only the loop itself writes. *)
Context (Hcurrent : forall b c w, Q w -> Q (with_current b c w)).
Context (Hcalling : forall b w, Q w -> Q (with_calling b w)).
Context (Hqueue : forall n fs w, Q w -> Q (with_queue n fs w)).
Context (Howners : forall o w, Q w -> Q (with_owners o w)).

Lemma doPendingFunctors_preserves w w' : Q w -> doPendingFunctors w = Ok w' -> Q w'.
Proof using Hbasic Hcalling Hqueue.
  intros Hq Hr. unfold doPendingFunctors in Hr. apply bind_ok_inv in Hr as (w1 & Hx & Hr).
  injection Hr as <-. apply Hcalling. apply run_functors_preserves in Hx; [done|]. by apply Hqueue, Hcalling.
Qed.

Context (code : Z -> option Z -> functor).
Context (Hmodify : forall c b w w', Q w -> Channel.modify c (Channel.set_eventHandling b) w = Ok w' -> Q w').

Lemma handleEvent_preserves c w w' : Q w -> handleEvent code c w = Ok w' -> Q w'.
Proof using Hbasic Howners Hmodify.
  assert (forall c test cb arg w w', Q w -> Channel.fire (call code) c test cb arg w = Ok w' -> Q w') as Hfire.
  { intros c0 test cb arg w0 w0' Hq Hr. unfold Channel.fire in Hr. apply bind_ok_inv in Hr as (ch & _ & Hr).
    destruct (test _); [|by injection Hr as <-]. destruct (cb ch); [|by injection Hr as <-].
    by apply exec_preserves in Hr. }
  assert (forall c t w w', Q w -> Channel.handleEventWithGuard (call code) c t w = Ok w' -> Q w') as Hguard.
  { intros c0 t w0 w0' Hq Hr. unfold Channel.handleEventWithGuard in Hr.
    apply bind_ok_inv in Hr as (w1 & H1 & Hr). apply Hmodify in H1; [|done].
    apply bind_ok_inv in Hr as (w2 & H2 & Hr). apply Hfire in H2; [|done].
    apply bind_ok_inv in Hr as (w3 & H3 & Hr). apply Hfire in H3; [|done].
    apply bind_ok_inv in Hr as (w4 & H4 & Hr). apply Hfire in H4; [|done].
    apply bind_ok_inv in Hr as (w5 & H5 & Hr). apply Hfire in H5; [|done].
    by apply Hmodify in Hr. }
  intros Hq Hr. unfold handleEvent, Channel.handleEvent in Hr. apply bind_ok_inv in Hr as (ch & _ & Hr).
  destruct (Channel.tied_ ch); [|by apply Hguard in Hr].
  destruct (Channel.tie_ ch) as [obj|]; [|by injection Hr as <-].
  unfold lock in Hr. destruct (owners w !! obj) as [[n cs]|]; [|by injection Hr as <-].
  cbn [mbind option_bind] in Hr. apply bind_ok_inv in Hr as (w1 & H1 & Hr).
  apply Hguard in H1; [|by apply Howners]. by apply (Hbasic (Release obj) w1 w').
Qed.

Lemma dispatch_preserves l w w' : Q w -> dispatch_active (handleEvent code) l w = Ok w' -> Q w'.
Proof using Hbasic Howners Hmodify Hcurrent.
  revert w. induction l as [|c l IH]; intros w Hq Hr; cbn in Hr; [by injection Hr as <-|].
  apply bind_ok_inv in Hr as (w1 & Hx & Hr). apply (IH w1); [|done].
  by apply handleEvent_preserves in Hx; [|apply Hcurrent].
Qed.

Context (Hpoll : forall a now w active p h, Q w ->
  Poller.poll a (poller_ w) (channels w) = Ok (active, p, h) -> Q (with_poll p h active now w)).

Lemma iterate_preserves a now w w' : Q w -> iterate code a now w = Ok w' -> Q w'.
Proof using All.
  intros Hq Hr. unfold iterate, iterate_with in Hr. apply bind_ok_inv in Hr as ([[active p] h] & Hp & Hr).
  apply bind_ok_inv in Hr as (w1 & Hd & Hr). apply dispatch_preserves in Hd.
  - apply doPendingFunctors_preserves in Hr; [done|]. by apply Hcurrent.
  - apply Hcurrent. by apply (Hpoll a now w).
Qed.

Lemma while_preserves answers w rest w' : Q w -> while_loop code answers w = Ok (rest, w') -> Q w'.
Proof using All.
  revert w. induction answers as [|[a now] answers IH]; intros w Hq Hr; cbn in Hr.
  - destruct (quit_ w); by injection Hr as _ <-.
  - destruct (quit_ w); [by injection Hr as _ <-|]. apply bind_ok_inv in Hr as (w1 & Hi & Hr).
    exact (IH w1 (iterate_preserves _ _ _ _ Hq Hi) Hr).
Qed.

End Preserved.

(** ** What dispatching preserves *)

Section Safety.
Context {P : Type} `{PollerFrame P}.
Implicit Types w : EventLoop P.

(** [c] is alive and in the poller's map. *)
Definition registered w (c : Z) : Prop :=
  exists ch, channels w !! c = Some ch /\ channels_ (poller_ w) !! Channel.fd_ ch = Some c.

(** The loop's thread is dispatching. *)
Definition busy w : Prop := isInLoopThread w = true /\ eventHandling_ w = true.

(** From [w] to [w'] the dispatch state is the same, and the channels that are
    still to be dispatched stay registered. *)
Record keeps w w' : Prop := {
  keeps_threadId : threadId_ w' = threadId_ w;
  keeps_tid : tid w' = tid w;
  keeps_handling : eventHandling_ w' = eventHandling_ w;
  keeps_active : activeChannels_ w' = activeChannels_ w;
  keeps_current : currentActiveChannel_ w' = currentActiveChannel_ w;
  keeps_registered : forall c, c ∈ activeChannels_ w -> currentActiveChannel_ w <> Some c ->
    registered w c -> registered w' c
}.

#[export] Instance keeps_preorder : PreOrder keeps.
Proof.
  split.
  - intros w. by split.
  - intros w1 w2 w3 [A1 A2 A3 A4 A5 A6] [B1 B2 B3 B4 B5 B6]. split; try congruence.
    intros c Hc Hn Hr. apply B6; [by rewrite A4 | by rewrite A5 | by apply A6].
Qed.

Lemma keeps_busy w w' : keeps w w' -> busy w -> busy w'.
Proof.
  intros [A1 A2 A3 _ _ _] [B1 B2]. unfold busy, isInLoopThread in *. rewrite A1, A2, A3. done.
Qed.

(** A change of the channels and the poller alone. *)
Lemma with_chans_keeps p h w :
  (forall c, c ∈ activeChannels_ w -> currentActiveChannel_ w <> Some c ->
     registered w c -> registered (with_chans p h w) c) ->
  keeps w (with_chans p h w).
Proof. by split. Qed.

Lemma renumbered_fd (h h' : heap) c ch : renumbered h h' -> h !! c = Some ch ->
  exists ch', h' !! c = Some ch' /\ Channel.fd_ ch' = Channel.fd_ ch.
Proof.
  intros Hr Hc. destruct (renumbered_lookup _ _ _ _ Hr Hc) as (ch' & Hc' & Hs).
  exists ch'. split; [done|]. by apply strip_fields in Hs as [? _].
Qed.

Lemma put_keeps c ch ch' w :
  channels w !! c = Some ch -> Channel.fd_ ch' = Channel.fd_ ch ->
  keeps w (Channel.put_chan c ch' w).
Proof.
  intros Hc Hf. apply with_chans_keeps. intros d _ _ (chd & Hd & Hr).
  destruct (decide (c = d)) as [->|Hne].
  - exists ch'. cbn. rewrite lookup_insert_eq. split; [done|]. congruence.
  - exists chd. cbn. by rewrite lookup_insert_ne.
Qed.

Lemma modify_keeps c f w w' :
  (forall ch, Channel.fd_ (f ch) = Channel.fd_ ch) ->
  Channel.modify c f w = Ok w' -> keeps w w'.
Proof.
  intros Hf Hm. unfold Channel.modify, Channel.deref in Hm.
  destruct (Channel.chan_of w c) as [ch|] eqn:Hc; [|discriminate].
  injection Hm as <-. by apply put_keeps with ch.
Qed.

Lemma updateChannel_keeps c w w' : updateChannel c w = Ok w' -> keeps w w'.
Proof.
  unfold updateChannel. intros Hu. apply bind_ok_inv in Hu as (ch & _ & Hu).
  apply bind_ok_inv in Hu as (u1 & _ & Hu). apply bind_ok_inv in Hu as (u2 & _ & Hu).
  apply bind_ok_inv in Hu as ([p h] & Hp & Hu). injection Hu as <-.
  apply with_chans_keeps. intros d _ _ (chd & Hd & Hr).
  destruct (renumbered_fd _ _ _ _ (update_renumbers _ _ _ _ _ _ Hp) Hd) as (ch' & Hd' & Hf).
  exists ch'. cbn. split; [done|]. rewrite Hf. by apply (update_keeps_others _ _ _ _ _ _ _ _ Hp).
Qed.

(** The assertion of [removeChannel] protects the channels still to come. *)
Lemma removeChannel_keeps c w w' : busy w -> removeChannel c w = Ok w' -> keeps w w'.
Proof.
  unfold removeChannel. intros [_ Hb] Hu. apply bind_ok_inv in Hu as (ch & _ & Hu).
  apply bind_ok_inv in Hu as (u1 & _ & Hu). apply bind_ok_inv in Hu as (u2 & _ & Hu).
  rewrite Hb in Hu. apply bind_ok_inv in Hu as (u3 & Ha & Hu).
  apply bind_ok_inv in Hu as ([p h] & Hp & Hu). injection Hu as <-.
  apply with_chans_keeps. intros d Hin Hn (chd & Hd & Hr).
  destruct (renumbered_fd _ _ _ _ (remove_renumbers _ _ _ _ _ _ Hp) Hd) as (ch' & Hd' & Hf).
  exists ch'. cbn. split; [done|]. rewrite Hf.
  apply (remove_keeps_others _ _ _ _ _ _ _ _ Hp); [|done]. intros ->.
  apply assert_ok_inv, orb_prop in Ha as [Ha|Ha]; by apply bool_decide_eq_true in Ha.
Qed.

Lemma update_keeps c w w' : Channel.update c w = Ok w' -> keeps w w'.
Proof.
  unfold Channel.update. intros Hu. apply bind_ok_inv in Hu as (w1 & Hm & Hu).
  apply bind_ok_inv in Hu as (ch & _ & Hu). apply modify_keeps in Hm; [|done].
  etrans; [exact Hm | by apply updateChannel_keeps with c].
Qed.

Lemma request_keeps r c w w' : Channel.request_op r c w = Ok w' -> keeps w w'.
Proof.
  assert (forall f, Channel.change_events f c w = Ok w' -> keeps w w') as Hc.
  { intros f Hu. unfold Channel.change_events in Hu. apply bind_ok_inv in Hu as (w1 & Hm & Hu).
    apply modify_keeps in Hm; [|done]. etrans; [exact Hm | by eapply update_keeps]. }
  destruct r; apply Hc.
Qed.

Lemma remove_keeps c w w' : busy w -> Channel.remove c w = Ok w' -> keeps w w'.
Proof.
  unfold Channel.remove. intros Hb Hu. apply bind_ok_inv in Hu as (ch & _ & Hu).
  apply bind_ok_inv in Hu as (u1 & _ & Hu). apply bind_ok_inv in Hu as (w1 & Hm & Hu).
  apply modify_keeps in Hm; [|done]. etrans; [exact Hm|].
  apply removeChannel_keeps with c; [by apply keeps_busy with w|done].
Qed.

(** A channel that is destroyed is not registered. *)
Lemma destroy_keeps c w w' : busy w -> Channel.destroy c w = Ok w' -> keeps w w'.
Proof.
  unfold Channel.destroy. intros [Hb _] Hu. apply bind_ok_inv in Hu as (ch & Hc & Hu).
  apply bind_ok_inv in Hu as (u1 & _ & Hu). apply bind_ok_inv in Hu as (u2 & _ & Hu).
  cbn [Channel.loop_isInLoopThread loop_host] in Hu. rewrite Hb in Hu.
  apply bind_ok_inv in Hu as (u3 & Ha & Hu). injection Hu as <-.
  apply bind_ok_inv in Ha as (has & Hhas & Ha). apply assert_ok_inv in Ha.
  cbn [Channel.loop_hasChannel loop_host] in Hhas. unfold hasChannel, Poller.hasChannel in Hhas.
  apply with_chans_keeps. intros d _ _ (chd & Hd & Hr). cbn in *.
  destruct (decide (c = d)) as [->|Hne].
  - exfalso. rewrite (deref_ok _ _ _ Hd), bind_ok in Hhas.
    apply bind_ok_inv in Hhas as (u4 & _ & Hhas). apply bind_ok_inv in Hhas as (u5 & _ & Hhas).
    apply bind_ok_inv in Hhas as (u6 & _ & Hhas). rewrite bind_ok, Hr, Z.eqb_refl in Hhas.
    by injection Hhas as <-.
  - exists chd. cbn. by rewrite lookup_delete_ne.
Qed.

Lemma destroy_all_keeps cs w w' : busy w -> destroy_all cs w = Ok w' -> keeps w w'.
Proof.
  revert w. induction cs as [|c cs IH]; intros w Hb Hu; cbn in Hu; [by injection Hu as <-|].
  apply bind_ok_inv in Hu as (w1 & Hd & Hu). pose proof (destroy_keeps _ _ _ Hb Hd) as Hk.
  etrans; [exact Hk|]. apply IH; [by apply keeps_busy with w|done].
Qed.

Lemma with_owners_keeps o w : keeps w (with_owners o w).
Proof. by split. Qed.

Lemma with_queue_keeps n fs w : keeps w (with_queue n fs w).
Proof. by split. Qed.

Lemma release_keeps obj w w' : busy w -> release obj w = Ok w' -> keeps w w'.
Proof.
  unfold release. intros Hb Hu. destruct (owners w !! obj) as [[n cs]|]; [|done].
  destruct (n =? 1).
  - etrans; [apply with_owners_keeps | by apply (destroy_all_keeps cs)].
  - injection Hu as <-. apply with_owners_keeps.
Qed.

Lemma queueInLoop_keeps f w : keeps w (queueInLoop f w).
Proof.
  unfold queueInLoop, wakeup. cbv zeta. destruct (_ || _); [|apply with_queue_keeps].
  etrans; apply with_queue_keeps.
Qed.

Lemma newChannel_keeps c fd rcb wcb ccb ecb w w' :
  newChannel c fd rcb wcb ccb ecb w = Ok w' -> keeps w w'.
Proof.
  unfold newChannel. intros Hu. apply bind_ok_inv in Hu as (u & Ha & Hu). injection Hu as <-.
  apply defined_ok_inv, bool_decide_eq_true in Ha.
  apply with_chans_keeps. intros d _ _ (chd & Hd & Hr). exists chd. cbn.
  rewrite lookup_insert_ne by congruence. done.
Qed.

Lemma quit_keeps w : keeps w (quit w).
Proof.
  unfold quit. cbv zeta. destruct (isInLoopThread _); by split.
Qed.

(** ** User code preserves it *)

Lemma exec_keeps_bounded n :
  (forall x w w', (cmd_size x <= n)%nat -> busy w -> exec_cmd x w = Ok w' -> keeps w w') /\
  (forall l w w', (list_sum (map cmd_size l) <= n)%nat -> busy w -> exec l w = Ok w' -> keeps w w').
Proof.
  induction n as [|n [IHx IHl]].
  - split; [intros x w w' Hs; pose proof (cmd_size_pos x); lia|].
    intros [|x l] w w' Hs _ Hu; [by injection Hu as <-|].
    cbn in Hs. pose proof (cmd_size_pos x). lia.
  - assert (forall x w w', (cmd_size x <= S n)%nat -> busy w -> exec_cmd x w = Ok w' -> keeps w w')
      as Hx.
    { intros x w w' Hs Hb Hu. destruct x as [c r|c|c fd r1 w1 c1 e1|c|c obj|obj|f|f| |].
      - by apply request_keeps in Hu.
      - by apply remove_keeps in Hu.
      - by apply newChannel_keeps in Hu.
      - by apply destroy_keeps in Hu.
      - by apply modify_keeps in Hu.
      - by apply release_keeps in Hu.
      - rewrite exec_cmd_run in Hu. cbn in Hs. destruct (isInLoopThread w).
        + apply (IHl f); [lia|done..].
        + injection Hu as <-. apply queueInLoop_keeps.
      - injection Hu as <-. apply queueInLoop_keeps.
      - injection Hu as <-. apply quit_keeps.
      - injection Hu as <-. apply with_queue_keeps. }
    split; [exact Hx|]. intros l. induction l as [|x l IH]; intros w w' Hs Hb Hu.
    + by injection Hu as <-.
    + change (cmd_size x + list_sum (map cmd_size l) <= S n)%nat in Hs.
      pose proof (cmd_size_pos x).
      apply bind_ok_inv in Hu as (w1 & Hu1 & Hu).
      assert (keeps w w1) as Hk by (apply (Hx x); [lia|done..]). etrans; [exact Hk|].
      apply IH; [lia|by apply keeps_busy with w|done].
Qed.

Lemma exec_keeps l w w' : busy w -> exec l w = Ok w' -> keeps w w'.
Proof. apply (exec_keeps_bounded (list_sum (map cmd_size l))). lia. Qed.

(** ** Dispatch *)

Section Dispatch.
Context (code : Z -> option Z -> functor).

Lemma fire_keeps c test cb arg w w' :
  busy w -> Channel.fire (call code) c test cb arg w = Ok w' -> keeps w w'.
Proof.
  unfold Channel.fire. intros Hb Hu. apply bind_ok_inv in Hu as (ch & _ & Hu).
  destruct (test _); [|by injection Hu as <-]. destruct (cb ch); [|by injection Hu as <-].
  by apply exec_keeps in Hu.
Qed.

Lemma guard_keeps c t w w' :
  busy w -> Channel.handleEventWithGuard (call code) c t w = Ok w' -> keeps w w'.
Proof.
  unfold Channel.handleEventWithGuard. intros Hb Hu.
  apply bind_ok_inv in Hu as (w1 & H1 & Hu). apply modify_keeps in H1; [|done].
  pose proof (keeps_busy _ _ H1 Hb) as Hb1.
  apply bind_ok_inv in Hu as (w2 & H2 & Hu). apply fire_keeps in H2; [|done].
  pose proof (keeps_busy _ _ H2 Hb1) as Hb2.
  apply bind_ok_inv in Hu as (w3 & H3 & Hu). apply fire_keeps in H3; [|done].
  pose proof (keeps_busy _ _ H3 Hb2) as Hb3.
  apply bind_ok_inv in Hu as (w4 & H4 & Hu). apply fire_keeps in H4; [|done].
  pose proof (keeps_busy _ _ H4 Hb3) as Hb4.
  apply bind_ok_inv in Hu as (w5 & H5 & Hu). apply fire_keeps in H5; [|done].
  apply modify_keeps in Hu; [|done].
  by rewrite H1, H2, H3, H4, H5.
Qed.

Lemma handleEvent_keeps c w w' : busy w -> handleEvent code c w = Ok w' -> keeps w w'.
Proof.
  unfold handleEvent, Channel.handleEvent. intros Hb Hu.
  apply bind_ok_inv in Hu as (ch & _ & Hu).
  destruct (Channel.tied_ ch); [|by apply guard_keeps in Hu].
  destruct (Channel.tie_ ch) as [obj|]; [|by injection Hu as <-].
  unfold lock in Hu. destruct (owners w !! obj) as [[n cs]|]; [|by injection Hu as <-].
  cbn [mbind option_bind] in Hu. apply bind_ok_inv in Hu as (w1 & H1 & Hu).
  pose proof (with_owners_keeps (<[obj := (n + 1, cs)]> (owners w)) w) as H0'.
  apply guard_keeps in H1; [|done]. rewrite H0', H1.
  apply (release_keeps obj); [|done]. by apply (keeps_busy _ _ H1).
Qed.

(** Is [c] alive and registered? *)
Definition registered_b w (c : Z) : bool :=
  match channels w !! c with
  | Some ch => bool_decide (channels_ (poller_ w) !! Channel.fd_ ch = Some c)
  | None => false
  end.

Lemma registered_b_iff w c : registered_b w c = true <-> registered w c.
Proof.
  unfold registered_b, registered. destruct (channels w !! c) as [ch|].
  - rewrite bool_decide_eq_true. split; [eauto|]. by intros (ch' & [= <-] & Hr).
  - split; [done|]. by intros (ch' & ? & _).
Qed.

(** Dispatch that stops at a channel that is gone or not registered. *)
Definition handleEvent_checked (c : Z) w : result (EventLoop P) :=
  _ ← defined_ (registered_b w c); handleEvent code c w.

(** The channels still to come are registered, so the check always passes. *)
Lemma dispatch_checked l w :
  isInLoopThread w = true -> NoDup l -> (forall c, c ∈ l -> c ∈ activeChannels_ w) ->
  (forall c, c ∈ l -> registered w c) ->
  dispatch_active (handleEvent code) l w = dispatch_active handleEvent_checked l w.
Proof.
  revert w. induction l as [|c l IH]; intros w Hb Hnd Hin Hreg; [done|].
  cbn [dispatch_active]. set (w1 := with_current true (Some c) w).
  assert (registered w1 c) as Hr1 by (apply Hreg, list_elem_of_here).
  assert (busy w1) as Hb1 by done.
  assert (handleEvent_checked c w1 = handleEvent code c w1) as ->.
  { unfold handleEvent_checked. by rewrite (proj2 (registered_b_iff w1 c) Hr1). }
  apply bind_ext. intros w2 Hw2. apply NoDup_cons in Hnd as [Hc Hnd].
  pose proof (handleEvent_keeps _ _ _ Hb1 Hw2) as Hk. pose proof (keeps_busy _ _ Hk Hb1) as [Hb2 _].
  apply IH; [done|done| |].
  - intros d Hd. rewrite (keeps_active _ _ Hk). apply Hin. by apply list_elem_of_further.
  - intros d Hd. apply (keeps_registered _ _ Hk).
    + apply Hin. by apply list_elem_of_further.
    + cbn. congruence.
    + apply (Hreg d). by apply list_elem_of_further.
Qed.

End Dispatch.
End Safety.

(** The loop is a world in which channels, connections and connectors live. *)
#[global] Instance loop_host_laws {P} `{PollerFrame P} : Channel.HostLaws (EventLoop P).
Proof.
  split.
  - intros c ch w. apply lookup_insert_eq.
  - intros c d ch w Hne. by apply lookup_insert_ne.
  - intros c d w Hne. by apply lookup_delete_ne.
  - intros l c w w' Hu. cbn [Channel.loop_updateChannel loop_host] in Hu. unfold updateChannel in Hu.
    apply bind_ok_inv in Hu as (ch & _ & Hu). apply bind_ok_inv in Hu as (u1 & _ & Hu).
    apply bind_ok_inv in Hu as (u2 & _ & Hu). apply bind_ok_inv in Hu as ([p h] & Hp & Hu).
    injection Hu as <-. exact (update_renumbers _ _ _ _ _ _ Hp).
  - intros l c w w' Hu. cbn [Channel.loop_removeChannel loop_host] in Hu. unfold removeChannel in Hu.
    apply bind_ok_inv in Hu as (ch & _ & Hu). apply bind_ok_inv in Hu as (u1 & _ & Hu).
    apply bind_ok_inv in Hu as (u2 & _ & Hu). apply bind_ok_inv in Hu as (u3 & _ & Hu).
    apply bind_ok_inv in Hu as ([p h] & Hp & Hu). injection Hu as <-. exact (remove_renumbers _ _ _ _ _ _ Hp).
Qed.

(** ** Properties *)

(** [C16] No event reaches a channel that is gone.  Whatever the callbacks do,
    one round of the loop is the same as the round that, before each dispatch,
    checks that the channel is alive and still registered: a channel that is
    removed or destroyed by an earlier callback of the round would already have
    failed the assertion of [removeChannel] or of [~Channel]. *)
Theorem dispatch_only_registered {P} `{PollerFrame P} code a now (w : EventLoop P) active p h :
  isInLoopThread w = true -> Poller.poll a (poller_ w) (channels w) = Ok (active, p, h) ->
  NoDup active -> (forall c, c ∈ active -> registered (with_poll p h active now w) c) ->
  iterate code a now w = iterate_with (handleEvent_checked code) a now w.
Proof.
  intros Hb Hp Hnd Hreg. unfold iterate, iterate_with. rewrite Hp, !bind_ok. cbv zeta.
  erewrite dispatch_checked; [done|done|done|by intros c Hc|by intros c Hc; apply Hreg].
Qed.

(** ** A concrete round *)

(** A loop with one readable channel, whose read callback unregisters it. *)
Definition sample_code (f : Z) (arg : option Z) : functor :=
  if f =? 1 then [Interest 10 Channel.DisableAll; RemoveChannel 10; QueueInLoop [Quit]] else [].

Definition sample_channel : Channel.Channel :=
  Channel.setReadCallback (Some 1)
    (Channel.set_index 16 (Channel.set_events 3 (Channel.new 0 5))).

Definition sample_loop : EventLoop PollPoller.PollPoller :=
  mkLoop 0 100 100 true false false false 0 0 PollPoller.one_poller
    {[ 10 := sample_channel ]} ∅ 0 [] None [].

Definition sample_answer : Answer PollPoller.PollPoller := PollPoller.one_answer.

Lemma dispatch_only_registered_witness :
  let w := sample_loop in
  iterate sample_code sample_answer 77 w =
    iterate_with (handleEvent_checked sample_code) sample_answer 77 w /\
  exists w', iterate sample_code sample_answer 77 w = Ok w' /\ quit_ w' = true /\
    registered_b w' 10 = false.
Proof.
  intros w. split.
  - eapply (dispatch_only_registered sample_code sample_answer 77 w [10]).
    + reflexivity.
    + vm_compute. reflexivity.
    + apply NoDup_singleton.
    + intros c Hc. apply list_elem_of_singleton in Hc as ->. apply registered_b_iff.
      vm_compute. reflexivity.
  - eexists. split; [vm_compute; reflexivity|]. split; vm_compute; reflexivity.
Defined.

End EventLoop.
