(* ===== verification/LoopLife.v ===== *)
(** * The life of an [EventLoop]: EventLoop.cc, DefaultPoller.cc, TimerQueue.cc

    The constructor and the destructor, with the two channels a loop owns (the
    timer queue's and its own), the pointer to the thread's loop, and the choice
    of the poller. *)

From S2P Require Import Prelude Channel Poller PollPoller EPollPoller EventLoop.
Import Poller.

Module LoopLife.
Import EventLoop.

(** What the constructor gets: its address and thread, the addresses of the two
    channels and the names of their callbacks, the descriptors that
    timerfd_create(2) and eventfd(2) returned, and [t_loopInThisThread]. *)
Record setup := mkSetup {
  this : Z;
  thread : Z;
  timer_chan : Z;
  wakeup_chan : Z;
  timer_read : Z;
  wakeup_read : Z;
  timerfd : Z;
  eventfd : Z;
  t_loopInThisThread : option Z
}.

Section Life.
Context {P : Type} `{Poller P}.
Implicit Types w : EventLoop P.

(** A call that ends the process when it gave no descriptor. *)
Definition createTimerfd (fd : Z) : result Z := if fd <? 0 then Err Aborted else Ok fd.
Definition createEventfd (fd : Z) : result Z := if fd <? 0 then Err Aborted else Ok fd.

(** [TimerQueue::TimerQueue], as far as the loop is concerned. *)
Definition timerQueue_new (s : setup) (w : EventLoop P) : result (EventLoop P) :=
  fd ← createTimerfd (timerfd s);
  w ← newChannel (timer_chan s) fd None None None None w;
  w ← Channel.modify (timer_chan s) (Channel.setReadCallback (Some (timer_read s))) w;
  Channel.enableReading (timer_chan s) w.

(** [EventLoop::EventLoop], in a program with the channels [h] and the shared
    objects [os]. *)
Definition construct (s : setup) (poller : P) (h : heap) (os : gmap Z (Z * list Z))
  : result (EventLoop P * option Z) :=
  let w := mkLoop (this s) (thread s) (thread s) false false false false 0 0 poller h os 0 [] None [] in
  w ← timerQueue_new s w;
  fd ← createEventfd (eventfd s);
  w ← newChannel (wakeup_chan s) fd None None None None w;
  match t_loopInThisThread s with
  | Some _ => Err Aborted
  | None =>
      w ← Channel.modify (wakeup_chan s) (Channel.setReadCallback (Some (wakeup_read s))) w;
      w ← Channel.enableReading (wakeup_chan s) w;
      Ok (w, Some (this s))
  end.

(** [disableAll(); remove();] *)
Definition retire (c : Z) (w : EventLoop P) : result (EventLoop P) :=
  w ← Channel.disableAll c w; Channel.remove c w.

(** [TimerQueue::~TimerQueue] and the end of its channel. *)
Definition timerQueue_destroy (s : setup) (w : EventLoop P) : result (EventLoop P) :=
  w ← retire (timer_chan s) w; Channel.destroy (timer_chan s) w.

(** [EventLoop::~EventLoop]; the members go in the reverse order of their
    declaration. *)
Definition destroy (s : setup) (w : EventLoop P) : result (EventLoop P * option Z) :=
  w ← retire (wakeup_chan s) w;
  let t := None in
  w ← Channel.destroy (wakeup_chan s) w;
  w ← timerQueue_destroy s w;
  Ok (w, t).

(** A loop is constructed, runs until [loop] returns, and is destroyed; [None]
    when it stays in the last poll. *)
Definition life (code : Z -> option Z -> functor) (answers : list (Answer P * Z)) (s : setup)
    (poller : P) (h : heap) (os : gmap Z (Z * list Z)) : result (option (EventLoop P)) :=
  '(w, _) ← construct s poller h os;
  '(rest, w) ← loop code answers w;
  match rest with
  | None => Ok None
  | Some _ => '(w, _) ← destroy s w; Ok (Some w)
  end.
End Life.

(** ** [Poller::newDefaultPoller] *)

(** A poller of some class, as a pointer to the base class sees it. *)
Record AnyPoller := mkAny { poller_class : Type; poller_ops : Poller poller_class; poller_self : poller_class }.

(** [use_poll]: [DWS_USE_POLL] is set; [fresh]: what epoll_create1(2) returned. *)
Definition newDefaultPoller {K} (epoll_ctl : K -> EPollPoller.operation -> Z -> Z -> Z -> K * bool)
    (use_poll : bool) (fresh : option K) : result AnyPoller :=
  if use_poll then Ok (mkAny PollPoller.PollPoller PollPoller.poll_poller PollPoller.new)
  else p ← EPollPoller.new fresh; Ok (mkAny _ (EPollPoller.epoll_poller epoll_ctl) p).

(** ** With a poller that keeps its promises *)

Section Laws.
Context {P : Type} `{PollerLaws P}.
Implicit Types w : EventLoop P.

(** A heap that agrees on the registered channels. *)
Lemma inv_put p h c ch ch' : inv p h -> h !! c = Some ch ->
  Channel.fd_ ch' = Channel.fd_ ch -> Channel.index_ ch' = Channel.index_ ch -> inv p (<[c := ch']> h).
Proof.
  intros Hi Hc Hf Hx. apply (inv_renamed p h); [done|]. intros d chd Hd _.
  destruct (decide (c = d)) as [<-|Hne].
  - exists ch'. rewrite lookup_insert_eq. split; [done|]. by simplify_eq.
  - exists chd. by rewrite lookup_insert_ne.
Qed.

Lemma inv_unregistered p h h' c : inv p h -> (forall fd, channels_ p !! fd <> Some c) ->
  (forall d, d <> c -> h' !! d = h !! d) -> inv p h'.
Proof.
  intros Hi Hc Hh. apply (inv_renamed p h); [done|]. intros d ch Hd Hr. exists ch.
  rewrite Hh; [done|]. intros ->. by apply Hc in Hr.
Qed.

(** A registered channel is recorded for its own descriptor alone. *)
Lemma registered_own p h fd c ch : inv p h -> channels_ p !! fd = Some c -> h !! c = Some ch ->
  Channel.fd_ ch = fd.
Proof.
  intros Hi Hr Hc. destruct (registered_channel p h fd c Hi Hr) as (ch' & Hc' & Hf & _). by simplify_eq.
Qed.

(** The loop's thread runs outside of a dispatch, and the poller is in order. *)
Record idle w : Prop := {
  idle_thread : isInLoopThread w = true;
  idle_handling : eventHandling_ w = false;
  idle_inv : inv (poller_ w) (channels w)
}.

(** ** Registering a new channel *)

Definition reading_channel (l fd cb idx : Z) : Channel.Channel :=
  Channel.set_index idx (Channel.set_addedToLoop true (Channel.set_events Channel.kReadEvent
    (Channel.setReadCallback (Some cb) (Channel.new l fd)))).


Lemma deref_put c ch w : Channel.deref (Channel.put_chan c ch w) c = Ok ch.
Proof. unfold Channel.deref. cbn. by rewrite lookup_insert_eq. Qed.

Lemma put_put c ch ch' w :
  Channel.put_chan c ch' (Channel.put_chan c ch w) = Channel.put_chan c ch' w.
Proof. unfold Channel.put_chan, loop_host, with_chans; cbn. by rewrite insert_insert_eq. Qed.

Lemma modify_put c f ch w :
  Channel.modify c f (Channel.put_chan c ch w) = Ok (Channel.put_chan c (f ch) w).
Proof. unfold Channel.modify. by rewrite deref_put, bind_ok, put_put. Qed.

(** A change of interest, on a channel that was just written. *)
Lemma change_put c f ch w :
  Channel.change_events f c (Channel.put_chan c ch w) =
    Channel.loop_updateChannel (Channel.loop_ ch) c
      (Channel.put_chan c (Channel.set_addedToLoop true (Channel.set_events (f (Channel.events_ ch)) ch)) w).
Proof.
  unfold Channel.change_events, Channel.update. rewrite modify_put, bind_ok, modify_put, bind_ok.
  by rewrite deref_put, bind_ok.
Qed.

(** The checks of the loop, passed on. *)
Lemma loop_update_put l c ch w : isInLoopThread w = true -> Channel.loop_ ch = this_ w ->
  Channel.loop_updateChannel l c (Channel.put_chan c ch w) =
    ('(p, h) ← Poller.updateChannel true c (poller_ w) (<[c := ch]> (channels w)); Ok (with_chans p h w)).
Proof.
  intros Ht Hl. cbn [Channel.loop_updateChannel loop_host]. unfold updateChannel.
  cbn [channels Channel.put_chan loop_host with_chans]. rewrite (deref_ok _ c ch), bind_ok by apply lookup_insert_eq.
  rewrite Hl, Z.eqb_refl. unfold assertInLoopThread.
  change (isInLoopThread (with_chans (poller_ w) (<[c := ch]> (channels w)) w)) with (isInLoopThread w).
  by rewrite Ht.
Qed.

(** The first change of interest registers the channel. *)
Lemma register_run f c ch w :
  idle w -> load (poller_ w) < 2 ^ 31 - 1 -> channels w !! c = Some ch -> Channel.loop_ ch = this_ w ->
  Channel.index_ ch = -1 -> 0 <= Channel.fd_ ch -> channels_ (poller_ w) !! Channel.fd_ ch = None ->
  let ch' := Channel.set_addedToLoop true (Channel.set_events (f (Channel.events_ ch)) ch) in
  exists p' idx, let h' := <[c := Channel.set_index idx ch']> (channels w) in
    Channel.change_events f c w = Ok (with_chans p' h' w) /\ idle (with_chans p' h' w) /\
    channels_ p' = <[Channel.fd_ ch := c]> (channels_ (poller_ w)) /\ load p' = load (poller_ w) + 1 /\
    interest p' = <[Channel.fd_ ch := Some (wraps 16 (f (Channel.events_ ch)))]> (interest (poller_ w)).
Proof.
  intros [Ht Hh Hi] Hroom Hc Hl Hx Hfd Hfree ch'.
  assert (inv (poller_ w) (<[c := ch']> (channels w))) as Hi0 by by apply (inv_put _ _ _ ch).
  destruct (add_channel (poller_ w) _ c ch' Hi0 Hroom) as (p' & idx & Hu & Hi' & Hch & Hint & Hload);
    [by apply lookup_insert_eq|done..|].
  exists p', idx. cbv zeta. rewrite insert_insert_eq in Hi'. split; [|by split].
  transitivity (Channel.change_events f c (Channel.put_chan c ch w)).
  - unfold Channel.put_chan, loop_host, with_chans. rewrite insert_id by done. by destruct w.
  - rewrite change_put, loop_update_put by done. fold ch'. rewrite Hu, bind_ok.
    do 2 f_equal. by rewrite insert_insert_eq.
Qed.

Lemma new_channel_run c fd cb w :
  idle w -> load (poller_ w) < 2 ^ 31 - 1 -> channels w !! c = None -> 0 <= fd ->
  channels_ (poller_ w) !! fd = None ->
  exists p' idx, let h' := <[c := reading_channel (this_ w) fd cb idx]> (channels w) in
    (w ← newChannel c fd None None None None w;
     w ← Channel.modify c (Channel.setReadCallback (Some cb)) w; Channel.enableReading c w) =
      Ok (with_chans p' h' w) /\ idle (with_chans p' h' w) /\
    channels_ p' = <[fd := c]> (channels_ (poller_ w)) /\ load p' = load (poller_ w) + 1 /\
    interest p' = <[fd := Some Channel.kReadEvent]> (interest (poller_ w)).
Proof.
  intros [Ht Hh Hi] Hroom Hc Hfd Hfree.
  set (ch0 := Channel.setReadCallback (Some cb) (Channel.new (this_ w) fd)).
  set (w0 := Channel.put_chan c ch0 w).
  assert (idle w0) as Hid0.
  { split; [done..|]. apply (inv_unregistered _ (channels w) _ c); [done| |].
    - intros fd' Hr. destruct (registered_channel _ _ _ _ Hi Hr) as (ch & Hch & _). congruence.
    - intros d Hd. by apply lookup_insert_ne. }
  destruct (register_run (fun ev => Z.lor ev Channel.kReadEvent) c ch0 w0 Hid0 Hroom) as
    (p' & idx & E & Hid' & Hch & Hload & Hint); [apply lookup_insert_eq|done..|].
  exists p', idx. cbv zeta. cbn [w0 channels Channel.put_chan loop_host with_chans] in *.
  rewrite insert_insert_eq in *. split_and!; [|done..].
  unfold newChannel, defined_. rewrite bool_decide_eq_true_2, !bind_ok, modify_put, bind_ok by done. exact E.
Qed.

(** ** Taking a channel off *)

(** [c] is alive with descriptor [fd], recorded by the poller, and not in a handler. *)
Record attached w (c fd : Z) : Prop := {
  attached_recorded : channels_ (poller_ w) !! fd = Some c;
  attached_chan : exists ch, channels w !! c = Some ch /\ Channel.loop_ ch = this_ w /\
    Channel.fd_ ch = fd /\ Channel.eventHandling_ ch = false
}.

(** What retiring and destroying the channel [c] of [fd] leaves. *)
Record detached w (c fd : Z) w' : Prop := {
  detached_this : this_ w' = this_ w;
  detached_idle : idle w';
  detached_channels : channels_ (poller_ w') = delete fd (channels_ (poller_ w));
  detached_interest : interest (poller_ w') = delete fd (interest (poller_ w));
  detached_gone : channels w' !! c = None;
  detached_others : forall d, d <> c -> Channel.strip <$> channels w' !! d = Channel.strip <$> channels w !! d
}.

Lemma put_same w c ch : channels w !! c = Some ch -> Channel.put_chan c ch w = w.
Proof.
  intros Hc. unfold Channel.put_chan, loop_host, with_chans. rewrite insert_id by done. by destruct w.
Qed.

(** Any change of interest of a registered channel. *)
Lemma change_run f w c ch :
  idle w -> channels w !! c = Some ch -> Channel.loop_ ch = this_ w ->
  channels_ (poller_ w) !! Channel.fd_ ch = Some c ->
  let ch' := Channel.set_addedToLoop true (Channel.set_events (f (Channel.events_ ch)) ch) in
  exists p', let w' := with_chans p' (<[c := ch']> (channels w)) w in
    Channel.change_events f c w = Ok w' /\ idle w' /\ channels_ p' = channels_ (poller_ w) /\
    interest p' = <[Channel.fd_ ch := if Channel.isNoneEvent ch' then None
                                      else Some (wraps 16 (Channel.events_ ch'))]> (interest (poller_ w)) /\
    load p' = load (poller_ w).
Proof.
  intros [Ht Hh Hi] Hc Hl Hr ch'.
  assert (inv (poller_ w) (<[c := ch']> (channels w))) as Hi1 by by apply (inv_put _ _ _ ch).
  destruct (modify_channel (poller_ w) _ c ch' Hi1) as (p' & Hu & Hi1' & Hch1 & Hint1 & Hload);
    [apply lookup_insert_eq|done|].
  exists p'. split_and!; [|by split|done..].
  rewrite <- (put_same w c ch) at 1 by done. rewrite change_put, loop_update_put by done.
  fold ch'. by rewrite Hu.
Qed.

Definition disabled (ch : Channel.Channel) : Channel.Channel :=
  Channel.set_addedToLoop true (Channel.set_events Channel.kNoneEvent ch).

Lemma disableAll_run w c fd ch :
  idle w -> channels_ (poller_ w) !! fd = Some c -> channels w !! c = Some ch ->
  Channel.loop_ ch = this_ w -> Channel.fd_ ch = fd ->
  exists p', let w' := with_chans p' (<[c := disabled ch]> (channels w)) w in
    Channel.disableAll c w = Ok w' /\ idle w' /\ channels_ p' = channels_ (poller_ w) /\
    interest p' = <[fd := None]> (interest (poller_ w)) /\ load p' = load (poller_ w).
Proof. intros Hid Hr Hc Hl <-. exact (change_run (fun _ => Channel.kNoneEvent) w c ch Hid Hc Hl Hr). Qed.

Lemma channel_remove_run w c fd ch :
  idle w -> channels_ (poller_ w) !! fd = Some c -> channels w !! c = Some ch ->
  Channel.loop_ ch = this_ w -> Channel.fd_ ch = fd -> Channel.events_ ch = Channel.kNoneEvent ->
  interest (poller_ w) !! fd = Some None ->
  exists p' h', let w' := with_chans p' h' w in
    Channel.remove c w = Ok w' /\ idle w' /\
    renumbered (<[c := Channel.set_addedToLoop false ch]> (channels w)) h' /\
    channels_ p' = delete fd (channels_ (poller_ w)) /\
    interest p' = delete fd (interest (poller_ w)) /\ load p' = load (poller_ w) - 1.
Proof.
  intros [Ht Hh Hi] Hr Hc Hl Hf He Hn. set (ch2 := Channel.set_addedToLoop false ch).
  assert (inv (poller_ w) (<[c := ch2]> (channels w))) as Hi2 by by apply (inv_put _ _ _ ch).
  assert (Channel.fd_ ch2 = fd) as Hf2 by done.
  destruct (remove_channel (poller_ w) _ c ch2 Hi2) as (p' & h' & Hrem & Hi' & Hren & Hch & Hint & Hload & _).
  { apply lookup_insert_eq. }
  { by rewrite Hf2. }
  { apply Z.eqb_eq. exact He. }
  { by rewrite Hf2. }
  rewrite Hf2 in Hch, Hint. exists p', h'. split_and!; [|by split|done..].
  unfold Channel.remove, Channel.deref. cbn [Channel.chan_of loop_host]. rewrite Hc, bind_ok.
  rewrite assert_true, bind_ok by (apply Z.eqb_eq; exact He).
  unfold Channel.modify, Channel.deref. cbn [Channel.chan_of loop_host]. rewrite Hc, !bind_ok.
  cbn [Channel.loop_removeChannel loop_host]. unfold removeChannel, assertInLoopThread.
  cbn [channels Channel.put_chan loop_host with_chans]. fold ch2.
  rewrite (deref_ok _ c ch2), bind_ok by apply lookup_insert_eq.
  rewrite (assert_true (Channel.loop_ ch2 =? this_ _)), bind_ok by (apply Z.eqb_eq; exact Hl).
  change (isInLoopThread (with_chans _ _ w)) with (isInLoopThread w). rewrite Ht, in_loop, bind_ok.
  cbn [eventHandling_ with_chans]. rewrite Hh, bind_ok. cbn [poller_ with_chans]. by rewrite Hrem.
Qed.

Lemma destroy_run w c ch :
  isInLoopThread w = true -> channels w !! c = Some ch -> Channel.loop_ ch = this_ w ->
  Channel.eventHandling_ ch = false -> Channel.addedToLoop_ ch = false ->
  channels_ (poller_ w) !! Channel.fd_ ch = None ->
  Channel.destroy c w = Ok (with_chans (poller_ w) (delete c (channels w)) w).
Proof.
  intros Ht Hc Hl He Ha Hr. unfold Channel.destroy, Channel.deref. cbn [Channel.chan_of loop_host].
  rewrite Hc, bind_ok, He, Ha. cbn [negb assert_ Channel.loop_isInLoopThread loop_host].
  rewrite !bind_ok, Ht. cbn [Channel.loop_hasChannel loop_host]. unfold hasChannel, Poller.hasChannel, assertInLoopThread.
  rewrite !(deref_ok _ _ _ Hc), bind_ok, Hl, Z.eqb_refl, Ht, in_loop, !bind_ok.
  rewrite Hr. done.
Qed.

Lemma retire_destroy w c fd : idle w -> attached w c fd ->
  exists w', (w ← retire c w; Channel.destroy c w) = Ok w' /\ detached w c fd w'.
Proof.
  intros Hid [Hr (ch & Hc & Hl & Hf & He)].
  destruct (disableAll_run w c fd ch Hid Hr Hc Hl Hf) as (p1 & E1 & Hid1 & Hch1 & Hint1 & _).
  set (w1 := with_chans p1 _ w) in *.
  destruct (channel_remove_run w1 c fd (disabled ch) Hid1) as (p2 & h2 & E2 & Hid2 & Hren & Hch2 & Hint2 & _).
  { cbn. by rewrite Hch1. } { apply lookup_insert_eq. } { done. } { done. } { done. }
  { cbn. by rewrite Hint1, lookup_insert_eq. }
  set (w2 := with_chans p2 h2 w1) in *. cbn [w1 poller_ with_chans] in Hch2, Hint2.
  destruct (renumbered_lookup _ _ c _ Hren (lookup_insert_eq _ _ _)) as (ch3 & Hc3 & Hs3).
  assert (Channel.fd_ ch3 = fd) as Hf3 by by rewrite <- Hf; apply (f_equal Channel.fd_ Hs3).
  unfold retire. rewrite E1, bind_ok, E2, bind_ok, (destroy_run w2 c ch3); cycle 1.
  { apply Hid2. } { done. } { exact (eq_trans (f_equal Channel.loop_ Hs3) Hl). }
  { exact (eq_trans (f_equal Channel.eventHandling_ Hs3) He). }
  { exact (f_equal Channel.addedToLoop_ Hs3). }
  { cbn. by rewrite Hch2, Hch1, Hf3, lookup_delete_eq. }
  eexists. split; [done|]. destruct Hid2 as [Ht Hh Hi2]. split; cbn.
  - done.
  - split; [done..|]. apply (inv_unregistered p2 h2 _ c); [done| |].
    + intros fd' Hfd'. pose proof (registered_own p2 h2 fd' c ch3 Hi2 Hfd' Hc3) as Hx.
      rewrite Hf3 in Hx. subst fd'. by rewrite Hch2, lookup_delete_eq in Hfd'.
    + intros d Hd. by apply lookup_delete_ne.
  - by rewrite Hch2, Hch1.
  - by rewrite Hint2, Hint1, delete_insert_eq.
  - apply lookup_delete_eq.
  - intros d Hd. rewrite lookup_delete_ne by done. rewrite (Hren d), lookup_insert_ne by done.
    cbn. by rewrite lookup_insert_ne.
Qed.

(** The channels of the loop, ready for its destructor. *)
Record destroyable (s : setup) w : Prop := {
  ready_idle : idle w;
  ready_timer : attached w (timer_chan s) (timerfd s);
  ready_wakeup : attached w (wakeup_chan s) (eventfd s);
  ready_fds : timerfd s <> eventfd s;
  ready_chans : timer_chan s <> wakeup_chan s
}.

Lemma destructor_run s w : destroyable s w ->
  exists w', destroy s w = Ok (w', None) /\ idle w' /\
    channels_ (poller_ w') = delete (timerfd s) (delete (eventfd s) (channels_ (poller_ w))) /\
    interest (poller_ w') = delete (timerfd s) (delete (eventfd s) (interest (poller_ w))) /\
    channels w' !! timer_chan s = None /\ channels w' !! wakeup_chan s = None /\
    forall d, d <> timer_chan s -> d <> wakeup_chan s ->
      Channel.strip <$> channels w' !! d = Channel.strip <$> channels w !! d.
Proof.
  intros [Hid Htm Hwk Hfds Hcs].
  destruct (retire_destroy w _ _ Hid Hwk) as (w1 & E1 & [Hthis Hid1 Hch1 Hint1 Hg1 Ho1]).
  assert (attached w1 (timer_chan s) (timerfd s)) as Htm1.
  { destruct Htm as [Hr (ch & Hc & Hl & Hf & He)]. split.
    - rewrite Hch1, lookup_delete_ne by done. done.
    - specialize (Ho1 _ Hcs). rewrite Hc in Ho1.
      destruct (channels w1 !! timer_chan s) as [ch1|] eqn:Hc1; [|discriminate].
      apply (inj Some) in Ho1. exists ch1. split_and!; [done| | |].
      + rewrite Hthis, <- Hl. exact (f_equal Channel.loop_ Ho1).
      + exact (eq_trans (f_equal Channel.fd_ Ho1) Hf).
      + exact (eq_trans (f_equal Channel.eventHandling_ Ho1) He). }
  destruct (retire_destroy w1 _ _ Hid1 Htm1) as (w2 & E2 & [_ Hid2 Hch2 Hint2 Hg2 Ho2]).
  exists w2. split_and!; [|done|by rewrite Hch2, Hch1|by rewrite Hint2, Hint1|done| |].
  - unfold destroy, timerQueue_destroy. apply bind_ok_inv in E1 as (wa & Ea & Eb).
    by rewrite Ea, bind_ok, Eb, bind_ok, E2.
  - assert (Channel.strip <$> channels w2 !! wakeup_chan s = None) as Hx by by rewrite (Ho2 _ (not_eq_sym Hcs)), Hg1.
    by destruct (channels w2 !! wakeup_chan s).
  - intros d H1 H2. by rewrite (Ho2 d H1), (Ho1 d H2).
Qed.

(** What the constructor finds: its addresses and descriptors are new. *)
Record startable (s : setup) (p : P) (h : heap) : Prop := {
  start_inv : inv p h;
  start_load : load p < 2 ^ 31 - 2;
  start_timer : h !! timer_chan s = None /\ 0 <= timerfd s /\ channels_ p !! timerfd s = None;
  start_wakeup : h !! wakeup_chan s = None /\ 0 <= eventfd s /\ channels_ p !! eventfd s = None;
  start_chans : timer_chan s <> wakeup_chan s;
  start_fds : timerfd s <> eventfd s
}.

(** The state before [t_loopInThisThread] is looked at. *)
Lemma constructor_run s p h os : startable s p h ->
  (forall l, t_loopInThisThread s = Some l -> construct s p h os = Err Aborted) /\
  (t_loopInThisThread s = None -> exists w, construct s p h os = Ok (w, Some (this s)) /\
     destroyable s w /\
     channels_ (poller_ w) = <[eventfd s := wakeup_chan s]> (<[timerfd s := timer_chan s]> (channels_ p)) /\
     interest (poller_ w) = <[eventfd s := Some Channel.kReadEvent]>
                              (<[timerfd s := Some Channel.kReadEvent]> (interest p)) /\
     (forall d, d <> timer_chan s -> d <> wakeup_chan s -> channels w !! d = h !! d) /\
     exists i j, channels w !! timer_chan s = Some (reading_channel (this s) (timerfd s) (timer_read s) i) /\
       channels w !! wakeup_chan s = Some (reading_channel (this s) (eventfd s) (wakeup_read s) j)).
Proof.
  intros [Hi Hload (Ht1 & Ht2 & Ht3) (Hw1 & Hw2 & Hw3) Hcs Hfs]. unfold construct, timerQueue_new.
  set (w0 := mkLoop _ _ _ _ _ _ _ _ _ _ _ _ _ _ _ _).
  assert (idle w0) as Hid0 by (split; [apply Z.eqb_refl|done..]).
  destruct (new_channel_run (timer_chan s) (timerfd s) (timer_read s) w0 Hid0) as (p1 & i1 & E1 & Hid1 & Hch1 & Hl1 & Hint1);
    [cbn; lia|done..|]. set (w1 := with_chans p1 _ w0) in *.
  destruct (new_channel_run (wakeup_chan s) (eventfd s) (wakeup_read s) w1 Hid1) as (p2 & i2 & E2 & Hid2 & Hch2 & _ & Hint2);
    [cbn in *; lia|cbn; by rewrite lookup_insert_ne|done|cbn; rewrite Hch1; by rewrite lookup_insert_ne|].
  set (w2 := with_chans p2 _ w1) in *.
  apply bind_ok_inv in E2 as (w1' & Ea & Eb). apply bind_ok_inv in Eb as (w1'' & Eb & Ec).
  unfold createTimerfd, createEventfd. rewrite !(proj2 (Z.ltb_ge _ 0)) by done.
  rewrite !bind_ok, E1, !bind_ok, Ea, !bind_ok. split; [by intros l ->|]. intros ->.
  rewrite Eb, bind_ok, Ec, bind_ok. exists w2. split_and!; [done| | | | |].
  - split; [done| | |done|done]; (split; [cbn; rewrite Hch2; cbn; rewrite ?Hch1|]).
    + by rewrite lookup_insert_ne, lookup_insert_eq.
    + exists (reading_channel (this s) (timerfd s) (timer_read s) i1). split; [|done]. cbn.
      by rewrite lookup_insert_ne, lookup_insert_eq.
    + by rewrite lookup_insert_eq.
    + exists (reading_channel (this s) (eventfd s) (wakeup_read s) i2). split; [|done]. apply lookup_insert_eq.
  - cbn. rewrite Hch2. cbn. by rewrite Hch1.
  - cbn. rewrite Hint2. cbn. by rewrite Hint1.
  - intros d H1 H2. cbn. by rewrite !lookup_insert_ne.
  - exists i1, i2. split; [|apply lookup_insert_eq]. cbn. by rewrite lookup_insert_ne, lookup_insert_eq.
Qed.

End Laws.

(** ** With the poller on epoll *)

Section EPoll.
Context {K : Type} (epoll_ctl : K -> EPollPoller.operation -> Z -> Z -> Z -> K * bool).
Let P : Type := EPollPoller.EPollPoller (K:=K).
#[local] Instance epoll_ops : Poller P := EPollPoller.epoll_poller epoll_ctl.
Implicit Types w : EventLoop P.

(** No channel has another index than a new one's. *)
Definition unadded w : Prop := EPollPoller.stuck (poller_ w) (channels w).

Lemma unadded_put c ch w : unadded w -> Channel.index_ ch = EPollPoller.kNew ->
  unadded (Channel.put_chan c ch w).
Proof.
  intros Hu Hx d chd Hd. cbn in Hd. apply lookup_insert_Some in Hd as [[_ <-]|[_ Hd]]; [done|].
  by apply (Hu d).
Qed.

Lemma unadded_modify c f w w' : unadded w ->
  (forall ch, Channel.index_ (f ch) = Channel.index_ ch) -> Channel.modify c f w = Ok w' -> unadded w'.
Proof.
  intros Hu Hf Hm. unfold Channel.modify, Channel.deref in Hm.
  destruct (Channel.chan_of w c) as [ch|] eqn:Hc; [|discriminate]. injection Hm as <-.
  apply unadded_put; [done|]. rewrite Hf. by apply (Hu c).
Qed.

Lemma unadded_update c w w' : unadded w -> updateChannel c w = Ok w' -> unadded w'.
Proof.
  intros Hu Hr. unfold updateChannel in Hr. apply bind_ok_inv in Hr as (ch & _ & Hr).
  apply bind_ok_inv in Hr as (u1 & _ & Hr). apply bind_ok_inv in Hr as (u2 & _ & Hr).
  apply bind_ok_inv in Hr as ([p h] & Hp & Hr). injection Hr as <-.
  by destruct (EPollPoller.stuck_update _ _ _ _ _ _ _ Hu Hp) as (_ & _ & _ & _ & Hs & _).
Qed.

(** A removal does not succeed. *)
Lemma unadded_remove c w w' : unadded w -> Channel.remove c w <> Ok w'.
Proof.
  intros Hu Hr. unfold Channel.remove in Hr. apply bind_ok_inv in Hr as (ch & _ & Hr).
  apply bind_ok_inv in Hr as (u1 & _ & Hr). apply bind_ok_inv in Hr as (w1 & Hm & Hr).
  apply unadded_modify in Hm; [|done..]. cbn [Channel.loop_removeChannel loop_host] in Hr.
  unfold removeChannel in Hr. apply bind_ok_inv in Hr as (ch' & _ & Hr).
  apply bind_ok_inv in Hr as (u2 & _ & Hr). apply bind_ok_inv in Hr as (u3 & _ & Hr).
  apply bind_ok_inv in Hr as (u4 & _ & Hr). apply bind_ok_inv in Hr as (x & Hx & _).
  destruct (EPollPoller.stuck_remove epoll_ctl (isInLoopThread w1) c (poller_ w1) (channels w1) Hm) as [f Hf].
  assert (EPollPoller.removeChannel epoll_ctl (isInLoopThread w1) c (poller_ w1) (channels w1) = Ok x) by exact Hx.
  congruence.
Qed.

Lemma unadded_change f c w w' : unadded w -> Channel.change_events f c w = Ok w' -> unadded w'.
Proof.
  intros Hu Hr. unfold Channel.change_events, Channel.update in Hr. apply bind_ok_inv in Hr as (w1 & Hm & Hr).
  apply bind_ok_inv in Hr as (w2 & Hm2 & Hr). apply bind_ok_inv in Hr as (ch & _ & Hr).
  apply unadded_modify in Hm; [|done..]. apply unadded_modify in Hm2; [|done..].
  by apply unadded_update in Hr.
Qed.

Lemma unadded_destroy c w w' : unadded w -> Channel.destroy c w = Ok w' -> unadded w'.
Proof.
  intros Hu Hr. unfold Channel.destroy in Hr. apply bind_ok_inv in Hr as (ch & _ & Hr).
  apply bind_ok_inv in Hr as (u1 & _ & Hr). apply bind_ok_inv in Hr as (u2 & _ & Hr).
  apply bind_ok_inv in Hr as (u3 & _ & Hr). injection Hr as <-.
  intros d chd Hd. cbn in Hd. apply lookup_delete_Some in Hd as [_ Hd]. by apply (Hu d).
Qed.

Lemma unadded_destroy_all cs w w' : unadded w -> destroy_all cs w = Ok w' -> unadded w'.
Proof.
  revert w. induction cs as [|c cs IH]; intros w Hu Hr; cbn in Hr; [by injection Hr as <-|].
  apply bind_ok_inv in Hr as (w1 & Hd & Hr). apply (IH w1); [|done]. by apply unadded_destroy in Hd.
Qed.

Lemma unadded_release obj w w' : unadded w -> release obj w = Ok w' -> unadded w'.
Proof.
  intros Hu Hr. unfold release in Hr. destruct (owners w !! obj) as [[n cs]|]; [|done].
  destruct (n =? 1); [by apply unadded_destroy_all in Hr|by injection Hr as <-].
Qed.

Lemma unadded_queue f w : unadded w -> unadded (queueInLoop f w).
Proof. unfold queueInLoop. cbv zeta. by destruct (_ || _). Qed.

Lemma unadded_quit w : unadded w -> unadded (quit w).
Proof. unfold quit. cbv zeta. by destruct (isInLoopThread _). Qed.

Lemma unadded_newChannel c fd rcb wcb ccb ecb w w' : unadded w ->
  newChannel c fd rcb wcb ccb ecb w = Ok w' -> unadded w'.
Proof.
  intros Hu Hr. unfold newChannel in Hr. apply bind_ok_inv in Hr as (u & _ & Hr). injection Hr as <-.
  by apply unadded_put.
Qed.

Lemma unadded_basic x w w' : basic x w w' -> unadded w -> unadded w'.
Proof.
  intros Hx Hu. destruct x as [c r|c|c fd r1 w1 c1 e1|c|c obj|obj|f|f| |].
  - by destruct r; apply unadded_change in Hx.
  - by apply unadded_remove in Hx.
  - by apply unadded_newChannel in Hx.
  - by apply unadded_destroy in Hx.
  - by apply unadded_modify in Hx.
  - by apply unadded_release in Hx.
  - cbn in Hx. subst w'. by apply unadded_queue.
  - injection Hx as <-. by apply unadded_queue.
  - injection Hx as <-. by apply unadded_quit.
  - by injection Hx as <-.
Qed.

Lemma unadded_ready l channels h active h' (p : P) :
  EPollPoller.stuck p h -> EPollPoller.fillActiveChannels l channels h = Ok (active, h') ->
  EPollPoller.stuck p h'.
Proof.
  revert h active h'. induction l as [|[ev c] l IH]; intros h active h' Hs Hr; cbn in Hr; [by simplify_eq|].
  apply bind_ok_inv in Hr as (ch & Hc & Hr). apply bind_ok_inv in Hr as (u1 & _ & Hr).
  apply bind_ok_inv in Hr as (u2 & _ & Hr). apply bind_ok_inv in Hr as ([a h1] & Hf & Hr).
  injection Hr as _ <-. eapply IH; [|exact Hf]. intros d chd Hd.
  destruct (decide (c = d)) as [<-|Hne]; [|rewrite lookup_alter_ne in Hd by done; by apply (Hs d)].
  rewrite lookup_alter_eq in Hd. destruct (h !! c) as [ch0|] eqn:E; [|discriminate].
  apply (inj Some) in Hd as <-. exact (Hs c _ E).
Qed.

Lemma unadded_while code answers w rest w' :
  unadded w -> while_loop code answers w = Ok (rest, w') -> unadded w'.
Proof.
  apply (while_preserves unadded unadded_basic); try done.
  - intros c b w1 w1' Hu Hm. by apply unadded_modify in Hm.
  - intros a now w1 active p h Hu Hp. cbn in Hp. unfold EPollPoller.poll in Hp.
    destruct (0 <? _); [|by injection Hp as _ _ <-].
    apply bind_ok_inv in Hp as (u & _ & Hp). apply bind_ok_inv in Hp as ([act h'] & Hf & Hp).
    injection Hp as _ <- <-. by apply (unadded_ready _ _ (channels w1) act h' (poller_ w1)) in Hf.
Qed.

Lemma unadded_construct s p h os w t : EPollPoller.stuck p h -> construct s p h os = Ok (w, t) -> unadded w.
Proof.
  intros Hs Hr. unfold construct, timerQueue_new in Hr. apply bind_ok_inv in Hr as (w1 & Ht & Hr).
  apply bind_ok_inv in Ht as (fd & _ & Ht). apply bind_ok_inv in Ht as (wa & Ha & Ht).
  apply bind_ok_inv in Ht as (wb & Hb & Ht). apply unadded_newChannel in Ha; [|done].
  apply unadded_modify in Hb; [|done..]. apply unadded_change in Ht; [|done].
  apply bind_ok_inv in Hr as (efd & _ & Hr). apply bind_ok_inv in Hr as (wc & Hc & Hr).
  apply unadded_newChannel in Hc; [|done]. destruct (t_loopInThisThread s); [done|].
  apply bind_ok_inv in Hr as (wd & Hd & Hr). apply bind_ok_inv in Hr as (we & He & Hr).
  apply unadded_modify in Hd; [|done..]. apply unadded_change in He; [|done]. by injection Hr as <- _.
Qed.

Lemma unadded_not_destroyed s w x : unadded w -> destroy s w <> Ok x.
Proof.
  intros Hu Hr. unfold destroy, retire in Hr. apply bind_ok_inv in Hr as (w1 & Hr & _).
  apply bind_ok_inv in Hr as (w2 & Hd & Hr). apply unadded_change in Hd; [|done].
  by apply unadded_remove in Hr.
Qed.
End EPoll.
(** ** Properties *)

(** [C13] The life of a loop.  On a poller that keeps the promises of Poller.v, the
    constructor makes a thread's first loop with its timer's and its own channel
    registered for reading, and aborts for a second loop in the thread.  Whenever
    the two channels are still registered and no callback runs, the destructor
    runs without a fault, takes exactly these two off the poller's map and the
    kernel's interest, frees them, clears the thread's pointer and leaves every
    other channel as it is, up to its slot number. *)
Theorem loop_lifecycle {P} `{PollerLaws P} s (p : P) h os : startable s p h ->
  (forall l, t_loopInThisThread s = Some l -> construct s p h os = Err Aborted) /\
  (t_loopInThisThread s = None -> exists w,
     construct s p h os = Ok (w, Some (this s)) /\ destroyable s w /\
     channels_ (poller_ w) = <[eventfd s := wakeup_chan s]> (<[timerfd s := timer_chan s]> (channels_ p)) /\
     interest (poller_ w) = <[eventfd s := Some Channel.kReadEvent]>
                              (<[timerfd s := Some Channel.kReadEvent]> (interest p))) /\
  (forall w, destroyable s w -> exists w', destroy s w = Ok (w', None) /\
     channels_ (poller_ w') = delete (timerfd s) (delete (eventfd s) (channels_ (poller_ w))) /\
     interest (poller_ w') = delete (timerfd s) (delete (eventfd s) (interest (poller_ w))) /\
     channels w' !! timer_chan s = None /\ channels w' !! wakeup_chan s = None /\
     forall d, d <> timer_chan s -> d <> wakeup_chan s ->
       Channel.strip <$> channels w' !! d = Channel.strip <$> channels w !! d).
Proof.
  intros Hs. destruct (constructor_run s p h os Hs) as [Hsome Hnone]. split_and!; [done| |].
  - intros Ht. destruct (Hnone Ht) as (w & ? & ? & ? & ? & _). by exists w.
  - intros w Hd. destruct (destructor_run s w Hd) as (w' & ? & _ & ?). by exists w'.
Qed.

Definition setup0 : setup := mkSetup 1 100 10 11 1 2 4 5 None.

Lemma loop_lifecycle_witness :
  exists w w', construct setup0 PollPoller.new ∅ ∅ = Ok (w, Some 1) /\
    channels_ (poller_ w) = {[ 4 := 10; 5 := 11 ]} /\
    destroy setup0 w = Ok (w', None) /\ channels_ (poller_ w') = ∅.
Proof.
  destruct (loop_lifecycle setup0 PollPoller.new ∅ ∅) as (_ & Hc & Hd).
  { split; [apply PollPoller.wf_new|reflexivity|split_and!; reflexivity || discriminate..
           |discriminate|discriminate]. }
  destruct (Hc eq_refl) as (w & E & Hw & Hch & _). destruct (Hd w Hw) as (w' & E' & Hch' & _).
  exists w, w'. rewrite Hch', Hch. split_and!; [exact E| |exact E'|];
    apply (bool_decide_eq_true_1 _); vm_compute; reflexivity.
Defined.

(** [C38] No loop on epoll is ever destroyed.  With the default poller, whatever the
    kernel answers and whatever the callbacks do, a loop that is constructed, runs
    until [loop] returns and is destroyed fails somewhere: the destructor cannot
    take its own channel off the poller, which has kept the index of a new one. *)
Theorem epoll_loop_never_destroyed {K} epoll_ctl code answers s (p : EPollPoller.EPollPoller (K:=K)) h os :
  (forall c ch, h !! c = Some ch -> Channel.index_ ch = EPollPoller.kNew) ->
  forall w, life (H := EPollPoller.epoll_poller epoll_ctl) code answers s p h os <> Ok (Some w).
Proof.
  intros Hnew w Hr. unfold life in Hr. apply bind_ok_inv in Hr as ([w1 t1] & Hc & Hr).
  apply (unadded_construct epoll_ctl) in Hc; [|exact Hnew].
  apply bind_ok_inv in Hr as ([rest w2] & Hl & Hr). unfold loop in Hl.
  apply bind_ok_inv in Hl as (u1 & _ & Hl). apply bind_ok_inv in Hl as (u2 & _ & Hl).
  apply bind_ok_inv in Hl as ([rest' w3] & Hl & E). apply (unadded_while epoll_ctl) in Hl; [|exact Hc].
  injection E as <- <-. destruct rest' as [rest'|]; [|done].
  apply bind_ok_inv in Hr as ([w4 t4] & Hd & _).
  by apply (unadded_not_destroyed epoll_ctl) in Hd.
Qed.

(** A loop that is told to quit in its first round. *)
Lemma epoll_loop_never_destroyed_witness :
  let code (f : Z) (arg : option Z) := if f =? 2 then [HandleRead; Quit] else [] in
  let r := life (H := EPollPoller.epoll_poller EPollPoller.accepting) code
    [(EPollPoller.mkAnswer 1 11 [(1, 11)], 77)] setup0 (EPollPoller.mkEPollPoller ∅ tt 16) ∅ ∅ in
  r = Err AssertFailure /\ forall w, r <> Ok (Some w).
Proof.
  split; [vm_compute; reflexivity|]. apply epoll_loop_never_destroyed.
  intros c ch Hc. by rewrite lookup_empty in Hc.
Defined.

End LoopLife.
