(* ===== verification/LoopService.v ===== *)
(** * An event loop serves: EventLoop.cc on any lawful poller

    [EventLoop] keeps the contract of Service.v, whatever the poller, as long as the
    poller keeps its own (Poller.v): between two rounds, and while it hands out the
    events of a round, when [removeChannel] has one assertion more. *)

From S2P Require Import Prelude Channel Service Poller PollPoller EventLoop LoopLife.
Import Poller.

Module LoopService.
Import EventLoop.

Section Served.
Context {P : Type} `{PollerLaws P}.
Implicit Types w : EventLoop P.

(** ** The flags of a round *)

(** [w], but for what [loop] notes down while it hands out events. *)
Definition calm w : EventLoop P := with_current false None w.
Definition restore w w' : EventLoop P := with_current (eventHandling_ w) (currentActiveChannel_ w) w'.

Lemma restore_calm w : restore w (calm w) = w.
Proof. by destruct w. Qed.

(** Nothing but [removeChannel] looks at them. *)
Lemma update_flags w l c w0 :
  Channel.loop_updateChannel l c (restore w w0) = restore w <$> Channel.loop_updateChannel l c w0.
Proof.
  cbn [Channel.loop_updateChannel loop_host]. unfold updateChannel, restore.
  cbn [channels with_current this_ poller_]. destruct (deref _ c) as [ch|]; [|done]. rewrite !bind_ok.
  destruct (assert_ _); [|done]. rewrite !bind_ok. change (assertInLoopThread (with_current _ _ w0)) with (assertInLoopThread w0).
  change (isInLoopThread (with_current _ _ w0)) with (isInLoopThread w0).
  destruct (assertInLoopThread w0); [|done]. rewrite !bind_ok.
  by destruct (Poller.updateChannel _ _ _ _) as [[p h]|].
Qed.

Lemma request_flags r c w : Channel.request_op r c w = restore w <$> Channel.request_op r c (calm w).
Proof.
  assert (forall f w0, Channel.change_events f c (restore w w0) = restore w <$> Channel.change_events f c w0) as H'.
  { intros f w0. destruct (channels w0 !! c) as [ch|] eqn:Hc.
    - rewrite <- (LoopLife.put_same w0 c ch Hc).
      change (restore w (Channel.put_chan c ch w0)) with (Channel.put_chan c ch (restore w w0)).
      rewrite !LoopLife.change_put. exact (update_flags w (Channel.loop_ ch) c (Channel.put_chan c
        (Channel.set_addedToLoop true (Channel.set_events (f (Channel.events_ ch)) ch)) w0)).
    - unfold Channel.change_events, Channel.modify, Channel.deref. cbn. by rewrite Hc. }
  rewrite <- (restore_calm w) at 1. destruct r; apply H'.
Qed.

Lemma destroy_flags c w : Channel.destroy c w = restore w <$> Channel.destroy c (calm w).
Proof.
  unfold Channel.destroy, Channel.deref. cbn [Channel.chan_of loop_host]. change (channels (calm w)) with (channels w).
  destruct (channels w !! c) as [ch|]; [|done]. rewrite !bind_ok.
  destruct (assert_ (negb (Channel.eventHandling_ ch))); [|done]. rewrite !bind_ok.
  destruct (assert_ (negb (Channel.addedToLoop_ ch))); [|done]. rewrite !bind_ok.
  change (Channel.loop_isInLoopThread (Channel.loop_ ch) (calm w)) with (Channel.loop_isInLoopThread (Channel.loop_ ch) w).
  change (Channel.loop_hasChannel (Channel.loop_ ch) c (calm w)) with (Channel.loop_hasChannel (Channel.loop_ ch) c w).
  destruct (if Channel.loop_isInLoopThread (Channel.loop_ ch) w then _ else Ok tt); [|done].
  rewrite !bind_ok. by destruct w.
Qed.

(** No event of this round is still to come to [c]. *)
Definition removable (c : Z) w : Prop :=
  eventHandling_ w = true -> currentActiveChannel_ w = Some c \/ c ∉ activeChannels_ w.

Lemma remove_flags c w : removable c w -> Channel.remove c w = restore w <$> Channel.remove c (calm w).
Proof.
  intros Hrm. unfold Channel.remove, Channel.modify, Channel.deref. cbn [Channel.chan_of loop_host].
  change (channels (calm w)) with (channels w). destruct (channels w !! c) as [ch|]; [|done]. rewrite !bind_ok.
  destruct (assert_ _); [|done]. rewrite !bind_ok. cbn [Channel.loop_removeChannel Channel.put_chan loop_host].
  unfold removeChannel. cbn [channels with_chans calm with_current eventHandling_ currentActiveChannel_ activeChannels_ this_].
  rewrite (deref_ok _ c (Channel.set_addedToLoop false ch)), !bind_ok by apply lookup_insert_eq.
  destruct (assert_ (Channel.loop_ (Channel.set_addedToLoop false ch) =? this_ w)); [|done]. rewrite !bind_ok.
  change (assertInLoopThread (with_chans _ _ _)) with (assertInLoopThread w).
  change (assertInLoopThread (with_chans _ _ _)) with (assertInLoopThread w).
  destruct (assertInLoopThread w); [|done]. rewrite !bind_ok.
  assert ((if eventHandling_ w then assert_ (bool_decide (currentActiveChannel_ w = Some c) ||
    bool_decide (c ∉ activeChannels_ w)) else Ok tt) = Ok tt) as ->.
  { unfold removable in Hrm. destruct (eventHandling_ w); [|done]. apply assert_true, orb_true_iff.
    rewrite !bool_decide_eq_true. auto. }
  rewrite bind_ok. change (isInLoopThread (with_chans _ _ (calm w))) with (isInLoopThread w).
  change (isInLoopThread (with_chans _ _ w)) with (isInLoopThread w). cbn [poller_ with_chans with_current].
  by destruct (Poller.removeChannel _ _ _ _) as [[p h]|].
Qed.

(** ** The contract *)

Definition registry w : gmap Z Z := channels_ (poller_ w).
Definition asked w : gmap Z (option Z) := interest (poller_ w).
Definition turning (l : Z) w : Prop := LoopLife.idle (calm w) /\ this_ w = l.
Definition room (n : nat) w : Prop := load (poller_ w) + Z.of_nat n < 2 ^ 31.

Lemma request_change r c w : Channel.request_op r c w = Channel.change_events (Channel.request_bits r) c w.
Proof. by destruct r. Qed.

(** Storing a channel that the poller does not know, or whose descriptor and slot are
    the same as before. *)
Lemma put_turning l c ch' w : turning l w ->
  (channels w !! c = None \/ exists ch, channels w !! c = Some ch /\
     Channel.fd_ ch' = Channel.fd_ ch /\ Channel.index_ ch' = Channel.index_ ch) ->
  turning l (Channel.put_chan c ch' w).
Proof.
  intros [[Ht Hh Hi] Hl] Hc. split; [|done]. split; [done..|]. cbn in *. destruct Hc as [Hc|(ch & Hc & Hf & Hx)].
  - apply (LoopLife.inv_unregistered _ (channels w) _ c); [done| |by intros; apply lookup_insert_ne].
    intros fd Hr. destruct (registered_channel _ _ _ _ Hi Hr) as (ch0 & Hch & _). congruence.
  - by apply (LoopLife.inv_put _ _ _ ch).
Qed.

#[global, refine] Instance loop_service : Service.Service (EventLoop P) := {
  Service.registry := registry; Service.asked := asked; Service.turning := turning;
  Service.room := room; Service.removable := removable
}.
Proof.
  - intros l c ch w Ht Hc. split_and!; [apply put_turning; auto|done..].
  - intros l c ch ch' w Ht Hc Hf Hx. split_and!; [apply put_turning; eauto|done..].
  - intros l r c ch w n [Hid Hl] Hroom Hc Hlc Hx Hfd Hfree. unfold room in *.
    destruct (LoopLife.register_run (Channel.request_bits r) c ch (calm w) Hid)
      as (p' & idx & E & Hid' & Hch & Hload & Hint); [cbn; lia|done|cbn; congruence|done..|].
    rewrite request_flags, request_change, E. eexists.
    split_and!; [done|by split|done|done|cbn in *; lia|done].
  - intros l r c ch w [Hid Hl] Hc Hlc Hr.
    destruct (LoopLife.change_run (Channel.request_bits r) (calm w) c ch Hid Hc) as (p' & E & Hid' & Hch & Hint & Hload);
      [cbn; congruence|done|].
    rewrite request_flags, request_change, E. eexists.
    split_and!; [done|by split|done|done| |done]. intros n Hn. unfold room in *. cbn in *. lia.
  - intros l c ch w [Hid Hl] Hc Hlc Hr Hn Ha Hrm.
    destruct (LoopLife.channel_remove_run (calm w) c (Channel.fd_ ch) ch Hid)
      as (p' & h' & E & Hid' & _ & Hch & Hint & Hload); [done|done|cbn; congruence|done| |done|].
    { by apply Z.eqb_eq. }
    rewrite remove_flags, E by done. eexists.
    split_and!; [done|by split|done|done| |done]. intros n Hr'. unfold room in *. cbn in *. lia.
  - intros l c ch w [Hid Hl] Hc Hlc He Ha Hr. rewrite destroy_flags.
    rewrite (LoopLife.destroy_run (calm w) c ch) by first [apply Hid|done|cbn; congruence]. eexists. split_and!.
    + done.
    + destruct Hid as [Ht Hh Hi]. split; [|done]. split; [done..|].
      apply (LoopLife.inv_unregistered _ (channels w) _ c); [done| |by intros; apply lookup_delete_ne].
      intros fd Hfd. cbn in *. pose proof (LoopLife.registered_own _ _ _ _ _ Hi Hfd Hc) as <-.
      unfold registry in Hr. congruence.
    + done.
    + done.
    + done.
    + done.
Defined.

End Served.
(** ** A loop on poll(2), with no channels but its own *)

(** Its thread's number is the loop's address. *)
Definition poll_loop (l : Z) : EventLoop PollPoller.PollPoller :=
  mkLoop l l l true false false false 0 0 PollPoller.new ∅ ∅ 0 [] None [].

Lemma poll_loop_idle l : Service.idle l (poll_loop l).
Proof. split; [|done]. split; [|done]. split; [apply Z.eqb_refl|done|apply PollPoller.wf_new]. Qed.

Lemma poll_loop_room l n : Z.of_nat n < 2 ^ 30 -> Service.room n (poll_loop l).
Proof. intros Hn. cbn. unfold room. cbn [load PollPoller.poll_poller_laws poller_ poll_loop]. change (zlen _) with 16. lia. Qed.

End LoopService.
