(* ===== verification/LoopTasks.v ===== *)
(** * The functor queue of [dws::net::EventLoop] across threads: EventLoop.cc

    [queueInLoop], [quit] and [wakeup] run in any thread; [loop], [handleRead]
    and [doPendingFunctors] in the loop's.  A step is what one thread does
    without another being able to look: a critical section of [mutex_], an
    atomic store, a system call on the eventfd.  The loop's own thread also calls
    [queueInLoop] and [quit] when it is not in [loop], and may call [loop] again. *)

From S2P Require Import Prelude Channel Poller EventLoop.

Module LoopTasks.
Import EventLoop (eventfd_max, eventfd_write).

(** Where the loop's thread is. *)
Inductive pc :=
| BeforeLoop                    (* the loop is constructed, [loop] not called *)
| Testing                       (* [while (!quit_)] *)
| Polling                       (* in [poller_->poll] *)
| Handling (readable : bool)    (* dispatching; is the wakeup channel active? *)
| Swapping                      (* [callingPendingFunctors_ = true] done *)
| Calling                       (* running [functors] *)
| WakingSelf                    (* a functor is in [queueInLoop], before [wakeup] *)
| Stopped.

(** [waking]: how many other threads are between their change and [wakeup].
    [queued] and [done_] are histories: the functors ever queued, and run.  [early]:
    the pending ones that the loop's own thread queued while it was not in [loop]. *)
Record state (F : Type) := mkState {
  at_ : pc;
  quit_ : bool;
  calling : bool;
  pendingFunctors_ : list F;
  functors : list F;
  count : Z;
  waking : nat;
  queued : list F;
  done_ : list F;
  early : list F
}.
Arguments mkState {F}.
Arguments at_ {F} _. Arguments quit_ {F} _. Arguments calling {F} _.
Arguments pendingFunctors_ {F} _. Arguments functors {F} _. Arguments count {F} _.
Arguments waking {F} _. Arguments queued {F} _. Arguments done_ {F} _.
Arguments early {F} _.

Section Tasks.
Context {F : Type}.

Definition init : state F := mkState BeforeLoop false false [] [] 0 0 [] [] [].

(** Steps of the loop's thread that are the loop's own. *)
Inductive loop_step : state F -> state F -> Prop :=
| StepTest c p fs n k q d e :
    loop_step (mkState Testing false c p fs n k q d e) (mkState Polling false c p fs n k q d e)
| StepStop c p fs n k q d e :
    loop_step (mkState Testing true c p fs n k q d e) (mkState Stopped true c p fs n k q d e)
| StepReadable b c p fs n k q d e : 0 < n ->
    loop_step (mkState Polling b c p fs n k q d e) (mkState (Handling true) b c p fs n k q d e)
| StepRead b c p fs n k q d e :
    loop_step (mkState (Handling true) b c p fs n k q d e) (mkState (Handling false) b c p fs 0 k q d e)
| StepBegin b c p fs n k q d e :
    loop_step (mkState (Handling false) b c p fs n k q d e) (mkState Swapping b true p fs n k q d e)
| StepSwap b c p fs n k q d e :
    loop_step (mkState Swapping b c p fs n k q d e) (mkState Calling b c [] p n k q d [])
| StepCall b c p f fs n k q d e :
    loop_step (mkState Calling b c p (f :: fs) n k q d e) (mkState Calling b c p fs n k q (d ++ [f]) e)
| StepWakeSelf b c p fs n k q d e :
    loop_step (mkState WakingSelf b c p fs n k q d e) (mkState Calling b c p fs (eventfd_write n) k q d e)
| StepEnd b c p n k q d e :
    loop_step (mkState Calling b c p [] n k q d e) (mkState Testing b false p [] n k q d e).

(** The loop's thread is not in [loop]: it has not called it, or is back. *)
Definition outside (l : pc) : Prop := l = BeforeLoop \/ l = Stopped.

(** What else happens: a call of [loop], a timeout or another event, user
    code in the loop's thread, and other threads. *)
Inductive other_step : state F -> state F -> Prop :=
| StepLoop l b c p fs n k q d e : outside l ->
    other_step (mkState l b c p fs n k q d e) (mkState Testing false c p fs n k q d e)
| StepTimeout b c p fs n k q d e :
    other_step (mkState Polling b c p fs n k q d e) (mkState (Handling false) b c p fs n k q d e)
| StepHandlerQueue b c p fs n k q d e r f :
    other_step (mkState (Handling r) b c p fs n k q d e)
               (mkState (Handling r) b c (p ++ [f]) fs n k (q ++ [f]) d e)
| StepFunctorQueue b c p fs n k q d e f :
    other_step (mkState Calling b c p fs n k q d e)
               (mkState WakingSelf b c (p ++ [f]) fs n k (q ++ [f]) d e)
| StepHandlerQuit b c p fs n k q d e r :
    other_step (mkState (Handling r) b c p fs n k q d e) (mkState (Handling r) true c p fs n k q d e)
| StepFunctorQuit b c p fs n k q d e :
    other_step (mkState Calling b c p fs n k q d e) (mkState Calling true c p fs n k q d e)
| StepThreadQueue l b c p fs n k q d e f :
    other_step (mkState l b c p fs n k q d e) (mkState l b c (p ++ [f]) fs n (S k) (q ++ [f]) d e)
| StepThreadQuit l b c p fs n k q d e :
    other_step (mkState l b c p fs n k q d e) (mkState l true c p fs n (S k) q d e)
| StepThreadWake l b c p fs n k q d e :
    other_step (mkState l b c p fs n (S k) q d e) (mkState l b c p fs (eventfd_write n) k q d e)
(* The loop's own thread outside [loop]: neither a foreign thread nor
   [callingPendingFunctors_], so no [wakeup]. *)
| StepOutsideQueue l b c p fs n k q d e f : outside l ->
    other_step (mkState l b c p fs n k q d e)
               (mkState l b c (p ++ [f]) fs n k (q ++ [f]) d (e ++ [f]))
| StepOutsideQuit l b c p fs n k q d e : outside l ->
    other_step (mkState l b c p fs n k q d e) (mkState l true c p fs n k q d e).

Definition step (s t : state F) : Prop := loop_step s t \/ other_step s t.

(** [poll] returns with the wakeup channel not active: its timeout, or an event
    of another channel. *)
Inductive poll_returns : state F -> state F -> Prop :=
| PollReturns b c p fs n k q d e :
    poll_returns (mkState Polling b c p fs n k q d e) (mkState (Handling false) b c p fs n k q d e).

(** ** Invariants *)

(** A wakeup has been written, or is about to be. *)
Definition alarm (s : state F) : Prop := 0 < count s \/ (0 < waking s)%nat.

Record inv (s : state F) : Prop := {
  inv_count : 0 <= count s;
  inv_fifo : queued s = done_ s ++ functors s ++ pendingFunctors_ s;
  inv_calling : calling s = match at_ s with Swapping | Calling | WakingSelf => true | _ => false end;
  inv_functors : functors s = [] \/ at_ s = Calling \/ at_ s = WakingSelf;
  inv_pending : match at_ s with
    | BeforeLoop | Testing | Polling | Calling | Stopped =>
        pendingFunctors_ s = early s \/ alarm s
    | _ => True
    end;
  inv_early : match at_ s with Calling | WakingSelf => early s = [] | _ => True end;
  inv_quit : at_ s = Polling -> quit_ s = true -> alarm s
}.

Lemma eventfd_write_pos n : 0 <= n -> 0 < eventfd_write n.
Proof.
  intros Hn. unfold eventfd_write, eventfd_max. zcase (n + 1 <=? 2 ^ 64 - 2); lia.
Qed.

Lemma inv_init : inv init.
Proof. split; cbn; try done; by left. Qed.

Ltac alarm_lia := unfold alarm, outside in *; cbn in *;
  repeat match goal with n : Z, H : 0 <= ?m |- _ =>
    lazymatch goal with | _ : 0 < eventfd_write m |- _ => fail | _ =>
      pose proof (eventfd_write_pos m H) end end;
  intuition (congruence || lia).

Ltac fifo := subst; rewrite ?app_nil_r, <- ?app_assoc; cbn; reflexivity.

Lemma inv_loop_step s t : inv s -> loop_step s t -> inv t.
Proof.
  intros [H1 H2 H3 H4 H5 H6 H7] Hst.
  assert (functors s = [] -> queued s = done_ s ++ pendingFunctors_ s) as H8
    by (intros E; by rewrite H2, E).
  destruct Hst; cbn in *; split; cbn; try done; try alarm_lia; try (by fifo).
  - destruct H4 as [->|[|]]; [by rewrite H2, app_nil_r|done|done].
Qed.

Lemma inv_other_step s t : inv s -> other_step s t -> inv t.
Proof.
  intros [H1 H2 H3 H4 H5 H6 H7] Hst.
  destruct Hst as [l b c p fs n k q d e Ho| | | | | | | | |l b c p fs n k q d e f Ho
    |l b c p fs n k q d e Ho];
    try (destruct Ho as [->| ->]); cbn in *; split; cbn; try done; try alarm_lia; try (by fifo);
    try (destruct l; alarm_lia); destruct H5 as [->|]; alarm_lia.
Qed.

Lemma inv_reachable s : rtc step init s -> inv s.
Proof.
  intros Hr. apply (rtc_invariant step inv init s); [|done|apply inv_init].
  intros x y Hx [Hs|Hs]; [by apply inv_loop_step with x | by apply inv_other_step with x].
Qed.

(** ** Progress of the loop's thread alone *)

Lemma run_calling b c p fs n k q d e :
  rtc loop_step (mkState Calling b c p fs n k q d e) (mkState Calling b c p [] n k q (d ++ fs) e).
Proof.
  revert d. induction fs as [|f fs IH]; intros d; [by rewrite app_nil_r|].
  eapply rtc_l; [apply StepCall|]. by specialize (IH (d ++ [f])); rewrite <- app_assoc in IH.
Qed.

Lemma run_handling r b c p fs n k q d e :
  exists m, rtc loop_step (mkState (Handling r) b c p fs n k q d e)
                          (mkState Calling b true [] [] m k q (d ++ p) []).
Proof.
  assert (forall m, rtc loop_step (mkState (Handling false) b c p fs m k q d e)
                          (mkState Calling b true [] [] m k q (d ++ p) [])) as Hf.
  { intros m. eapply rtc_l; [apply StepBegin|]. eapply rtc_l; [apply StepSwap|].
    apply run_calling. }
  destruct r; [|by exists n]. exists 0. eapply rtc_l; [apply StepRead|]. apply Hf.
Qed.

(** From the test of [quit_] on, and from [poll] on. *)
Lemma run_testing l c p n q d e :
  l = Testing \/ l = Polling -> p = e \/ 0 < n -> exists t,
    done_ t = d ++ p /\
    (rtc loop_step (mkState l false c p [] n 0 q d e) t \/
     p = e /\ e <> [] /\ exists u v, rtc loop_step (mkState l false c p [] n 0 q d e) u /\
       poll_returns u v /\ rtc loop_step v t).
Proof.
  intros Hl Hp.
  assert (rtc loop_step (mkState l false c p [] n 0 q d e)
            (mkState Polling false c p [] n 0 q d e)) as Hpoll.
  { destruct Hl as [->| ->]; [|done]. eapply rtc_l; [apply StepTest|done]. }
  destruct (decide (0 < n)) as [Hn|Hn].
  - destruct (run_handling true false c p [] n 0 q d e) as [m Hm].
    eexists. split; [|left; etrans; [exact Hpoll|]; eapply rtc_l; [by apply StepReadable|exact Hm]].
    done.
  - destruct Hp as [->|]; [|lia]. destruct e as [|f e].
    { eexists. split; [|by left]. cbn. by rewrite app_nil_r. }
    destruct (run_handling false false c (f :: e) [] n 0 q d (f :: e)) as [m Hm].
    eexists. split; [|right; split_and!; [done..|]]; cycle 1.
    + eexists _, _. split_and!; [exact Hpoll|apply PollReturns|exact Hm].
    + done.
Qed.

(** Everything queued so far gets run, with at most one timeout. *)
Lemma progress s :
  inv s -> quit_ s = false -> waking s = 0%nat -> ~ outside (at_ s) ->
  exists t, done_ t = queued s /\
    (rtc loop_step s t \/
     pendingFunctors_ s = early s /\ early s <> [] /\
     exists u v, rtc loop_step s u /\ poll_returns u v /\ rtc loop_step v t).
Proof.
  intros [H1 H2 H3 H4 H5 H6 H7] Hq Hw Hb. unfold outside in Hb.
  destruct s as [l b c p fs n k q d e]; cbn in *; subst b k q.
  assert (forall n', p = [] \/ 0 < n' -> e = [] -> exists t, done_ t = d ++ fs ++ p /\
    rtc loop_step (mkState Calling false c p fs n' 0 (d ++ fs ++ p) d e) t) as HC.
  { intros n' Hn ->.
    destruct (run_testing Testing false p n' (d ++ fs ++ p) (d ++ fs) [])
      as (t & Ht & [Hr|(_ & ? & _)]); [by left|done| |done].
    exists t. split; [by rewrite Ht, <- app_assoc|].
    etrans; [apply run_calling|]. eapply rtc_l; [apply StepEnd|done]. }
  unfold alarm in H5; cbn in H5. destruct l; try tauto.
  - destruct H4 as [->|[|]]; [|done..]. apply run_testing; [by left|intuition lia].
  - destruct H4 as [->|[|]]; [|done..]. apply run_testing; [by right|intuition lia].
  - destruct H4 as [->|[|]]; [|done..]. cbn.
    destruct (run_handling readable false c p [] n 0 (d ++ p) d e) as [m Hm].
    eexists. split; [|left; exact Hm]. done.
  - destruct H4 as [->|[|]]; [|done..]. cbn. eexists. split; cycle 1.
    + left. eapply rtc_l; [apply StepSwap|apply run_calling].
    + done.
  - destruct (HC n) as (t & Ht & Hr); [rewrite H6 in H5; intuition lia|done|eauto].
  - destruct (HC (eventfd_write n)) as (t & Ht & Hd); [right; by apply eventfd_write_pos|done|].
    exists t. split; [done|]. left. eapply rtc_l; [apply StepWakeSelf|done].
Qed.

(** ** Properties *)

(** [C5] First in, first out, exactly once.  However the threads interleave, the
    functors ever queued are, in the order of their critical sections, those
    already run, then those of the current round, then those pending. *)
Theorem functors_fifo_once s :
  rtc step init s -> queued s = done_ s ++ functors s ++ pendingFunctors_ s.
Proof. intros Hr. by destruct (inv_reachable s Hr). Qed.

(** [C12] No lost wakeup.  While the loop's thread is in [poll], a request to quit
    has made the eventfd readable, or the thread that made it has not reached its
    [wakeup] yet; and so has a pending functor, unless all that are pending were
    queued by the loop's own thread while it was not in [loop]: for these
    [queueInLoop] does not call [wakeup]. *)
Theorem no_lost_wakeup s :
  rtc step init s -> at_ s = Polling ->
  (quit_ s = true -> 0 < count s \/ (0 < waking s)%nat) /\
  (pendingFunctors_ s <> early s -> 0 < count s \/ (0 < waking s)%nat).
Proof.
  intros Hr Hp. destruct (inv_reachable s Hr) as [_ _ _ _ H5 _ H6]. rewrite Hp in H5.
  split; [by apply H6|]. intros Hx. by destruct H5.
Qed.

(** [C32] Progress.  From any reachable state of a running loop that nobody asked
    to quit, once the other threads are done with their calls, the loop's thread
    runs every functor that was queued: by its own steps alone, or, when all that
    are pending were queued by this thread while it was not in [loop], after one
    return of [poll] that the eventfd did not cause, its timeout for example. *)
Theorem queued_functors_run s :
  rtc step init s -> quit_ s = false -> waking s = 0%nat -> ~ outside (at_ s) ->
  exists t, done_ t = queued s /\
    (rtc loop_step s t \/
     pendingFunctors_ s = early s /\ early s <> [] /\
     exists u v, rtc loop_step s u /\ poll_returns u v /\ rtc loop_step v t).
Proof. intros Hr. apply progress. by apply inv_reachable. Qed.

End Tasks.

(** The gap that is left.  A functor that the loop's thread queues between
    the construction of the loop and the call of [loop] is pending in a [poll]
    with the eventfd not readable: it runs only after an event or a timeout. *)
Theorem queued_before_loop_waits {F} (f : F) :
  exists s, rtc step init s /\ at_ s = Polling /\
    pendingFunctors_ s = [f] /\ count s = 0 /\ waking s = 0%nat /\
    forall t, ~ loop_step s t.
Proof.
  exists (mkState Polling false false [f] [] 0 0 [f] [] [f]). split_and!; try done.
  - eapply rtc_l; [right; apply (StepOutsideQueue _ _ _ [] _ _ _ [] _ [] f); by left|].
    eapply rtc_l; [right; apply StepLoop; by left|].
    eapply rtc_l; [left; apply StepTest|]. reflexivity.
  - intros t Ht. inversion Ht; lia.
Qed.

(** ** Witnesses *)

(** Another thread queues functor 7 while the loop is in [poll]. *)
Lemma reach_pending :
  rtc (step (F:=nat)) init (mkState Polling false false [7%nat] [] 1 0 [7%nat] [] []).
Proof.
  eapply rtc_l; [right; apply StepLoop; by left|].
  eapply rtc_l; [left; apply StepTest|].
  eapply rtc_l; [right; apply (StepThreadQueue _ _ _ _ _ _ _ _ _ _ 7%nat)|].
  eapply rtc_l; [right; apply StepThreadWake|]. reflexivity.
Qed.

Lemma functors_fifo_once_witness : [7%nat] = [] ++ [] ++ [7%nat].
Proof. exact (functors_fifo_once _ reach_pending). Defined.

Lemma no_lost_wakeup_witness : 0 < 1 \/ (0 < 0)%nat.
Proof. by apply (no_lost_wakeup _ reach_pending). Defined.

Lemma queued_functors_run_witness :
  exists t, done_ t = [7%nat] /\
    rtc loop_step (mkState Polling false false [7%nat] [] 1 0 [7%nat] [] []) t.
Proof.
  destruct (queued_functors_run _ reach_pending) as (t & Ht & [Hr|(? & ? & _)]);
    [done|done|by intros [|]|by exists t|done].
Defined.

End LoopTasks.
