(* ===== verification/StringPiece.v ===== *)
(** * [dws::StringPiece]: StringPiece.h

    A view: a pointer into an object of the program's memory and a length.  The
    view does not keep the object alive, so every access goes through the memory
    and can find it gone or too short. *)

From S2P Require Import Prelude.

Module StringPiece.

(** Objects of the memory, by address; a pointer is an object and an offset. *)
Definition memory : Type := gmap Z (list byte).
Definition pointer : Type := option (Z * Z).

Record StringPiece := mkPiece { ptr_ : pointer; length_ : Z }.

(** ** Construction *)

Definition empty_piece : StringPiece := mkPiece None 0.

(** The bytes [p .. p + n) when they can be read. *)
Definition read (m : memory) (p : pointer) (n : Z) : result (list byte) :=
  if n =? 0 then Ok []
  else match p with
  | None => Err UndefinedBehaviour
  | Some (obj, off) =>
      match m !! obj with
      | None => Err UndefinedBehaviour
      | Some l => _ ← defined_ ((0 <=? off) && (0 <=? n) && (off + n <=? zlen l)); Ok (zslice off (off + n) l)
      end
  end.

(** The characters before the first zero. *)
Fixpoint c_string (l : list byte) : option (list byte) :=
  match l with
  | [] => None
  | b :: l => if bool_decide (b = Byte.x00) then Some [] else s ← c_string l; Some (b :: s)
  end.
Definition strlen (m : memory) (p : pointer) : result Z :=
  match p with
  | None => Err UndefinedBehaviour
  | Some (obj, off) =>
      match m !! obj with
      | None => Err UndefinedBehaviour
      | Some l =>
          _ ← defined_ ((0 <=? off) && (off <=? zlen l));
          match c_string (zdrop off l) with Some s => Ok (zlen s) | None => Err UndefinedBehaviour end
      end
  end.

(** From a C string; from the object of a [std::string], terminator not counted;
    from a range. *)
Definition of_cstr (m : memory) (str : pointer) : result StringPiece :=
  n ← strlen m str; Ok (mkPiece str (wraps 32 n)).
Definition of_string (obj size : Z) : StringPiece := mkPiece (Some (obj, 0)) (wraps 32 size).
Definition of_range (offset : pointer) (len : Z) : StringPiece := mkPiece offset len.

(** ** Operations *)

Definition size (s : StringPiece) : Z := length_ s.
Definition empty (s : StringPiece) : bool := length_ s =? 0.
Definition clear (s : StringPiece) : StringPiece := mkPiece None 0.
Definition set (buffer : pointer) (len : Z) (s : StringPiece) : StringPiece := mkPiece buffer len.
Definition set_cstr (m : memory) (str : pointer) (s : StringPiece) : result StringPiece := of_cstr m str.

Definition advance (n : Z) (p : pointer) : result pointer :=
  match p with
  | Some (obj, off) => Ok (Some (obj, off + n))
  | None => if n =? 0 then Ok None else Err UndefinedBehaviour
  end.

Definition at_ (m : memory) (i : Z) (s : StringPiece) : result byte :=
  p ← advance i (ptr_ s); l ← read m p 1;
  match l with [b] => Ok b | _ => Err UndefinedBehaviour end.

(** Neither looks at the length. *)
Definition remove_prefix (n : Z) (s : StringPiece) : result StringPiece :=
  p ← advance n (ptr_ s); _ ← no_overflow 32 [length_ s - n]; Ok (mkPiece p (length_ s - n)).
Definition remove_suffix (n : Z) (s : StringPiece) : result StringPiece :=
  _ ← no_overflow 32 [length_ s - n]; Ok (mkPiece (ptr_ s) (length_ s - n)).

(** memcmp(3), of which the sign is documented: [-1], [0] or [1]. *)
Fixpoint compare_bytes (x y : list byte) : Z :=
  match x, y with
  | a :: x, b :: y =>
      if byte_val a <? byte_val b then -1
      else if byte_val b <? byte_val a then 1 else compare_bytes x y
  | _, _ => 0
  end.
(** The length is converted to [size_t]. *)
Definition memcmp (m : memory) (p q : pointer) (n : Z) : result Z :=
  x ← read m p (wrapu 64 n); y ← read m q (wrapu 64 n); Ok (compare_bytes x y).

Definition eq (m : memory) (s x : StringPiece) : result bool :=
  if length_ s =? length_ x then r ← memcmp m (ptr_ s) (ptr_ x) (length_ s); Ok (r =? 0) else Ok false.
Definition ne (m : memory) (s x : StringPiece) : result bool := b ← eq m s x; Ok (negb b).

(** [STRINGPIECE_BINARY_PREDICATE(cmp, auxcmp)]. *)
Definition binary_predicate (cmp auxcmp : Z -> Z -> bool) (m : memory) (s x : StringPiece) : result bool :=
  r ← memcmp m (ptr_ s) (ptr_ x) (if length_ s <? length_ x then length_ s else length_ x);
  Ok (if r =? 0 then auxcmp (length_ s) (length_ x) else cmp r 0).

Definition lt : memory -> StringPiece -> StringPiece -> result bool := binary_predicate Z.ltb Z.ltb.
Definition le : memory -> StringPiece -> StringPiece -> result bool := binary_predicate Z.leb Z.ltb.
Definition ge : memory -> StringPiece -> StringPiece -> result bool := binary_predicate Z.geb Z.gtb.
Definition gt : memory -> StringPiece -> StringPiece -> result bool := binary_predicate Z.gtb Z.gtb.

Definition compare (m : memory) (s x : StringPiece) : result Z :=
  r ← memcmp m (ptr_ s) (ptr_ x) (if length_ s <? length_ x then length_ s else length_ x);
  Ok (if r =? 0 then
        if length_ s <? length_ x then -1 else if length_ x <? length_ s then 1 else r
      else r).

Definition as_string (m : memory) (s : StringPiece) : result (list byte) := read m (ptr_ s) (wrapu 64 (length_ s)).
Definition CopyToString (m : memory) (target : list byte) (s : StringPiece) : result (list byte) :=
  read m (ptr_ s) (wrapu 64 (length_ s)).

Definition starts_with (m : memory) (s x : StringPiece) : result bool :=
  if length_ x <=? length_ s then r ← memcmp m (ptr_ s) (ptr_ x) (length_ x); Ok (r =? 0) else Ok false.

(** ** The bytes of a piece *)

(** [s] is a valid view of the bytes [l]. *)
Definition views (m : memory) (s : StringPiece) (l : list byte) : Prop :=
  length_ s = zlen l /\ zlen l < 2 ^ 31 /\ read m (ptr_ s) (length_ s) = Ok l.

Lemma read_inv m p n l : read m p n = Ok l -> 0 < n ->
  exists obj off k, p = Some (obj, off) /\ m !! obj = Some k /\ 0 <= off /\ off + n <= zlen k /\
    l = zslice off (off + n) k.
Proof.
  intros Hr Hn. unfold read in Hr. rewrite (proj2 (Z.eqb_neq _ _)) in Hr by lia.
  destruct p as [[obj off]|]; [|done]. destruct (m !! obj) as [k|] eqn:Hk; [|done].
  apply bind_ok_inv in Hr as (u & Hd & Hr). apply defined_ok_inv in Hd. injection Hr as <-.
  exists obj, off, k. zprop. done.
Qed.

(** A part of what can be read can be read. *)
Lemma read_prefix m p n l k : read m p n = Ok l -> 0 <= k <= n -> read m p k = Ok (ztake k l).
Proof.
  intros Hr Hk. destruct (decide (k = 0)) as [->|Hk0]; [done|].
  destruct (read_inv _ _ _ _ Hr) as (obj & off & d & -> & Hd & Ho & Hn & ->); [lia|].
  unfold read. rewrite (proj2 (Z.eqb_neq _ _)), Hd by lia. unfold defined_.
  assert ((0 <=? off) && (0 <=? k) && (off + k <=? zlen d) = true) as -> by (zbool; lia).
  rewrite bind_ok. unfold zslice. rewrite ztake_ztake. do 2 f_equal. lia.
Qed.

Lemma views_prefix m s l k : views m s l -> 0 <= k <= zlen l -> read m (ptr_ s) (wrapu 64 k) = Ok (ztake k l).
Proof.
  intros (H1 & H2 & H3) Hk. rewrite wrapu_small by lia. apply (read_prefix _ _ (length_ s)); [done|lia].
Qed.

Lemma compare_bytes_eq x y : zlen x = zlen y -> compare_bytes x y = 0 <-> x = y.
Proof.
  revert y. induction x as [|a x IH]; intros [|b y] Hl; cbn [compare_bytes].
  - done.
  - rewrite zlen_cons, zlen_nil in Hl. pose proof (zlen_nonneg y). lia.
  - rewrite zlen_cons, zlen_nil in Hl. pose proof (zlen_nonneg x). lia.
  - rewrite !zlen_cons in Hl. zcase (byte_val a <? byte_val b); [split; [done|intros [= -> ->]; lia]|].
    zcase (byte_val b <? byte_val a); [split; [done|intros [= -> ->]; lia]|].
    rewrite IH by lia. split; [|by intros [= _ ->]]. intros ->.
    assert (byte_val a = byte_val b) as Eab by lia.
    by rewrite <- (byte_of_val a), Eab, byte_of_val.
Qed.

(** ** The order of byte strings *)

(** The dictionary order of the bytes, shorter first. *)
Fixpoint dictionary (x y : list byte) : comparison :=
  match x, y with
  | [], [] => Eq
  | [], _ :: _ => Lt
  | _ :: _, [] => Gt
  | a :: x, b :: y =>
      match byte_val a ?= byte_val b with Eq => dictionary x y | c => c end
  end.
Definition sign (c : comparison) : Z := match c with Lt => -1 | Eq => 0 | Gt => 1 end.

(** The comparison of the common part, then of the lengths. *)
Definition by_parts (x y : list byte) : Z :=
  let n := Z.min (zlen x) (zlen y) in
  let r := compare_bytes (ztake n x) (ztake n y) in
  if r =? 0 then sign (zlen x ?= zlen y) else r.

Lemma ztake_succ {A} n (a : A) l : 0 <= n -> ztake (1 + n) (a :: l) = a :: ztake n l.
Proof. intros Hn. unfold ztake. by replace (Z.to_nat (1 + n)) with (S (Z.to_nat n)) by lia. Qed.

Lemma by_parts_dictionary x y : by_parts x y = sign (dictionary x y).
Proof.
  revert y. induction x as [|a x IH]; intros [|b y].
  - done.
  - unfold by_parts. cbn [dictionary sign]. rewrite (@zlen_nil byte), zlen_cons. pose proof (zlen_nonneg y).
    rewrite Z.min_l, !ztake_nonpos by lia. cbn [compare_bytes Z.eqb].
    by rewrite (proj2 (Z.compare_lt_iff 0 (1 + zlen y))) by lia.
  - unfold by_parts. cbn [dictionary sign]. rewrite (@zlen_nil byte), zlen_cons. pose proof (zlen_nonneg x).
    rewrite Z.min_r, !ztake_nonpos by lia. cbn [compare_bytes Z.eqb].
    by rewrite (proj2 (Z.compare_gt_iff (1 + zlen x) 0)) by lia.
  - unfold by_parts. cbv zeta. rewrite !zlen_cons.
    pose proof (zlen_nonneg x). pose proof (zlen_nonneg y).
    replace (Z.min (1 + zlen x) (1 + zlen y)) with (1 + Z.min (zlen x) (zlen y)) by lia.
    rewrite !ztake_succ by lia. cbn [compare_bytes dictionary].
    destruct (Z.compare_spec (byte_val a) (byte_val b)) as [E|E|E].
    + rewrite E, Z.ltb_irrefl, <- IH. unfold by_parts. cbv zeta.
      by replace (1 + zlen x ?= 1 + zlen y) with (zlen x ?= zlen y)
        by (destruct (Z.compare_spec (zlen x) (zlen y)), (Z.compare_spec (1 + zlen x) (1 + zlen y)); done || lia).
    + by rewrite (proj2 (Z.ltb_lt _ _)) by lia.
    + rewrite (proj2 (Z.ltb_ge _ _)), (proj2 (Z.ltb_lt _ _)) by lia. done.
Qed.

Lemma sign_eq c d : sign c = sign d -> c = d.
Proof. by destruct c, d. Qed.

Lemma compare_bytes_cases x y : In (compare_bytes x y) [-1; 0; 1].
Proof.
  revert y. induction x as [|a x IH]; intros [|b y]; cbn [compare_bytes]; try (cbn; auto; fail).
  destruct (_ <? _); [cbn; auto|]. destruct (_ <? _); [cbn; auto|apply IH].
Qed.

(** memcmp(3) of the common part. *)
Lemma memcmp_common m s t x y : views m s x -> views m t y ->
  memcmp m (ptr_ s) (ptr_ t) (if length_ s <? length_ t then length_ s else length_ t) =
    Ok (compare_bytes (ztake (Z.min (zlen x) (zlen y)) x) (ztake (Z.min (zlen x) (zlen y)) y)).
Proof.
  intros Hs Ht. unfold memcmp. pose proof (zlen_nonneg x). pose proof (zlen_nonneg y).
  assert ((if length_ s <? length_ t then length_ s else length_ t) = Z.min (zlen x) (zlen y)) as ->.
  { destruct Hs as [-> _], Ht as [-> _]. zcase (zlen x <? zlen y); lia. }
  by rewrite (views_prefix m s x), (views_prefix m t y) by (done || lia).
Qed.

(** memcmp(3) of the first [n] bytes tells whether they are equal. *)
Lemma memcmp_prefix m s t x y n : views m s x -> views m t y -> 0 <= n -> n <= zlen x -> n <= zlen y ->
  (r ← memcmp m (ptr_ s) (ptr_ t) n; Ok (r =? 0)) = Ok (bool_decide (ztake n x = ztake n y)).
Proof.
  intros Hs Ht Hn Hx Hy. unfold memcmp. rewrite (views_prefix m s x), (views_prefix m t y) by (done || lia).
  rewrite !bind_ok. f_equal. apply eq_true_iff_eq. rewrite Z.eqb_eq, bool_decide_eq_true.
  apply compare_bytes_eq. rewrite !zlen_ztake. lia.
Qed.

Lemma eq_bytes m s t x y : views m s x -> views m t y -> eq m s t = Ok (bool_decide (x = y)).
Proof.
  intros Hs Ht. pose proof Hs as (Hls & _). pose proof Ht as (Hlt & _). unfold eq. rewrite Hls, Hlt.
  pose proof (zlen_nonneg x). zcase (zlen x =? zlen y).
  - rewrite (memcmp_prefix m s t x y) by (done || lia). by rewrite !ztake_all by lia.
  - by rewrite bool_decide_eq_false_2 by (by intros ->).
Qed.

Lemma starts_bytes m s t x y : views m s x -> views m t y ->
  starts_with m s t = Ok (bool_decide (y `prefix_of` x)).
Proof.
  intros Hs Ht. pose proof Hs as (Hls & _). pose proof Ht as (Hlt & _). unfold starts_with. rewrite Hls, Hlt.
  pose proof (zlen_nonneg y). zcase (zlen y <=? zlen x).
  - rewrite (memcmp_prefix m s t x y) by (done || lia). rewrite (ztake_all _ y) by lia. f_equal.
    apply bool_decide_ext. split.
    + intros Hp. exists (zdrop (zlen y) x). by rewrite <- Hp at 1; rewrite ztake_zdrop.
    + intros [k ->]. rewrite ztake_app_le by lia. apply ztake_all. lia.
  - rewrite bool_decide_eq_false_2; [done|]. intros [k ->]. rewrite zlen_app in *.
    pose proof (zlen_nonneg k). lia.
Qed.

(** ** Properties *)

(** [C40] The order of pieces.  On two valid views, [compare] has the sign of the
    dictionary order of their bytes (unsigned, a proper prefix first), [<] and [>]
    decide it, [==] decides equality of the bytes and [starts_with] being a prefix;
    but [<=] is [<] and [>=] is [>]: no piece is [<=] itself. *)
Theorem string_piece_order m s t x y : views m s x -> views m t y ->
  compare m s t = Ok (sign (dictionary x y)) /\
  lt m s t = Ok (match dictionary x y with Lt => true | _ => false end) /\
  gt m s t = Ok (match dictionary x y with Gt => true | _ => false end) /\
  le m s t = lt m s t /\ ge m s t = gt m s t /\
  eq m s t = Ok (bool_decide (x = y)) /\
  starts_with m s t = Ok (bool_decide (y `prefix_of` x)).
Proof.
  intros Hs Ht. pose proof (memcmp_common m s t x y Hs Ht) as Hc. pose proof (by_parts_dictionary x y) as Hd.
  rewrite (eq_bytes m s t x y Hs Ht), (starts_bytes m s t x y Hs Ht).
  unfold compare, lt, gt, le, ge, binary_predicate. rewrite Hc, !bind_ok. unfold by_parts in Hd. cbv zeta in Hd.
  pose proof (compare_bytes_cases (ztake (Z.min (zlen x) (zlen y)) x) (ztake (Z.min (zlen x) (zlen y)) y)) as Hr.
  set (r := compare_bytes _ _) in *. destruct Hs as (-> & _), Ht as (-> & _).
  destruct Hr as [E|[E|[E|[]]]]; rewrite <- E in *; cbn [Z.eqb] in *.
  - destruct (dictionary x y); by split_and!.
  - apply sign_eq in Hd. rewrite <- Hd. unfold Z.gtb, Z.ltb. rewrite (Z.compare_antisym (zlen x) (zlen y)).
    destruct (zlen x ?= zlen y); by split_and!.
  - destruct (dictionary x y); by split_and!.
Qed.

(** "abc" against "abd" and against itself. *)
Lemma string_piece_order_witness :
  let m : memory := {[ 1 := bytes_of "abc"; 2 := bytes_of "xabd" ]} in
  let s := mkPiece (Some (1, 0)) 3 in let t := mkPiece (Some (2, 1)) 3 in
  lt m s t = Ok true /\ le m s s = Ok false /\ eq m s s = Ok true.
Proof.
  intros m s t.
  assert (views m s (bytes_of "abc")) as Hs by (split_and!; vm_compute; reflexivity).
  assert (views m t (bytes_of "abd")) as Ht by (split_and!; vm_compute; reflexivity).
  split_and!.
  - destruct (string_piece_order m s t _ _ Hs Ht) as (_ & -> & _). reflexivity.
  - destruct (string_piece_order m s s _ _ Hs Hs) as (_ & El & _ & -> & _). rewrite El. reflexivity.
  - destruct (string_piece_order m s s _ _ Hs Hs) as (_ & _ & _ & _ & _ & -> & _). reflexivity.
Defined.

End StringPiece.
