(* ===== verification/Sockets.v ===== *)
(** * Socket addresses and calls: SocketsOps.cc, InetAddress.h, InetAddress.cc

    An [InetAddress] is a union of a [sockaddr_in] and a [sockaddr_in6]: the
    model keeps its 28 bytes, and both views read and write them at the offsets
    of the structures.  The answers of the system calls and the textual forms of
    [inet_ntop(3)] and [inet_pton(3)] are parameters. *)

From S2P Require Import Prelude Endian Text.

Module Sockets.

Definition AF_INET : Z := 2.
Definition AF_INET6 : Z := 10.
Definition INET_ADDRSTRLEN : Z := 16.
Definition INET6_ADDRSTRLEN : Z := 46.

(** ** The bytes of an address *)

Definition storage : Type := list byte.
Definition sizeof_sockaddr_in : Z := 16.
Definition sizeof_sockaddr_in6 : Z := 28.

Definition sin_family (a : storage) : Z := le_value (zslice 0 2 a).
Definition sin_port (a : storage) : Z := le_value (zslice 2 4 a).
Definition sin_addr (a : storage) : list byte := zslice 4 8 a.
Definition sin6_addr (a : storage) : list byte := zslice 8 24 a.
Definition sin6_scope_id (a : storage) : Z := le_value (zslice 24 28 a).

(** Stores into a structure, and [bzero] of its first [n] bytes. *)
Definition put_u16 (off v : Z) (a : storage) : storage := zwrite off (le_bytes 2 v) a.
Definition put_u32 (off v : Z) (a : storage) : storage := zwrite off (le_bytes 4 v) a.
Definition bzero (n : Z) (a : storage) : storage := zwrite 0 (zreplicate n Byte.x00) a.

Definition INADDR_ANY : Z := 0.
Definition INADDR_LOOPBACK : Z := 0x7f000001.
Definition in6addr_any : list byte := zreplicate 16 Byte.x00.
Definition in6addr_loopback : list byte := zreplicate 15 Byte.x00 ++ [Byte.x01].

Section Addresses.
(** The text of a binary address, and the binary address of a text. *)
Context (inet_ntop4 inet_ntop6 : list byte -> list byte).
Context (inet_pton4 inet_pton6 : list byte -> option (list byte)).

(** A text that does not parse is only logged. *)
Definition fromIpPort4 (ip : list byte) (port : Z) (a : storage) : storage :=
  let a := put_u16 0 AF_INET a in
  let a := put_u16 2 (hostToNetwork16 port) a in
  match inet_pton4 ip with Some b => zwrite 4 b a | None => a end.
Definition fromIpPort6 (ip : list byte) (port : Z) (a : storage) : storage :=
  let a := put_u16 0 AF_INET6 a in
  let a := put_u16 2 (hostToNetwork16 port) a in
  match inet_pton6 ip with Some b => zwrite 8 b a | None => a end.

(** The text in a zeroed buffer of [size] characters; one that does not fit is
    not written. *)
Definition written (size : Z) (text : list byte) : list byte :=
  if zlen text <? size then text else [].

Definition toIp (size : Z) (a : storage) : result (list byte) :=
  if sin_family a =? AF_INET then
    _ ← assert_ (INET_ADDRSTRLEN <=? size); Ok (written size (inet_ntop4 (sin_addr a)))
  else if sin_family a =? AF_INET6 then
    _ ← assert_ (INET6_ADDRSTRLEN <=? size); Ok (written size (inet_ntop6 (sin6_addr a)))
  else Ok [].

Definition toIpPort (size : Z) (a : storage) : result (list byte) :=
  if sin_family a =? AF_INET6 then
    ip ← toIp (size - 1) a;
    let buf := bytes_of "[" ++ ip in
    let port := networkToHost16 (sin_port a) in
    _ ← assert_ (zlen buf <? size);
    Ok (buf ++ Text.snprintf (size - zlen buf) (bytes_of "]:" ++ Text.decimal port))
  else
    buf ← toIp size a;
    let port := networkToHost16 (sin_port a) in
    _ ← assert_ (zlen buf <? size);
    Ok (buf ++ Text.snprintf (size - zlen buf) (bytes_of ":" ++ Text.decimal port)).

(** ** [InetAddress] *)

(** The constructors, on storage with unspecified bytes [old]. *)
Definition any_address (port : Z) (loopback_only ipv6 : bool) (old : storage) : storage :=
  if ipv6 then
    let a := bzero sizeof_sockaddr_in6 old in
    let a := put_u16 0 AF_INET6 a in
    let a := zwrite 8 (if loopback_only then in6addr_loopback else in6addr_any) a in
    put_u16 2 (hostToNetwork16 port) a
  else
    let a := bzero sizeof_sockaddr_in old in
    let a := put_u16 0 AF_INET a in
    let a := put_u32 4 (hostToNetwork32 (if loopback_only then INADDR_LOOPBACK else INADDR_ANY)) a in
    put_u16 2 (hostToNetwork16 port) a.

Definition ip_address (ip : list byte) (port : Z) (ipv6 : bool) (old : storage) : storage :=
  if ipv6 then fromIpPort6 ip port (bzero sizeof_sockaddr_in6 old)
  else fromIpPort4 ip port (bzero sizeof_sockaddr_in old).

Definition family (a : storage) : Z := sin_family a.
Definition portNetEndian (a : storage) : Z := sin_port a.
Definition port (a : storage) : Z := networkToHost16 (portNetEndian a).
Definition ipv4NetEndian (a : storage) : result Z :=
  _ ← assert_ (family a =? AF_INET); Ok (le_value (sin_addr a)).

Definition address_toIp (a : storage) : result (list byte) := toIp 64 a.
Definition address_toIpPort (a : storage) : result (list byte) := toIpPort 64 a.

Definition setScopeId (scope_id : Z) (a : storage) : storage :=
  if family a =? AF_INET6 then put_u32 24 scope_id a else a.

(** The answer of [gethostbyname_r]: the type, length and first address of the
    host, or nothing. *)
Definition resolve (answer : option (Z * list byte)) (out : storage) : result (bool * storage) :=
  match answer with
  | Some (addrtype, addr) =>
      _ ← assert_ ((addrtype =? AF_INET) && (zlen addr =? 4));
      Ok (true, zwrite 4 addr out)
  | None => Ok (false, out)
  end.

End Addresses.

(** ** Calls *)

(** [socket(2)] answered [sockfd]. *)
Definition createNonblockingOrDie (sockfd : Z) : result Z :=
  if sockfd <? 0 then Err Aborted else Ok sockfd.
Definition bindOrDie (ret : Z) : result unit := if ret <? 0 then Err Aborted else Ok tt.
Definition listenOrDie (ret : Z) : result unit := if ret <? 0 then Err Aborted else Ok tt.

Definition EPERM : Z := 1.
Definition EINTR : Z := 4.
Definition EBADF : Z := 9.
Definition EAGAIN : Z := 11.
Definition EACCES : Z := 13.
Definition EFAULT : Z := 14.
Definition EMFILE : Z := 24.
Definition EPROTO : Z := 71.
Definition ENOTSOCK : Z := 88.
Definition EAFNOSUPPORT : Z := 97.
Definition EADDRINUSE : Z := 98.
Definition EADDRNOTAVAIL : Z := 99.
Definition ENETUNREACH : Z := 101.
Definition ECONNABORTED : Z := 103.
Definition EISCONN : Z := 106.
Definition ECONNREFUSED : Z := 111.
Definition EALREADY : Z := 114.
Definition EINPROGRESS : Z := 115.

Inductive accept_answer := Accepted (connfd : Z) (addr : storage) | AcceptError (err : Z).

(** The errors that [sockets::accept] passes on; any other ends the process. *)
Definition expected_accept_error (err : Z) : bool :=
  existsb (Z.eqb err) [EAGAIN; ECONNABORTED; EINTR; EPROTO; EPERM; EMFILE].
Definition accept (answer : accept_answer) : result accept_answer :=
  match answer with
  | Accepted _ _ => Ok answer
  | AcceptError err => if expected_accept_error err then Ok answer else Err Aborted
  end.

(** [getsockopt(2)] failed with an error, or delivered the pending one. *)
Definition getSocketError (answer : Z + Z) : Z :=
  match answer with inl err => err | inr optval => optval end.

(** [getsockname(2)] and [getpeername(2)] write the address they answer over zeros;
    a failure is logged. *)
Definition getLocalAddr (answer : option storage) : storage :=
  let localaddr := zreplicate sizeof_sockaddr_in6 Byte.x00 in
  match answer with Some a => zwrite 0 (ztake sizeof_sockaddr_in6 a) localaddr | None => localaddr end.
Definition getPeerAddr (answer : option storage) : storage :=
  let peeraddr := zreplicate sizeof_sockaddr_in6 Byte.x00 in
  match answer with Some a => zwrite 0 (ztake sizeof_sockaddr_in6 a) peeraddr | None => peeraddr end.

(** On the local and the peer address of the socket. *)
Definition isSelfConnect (localaddr peeraddr : storage) : bool :=
  if sin_family localaddr =? AF_INET then
    (sin_port localaddr =? sin_port peeraddr) &&
    (le_value (sin_addr localaddr) =? le_value (sin_addr peeraddr))
  else if sin_family localaddr =? AF_INET6 then
    (sin_port localaddr =? sin_port peeraddr) &&
    bool_decide (sin6_addr localaddr = sin6_addr peeraddr)
  else false.

(** ** Lemmas *)

Lemma port_swap p : 0 <= p < 2 ^ 16 ->
  networkToHost16 (le_value (le_bytes 2 (hostToNetwork16 p))) = p.
Proof.
  intros Hp. rewrite le_value_bytes. unfold networkToHost16, hostToNetwork16.
  rewrite Z.mod_small by apply bswap_range. rewrite bswap_bswap. apply Z.mod_small. lia.
Qed.

(** A text of at most five digits. *)
Lemma zlen_port p : 0 <= p < 2 ^ 16 -> zlen (Text.decimal p) <= 5.
Proof.
  intros Hp. apply (Text.zlen_decimal_le p 5); lia.
Qed.

(** What a constructor leaves in the three fields. *)
Lemma fields_written fam p off b (a : storage) :
  zlen a = 28 -> 0 <= p < 2 ^ 16 -> (fam = 2 \/ fam = 10) -> 4 <= off -> off + zlen b <= 28 ->
  let a' := zwrite off b (put_u16 2 (hostToNetwork16 p) (put_u16 0 fam a)) in
  zlen a' = 28 /\ sin_family a' = fam /\ port a' = p /\ zslice off (off + zlen b) a' = b.
Proof.
  intros Ha Hp Hf Ho Hb a'. unfold a', put_u16, sin_family, port, portNetEndian, sin_port.
  assert (forall x, zlen (le_bytes 2 x) = 2) as H2 by (intros; apply zlen_le_bytes).
  pose proof (zlen_nonneg b).
  assert (zlen (zwrite 0 (le_bytes 2 fam) a) = 28) as H0 by (rewrite zlen_zwrite; rewrite ?H2; lia).
  set (a0 := zwrite 0 _ _) in *.
  assert (zlen (zwrite 2 (le_bytes 2 (hostToNetwork16 p)) a0) = 28) as H1
    by (rewrite zlen_zwrite; rewrite ?H2; lia).
  split_and!.
  - rewrite zlen_zwrite; lia.
  - rewrite !zslice_zwrite_before by (rewrite ?H2; lia). unfold a0.
    pose proof (zslice_zwrite_inside 0 (le_bytes 2 fam) a ltac:(lia)) as Hin.
    rewrite H2 in Hin. change (0 + 2) with 2 in Hin. rewrite Hin by lia. by destruct Hf as [->| ->].
  - rewrite zslice_zwrite_before by lia.
    pose proof (zslice_zwrite_inside 2 (le_bytes 2 (hostToNetwork16 p)) a0 ltac:(lia)) as Hin.
    rewrite H2 in Hin. change (2 + 2) with 4 in Hin. rewrite Hin by lia. by apply port_swap.
  - apply zslice_zwrite_inside; lia.
Qed.

Lemma zlen_bzero n (a : storage) : 0 <= n <= zlen a -> zlen (bzero n a) = zlen a.
Proof. intros Hn. unfold bzero. apply zlen_zwrite; rewrite ?zlen_zreplicate; lia. Qed.

(** A text that fits is written whole, with the port. *)
Lemma print_address inet_ntop4 inet_ntop6 (ipv6 : bool) a ip :
  family a = (if ipv6 then AF_INET6 else AF_INET) ->
  (if ipv6 then inet_ntop6 (sin6_addr a) else inet_ntop4 (sin_addr a)) = ip ->
  zlen ip < (if ipv6 then INET6_ADDRSTRLEN else INET_ADDRSTRLEN) -> 0 <= port a < 2 ^ 16 ->
  address_toIp inet_ntop4 inet_ntop6 a = Ok ip /\
  address_toIpPort inet_ntop4 inet_ntop6 a =
    Ok (if ipv6 then bytes_of "[" ++ ip ++ bytes_of "]:" ++ Text.decimal (port a)
        else ip ++ bytes_of ":" ++ Text.decimal (port a)).
Proof.
  intros Hf Hip Hl Hp. pose proof (zlen_port _ Hp) as Hd. pose proof (zlen_nonneg ip).
  unfold address_toIp, address_toIpPort, toIpPort, toIp, written, Text.snprintf, port, portNetEndian,
    family, INET6_ADDRSTRLEN, INET_ADDRSTRLEN in *. rewrite Hf.
  destruct ipv6; cbn [Z.eqb Pos.eqb AF_INET AF_INET6]; rewrite Hip.
  - rewrite !(proj2 (Z.ltb_lt (zlen ip) _)) by lia.
    rewrite !assert_true, !bind_ok by (zbool; lia).
    rewrite assert_true, bind_ok by (zbool; rewrite zlen_app; change (zlen (bytes_of "[")) with 1; lia).
    split; [done|]. rewrite ztake_all; [by rewrite <- app_assoc|].
    rewrite !zlen_app. change (zlen (bytes_of "[")) with 1. change (zlen (bytes_of "]:")) with 2. lia.
  - rewrite !(proj2 (Z.ltb_lt (zlen ip) _)) by lia.
    rewrite !assert_true, !bind_ok by (zbool; lia).
    rewrite assert_true, bind_ok by (zbool; lia).
    split; [done|]. rewrite ztake_all; [done|].
    rewrite !zlen_app. change (zlen (bytes_of ":")) with 1. lia.
Qed.

(** A socket without an address is not connected to itself. *)
Lemma not_self_connected peer : isSelfConnect (getLocalAddr None) peer = false.
Proof. reflexivity. Qed.

(** ** Properties *)

(** Text of an address.  When the text of an address is the one that
    [inet_ntop] gives, the address built from it has the family asked for, gives
    the text and the port back, and prints as [ip:port], with brackets around
    the ip for IPv6: nothing is truncated and no assertion fails, whatever was in
    the storage before. *)
Theorem inet_address_roundtrip inet_ntop4 inet_ntop6 inet_pton4 inet_pton6 ip p (ipv6 : bool) b old :
  zlen old = 28 -> 0 <= p < 2 ^ 16 ->
  (if ipv6
   then inet_pton6 ip = Some b /\ zlen b = 16 /\ inet_ntop6 b = ip /\ zlen ip < INET6_ADDRSTRLEN
   else inet_pton4 ip = Some b /\ zlen b = 4 /\ inet_ntop4 b = ip /\ zlen ip < INET_ADDRSTRLEN) ->
  let a := ip_address inet_pton4 inet_pton6 ip p ipv6 old in
  family a = (if ipv6 then AF_INET6 else AF_INET) /\ port a = p /\
  address_toIp inet_ntop4 inet_ntop6 a = Ok ip /\
  address_toIpPort inet_ntop4 inet_ntop6 a =
    Ok (if ipv6 then bytes_of "[" ++ ip ++ bytes_of "]:" ++ Text.decimal p
        else ip ++ bytes_of ":" ++ Text.decimal p).
Proof.
  intros Ho Hp Hip.
  assert (forall fam off : Z, fam = (if ipv6 then AF_INET6 else AF_INET) ->
    off = (if ipv6 then 8 else 4) -> off + zlen b <= 28) as Hoff
    by (intros ? ? _ ->; destruct ipv6; destruct Hip as (_ & -> & _); lia).
  pose proof (Hoff _ _ eq_refl eq_refl) as Hb.
  set (n := if ipv6 then sizeof_sockaddr_in6 else sizeof_sockaddr_in).
  pose proof (zlen_bzero n old ltac:(rewrite Ho; unfold n; by destruct ipv6)) as Hz. rewrite Ho in Hz.
  destruct (fields_written (if ipv6 then AF_INET6 else AF_INET) p (if ipv6 then 8 else 4) b
    (bzero n old) Hz Hp) as (_ & Ef & Ep & Ea); [destruct ipv6; auto|destruct ipv6; lia|done|].
  cbn zeta. set (a := zwrite _ b _) in *.
  replace (ip_address inet_pton4 inet_pton6 ip p ipv6 old) with a.
  2:{ unfold a, n, ip_address, fromIpPort4, fromIpPort6. destruct ipv6; by destruct Hip as (-> & _). }
  clearbody a. split; [done|]. split; [done|]. rewrite <- Ep. apply print_address; [done| | |by rewrite Ep].
  - unfold sin6_addr, sin_addr. destruct ipv6; destruct Hip as (_ & Hlen & En & _); rewrite Hlen in Ea;
      [change (8 + 16) with 24 in Ea|change (4 + 4) with 8 in Ea]; by rewrite Ea.
  - by destruct ipv6; destruct Hip as (_ & _ & _ & ?).
Qed.

(** A binary address whose text is its bytes. *)
Lemma inet_address_roundtrip_witness :
  let same (l : list byte) := l in let pton (l : list byte) := Some l in
  let a := ip_address pton pton (bytes_of "1234") 8080 false (zreplicate 28 Byte.xff) in
  port a = 8080 /\ address_toIpPort same same a = Ok (bytes_of "1234:8080").
Proof.
  pose proof (inet_address_roundtrip (fun l => l) (fun l => l) Some Some (bytes_of "1234") 8080 false
    (bytes_of "1234") (zreplicate 28 Byte.xff) ltac:(reflexivity) ltac:(lia)
    ltac:(split_and!; reflexivity)) as (_ & H1 & _ & H2).
  split; [exact H1|exact H2].
Defined.

End Sockets.
