(* ===== verification/Socket.v ===== *)
(** * [dws::net::Socket]: Socket.h, Socket.cc

    The owner of a socket descriptor: which system calls its operations make,
    what they do with the answers, and the text of [tcp_info]. *)

From S2P Require Import Prelude Text Sockets.

Module Socket.
Import Sockets.

(** [sockfd_]. *)
Definition Socket : Type := Z.

Definition IPPROTO_TCP : Z := 6.
Definition TCP_NODELAY : Z := 1.
Definition SOL_SOCKET : Z := 1.
Definition SO_REUSEADDR : Z := 2.
Definition SO_KEEPALIVE : Z := 9.
Definition SO_REUSEPORT : Z := 15.
Definition SHUT_WR : Z := 1.
Definition SOMAXCONN : Z := 4096.

Inductive syscall :=
| Bind (fd : Z) (addr : storage)
| Listen (fd backlog : Z)
| Shutdown (fd how : Z)
| Close (fd : Z)
| SetSockOpt (fd level name value : Z).

(** ** Options *)

Definition optval (on : bool) : Z := if on then 1 else 0.

Definition setTcpNoDelay (on : bool) (s : Socket) : syscall := SetSockOpt s IPPROTO_TCP TCP_NODELAY (optval on).
Definition setReuseAddr (on : bool) (s : Socket) : syscall := SetSockOpt s SOL_SOCKET SO_REUSEADDR (optval on).
Definition setKeepAlive (on : bool) (s : Socket) : syscall := SetSockOpt s SOL_SOCKET SO_KEEPALIVE (optval on).

(** With whether the answer [ret] makes an error line. *)
Definition setReusePort (on : bool) (ret : Z) (s : Socket) : syscall * bool :=
  (SetSockOpt s SOL_SOCKET SO_REUSEPORT (optval on), (ret <? 0) && on).

(** ** Calls, given the answer of the kernel *)

Definition bindAddress (localaddr : storage) (ret : Z) (s : Socket) : result syscall :=
  _ ← bindOrDie ret; Ok (Bind s localaddr).
Definition listen (ret : Z) (s : Socket) : result syscall :=
  _ ← listenOrDie ret; Ok (Listen s SOMAXCONN).

(** The address is given to the caller only with a descriptor. *)
Definition accept (answer : accept_answer) (peeraddr : storage) (s : Socket) : result (Z * storage) :=
  a ← Sockets.accept answer;
  Ok match a with
     | Accepted connfd addr => if 0 <=? connfd then (connfd, addr) else (connfd, peeraddr)
     | AcceptError _ => (-1, peeraddr)
     end.

(** [shutdownWrite] and the destructor log a failure and go on. *)
Definition shutdownWrite (s : Socket) : syscall := Shutdown s SHUT_WR.
Definition destructor (s : Socket) : syscall := Close s.

(** ** [getTcpInfoString] *)

Record tcp_info := mkTcpInfo {
  tcpi_retransmits : Z;
  tcpi_rto : Z; tcpi_ato : Z; tcpi_snd_mss : Z; tcpi_rcv_mss : Z;
  tcpi_lost : Z; tcpi_retrans : Z; tcpi_rtt : Z; tcpi_rttvar : Z;
  tcpi_snd_ssthresh : Z; tcpi_snd_cwnd : Z; tcpi_total_retrans : Z
}.

(** The labels and the values of the format, in order. *)
Definition tcp_info_fields (t : tcp_info) : list (string * Z) :=
  [("unrecovered=", tcpi_retransmits t); (" rto=", tcpi_rto t); (" ato=", tcpi_ato t);
   (" snd_mss=", tcpi_snd_mss t); (" rcv_mss=", tcpi_rcv_mss t); (" lost=", tcpi_lost t);
   (" retrans=", tcpi_retrans t); (" rtt=", tcpi_rtt t); (" rttvar=", tcpi_rttvar t);
   (" sshthresh=", tcpi_snd_ssthresh t); (" cwnd=", tcpi_snd_cwnd t);
   (" total_retrans=", tcpi_total_retrans t)]%string.
Definition tcp_info_text (t : tcp_info) : list byte :=
  concat (map (fun f => bytes_of (fst f) ++ Text.decimal (snd f)) (tcp_info_fields t)).

(** [getTcpInfo] answered [info], or failed: then [buf] is left alone. *)
Definition getTcpInfoString (info : option tcp_info) (buf : list byte) (len : Z) : bool * list byte :=
  match info with
  | Some t => (true, Text.snprintf len (tcp_info_text t))
  | None => (false, buf)
  end.

(** [TcpConnection::getTcpInfoString], as the text up to the terminator. *)
Definition connection_tcp_info (info : option tcp_info) : list byte := snd (getTcpInfoString info [] 1024).

(** ** Bounds *)

Definition unsigned_fields (t : tcp_info) : Prop := Forall (fun f => 0 <= snd f < 2 ^ 32) (tcp_info_fields t).

Lemma zlen_unsigned v : 0 <= v < 2 ^ 32 -> zlen (Text.decimal v) <= 10.
Proof.
  intros Hv. apply (Text.zlen_decimal_le v 10); lia.
Qed.

(** The whole text fits in a buffer of 256 characters. *)
Lemma tcp_info_fits t buf len : unsigned_fields t -> 256 <= len ->
  getTcpInfoString (Some t) buf len = (true, tcp_info_text t).
Proof.
  intros Ht Hlen. cbn [getTcpInfoString]. f_equal. unfold Text.snprintf. apply ztake_all.
  assert (forall l : list (string * Z), Forall (fun f => 0 <= snd f < 2 ^ 32) l ->
    zlen (concat (map (fun f => bytes_of (fst f) ++ Text.decimal (snd f)) l)) <=
    zlen (concat (map (fun f => bytes_of (fst f)) l)) + 10 * zlen l) as Hl.
  { induction 1 as [|f l Hf _ IH]; [done|]. cbn [map concat]. rewrite !zlen_app, zlen_cons.
    pose proof (zlen_unsigned _ Hf). lia. }
  specialize (Hl _ Ht). fold (tcp_info_text t) in Hl.
  assert (zlen (concat (map (fun f => bytes_of (fst f)) (tcp_info_fields t))) + 10 * zlen (tcp_info_fields t) = 220)
    as E by reflexivity. lia.
Qed.

(** An error that is expected gives no descriptor and no address. *)
Lemma accept_expected err peeraddr s : expected_accept_error err = true ->
  accept (AcceptError err) peeraddr s = Ok (-1, peeraddr).
Proof. intros He. unfold accept, Sockets.accept. by rewrite He. Qed.

End Socket.
