(* ===== verification/Timestamp.v ===== *)
(** * [dws::Timestamp]: Timestamp.h, Timestamp.cc

    Microseconds since the epoch in an [int64_t]; differences and sums with
    [double] seconds use the binary64 arithmetic of the standard library's
    SpecFloat. *)

From Stdlib Require Import SpecFloat.
From S2P Require Import Prelude Text.

Module Timestamp.

Definition kMicroSecondsPerSecond : Z := 1000 * 1000.

Record Timestamp := mkTimestamp { microSecondsSinceEpoch_ : Z }.

Definition default : Timestamp := mkTimestamp 0.
Definition invalid : Timestamp := default.

Definition valid (t : Timestamp) : bool := 0 <? microSecondsSinceEpoch_ t.

(** [time_t] has 64 bits; [int64_t / int] truncates. *)
Definition secondsSinceEpoch (t : Timestamp) : Z :=
  Z.quot (microSecondsSinceEpoch_ t) kMicroSecondsPerSecond.

Definition fromUnixTime (t microseconds : Z) : result Timestamp :=
  _ ← no_overflow 64 [t * kMicroSecondsPerSecond; t * kMicroSecondsPerSecond + microseconds];
  Ok (mkTimestamp (t * kMicroSecondsPerSecond + microseconds)).

(** [now] on the [timeval] that gettimeofday(2) filled in. *)
Definition now_of (tv_sec tv_usec : Z) : result Timestamp := fromUnixTime tv_sec tv_usec.

Definition lt (x y : Timestamp) : bool := microSecondsSinceEpoch_ x <? microSecondsSinceEpoch_ y.
Definition gt (x y : Timestamp) : bool := microSecondsSinceEpoch_ y <? microSecondsSinceEpoch_ x.
Definition eq (x y : Timestamp) : bool := microSecondsSinceEpoch_ x =? microSecondsSinceEpoch_ y.
Definition ne (x y : Timestamp) : bool := negb (eq x y).
Definition le (x y : Timestamp) : bool := negb (lt y x).
Definition ge (x y : Timestamp) : bool := negb (lt x y).

Definition swap (x y : Timestamp) : Timestamp * Timestamp := (y, x).

(** ** Text *)

Definition toString (t : Timestamp) : list byte :=
  let seconds := Z.quot (microSecondsSinceEpoch_ t) kMicroSecondsPerSecond in
  let microseconds := Z.rem (microSecondsSinceEpoch_ t) kMicroSecondsPerSecond in
  Text.snprintf 32 (Text.decimal seconds ++ bytes_of "." ++ Text.decimal0 6 microseconds).

(** The fields of a [struct tm]. *)
Record tm := mkTm { tm_year : Z; tm_mon : Z; tm_mday : Z; tm_hour : Z; tm_min : Z; tm_sec : Z }.

(** [localtime_r] is a parameter. *)
Definition toFormattedString (localtime_r : Z -> tm) (t : Timestamp) (showMicroseconds : bool)
  : list byte :=
  let seconds := Z.quot (microSecondsSinceEpoch_ t) kMicroSecondsPerSecond in
  let d := localtime_r seconds in
  let date := Text.decimal_sp 4 (tm_year d + 1900) ++ Text.decimal0 2 (tm_mon d + 1) ++
    Text.decimal0 2 (tm_mday d) ++ bytes_of " " ++ Text.decimal0 2 (tm_hour d) ++ bytes_of ":" ++
    Text.decimal0 2 (tm_min d) ++ bytes_of ":" ++ Text.decimal0 2 (tm_sec d) in
  if showMicroseconds then
    let microseconds := wraps 32 (Z.rem (microSecondsSinceEpoch_ t) kMicroSecondsPerSecond) in
    Text.snprintf 64 (date ++ bytes_of "." ++ Text.decimal0 6 microseconds)
  else Text.snprintf 64 date.

(** ** Doubles *)

Definition double : Type := spec_float.
Definition prec : Z := 53.
Definition emax : Z := 1024.

(** An integer as a double, rounded to nearest. *)
Definition of_int (z : Z) : double := binary_normalize prec emax z 0 false.

Definition million : double := of_int kMicroSecondsPerSecond.

(** Conversion to [int64_t] truncates; out of range it is undefined. *)
Definition to_int64 (d : double) : result Z :=
  match d with
  | S754_zero _ => Ok 0
  | S754_finite s m e =>
      let a := if 0 <=? e then Zpos m * 2 ^ e else Zpos m / 2 ^ (- e) in
      let z := if s then - a else a in
      _ ← no_overflow 64 [z];
      Ok z
  | _ => Err UndefinedBehaviour
  end.

Definition is_positive (d : double) : bool := SFltb (S754_zero false) d.

Definition timeDifference (high low : Timestamp) : result double :=
  let diff := microSecondsSinceEpoch_ high - microSecondsSinceEpoch_ low in
  _ ← no_overflow 64 [diff];
  Ok (SFdiv prec emax (of_int diff) million).

Definition addTime (t : Timestamp) (seconds : double) : result Timestamp :=
  delta ← to_int64 (SFmul prec emax seconds million);
  _ ← no_overflow 64 [microSecondsSinceEpoch_ t + delta];
  Ok (mkTimestamp (microSecondsSinceEpoch_ t + delta)).

(** 0.1 s is 100000 microseconds, 1.5 s 1500000. *)
Example addTime_tenth :
  addTime (mkTimestamp 5) (SFdiv prec emax (of_int 1) (of_int 10)) = Ok (mkTimestamp 100005).
Proof. vm_compute. reflexivity. Qed.

(** ** Properties *)

(** Reading [seconds.microseconds] back. *)
Fixpoint split_dot (l : list byte) : list byte * list byte :=
  match l with
  | [] => ([], [])
  | b :: l => if bool_decide (b = Byte.x2e) then ([], l) else let '(x, y) := split_dot l in (b :: x, y)
  end.
Definition parse (l : list byte) : Z :=
  let '(s, us) := split_dot l in
  Text.digits_value 0 s * kMicroSecondsPerSecond + Text.digits_value 0 us.

Lemma split_dot_app s us : Byte.x2e ∉ s -> split_dot (s ++ Byte.x2e :: us) = (s, us).
Proof.
  induction s as [|b s IH]; intros Hs; [done|]. apply not_elem_of_cons in Hs as [Hb Hs].
  cbn. rewrite bool_decide_false by congruence. by rewrite IH.
Qed.

(** Text of a time.  For every time from the epoch to the end of [int64_t],
    [toString] fits its 32 characters whole, has six digits after the dot, and
    the seconds and microseconds read back are the time. *)
Theorem timestamp_text_roundtrip t :
  0 <= microSecondsSinceEpoch_ t < 2 ^ 63 ->
  zlen (toString t) < 31 /\ zlen (snd (split_dot (toString t))) = 6 /\
  parse (toString t) = microSecondsSinceEpoch_ t.
Proof.
  intros Ht. unfold toString, kMicroSecondsPerSecond. set (z := microSecondsSinceEpoch_ t) in *.
  rewrite Z.quot_div_nonneg, Z.rem_mod_nonneg by lia. set (s := z / _). set (us := z mod _).
  assert (0 <= s < 10 ^ Z.of_nat 13) as Hs by (unfold s; div_lia).
  assert (0 <= us < 10 ^ Z.of_nat 6) as Hus by (unfold us; div_lia).
  assert (s * 1000000 + us = z) as Hz by (unfold s, us; div_lia).
  unfold Text.decimal. zcase (s <? 0); [lia|].
  pose proof (Text.length_udec (Text.dec_fuel s) s 13 Hs ltac:(lia)) as Hl.
  pose proof (Text.decimal0_width 6 us 6 Hus ltac:(lia) eq_refl) as Hw.
  unfold Text.snprintf. rewrite ztake_all.
  2:{ rewrite !zlen_app, Hw. change (zlen (bytes_of ".")) with 1. unfold zlen. lia. }
  unfold parse. rewrite (split_dot_app _ (Text.decimal0 6 us)) by (by apply Text.udec_not; [lia|]).
  cbn [snd]. rewrite Text.udec_dec_fuel, Text.decimal0_value by lia. split_and!; [|done|done].
  rewrite !zlen_app, Hw. change (zlen (bytes_of ".")) with 1. unfold zlen. lia.
Qed.

Lemma timestamp_text_roundtrip_witness :
  toString (mkTimestamp 1700000000000042) = bytes_of "1700000000.000042" /\
  parse (toString (mkTimestamp 1700000000000042)) = 1700000000000042.
Proof.
  split; [vm_compute; reflexivity|].
  apply (timestamp_text_roundtrip (mkTimestamp 1700000000000042)). cbn. lia.
Defined.

End Timestamp.
