(* ===== verification/TimerQueue.v ===== *)
(** * [dws::net::TimerQueue]: TimerQueue.h/.cc, Timer.h/.cc, TimerId.h

    The timers of a loop: a set ordered by expiration, a set of the timers in
    it by address and number, and the heap the [Timer] objects live in.  The
    channel of the timerfd is in Channel.v; here is what its read callback and
    the two entry points [addTimer] and [cancel] do. *)

From Stdlib Require Import Sorting.Sorted.
From S2P Require Import Prelude Timestamp.
Import Timestamp (double, addTime, is_positive).

Module TimerQueue.

(** ** Timers *)

(** [callback_] is a name. *)
Record Timer := mkTimer {
  callback_ : Z;
  expiration_ : Z;
  interval_ : double;
  repeat_ : bool;
  sequence_ : Z
}.

Definition restart (now : Z) (t : Timer) : result Timer :=
  if repeat_ t then
    e ← addTime (Timestamp.mkTimestamp now) (interval_ t);
    Ok (mkTimer (callback_ t) (Timestamp.microSecondsSinceEpoch_ e) (interval_ t) (repeat_ t)
          (sequence_ t))
  else Ok (mkTimer (callback_ t) (Timestamp.microSecondsSinceEpoch_ Timestamp.invalid)
             (interval_ t) (repeat_ t) (sequence_ t)).

(** [TimerId], and [ActiveTimer]: an address and a number. *)
Definition TimerId : Type := Z * Z.

(** ** The ordered set [TimerList] *)

(** [Entry]: an expiration and an address, compared in that order. *)
Definition Entry : Type := Z * Z.

Definition entry_lt (x y : Entry) : bool :=
  (fst x <? fst y) || ((fst x =? fst y) && (snd x <? snd y)).

(** [std::set::insert]: the new set, and whether the element was not there. *)
Fixpoint set_insert (e : Entry) (l : list Entry) : list Entry * bool :=
  match l with
  | [] => ([e], true)
  | x :: l' =>
      if entry_lt e x then (e :: l, true)
      else if entry_lt x e then
        let '(l', b) := set_insert e l' in (x :: l', b)
      else (l, false)
  end.

(** [std::set::erase] by key, with the number of elements erased. *)
Fixpoint set_erase (e : Entry) (l : list Entry) : list Entry * nat :=
  match l with
  | [] => ([], 0%nat)
  | x :: l' => if bool_decide (x = e) then (l', 1%nat)
               else let '(l', n) := set_erase e l' in (x :: l', n)
  end.

(** [lower_bound]: the elements less than [e], and the others. *)
Fixpoint split_lower (e : Entry) (l : list Entry) : list Entry * list Entry :=
  match l with
  | [] => ([], [])
  | x :: l' => if entry_lt x e then let '(a, b) := split_lower e l' in (x :: a, b) else ([], l)
  end.

(** ** The timer queue *)

(** What waits in the loop's functor queue. *)
Inductive task := AddTask (timer : Z) | CancelTask (id : TimerId).

(** What a timer callback does to the queue. *)
Inductive action := Add (cb : Z) (when : Z) (interval : double) | Cancel (id : TimerId).

(** [inLoop]: the running thread is the loop's.  [heap]: the live timers.  [numCreated]: [Timer::s_numCreated_].  [armed]: the
    expiration the timerfd is set for, if it has not fired.  [reads]: how often
    the clock was read.  [tasks]: the functors sent to the loop.  [ran]: the
    timers run so far, by address and number. *)
Record TimerQueue := mkTQ {
  timers_ : list Entry;
  activeTimers_ : gset (Z * Z);
  callingExpiredTimers_ : bool;
  cancelingTimers_ : gset (Z * Z);
  heap : gmap Z Timer;
  numCreated : Z;
  armed : option Z;
  reads : nat;
  tasks : list task;
  ran : list (Z * Z);
  inLoop : bool
}.

Definition with_timers (l : list Entry) (s : gset (Z * Z)) (w : TimerQueue) : TimerQueue :=
  mkTQ l s (callingExpiredTimers_ w) (cancelingTimers_ w) (heap w) (numCreated w) (armed w)
    (reads w) (tasks w) (ran w) (inLoop w).
Definition with_heap (h : gmap Z Timer) (w : TimerQueue) : TimerQueue :=
  mkTQ (timers_ w) (activeTimers_ w) (callingExpiredTimers_ w) (cancelingTimers_ w) h
    (numCreated w) (armed w) (reads w) (tasks w) (ran w) (inLoop w).
Definition with_calling (b : bool) (c : gset (Z * Z)) (w : TimerQueue) : TimerQueue :=
  mkTQ (timers_ w) (activeTimers_ w) b c (heap w) (numCreated w) (armed w) (reads w) (tasks w)
    (ran w) (inLoop w).
Definition with_armed (e : option Z) (n : nat) (w : TimerQueue) : TimerQueue :=
  mkTQ (timers_ w) (activeTimers_ w) (callingExpiredTimers_ w) (cancelingTimers_ w) (heap w)
    (numCreated w) e n (tasks w) (ran w) (inLoop w).
Definition with_tasks (ts : list task) (w : TimerQueue) : TimerQueue :=
  mkTQ (timers_ w) (activeTimers_ w) (callingExpiredTimers_ w) (cancelingTimers_ w) (heap w)
    (numCreated w) (armed w) (reads w) ts (ran w) (inLoop w).
Definition with_created (h : gmap Z Timer) (n : Z) (w : TimerQueue) : TimerQueue :=
  mkTQ (timers_ w) (activeTimers_ w) (callingExpiredTimers_ w) (cancelingTimers_ w) h n (armed w)
    (reads w) (tasks w) (ran w) (inLoop w).
Definition with_ran (l : list (Z * Z)) (w : TimerQueue) : TimerQueue :=
  mkTQ (timers_ w) (activeTimers_ w) (callingExpiredTimers_ w) (cancelingTimers_ w) (heap w)
    (numCreated w) (armed w) (reads w) (tasks w) l (inLoop w).

Definition with_thread (b : bool) (w : TimerQueue) : TimerQueue :=
  mkTQ (timers_ w) (activeTimers_ w) (callingExpiredTimers_ w) (cancelingTimers_ w) (heap w)
    (numCreated w) (armed w) (reads w) (tasks w) (ran w) b.

Definition new : TimerQueue := mkTQ [] ∅ false ∅ ∅ 0 None 0 [] [] true.

(** [loop_->assertInLoopThread()]. *)
Definition assertInLoopThread (w : TimerQueue) : result unit :=
  if inLoop w then Ok tt else Err Aborted.

(** ** The timerfd *)

(** [howMuchTimeFromNow], as seconds and nanoseconds. *)
Definition howMuchTimeFromNow (when now : Z) : result (Z * Z) :=
  let microseconds := when - now in
  _ ← no_overflow 64 [microseconds];
  let microseconds := if microseconds <? 100 then 100 else microseconds in
  Ok (Z.quot microseconds Timestamp.kMicroSecondsPerSecond,
      wraps 32 (Z.rem microseconds Timestamp.kMicroSecondsPerSecond * 1000)).

Section Queue.
(** The readings of the clock, the allocator, and the callbacks: what a callback
    does may depend on everything. *)
Context (clock : nat -> Z) (alloc : gmap Z Timer -> option Z)
  (code : Z -> TimerQueue -> list action).

Definition deref (w : TimerQueue) (a : Z) : result Timer :=
  match heap w !! a with Some t => Ok t | None => Err UndefinedBehaviour end.

(** [delete timer]. *)
Definition delete_timer (a : Z) (w : TimerQueue) : result TimerQueue :=
  _ ← deref w a; Ok (with_heap (delete a (heap w)) w).

Definition sizes_equal (w : TimerQueue) : bool :=
  Nat.eqb (length (timers_ w)) (size (activeTimers_ w)).

Definition resetTimerfd (expiration : Z) (w : TimerQueue) : result TimerQueue :=
  _ ← howMuchTimeFromNow expiration (clock (reads w));
  Ok (with_armed (Some expiration) (S (reads w)) w).

(** [readTimerfd]: a one-shot timer that fired is no longer set. *)
Definition readTimerfd (w : TimerQueue) : TimerQueue := with_armed None (reads w) w.

Definition insert (timer : Z) (w : TimerQueue) : result (bool * TimerQueue) :=
  _ ← assertInLoopThread w;
  _ ← assert_ (sizes_equal w);
  t ← deref w timer;
  let when := expiration_ t in
  let earliestChanged := match timers_ w with [] => true | x :: _ => when <? fst x end in
  let '(l, fresh) := set_insert (when, timer) (timers_ w) in
  _ ← assert_ fresh;
  _ ← assert_ (bool_decide ((timer, sequence_ t) ∉ activeTimers_ w));
  let w := with_timers l ({[(timer, sequence_ t)]} ∪ activeTimers_ w) w in
  _ ← assert_ (sizes_equal w);
  Ok (earliestChanged, w).

Definition addTimerInLoop (timer : Z) (w : TimerQueue) : result TimerQueue :=
  _ ← assertInLoopThread w;
  '(earliestChanged, w) ← insert timer w;
  if (earliestChanged : bool) then
    t ← deref w timer; resetTimerfd (expiration_ t) w
  else Ok w.

Definition cancelInLoop (timerId : TimerId) (w : TimerQueue) : result TimerQueue :=
  _ ← assertInLoopThread w;
  _ ← assert_ (sizes_equal w);
  w ← (if bool_decide (timerId ∈ activeTimers_ w) then
         t ← deref w (fst timerId);
         let '(l, n) := set_erase (expiration_ t, fst timerId) (timers_ w) in
         _ ← assert_ (Nat.eqb n 1);
         let w := with_timers l (activeTimers_ w) w in
         w ← delete_timer (fst timerId) w;
         Ok (with_timers (timers_ w) (activeTimers_ w ∖ {[timerId]}) w)
       else if callingExpiredTimers_ w then
         Ok (with_calling true ({[timerId]} ∪ cancelingTimers_ w) w)
       else Ok w);
  _ ← assert_ (sizes_equal w);
  Ok w.

(** [new Timer(...)]: the address is that of [operator new], which may throw. *)
Definition new_timer (cb when : Z) (interval : double) (w : TimerQueue)
  : result (Z * TimerQueue) :=
  match alloc (heap w) with
  | None => Err (Exception "std::bad_alloc")
  | Some a =>
      let t := mkTimer cb when interval (is_positive interval) (numCreated w) in
      Ok (a, with_created (<[a := t]> (heap w)) (wraps 64 (numCreated w + 1)) w)
  end.

(** Through [runInLoop]: at once in the loop's thread, else as a functor. *)
Definition addTimer (cb when : Z) (interval : double) (w : TimerQueue)
  : result (TimerId * TimerQueue) :=
  '(a, w) ← new_timer cb when interval w;
  t ← deref w a;
  w ← (if inLoop w then addTimerInLoop a w else Ok (with_tasks (tasks w ++ [AddTask a]) w));
  Ok ((a, sequence_ t), w).

Definition cancel (id : TimerId) (w : TimerQueue) : result TimerQueue :=
  if inLoop w then cancelInLoop id w else Ok (with_tasks (tasks w ++ [CancelTask id]) w).

(** ** The event loop's timers: [EventLoop::runAt] and so on *)

Definition zero : double := SpecFloat.S754_zero false.

Definition runAt (time : Timestamp.Timestamp) (cb : Z) (w : TimerQueue) : result (TimerId * TimerQueue) :=
  addTimer cb (Timestamp.microSecondsSinceEpoch_ time) zero w.

(** [Timestamp::now()] is the clock's next reading. *)
Definition runAfter (delay : double) (cb : Z) (w : TimerQueue) : result (TimerId * TimerQueue) :=
  time ← Timestamp.addTime (Timestamp.mkTimestamp (clock (reads w))) delay;
  runAt time cb (with_armed (armed w) (S (reads w)) w).

Definition runEvery (interval : double) (cb : Z) (w : TimerQueue) : result (TimerId * TimerQueue) :=
  time ← Timestamp.addTime (Timestamp.mkTimestamp (clock (reads w))) interval;
  addTimer cb (Timestamp.microSecondsSinceEpoch_ time) interval (with_armed (armed w) (S (reads w)) w).

(** A callback. *)
Fixpoint exec (l : list action) (w : TimerQueue) : result TimerQueue :=
  match l with
  | [] => Ok w
  | Add cb when interval :: l => '(_, w) ← addTimer cb when interval w; exec l w
  | Cancel id :: l => w ← cancel id w; exec l w
  end.

(** [timer->run()]. *)
Definition run_timer (a : Z) (w : TimerQueue) : result TimerQueue :=
  t ← deref w a;
  exec (code (callback_ t) w) (with_ran (ran w ++ [(a, sequence_ t)]) w).

(** [UINTPTR_MAX] is the largest address. *)
Definition sentry_address : Z := 2 ^ 64 - 1.

(** Take the expired timers off [activeTimers_], one by one. *)
Fixpoint erase_active (expired : list Entry) (w : TimerQueue) : result TimerQueue :=
  match expired with
  | [] => Ok w
  | it :: expired =>
      t ← deref w (snd it);
      let timer := (snd it, sequence_ t) in
      _ ← assert_ (bool_decide (timer ∈ activeTimers_ w));
      erase_active expired (with_timers (timers_ w) (activeTimers_ w ∖ {[timer]}) w)
  end.

Definition getExpired (now : Z) (w : TimerQueue) : result (list Entry * TimerQueue) :=
  _ ← assert_ (sizes_equal w);
  let '(expired, rest) := split_lower (now, sentry_address) (timers_ w) in
  _ ← assert_ (match rest with [] => true | x :: _ => now <? fst x end);
  w ← erase_active expired (with_timers rest (activeTimers_ w) w);
  _ ← assert_ (sizes_equal w);
  Ok (expired, w).

Fixpoint run_expired (expired : list Entry) (w : TimerQueue) : result TimerQueue :=
  match expired with
  | [] => Ok w
  | it :: expired => w ← run_timer (snd it) w; run_expired expired w
  end.

(** The loop of [reset]. *)
Fixpoint reset_timers (expired : list Entry) (now : Z) (w : TimerQueue) : result TimerQueue :=
  match expired with
  | [] => Ok w
  | it :: expired =>
      let a := snd it in
      t ← deref w a;
      w ← (if repeat_ t && bool_decide ((a, sequence_ t) ∉ cancelingTimers_ w) then
             t' ← restart now t;
             '(_, w) ← insert a (with_heap (<[a := t']> (heap w)) w);
             Ok w
           else delete_timer a w);
      reset_timers expired now w
  end.

Definition reset (expired : list Entry) (now : Z) (w : TimerQueue) : result TimerQueue :=
  w ← reset_timers expired now w;
  match timers_ w with
  | [] => Ok w
  | x :: _ =>
      t ← deref w (snd x);
      let nextExpire := expiration_ t in
      if 0 <? nextExpire then resetTimerfd nextExpire w else Ok w
  end.

Definition handleRead (w : TimerQueue) : result TimerQueue :=
  _ ← assertInLoopThread w;
  let now := clock (reads w) in
  let w := with_armed (armed w) (S (reads w)) w in
  let w := readTimerfd w in
  '(expired, w) ← getExpired now w;
  let w := with_calling true ∅ w in
  w ← run_expired expired w;
  let w := with_calling false (cancelingTimers_ w) w in
  reset expired now w.

(** The loop runs the oldest functor. *)
Definition run_task (w : TimerQueue) : result TimerQueue :=
  match tasks w with
  | [] => Ok w
  | AddTask a :: ts => addTimerInLoop a (with_tasks ts w)
  | CancelTask id :: ts => cancelInLoop id (with_tasks ts w)
  end.

(** [~TimerQueue]: the timers in the set are deleted. *)
Fixpoint destroy (l : list Entry) (w : TimerQueue) : result TimerQueue :=
  match l with
  | [] => Ok w
  | x :: l => w ← delete_timer (snd x) w; destroy l w
  end.

End Queue.
(** ** The ordered set *)

Definition before (x y : Entry) : Prop := entry_lt x y = true.

Lemma before_iff x y : before x y <-> fst x < fst y \/ (fst x = fst y /\ snd x < snd y).
Proof.
  unfold before, entry_lt. rewrite orb_true_iff, andb_true_iff, !Z.ltb_lt, Z.eqb_eq. lia.
Qed.

Lemma not_before_iff x y :
  entry_lt x y = false <-> fst y < fst x \/ (fst x = fst y /\ snd y <= snd x).
Proof.
  rewrite <- not_true_iff_false. fold (before x y). rewrite before_iff. lia.
Qed.

#[global] Instance before_trans : Transitive before.
Proof. intros x y z. rewrite !before_iff. lia. Qed.

Definition sorted (l : list Entry) : Prop := StronglySorted before l.

Lemma sorted_cons x l : sorted (x :: l) <-> sorted l /\ forall y, y ∈ l -> before x y.
Proof.
  split.
  - intros H. apply StronglySorted_inv in H as [H1 H2]. by rewrite Forall_forall in H2.
  - intros [H1 H2]. constructor; [done|]. by apply Forall_forall.
Qed.

(** A new element goes to its place. *)
Lemma set_insert_fresh e l :
  sorted l -> e ∉ l -> exists l', set_insert e l = (l', true) /\ l' ≡ₚ e :: l /\ sorted l'.
Proof.
  induction l as [|x l IH]; intros Hs Hn.
  - exists [e]. split_and!; [done|done|]. apply sorted_cons. split; [constructor|].
    intros y Hy. by apply not_elem_of_nil in Hy.
  - apply sorted_cons in Hs as [Hs Hx]. apply not_elem_of_cons in Hn as [Hne Hn]. cbn [set_insert].
    destruct (entry_lt e x) eqn:E1; [|destruct (entry_lt x e) eqn:E2].
    + exists (e :: x :: l). split_and!; [done|done|]. apply sorted_cons. split.
      { by apply sorted_cons. }
      intros y Hy. apply elem_of_cons in Hy as [->|Hy]; [done|].
      trans x; [done|by apply Hx].
    + destruct (IH Hs Hn) as (l' & -> & Hp & Hs'). exists (x :: l'). split_and!; [done| |].
      * rewrite Hp. apply Permutation_swap.
      * apply sorted_cons. split; [done|]. intros y Hy. rewrite Hp in Hy.
        apply elem_of_cons in Hy as [->|Hy]; [done|by apply Hx].
    + exfalso. apply Hne. apply not_before_iff in E1, E2. destruct e, x; cbn in *.
      f_equal; lia.
Qed.

Lemma filter_absent (e : Entry) (l : list Entry) : e ∉ l -> filter (fun x => x <> e) l = l.
Proof.
  induction l as [|x l IH]; intros Hn; [done|]. apply not_elem_of_cons in Hn as [Hne Hn].
  rewrite filter_cons_True by congruence. by rewrite IH.
Qed.

Lemma set_erase_in e l :
  sorted l -> e ∈ l -> exists l', set_erase e l = (l', 1%nat) /\ l ≡ₚ e :: l' /\ sorted l' /\
    l' = filter (fun x => x <> e) l.
Proof.
  induction l as [|x l IH]; intros Hs Hin; [by apply not_elem_of_nil in Hin|].
  apply sorted_cons in Hs as [Hs Hx]. cbn [set_erase]. case_bool_decide as Hxe.
  - subst x. exists l. split_and!; [done|done|done|]. rewrite filter_cons_False by tauto.
    symmetry. apply filter_absent. intros Hy. pose proof (Hx _ Hy) as Hb.
    apply before_iff in Hb. lia.
  - apply elem_of_cons in Hin as [->|Hin]; [done|].
    destruct (IH Hs Hin) as (l' & -> & Hp & Hs' & Hf). exists (x :: l'). split_and!; [done| | |].
    + rewrite Hp. apply Permutation_swap.
    + apply sorted_cons. split; [done|]. intros y Hy. apply Hx. rewrite Hp.
      by apply list_elem_of_further.
    + rewrite filter_cons_True by done. by f_equal.
Qed.

Lemma split_lower_spec e l :
  sorted l -> exists a b, split_lower e l = (a, b) /\ l = a ++ b /\ sorted b /\
    (forall x, x ∈ a -> before x e) /\ (forall x, x ∈ b -> entry_lt x e = false).
Proof.
  induction l as [|x l IH]; intros Hs.
  - exists [], []. split_and!; try done; intros x Hx; by apply not_elem_of_nil in Hx.
  - pose proof Hs as Hs0. apply sorted_cons in Hs as [Hs Hx]. cbn [split_lower].
    destruct (entry_lt x e) eqn:E.
    + destruct (IH Hs) as (a & b & -> & -> & Hb & H1 & H2). exists (x :: a), b.
      split_and!; [done|done|done| |done]. intros y Hy.
      apply elem_of_cons in Hy as [->|Hy]; [done|by apply H1].
    + exists [], (x :: l). split_and!; [done|done|done| |].
      * intros y Hy. by apply not_elem_of_nil in Hy.
      * intros y Hy. apply elem_of_cons in Hy as [->|Hy]; [done|].
        pose proof (Hx y Hy) as Hb. apply before_iff in Hb. apply not_before_iff in E.
        apply not_before_iff. lia.
Qed.

(** ** The invariant *)

(** The addresses of timers on their way to the loop. *)
Definition pending_adds (ts : list task) : list Z :=
  omap (fun t => match t with AddTask a => Some a | CancelTask _ => None end) ts.

(** Who owns a live timer: the set, [limbo] (the expired timers that are being
    run), or a functor. *)
Definition owned (limbo : list Z) (w : TimerQueue) : list Z :=
  (timers_ w).*2 ++ limbo ++ pending_adds (tasks w).

Definition key (h : gmap Z Timer) (e : Entry) : Z * Z :=
  (snd e, match h !! snd e with Some t => sequence_ t | None => -1 end).

(** Times that the arithmetic of the queue can bear. *)
Definition interval_ok (iv : double) : Prop := is_positive iv = true ->
  exists d, Timestamp.to_int64 (SpecFloat.SFmul Timestamp.prec Timestamp.emax iv Timestamp.million)
    = Ok d /\ 0 <= d < 2 ^ 61.
Definition time_ok (t : Z) : Prop := - 2 ^ 62 < t < 2 ^ 62.

Record inv (limbo : list Z) (w : TimerQueue) : Prop := {
  inv_sorted : sorted (timers_ w);
  inv_nodup : NoDup (owned limbo w);
  inv_heap : forall a, is_Some (heap w !! a) <-> (a ∈ owned limbo w);
  inv_entry : forall t a, (t, a) ∈ timers_ w -> exists tm, heap w !! a = Some tm /\ expiration_ tm = t;
  inv_active : activeTimers_ w = list_to_set (key (heap w) <$> timers_ w);
  inv_timer : forall a tm, heap w !! a = Some tm -> 0 <= a < sentry_address /\
    time_ok (expiration_ tm) /\ (repeat_ tm = true -> is_positive (interval_ tm) = true) /\
    interval_ok (interval_ tm)
}.

(** The timerfd is set for the earliest expiration or earlier; when it has just
    fired ([strict] is false), only for an expiration that is not valid. *)
Definition armed_for (strict : bool) (w : TimerQueue) : Prop :=
  match timers_ w with
  | [] => True
  | x :: _ => strict = true \/ fst x <= 0 -> exists e, armed w = Some e /\ e <= fst x
  end.

(** What adding and cancelling leave alone. *)
Record stays (limbo : list Z) (w w' : TimerQueue) : Prop := {
  stays_ran : ran w' = ran w;
  stays_inLoop : inLoop w' = inLoop w;
  stays_calling : callingExpiredTimers_ w' = callingExpiredTimers_ w;
  stays_tasks : tasks w' = tasks w;
  stays_canceling : cancelingTimers_ w ⊆ cancelingTimers_ w';
  stays_limbo : forall a, a ∈ limbo -> heap w' !! a = heap w !! a
}.

#[global] Instance stays_preorder limbo : PreOrder (stays limbo).
Proof.
  split.
  - intros w. by split.
  - intros w1 w2 w3 [A1 A2 A3 A4 A5 A6] [B1 B2 B3 B4 B5 B6].
    split; try congruence; [by etrans|]. intros a Ha. by rewrite B6, A6.
Qed.

(** ** Consequences *)

Lemma keys_fst h (l : list Entry) : (key h <$> l).*1 = l.*2.
Proof. rewrite <- list_fmap_compose. by apply list_fmap_ext. Qed.

Lemma inv_timers_nodup limbo w : inv limbo w -> NoDup (timers_ w).*2.
Proof. intros Hi. pose proof (inv_nodup _ _ Hi) as H. by apply NoDup_app in H as [? _]. Qed.

Lemma inv_keys_nodup limbo w : inv limbo w -> NoDup (key (heap w) <$> timers_ w).
Proof.
  intros Hi. apply (NoDup_fmap_1 fst). rewrite keys_fst. by apply inv_timers_nodup with limbo.
Qed.

Lemma inv_sizes limbo w : inv limbo w -> sizes_equal w = true.
Proof.
  intros Hi. unfold sizes_equal. rewrite (inv_active _ _ Hi).
  rewrite size_list_to_set by (by apply inv_keys_nodup with limbo).
  rewrite length_fmap. apply Nat.eqb_refl.
Qed.

(** The set may be read up to a permutation of the limbo. *)
Lemma inv_limbo_perm l l' w : l ≡ₚ l' -> inv l w -> inv l' w.
Proof.
  intros Hp [H1 H2 H3 H4 H5 H6].
  assert (owned l w ≡ₚ owned l' w) as Ho by (unfold owned; by rewrite Hp).
  split; [done | by rewrite <- Ho | intros a; by rewrite <- Ho | done | done | done].
Qed.

Lemma key_ext h h' (l : list Entry) :
  (forall a, a ∈ l.*2 -> h' !! a = h !! a) -> key h' <$> l = key h <$> l.
Proof.
  intros Hh. apply list_fmap_ext. intros i [t a] Hl. unfold key; cbn. rewrite Hh; [done|].
  apply list_elem_of_fmap. exists (t, a). split; [done|]. by apply list_elem_of_lookup_2 in Hl.
Qed.

Lemma elem_key h (l : list Entry) id : id ∈ (key h <$> l) -> exists t, (t, fst id) ∈ l /\ key h (t, fst id) = id.
Proof.
  intros Hin. apply list_elem_of_fmap in Hin as ([t a] & -> & Hin). by exists t.
Qed.

(** A timer in the set, by its active key. *)
Lemma inv_active_entry limbo w id :
  inv limbo w -> id ∈ activeTimers_ w ->
  exists tm, heap w !! fst id = Some tm /\ sequence_ tm = snd id /\
    (expiration_ tm, fst id) ∈ timers_ w.
Proof.
  intros Hi Hid. rewrite (inv_active _ _ Hi), elem_of_list_to_set in Hid.
  apply elem_key in Hid as (t & Hin & Hk). destruct (inv_entry _ _ Hi _ _ Hin) as (tm & Htm & <-).
  exists tm. split_and!; [done| |done]. unfold key in Hk. cbn in Hk. rewrite Htm in Hk.
  destruct id as [a s]. cbn in *. congruence.
Qed.

Lemma sorted_head x l y : sorted (x :: l) -> y ∈ x :: l -> fst x <= fst y.
Proof.
  intros Hs Hy. apply sorted_cons in Hs as [_ Hx]. apply elem_of_cons in Hy as [->|Hy]; [lia|].
  specialize (Hx y Hy). apply before_iff in Hx. lia.
Qed.

(** ** Insertion *)

Section Insert.
Context (clock : nat -> Z) (limbo : list Z) (w : TimerQueue) (a : Z) (tm : Timer).
Context (Hi : inv (a :: limbo) w) (Ha : heap w !! a = Some tm) (Hloop : inLoop w = true).

Lemma insert_absent : a ∉ (timers_ w).*2.
Proof using Hi.
  pose proof (inv_nodup _ _ Hi) as Hn. unfold owned in Hn.
  apply NoDup_app in Hn as (_ & Hn & _). intros Hx. apply (Hn a Hx). cbn. apply list_elem_of_here.
Qed.

Definition earliest_changed : bool :=
  match timers_ w with [] => true | x :: _ => expiration_ tm <? fst x end.

(** [insert] takes the timer from the limbo into the set. *)
Lemma insert_ok : exists l, l ≡ₚ (expiration_ tm, a) :: timers_ w /\
  let w' := with_timers l ({[(a, sequence_ tm)]} ∪ activeTimers_ w) w in
  insert a w = Ok (earliest_changed, w') /\ inv limbo w'.
Proof using Hi Ha Hloop.
  destruct (set_insert_fresh (expiration_ tm, a) (timers_ w)) as (l & Hl & Hp & Hs).
  { apply (inv_sorted _ _ Hi). }
  { intros Hx. apply insert_absent. apply list_elem_of_fmap. by exists (expiration_ tm, a). }
  exists l. split; [done|]. cbv zeta. set (w' := with_timers _ _ _).
  assert (inv limbo w') as Hi'.
  { pose proof Hi as [H1 H2 H3 H4 H5 H6].
    assert (owned limbo w' ≡ₚ owned (a :: limbo) w) as Ho.
    { unfold owned, w'; cbn. rewrite Hp. cbn. by rewrite Permutation_middle. }
    split.
    - done.
    - by rewrite Ho.
    - intros b. rewrite Ho. apply H3.
    - intros t b Hb. cbn in *. rewrite Hp in Hb. apply elem_of_cons in Hb as [[= -> ->]|Hb]; [|by apply H4].
      by exists tm.
    - cbn. rewrite Hp, fmap_cons, list_to_set_cons. unfold key at 1; cbn. rewrite Ha. by rewrite H5.
    - done. }
  split; [|done]. unfold insert, assertInLoopThread. rewrite Hloop, bind_ok.
  rewrite (assert_true _ (inv_sizes _ _ Hi)), bind_ok. unfold deref. rewrite Ha, bind_ok, Hl.
  change (assert_ true) with (@Ok unit tt). rewrite bind_ok.
  rewrite assert_decide, bind_ok.
  - change (with_timers l ({[(a, sequence_ tm)]} ∪ activeTimers_ w) w) with w'.
    by rewrite (assert_true _ (inv_sizes _ _ Hi')), bind_ok.
  - intros Hx. destruct (inv_active_entry _ _ _ Hi Hx) as (tm' & _ & _ & Hin). cbn in Hin.
    apply insert_absent. apply list_elem_of_fmap. by exists (expiration_ tm', a).
Qed.

(** The head of the set after an insertion. *)
Lemma insert_head l : sorted l -> l ≡ₚ (expiration_ tm, a) :: timers_ w ->
  exists x k, l = x :: k /\
    if earliest_changed then x = (expiration_ tm, a)
    else exists y m, timers_ w = y :: m /\ fst x = fst y.
Proof using Hi.
  intros Hs Hp. destruct l as [|x k].
  { by apply Permutation_nil_cons in Hp. }
  exists x, k. split; [done|].
  assert (x ∈ (expiration_ tm, a) :: timers_ w) as Hx by (rewrite <- Hp; apply list_elem_of_here).
  assert (fst x <= expiration_ tm) as Hxe.
  { apply (sorted_head x k (expiration_ tm, a) Hs). rewrite Hp. apply list_elem_of_here. }
  unfold earliest_changed. destruct (timers_ w) as [|y m] eqn:Et.
  { apply elem_of_cons in Hx as [->|Hx]; [done|by apply not_elem_of_nil in Hx]. }
  pose proof (inv_sorted _ _ Hi) as Hsy. rewrite Et in Hsy.
  assert (fst x <= fst y) as Hxy.
  { apply (sorted_head x k y Hs). rewrite Hp. apply list_elem_of_further, list_elem_of_here. }
  apply elem_of_cons in Hx as [->|Hx].
  - cbn in *. zcase (expiration_ tm <? fst y); [done|]. exists y, m. split; [done|]. cbn. lia.
  - pose proof (sorted_head y m x Hsy Hx). zcase (expiration_ tm <? fst y); [lia|].
    exists y, m. split; [done|]. lia.
Qed.

End Insert.

(** ** The two operations in the loop's thread *)

Section Operations.
Context (clock : nat -> Z) (alloc : gmap Z Timer -> option Z).
Context (clock_ok : forall n, 0 < clock n < 2 ^ 61).
Context (alloc_ok : forall h a, alloc h = Some a -> h !! a = None /\ 0 <= a < sentry_address).

Lemma resetTimerfd_ok e w : time_ok e ->
  resetTimerfd clock e w = Ok (with_armed (Some e) (S (reads w)) w).
Proof using clock_ok.
  intros He. unfold resetTimerfd, howMuchTimeFromNow, time_ok in *.
  pose proof (clock_ok (reads w)) as Hc. rewrite no_overflow_ok; [done|].
  repeat constructor; lia.
Qed.

Lemma with_armed_inv limbo e n w : inv limbo w -> inv limbo (with_armed e n w).
Proof. intros []. by split. Qed.

Lemma with_armed_stays limbo e n w : stays limbo w (with_armed e n w).
Proof. by split. Qed.

Lemma addTimerInLoop_ok strict limbo w a :
  inv (a :: limbo) w -> inLoop w = true -> armed_for strict w ->
  exists w', addTimerInLoop clock a w = Ok w' /\ inv limbo w' /\ armed_for strict w' /\
    stays limbo w w' /\ heap w' = heap w.
Proof using clock_ok.
  intros Hi Hl Ha.
  destruct (proj2 (inv_heap _ _ Hi a)) as [tm Htm].
  { unfold owned. apply elem_of_app. right. apply list_elem_of_here. }
  destruct (insert_ok limbo w a tm Hi Htm Hl) as (l & Hp & Hins & Hi').
  destruct (inv_timer _ _ Hi a tm Htm) as (_ & Ht & _ & _).
  destruct (insert_head limbo w a tm Hi l (inv_sorted _ _ Hi') Hp) as (x & k & -> & Hh).
  unfold addTimerInLoop, assertInLoopThread. rewrite Hl, bind_ok, Hins, bind_ok.
  destruct (earliest_changed w tm).
  - unfold deref. cbn [heap with_timers]. rewrite Htm, bind_ok, resetTimerfd_ok by done.
    eexists. split; [done|]. split_and!; [by apply with_armed_inv| |by split|done].
    intros _. exists (expiration_ tm). rewrite Hh. split; [done|]. cbn. lia.
  - eexists. split; [done|]. split_and!; [done| |by split|done].
    destruct Hh as (y & m & Hy & Hf). unfold armed_for in *. cbn in *. rewrite Hy in Ha.
    by rewrite Hf.
Qed.

Lemma armed_mono strict w w' y k : timers_ w = y :: k -> armed w' = armed w ->
  (forall x m, timers_ w' = x :: m -> fst y <= fst x) -> armed_for strict w -> armed_for strict w'.
Proof.
  intros Hy Ha Hm Hs. unfold armed_for in *. rewrite Hy in Hs.
  destruct (timers_ w') as [|x m]; [done|]. specialize (Hm x m eq_refl). intros Hc.
  destruct Hs as (e & He & Hle); [destruct Hc; [by left|right; lia]|].
  exists e. rewrite Ha. split; [done|lia].
Qed.

(** A timer leaves the set and the heap. *)
Definition without (id : TimerId) (l : list Entry) (w : TimerQueue) : TimerQueue :=
  with_timers l (activeTimers_ w ∖ {[id]}) (with_heap (delete (fst id) (heap w)) w).

Lemma without_inv limbo w id t l :
  inv limbo w -> key (heap w) (t, fst id) = id -> timers_ w ≡ₚ (t, fst id) :: l -> sorted l ->
  inv limbo (without id l w).
Proof.
  intros Hi Hk Hp Hs. pose proof Hi as [H1 H2 H3 H4 H5 H6].
  assert (owned limbo w ≡ₚ fst id :: owned limbo (without id l w)) as Ho
    by (unfold owned, without; cbn; by rewrite Hp).
  rewrite Ho in H2. apply NoDup_cons in H2 as [Hn H2].
  assert (forall b, b ∈ l.*2 -> b <> fst id) as Hne.
  { intros b Hb ->. apply Hn. unfold owned, without; cbn. apply elem_of_app. by left. }
  split.
  - done.
  - done.
  - intros b. cbn. rewrite lookup_delete_is_Some, H3, Ho, elem_of_cons. split.
    + intros [Hb [->|?]]; [by destruct Hb|done].
    + intros Hb. split; [|by right]. intros <-. done.
  - intros t' b Hb. cbn in *. destruct (H4 t' b) as (tm & Htm & He).
    { rewrite Hp. by apply list_elem_of_further. }
    exists tm. rewrite lookup_delete_ne; [done|]. intros <-. apply (Hne (fst id)); [|done].
    apply list_elem_of_fmap. by exists (t', fst id).
  - cbn. rewrite (key_ext (heap w)) by (intros b Hb; apply lookup_delete_ne; symmetry; by apply Hne).
    assert (id ∉ (list_to_set (key (heap w) <$> l) : gset (Z * Z))) as Hid.
    { rewrite elem_of_list_to_set. intros Hx. apply elem_key in Hx as (t' & Hin & _).
      apply (Hne (fst id)); [|done]. apply list_elem_of_fmap. by exists (t', fst id). }
    rewrite H5, Hp, fmap_cons, Hk, list_to_set_cons. apply set_eq. intros x.
    rewrite elem_of_difference, elem_of_union, !elem_of_singleton. split; [tauto|].
    intros Hx. split; [by right|]. by intros ->.
  - intros b tm Hb. cbn in Hb. apply lookup_delete_Some in Hb as [_ Hb]. by apply H6.
Qed.

Lemma cancel_active strict limbo w id :
  inv limbo w -> inLoop w = true -> armed_for strict w -> id ∈ activeTimers_ w ->
  exists l, cancelInLoop id w = Ok (without id l w) /\ inv limbo (without id l w) /\
    armed_for strict (without id l w) /\ stays limbo w (without id l w) /\
    (forall e, e ∈ l <-> (e ∈ timers_ w /\ snd e <> fst id)).
Proof.
  intros Hi Hl Ha Hid. destruct (inv_active_entry _ _ _ Hi Hid) as (tm & Htm & Hsq & Hin).
  destruct (set_erase_in _ _ (inv_sorted _ _ Hi) Hin) as (l & Her & Hp & Hs & _).
  assert (key (heap w) (expiration_ tm, fst id) = id) as Hk.
  { unfold key; cbn. rewrite Htm, Hsq. by destruct id. }
  pose proof (without_inv _ _ _ _ _ Hi Hk Hp Hs) as Hi'. exists l. split_and!.
  - unfold cancelInLoop, assertInLoopThread. rewrite Hl, bind_ok.
    rewrite (assert_true _ (inv_sizes _ _ Hi)), bind_ok, bool_decide_true by done.
    unfold deref. rewrite Htm, bind_ok, Her. change (assert_ (Nat.eqb 1 1)) with (@Ok unit tt).
    rewrite bind_ok. unfold delete_timer, deref. cbn [heap with_timers]. rewrite Htm, !bind_ok.
    change (with_timers _ _ _) with (without id l w) at 1.
    pose proof (inv_sizes _ _ Hi') as Hz. unfold sizes_equal, without in *. cbn in *.
    by rewrite (assert_true _ Hz).
  - done.
  - pose proof (inv_sorted _ _ Hi) as Hsw. destruct (timers_ w) as [|y k] eqn:Et.
    { by apply not_elem_of_nil in Hin. }
    apply (armed_mono strict w _ y k); [done|done| |done].
    intros x m Hx. apply (sorted_head y k x Hsw). rewrite Hp. cbn in Hx. rewrite Hx.
    apply list_elem_of_further, list_elem_of_here.
  - split; cbn; try done. intros b Hb. apply lookup_delete_ne. intros <-.
    pose proof (inv_nodup _ _ Hi) as Hn. unfold owned in Hn. apply NoDup_app in Hn as (_ & Hn & _).
    apply (Hn (fst id)); [|apply elem_of_app; by left].
    apply list_elem_of_fmap. by exists (expiration_ tm, fst id).
  - intros e. rewrite Hp, elem_of_cons. pose proof (inv_timers_nodup _ _ Hi) as Hn.
    rewrite Hp in Hn. cbn in Hn. apply NoDup_cons in Hn as [Hn _]. split.
    + intros He. split; [by right|]. intros Hf. apply Hn. apply list_elem_of_fmap. by exists e.
    + intros [[->|He] Hf]; [done|done].
Qed.

Lemma cancel_absent w id :
  sizes_equal w = true -> inLoop w = true -> id ∉ activeTimers_ w ->
  cancelInLoop id w = Ok (if callingExpiredTimers_ w
                          then with_calling true ({[id]} ∪ cancelingTimers_ w) w else w).
Proof.
  intros Hz Hl Hid. unfold cancelInLoop, assertInLoopThread.
  rewrite Hl, bind_ok, (assert_true _ Hz), bind_ok, bool_decide_false by done.
  destruct (callingExpiredTimers_ w); rewrite bind_ok.
  - change (sizes_equal (with_calling true ({[id]} ∪ cancelingTimers_ w) w)) with (sizes_equal w).
    by rewrite (assert_true _ Hz).
  - by rewrite (assert_true _ Hz).
Qed.

Lemma cancelInLoop_ok strict limbo w id :
  inv limbo w -> inLoop w = true -> armed_for strict w ->
  exists w', cancelInLoop id w = Ok w' /\ inv limbo w' /\ armed_for strict w' /\ stays limbo w w'.
Proof.
  intros Hi Hl Ha. destruct (decide (id ∈ activeTimers_ w)) as [Hid|Hid].
  - destruct (cancel_active strict limbo w id Hi Hl Ha Hid) as (l & H1 & H2 & H3 & H4 & _). eauto.
  - rewrite (cancel_absent w id (inv_sizes _ _ Hi) Hl Hid).
    destruct (callingExpiredTimers_ w) eqn:Ec; eexists; (split; [done|]); [|by split_and!].
    split_and!; [by destruct Hi | done | split; cbn; try done; apply union_subseteq_r].
Qed.

(** [m] returns a value with [Q], or the allocator failed. *)
Definition runs {A} (m : result A) (Q : A -> Prop) : Prop :=
  match m with Ok a => Q a | Err (Exception _) => True | Err _ => False end.

Lemma runs_bind {A B} (m : result A) (k : A -> result B) (Q : A -> Prop) (R : B -> Prop) :
  runs m Q -> (forall a, Q a -> runs (k a) R) -> runs (m ≫= k) R.
Proof. destruct m as [a|[]]; cbn; auto. Qed.

Lemma runs_mono {A} (m : result A) (Q R : A -> Prop) :
  runs m Q -> (forall a, Q a -> R a) -> runs m R.
Proof. destruct m as [a|[]]; cbn; auto. Qed.

Lemma runs_ok {A} (m : result A) (Q : A -> Prop) : (exists a, m = Ok a /\ Q a) -> runs m Q.
Proof. by intros (a & -> & Hq). Qed.

Definition action_ok (x : action) : Prop :=
  match x with Add _ when iv => time_ok when /\ interval_ok iv | Cancel _ => True end.

(** A new timer is in nobody's hands yet. *)
Lemma new_timer_ok strict limbo w cb when iv :
  inv limbo w -> armed_for strict w -> time_ok when -> interval_ok iv ->
  runs (new_timer alloc cb when iv w) (fun r => inv (fst r :: limbo) (snd r) /\
    armed_for strict (snd r) /\ stays limbo w (snd r) /\ is_Some (heap (snd r) !! fst r)).
Proof using alloc_ok.
  intros Hi Ha Ht Hiv. unfold new_timer. destruct (alloc (heap w)) as [a|] eqn:Eal; [|done].
  destruct (alloc_ok _ _ Eal) as [Hf Hr]. cbn. pose proof Hi as [H1 H2 H3 H4 H5 H6].
  assert (a ∉ owned limbo w) as Hn.
  { rewrite <- H3. rewrite Hf. by intros [? ?]. }
  assert (owned (a :: limbo) w ≡ₚ a :: owned limbo w) as Ho
    by (unfold owned; cbn; by rewrite <- Permutation_middle).
  split_and!.
  - split.
    + done.
    + change (NoDup (owned (a :: limbo) w)). rewrite Ho. by apply NoDup_cons.
    + intros b. change (owned (a :: limbo) _) with (owned (a :: limbo) w). cbn.
      rewrite Ho, elem_of_cons, lookup_insert_is_Some', H3. split; (intros [->|?]; [by left|by right]).
    + intros t b Hb. cbn in *. destruct (H4 t b Hb) as (tm & Htm & He). exists tm.
      rewrite lookup_insert_ne; [done|]. congruence.
    + cbn. rewrite H5. f_equal. symmetry. apply key_ext. intros b Hb. apply lookup_insert_ne.
      intros <-. apply Hn. unfold owned. apply elem_of_app. by left.
    + intros b tm Hb. cbn in Hb. apply lookup_insert_Some in Hb as [[<- <-]|[_ Hb]]; [done|].
      by apply H6.
  - done.
  - split; try done. intros b Hb. cbn. apply lookup_insert_ne. intros <-. apply Hn.
    unfold owned. apply elem_of_app. right. apply elem_of_app. by left.
  - rewrite lookup_insert_eq. eauto.
Qed.

Lemma stays_weaken a limbo w w' : stays (a :: limbo) w w' -> stays limbo w w'.
Proof. intros []. split; try done. intros b Hb. apply stays_limbo0. by apply list_elem_of_further. Qed.

Lemma exec_ok strict limbo l w :
  inv limbo w -> inLoop w = true -> armed_for strict w -> Forall action_ok l ->
  runs (exec clock alloc l w) (fun w' => inv limbo w' /\ armed_for strict w' /\ stays limbo w w').
Proof using clock_ok alloc_ok.
  revert w. induction l as [|[cb when iv|id] l IH]; intros w Hi Hl Ha Hall.
  - by split_and!.
  - apply Forall_cons in Hall as [[Ht Hiv] Hall]. cbn [exec]. unfold addTimer.
    rewrite bind_assoc. eapply runs_bind; [by apply (new_timer_ok strict limbo)|].
    intros [a w1]. cbn [fst snd]. intros (Hi1 & Ha1 & Hs1 & [tm Htm]).
    unfold deref. rewrite Htm, bind_ok, (stays_inLoop _ _ _ Hs1), Hl.
    destruct (addTimerInLoop_ok strict limbo w1 a Hi1) as (w2 & -> & Hi2 & Ha2 & Hs2 & _);
      [by rewrite (stays_inLoop _ _ _ Hs1)|done|].
    rewrite !bind_ok. eapply runs_mono; [apply IH; try done|].
    + by rewrite (stays_inLoop _ _ _ Hs2), (stays_inLoop _ _ _ Hs1).
    + intros w3 (? & ? & Hs3). split_and!; [done|done|]. by rewrite Hs1, Hs2.
  - apply Forall_cons in Hall as [_ Hall]. cbn [exec]. unfold cancel. rewrite Hl.
    destruct (cancelInLoop_ok strict limbo w id Hi Hl Ha) as (w1 & -> & Hi1 & Ha1 & Hs1).
    rewrite bind_ok. eapply runs_mono; [apply IH; try done|].
    + by rewrite (stays_inLoop _ _ _ Hs1).
    + intros w3 (? & ? & Hs3). split_and!; [done|done|]. by rewrite Hs1.
Qed.

(** ** [getExpired] *)

Lemma with_timers_id w : with_timers (timers_ w) (activeTimers_ w) w = w.
Proof. by destruct w. Qed.

Lemma erase_active_ok es w :
  NoDup (key (heap w) <$> es) -> (forall e, e ∈ es -> is_Some (heap w !! snd e)) ->
  (forall k, k ∈ (key (heap w) <$> es) -> k ∈ activeTimers_ w) ->
  erase_active es w =
    Ok (with_timers (timers_ w) (activeTimers_ w ∖ list_to_set (key (heap w) <$> es)) w).
Proof.
  revert w. induction es as [|e es IH]; intros w Hn Hh Hk.
  - cbn. by rewrite difference_empty_L, with_timers_id.
  - cbn [erase_active]. destruct (Hh e ltac:(apply list_elem_of_here)) as [t Ht].
    unfold deref. rewrite Ht, bind_ok. rewrite fmap_cons in Hn, Hk |- *.
    assert (key (heap w) e = (snd e, sequence_ t)) as Hke by (unfold key; by rewrite Ht).
    apply NoDup_cons in Hn as [Hne Hn]. rewrite Hke in *.
    rewrite assert_decide, bind_ok by (apply Hk, list_elem_of_here).
    rewrite IH.
    + unfold with_timers; cbn. f_equal. f_equal. apply set_eq. intros x.
      rewrite !elem_of_difference, elem_of_union. tauto.
    + done.
    + intros e' He'. apply Hh. by apply list_elem_of_further.
    + intros k Hk'. cbn in *. apply elem_of_difference. split.
      * apply Hk. by apply list_elem_of_further.
      * rewrite elem_of_singleton. by intros ->.
Qed.

Definition is_expired (now : Z) (e : Entry) : Prop := fst e <= now.

Lemma getExpired_ok now w :
  inv [] w -> exists es rest, timers_ w = es ++ rest /\
    (forall e, e ∈ es -> fst e <= now) /\ (forall e, e ∈ rest -> now < fst e) /\
    let w' := with_timers rest (list_to_set (key (heap w) <$> rest)) w in
    getExpired now w = Ok (es, w') /\ inv es.*2 w'.
Proof.
  intros Hi. pose proof Hi as [H1 H2 H3 H4 H5 H6].
  destruct (split_lower_spec (now, sentry_address) _ H1) as (es & rest & Hsp & Ht & Hs & Ha & Hb).
  assert (forall e, e ∈ timers_ w -> exists tm, heap w !! snd e = Some tm /\ snd e < sentry_address) as Haddr.
  { intros [t a] He. destruct (H4 t a He) as (tm & Htm & _). exists tm. split; [done|].
    by apply (H6 a tm Htm). }
  assert (forall e, e ∈ rest -> now < fst e) as Hrest.
  { intros e He. specialize (Hb e He). apply not_before_iff in Hb. cbn in Hb.
    destruct (Haddr e) as (tm & _ & Hlt); [rewrite Ht; apply elem_of_app; by right|]. lia. }
  exists es, rest. split_and!; [done| |done|].
  { intros e He. specialize (Ha e He). apply before_iff in Ha. cbn in Ha. lia. }
  cbv zeta. set (w' := with_timers _ _ _).
  pose proof (inv_keys_nodup _ _ Hi) as Hk. rewrite Ht, fmap_app in Hk.
  apply NoDup_app in Hk as (Hk1 & Hk2 & Hk3).
  assert (inv es.*2 w') as Hi'.
  { assert (owned es.*2 w' ≡ₚ owned [] w) as Ho.
    { unfold owned, w'; cbn. rewrite Ht, fmap_app, app_assoc.
      by rewrite (Permutation_app_comm (rest.*2) (es.*2)). }
    split; [done | by rewrite Ho | intros b; rewrite Ho; apply H3 | | done | done].
    intros t a Hta. apply H4. rewrite Ht. apply elem_of_app. by right. }
  split; [|done]. unfold getExpired.
  rewrite (assert_true _ (inv_sizes _ _ Hi)), bind_ok, Hsp. rewrite assert_true, bind_ok.
  2: { destruct rest as [|x r]; [done|]. apply Z.ltb_lt, Hrest, list_elem_of_here. }
  rewrite erase_active_ok; cbn [timers_ activeTimers_ heap with_timers].
  - rewrite bind_ok. replace (activeTimers_ w ∖ list_to_set (key (heap w) <$> es))
      with (list_to_set (key (heap w) <$> rest) : gset (Z * Z)).
    + change (with_timers _ _ _) with w'. by rewrite (assert_true _ (inv_sizes _ _ Hi')), bind_ok.
    + apply set_eq. intros x.
      rewrite H5, Ht, fmap_app, elem_of_difference, !elem_of_list_to_set, elem_of_app. split.
      * intros Hx. split; [by right|]. intros Hx'. by apply (Hk2 x).
      * intros [[?|?] ?]; done.
  - done.
  - intros e He. destruct (Haddr e) as (tm & -> & _); [|by eexists].
    rewrite Ht. apply elem_of_app. by left.
  - intros k Hk. rewrite H5, elem_of_list_to_set, Ht, fmap_app. apply elem_of_app. by left.
Qed.

(** ** Running the expired timers *)

Section Callbacks.
Context (code : Z -> TimerQueue -> list action).
Context (code_ok : forall cb w, Forall action_ok (code cb w)).

Lemma with_ran_inv limbo l w : inv limbo w -> inv limbo (with_ran l w).
Proof. intros []. by split. Qed.

Lemma stays_with_ran limbo l w w' : stays limbo (with_ran l w) w' -> ran w' = l.
Proof. intros Hs. by rewrite (stays_ran _ _ _ Hs). Qed.

Lemma run_expired_ok es limbo w :
  inv limbo w -> inLoop w = true -> armed_for false w -> (forall e, e ∈ es -> snd e ∈ limbo) ->
  runs (run_expired clock alloc code es w) (fun w' => inv limbo w' /\ armed_for false w' /\
    stays limbo (with_ran (ran w ++ (key (heap w) <$> es)) w) w').
Proof using clock_ok alloc_ok code_ok.
  revert w. induction es as [|e es IH]; intros w Hi Hl Ha Hes.
  - cbn. rewrite app_nil_r. split_and!; [done|done|by split].
  - cbn [run_expired]. unfold run_timer. rewrite bind_assoc.
    assert (snd e ∈ limbo) as He by (apply Hes, list_elem_of_here).
    destruct (proj2 (inv_heap _ _ Hi (snd e))) as [t Ht].
    { unfold owned. apply elem_of_app. right. apply elem_of_app. by left. }
    unfold deref. rewrite Ht, bind_ok.
    eapply runs_bind; [apply (exec_ok false limbo); [by apply with_ran_inv|done|done|apply code_ok]|].
    intros w1 (Hi1 & Ha1 & Hs1). cbn beta in Hs1.
    eapply runs_mono; [apply IH; [done| |done|]|].
    + by rewrite (stays_inLoop _ _ _ Hs1).
    + intros e' He'. apply Hes. by apply list_elem_of_further.
    + intros w2 (Hi2 & Ha2 & Hs2). split_and!; [done|done|].
      destruct Hs1 as [A1 A2 A3 A4 A5 A6], Hs2 as [B1 B2 B3 B4 B5 B6]. cbn in *.
      assert (key (heap w1) <$> es = key (heap w) <$> es) as Hk.
      { apply key_ext. intros a Hin. apply A6. apply list_elem_of_fmap in Hin as (e' & -> & He').
        apply Hes. by apply list_elem_of_further. }
      split; cbn; try congruence.
      * rewrite B1, A1, Hk. unfold key at 2. rewrite Ht. by rewrite <- app_assoc.
      * by etrans.
      * intros a Hin. by rewrite B6, A6.
Qed.

End Callbacks.

(** ** [reset] *)

(** A timer in the limbo may be replaced there, or destroyed. *)
Lemma limbo_update limbo w a t :
  inv (a :: limbo) w -> time_ok (expiration_ t) ->
  (repeat_ t = true -> is_positive (interval_ t) = true) -> interval_ok (interval_ t) ->
  inv (a :: limbo) (with_heap (<[a := t]> (heap w)) w).
Proof.
  intros Hi Ht Hr Hiv. pose proof (insert_absent _ _ _ Hi) as Hn.
  pose proof Hi as [H1 H2 H3 H4 H5 H6].
  assert (a ∈ owned (a :: limbo) w) as Hin
    by (unfold owned; apply elem_of_app; right; apply list_elem_of_here).
  split.
  - done.
  - done.
  - intros b. change (owned (a :: limbo) _) with (owned (a :: limbo) w). cbn.
    rewrite lookup_insert_is_Some', H3. split; [intros [->|?]|intros ?]; [done..|by right].
  - intros t' b Hb. cbn in *. destruct (H4 t' b Hb) as (tm & Htm & He). exists tm.
    rewrite lookup_insert_ne; [done|]. intros <-. apply Hn. apply list_elem_of_fmap.
    by exists (t', a).
  - cbn. rewrite H5. f_equal. symmetry. apply key_ext. intros b Hb. apply lookup_insert_ne.
    by intros <-.
  - intros b tm Hb. cbn in Hb. apply lookup_insert_Some in Hb as [[<- <-]|[_ Hb]]; [|by apply H6].
    apply H3 in Hin as [t0 Ht0]. split_and!; [by apply (H6 a t0)..|done|done|done].
Qed.

Lemma limbo_delete limbo w a :
  inv (a :: limbo) w -> inv limbo (with_heap (delete a (heap w)) w).
Proof.
  intros Hi. pose proof (insert_absent _ _ _ Hi) as Hn. pose proof Hi as [H1 H2 H3 H4 H5 H6].
  assert (owned (a :: limbo) w ≡ₚ a :: owned limbo w) as Ho
    by (unfold owned; cbn; by rewrite <- Permutation_middle).
  rewrite Ho in H2. apply NoDup_cons in H2 as [Hna H2]. split.
  - done.
  - done.
  - intros b. change (owned limbo _) with (owned limbo w). cbn.
    rewrite lookup_delete_is_Some, H3, Ho, elem_of_cons. split.
    + intros [Hb [->|?]]; [by destruct Hb|done].
    + intros Hb. split; [|by right]. by intros <-.
  - intros t' b Hb. cbn in *. destruct (H4 t' b Hb) as (tm & Htm & He). exists tm.
    rewrite lookup_delete_ne; [done|]. intros <-. apply Hn. apply list_elem_of_fmap.
    by exists (t', a).
  - cbn. rewrite H5. f_equal. symmetry. apply key_ext. intros b Hb. apply lookup_delete_ne.
    by intros <-.
  - intros b tm Hb. cbn in Hb. apply lookup_delete_Some in Hb as [_ Hb]. by apply H6.
Qed.

(** What becomes of an expired timer. *)
Definition again (now : Z) (canceling : gset (Z * Z)) (a : Z) (tm : Timer) (w' : TimerQueue) : Prop :=
  if repeat_ tm && bool_decide ((a, sequence_ tm) ∉ canceling)
  then exists t', restart now tm = Ok t' /\ heap w' !! a = Some t' /\
         (expiration_ t', a) ∈ timers_ w'
  else heap w' !! a = None.

(** What re-inserting and destroying the timers [gone] leaves alone. *)
Record resets (gone : list Z) (w w' : TimerQueue) : Prop := {
  resets_ran : ran w' = ran w;
  resets_inLoop : inLoop w' = inLoop w;
  resets_canceling : cancelingTimers_ w' = cancelingTimers_ w;
  resets_armed : armed w' = armed w;
  resets_heap : forall a, a ∉ gone -> heap w' !! a = heap w !! a;
  resets_timers : forall e, e ∈ timers_ w -> e ∈ timers_ w'
}.

Lemma restart_ok now t : 0 < now < 2 ^ 61 ->
  repeat_ t = true -> is_positive (interval_ t) = true -> interval_ok (interval_ t) ->
  exists e, restart now t = Ok (mkTimer (callback_ t) e (interval_ t) true (sequence_ t)) /\
    now <= e < 2 ^ 62.
Proof.
  intros Hn Hr Hp Hiv. destruct (Hiv Hp) as (d & Hd & Hrange). unfold restart, addTime.
  rewrite Hr, Hd, bind_ok. cbn [Timestamp.microSecondsSinceEpoch_].
  rewrite no_overflow_ok by (repeat constructor; lia).
  rewrite !bind_ok. eexists. split; [done|]. cbn. lia.
Qed.

(** One timer of the expired list. *)
Definition reset_one (now : Z) (a : Z) (w : TimerQueue) : result TimerQueue :=
  t ← deref w a;
  if repeat_ t && bool_decide ((a, sequence_ t) ∉ cancelingTimers_ w) then
    t' ← restart now t;
    '(_, w) ← insert a (with_heap (<[a := t']> (heap w)) w);
    Ok w
  else delete_timer a w.

Lemma reset_timers_cons it es now w :
  reset_timers (it :: es) now w = (reset_one now (snd it) w ≫= reset_timers es now).
Proof.
  cbn [reset_timers]. unfold reset_one. destruct (deref w (snd it)) as [t|f]; [|done].
  by rewrite !bind_ok.
Qed.

Lemma reset_one_ok limbo now a w tm :
  inv (a :: limbo) w -> inLoop w = true -> armed_for false w -> 0 < now < 2 ^ 61 ->
  heap w !! a = Some tm ->
  exists w', reset_one now a w = Ok w' /\ inv limbo w' /\ armed_for false w' /\
    resets [a] w w' /\ again now (cancelingTimers_ w) a tm w'.
Proof.
  intros Hi Hl Ha Hnow Htm. unfold reset_one, again, deref. rewrite Htm, bind_ok.
  destruct (inv_timer _ _ Hi a tm Htm) as (Haddr & Ht & Hr & Hiv).
  destruct (repeat_ tm && _) eqn:Erep.
  - apply andb_prop in Erep as [Erep _].
    destruct (restart_ok now tm Hnow Erep (Hr Erep) Hiv) as (e & He & Hrange).
    set (t' := mkTimer _ e _ _ _) in *. rewrite He, bind_ok.
    assert (inv (a :: limbo) (with_heap (<[a := t']> (heap w)) w)) as Hi1.
    { apply limbo_update; [done| |by intros _; apply Hr|done].
      unfold t', time_ok; cbn. lia. }
    set (w1 := with_heap _ w) in *.
    assert (heap w1 !! a = Some t') as Ht' by apply lookup_insert_eq.
    destruct (insert_ok limbo w1 a t' Hi1 Ht' Hl) as (l & Hp & Hins & Hi2).
    destruct (insert_head limbo w1 a t' Hi1 l (inv_sorted _ _ Hi2) Hp) as (x & k & Hx & Hh).
    rewrite Hins, bind_ok. eexists. split; [done|]. split_and!; [done| | |].
    + subst l. unfold armed_for in *. cbn. intros [?|Hx0]; [done|].
      destruct (earliest_changed w1 t'); [subst x; unfold t' in Hx0; cbn in Hx0; lia|].
      destruct Hh as (y & m & Hy & Hf). cbn in Hy. rewrite Hy in Ha.
      destruct Ha as (e' & He' & Hle); [right; lia|]. exists e'. split; [done|lia].
    + split; try done.
      * intros b Hb. cbn. apply lookup_insert_ne. intros <-. apply Hb, list_elem_of_here.
      * intros e' He'. cbn. rewrite Hp. by apply list_elem_of_further.
    + exists t'. split_and!; [done|done|]. cbn. rewrite Hp. apply list_elem_of_here.
  - unfold delete_timer, deref. rewrite Htm, bind_ok. eexists. split; [done|].
    split_and!; [by apply limbo_delete|done| |cbn; apply lookup_delete_eq].
    split; try done. intros b Hb. cbn. apply lookup_delete_ne. intros <-.
    apply Hb, list_elem_of_here.
Qed.

Lemma again_frame now canceling a tm gone w w' :
  resets gone w w' -> a ∉ gone -> again now canceling a tm w -> again now canceling a tm w'.
Proof.
  intros Hrs Hn Hag. unfold again in *. destruct (_ && _).
  - destruct Hag as (t' & H1 & H2 & H3). exists t'. split_and!; [done| |].
    + by rewrite (resets_heap _ _ _ Hrs a Hn).
    + by apply (resets_timers _ _ _ Hrs).
  - by rewrite (resets_heap _ _ _ Hrs a Hn).
Qed.

Lemma reset_timers_ok es now w :
  inv es.*2 w -> inLoop w = true -> armed_for false w -> 0 < now < 2 ^ 61 ->
  exists w', reset_timers es now w = Ok w' /\ inv [] w' /\ armed_for false w' /\
    resets es.*2 w w' /\
    forall t a tm, (t, a) ∈ es -> heap w !! a = Some tm -> again now (cancelingTimers_ w) a tm w'.
Proof.
  revert w. induction es as [|[t a] es IH]; intros w Hi Hl Ha Hnow.
  - exists w. split_and!; [done..|by split|]. intros t a tm Hx. by apply not_elem_of_nil in Hx.
  - rewrite reset_timers_cons. cbn [snd]. rewrite fmap_cons in Hi |- *. cbn [snd] in Hi |- *.
    destruct (proj2 (inv_heap _ _ Hi a)) as [tm Htm].
    { unfold owned. apply elem_of_app. right. apply list_elem_of_here. }
    destruct (reset_one_ok es.*2 now a w tm Hi Hl Ha Hnow Htm) as (w1 & -> & Hi1 & Ha1 & Hr1 & Hg1).
    rewrite bind_ok. destruct (IH w1 Hi1) as (w2 & -> & Hi2 & Ha2 & Hr2 & Hg2);
      [by rewrite (resets_inLoop _ _ _ Hr1)|done|done|].
    assert (a ∉ es.*2) as Hnot.
    { pose proof (inv_nodup _ _ Hi) as Hn. unfold owned in Hn. apply NoDup_app in Hn as (_ & _ & Hn).
      apply NoDup_cons in Hn as [Hn _]. intros Hx. apply Hn. apply elem_of_app. by left. }
    exists w2. split_and!; [done|done|done| |].
    + destruct Hr1 as [A1 A2 A3 A4 A5 A6], Hr2 as [B1 B2 B3 B4 B5 B6]. split; try congruence.
      * intros b Hb. apply not_elem_of_cons in Hb as [Hne Hb]. rewrite B5 by done. apply A5.
        by rewrite list_elem_of_singleton.
      * intros e He. by apply B6, A6.
    + intros t' a' tm' Hin Htm'. apply elem_of_cons in Hin as [[= -> ->]|Hin].
      * assert (tm' = tm) as -> by congruence. by apply (again_frame _ _ _ _ es.*2 w1).
      * rewrite <- (resets_canceling _ _ _ Hr1). apply (Hg2 t'); [done|].
        rewrite (resets_heap _ _ _ Hr1); [done|]. rewrite list_elem_of_singleton. intros ->.
        apply Hnot. apply list_elem_of_fmap. by exists (t', a).
Qed.

Lemma reset_ok es now w :
  inv es.*2 w -> inLoop w = true -> armed_for false w -> 0 < now < 2 ^ 61 ->
  exists w', reset clock es now w = Ok w' /\ inv [] w' /\ armed_for true w' /\ ran w' = ran w /\
    inLoop w' = inLoop w /\ cancelingTimers_ w' = cancelingTimers_ w /\
    (forall a, a ∉ es.*2 -> heap w' !! a = heap w !! a) /\
    (forall e, e ∈ timers_ w -> e ∈ timers_ w') /\
    forall t a tm, (t, a) ∈ es -> heap w !! a = Some tm -> again now (cancelingTimers_ w') a tm w'.
Proof using clock_ok.
  intros Hi Hl Ha Hnow.
  destruct (reset_timers_ok es now w Hi Hl Ha Hnow) as (w1 & Hr & Hi1 & Ha1 & Hrs & Hg).
  unfold reset. rewrite Hr, bind_ok. destruct Hrs as [R1 R2 R3 R4 R5 R6].
  destruct (timers_ w1) as [|x k] eqn:Et.
  - exists w1. rewrite <- R3 in Hg. split_and!; try done; [|by rewrite Et].
    unfold armed_for. by rewrite Et.
  - destruct x as [t a]. destruct (inv_entry _ _ Hi1 t a) as (tm & Htm & He).
    { rewrite Et. apply list_elem_of_here. }
    cbn [snd]. unfold deref. rewrite Htm, bind_ok, He. zcase (0 <? t).
    + rewrite resetTimerfd_ok by (rewrite <- He; by apply (inv_timer _ _ Hi1 a)).
      eexists. split; [done|]. rewrite <- R3 in Hg.
      split_and!; try done; [by apply with_armed_inv| |by cbn; rewrite Et].
      unfold armed_for. cbn. rewrite Et. intros _. exists t. split; [done|]. cbn. lia.
    + exists w1. rewrite <- R3 in Hg. split_and!; try done; [|by rewrite Et].
      unfold armed_for in *. rewrite Et in *. intros _. apply Ha1. right. cbn. lia.
Qed.

(** ** [handleRead] *)

Section Handle.
Context (code : Z -> TimerQueue -> list action).
Context (code_ok : forall cb w, Forall action_ok (code cb w)).

(** What one expiry of the timerfd does. *)
Record fired (now : Z) (w w' : TimerQueue) (es rest : list Entry) : Prop := {
  fired_split : timers_ w = es ++ rest;
  fired_due : forall e, e ∈ es -> fst e <= now;
  fired_rest : forall e, e ∈ rest -> now < fst e;
  fired_ran : ran w' = ran w ++ (key (heap w) <$> es);
  fired_again : forall t a tm, (t, a) ∈ es -> heap w !! a = Some tm ->
    again now (cancelingTimers_ w') a tm w'
}.

Lemma handleRead_run w :
  inv [] w -> inLoop w = true ->
  runs (handleRead clock alloc code w) (fun w' => inv [] w' /\ armed_for true w' /\
    inLoop w' = true /\ exists es rest, fired (clock (reads w)) w w' es rest).
Proof using clock_ok alloc_ok code_ok.
  intros Hi Hl. unfold handleRead, assertInLoopThread. rewrite Hl, bind_ok. cbv zeta.
  set (now := clock (reads w)). pose proof (clock_ok (reads w) : 0 < now < 2 ^ 61) as Hnow.
  set (w0 := readTimerfd _). assert (inv [] w0) as Hi0 by (by do 2 apply with_armed_inv).
  destruct (getExpired_ok now w0 Hi0) as (es & rest & Ht & Hd & Hre & Hg & Hi1).
  rewrite Hg, bind_ok. set (w1 := with_calling true ∅ _).
  assert (inv es.*2 w1) as Hi1' by (by destruct Hi1).
  assert (armed_for false w1) as Ha1.
  { unfold armed_for, w1; cbn. destruct rest as [|x r]; [done|]. intros [?|Hx]; [done|].
    specialize (Hre x ltac:(apply list_elem_of_here)). lia. }
  eapply runs_bind; [apply (run_expired_ok code code_ok es es.*2); try done|].
  { intros e He. apply list_elem_of_fmap. by exists e. }
  intros w2 (Hi2 & Ha2 & Hs2). destruct Hs2 as [S1 S2 S3 S4 S5 S6].
  set (w3 := with_calling false _ _). assert (inv es.*2 w3) as Hi3 by (by destruct Hi2).
  destruct (reset_ok es now w3 Hi3) as (w4 & -> & Hi4 & Ha4 & R1 & R2 & R3 & R4 & R5 & R6);
    [by cbn; rewrite S2|done|done|].
  split_and!; [done|done|by rewrite R2; cbn; rewrite S2|]. exists es, rest. split; try done.
  - rewrite R1. cbn. by rewrite S1.
  - intros t a tm Hin Htm. apply (R6 t); [done|]. cbn. rewrite S6; [done|].
    apply list_elem_of_fmap. by exists (t, a).
Qed.

(** ** Sequences of operations *)

(** Adding and cancelling in the loop's thread or in another; the timerfd
    firing; the loop running a functor. *)
Inductive op := OpAdd (in_loop : bool) (cb when : Z) (interval : double)
  | OpCancel (in_loop : bool) (id : TimerId) | OpFire | OpTask.

Definition run_op (o : op) (w : TimerQueue) : result TimerQueue :=
  match o with
  | OpAdd b cb when iv => '(_, w) ← addTimer clock alloc cb when iv (with_thread b w); Ok w
  | OpCancel b id => cancel id (with_thread b w)
  | OpFire => handleRead clock alloc code (with_thread true w)
  | OpTask => run_task clock (with_thread true w)
  end.

Fixpoint run_ops (os : list op) (w : TimerQueue) : result TimerQueue :=
  match os with
  | [] => Ok w
  | o :: os => w ← run_op o w; run_ops os w
  end.

Definition op_ok (o : op) : Prop :=
  match o with OpAdd _ _ when iv => time_ok when /\ interval_ok iv | _ => True end.

Definition good (w : TimerQueue) : Prop := inv [] w /\ armed_for true w.

Lemma with_thread_good b w : good w -> good (with_thread b w).
Proof. intros [[] Ha]. by split; [split|]. Qed.

Lemma add_task_inv limbo a w : inv (a :: limbo) w -> inv limbo (with_tasks (tasks w ++ [AddTask a]) w).
Proof.
  intros [H1 H2 H3 H4 H5 H6].
  assert (owned limbo (with_tasks (tasks w ++ [AddTask a]) w) ≡ₚ owned (a :: limbo) w) as Ho.
  { unfold owned, pending_adds; cbn. rewrite omap_app. cbn.
    rewrite (app_assoc limbo), <- Permutation_cons_append. done. }
  split; [done | by rewrite Ho | intros b; rewrite Ho; apply H3 | done | done | done].
Qed.

Lemma cancel_task_inv limbo id w :
  inv limbo w -> inv limbo (with_tasks (tasks w ++ [CancelTask id]) w).
Proof.
  intros [H1 H2 H3 H4 H5 H6].
  assert (owned limbo (with_tasks (tasks w ++ [CancelTask id]) w) = owned limbo w) as Ho.
  { unfold owned, pending_adds; cbn. rewrite omap_app. cbn. by rewrite app_nil_r. }
  split; [done | by rewrite Ho | intros b; rewrite Ho; apply H3 | done | done | done].
Qed.

Lemma run_op_good o w : good w -> op_ok o -> runs (run_op o w) good.
Proof using clock_ok alloc_ok code_ok.
  intros Hg Ho. destruct o as [b cb when iv|b id| |]; cbn [run_op op_ok] in *.
  - destruct Ho as [Ht Hiv]. apply (with_thread_good b) in Hg as [Hi Ha]. unfold addTimer.
    rewrite bind_assoc. eapply runs_bind; [by apply (new_timer_ok true [])|].
    intros [a w1]. cbn [fst snd]. intros (Hi1 & Ha1 & Hs1 & [tm Htm]). unfold deref.
    rewrite Htm, bind_ok. destruct (inLoop w1) eqn:El.
    + destruct (addTimerInLoop_ok true [] w1 a Hi1 El Ha1) as (w2 & -> & ? & ? & _). by split.
    + split; [by apply add_task_inv|done].
  - apply (with_thread_good b) in Hg as [Hi Ha]. unfold cancel.
    destruct (inLoop (with_thread b w)) eqn:El.
    + destruct (cancelInLoop_ok true [] _ id Hi El Ha) as (w2 & -> & ? & ? & _). by split.
    + split; [by apply cancel_task_inv|done].
  - apply (with_thread_good true) in Hg as [Hi Ha].
    eapply runs_mono; [by apply handleRead_run|]. intros w' (? & ? & _). by split.
  - apply (with_thread_good true) in Hg as [Hi Ha]. set (w1 := with_thread true w) in *.
    unfold run_task. destruct (tasks w1) as [|[a|id] ts] eqn:Et; [by split| |].
    + destruct (addTimerInLoop_ok true [] (with_tasks ts w1) a) as (w2 & -> & ? & ? & _);
        [|done|done|by split].
      pose proof Hi as [H1 H2 H3 H4 H5 H6].
      assert (owned [a] (with_tasks ts w1) = owned [] w1) as Ho'
        by (unfold owned; rewrite Et; done).
      split; [done | by rewrite Ho' | intros c; rewrite Ho'; apply H3 | done | done | done].
    + destruct (cancelInLoop_ok true [] (with_tasks ts w1) id) as (w2 & -> & ? & ? & _);
        [|done|done|by split].
      pose proof Hi as [H1 H2 H3 H4 H5 H6].
      assert (owned [] (with_tasks ts w1) = owned [] w1) as Ho'
        by (unfold owned; rewrite Et; done).
      split; [done | by rewrite Ho' | intros c; rewrite Ho'; apply H3 | done | done | done].
Qed.

Lemma new_good : good new.
Proof.
  split; [|done]. split; cbn; try done.
  - constructor.
  - constructor.
  - intros a. rewrite lookup_empty. split; [by intros [? ?]|]. intros Ha. by apply not_elem_of_nil in Ha.
  - intros t a Ha. by apply not_elem_of_nil in Ha.
Qed.

Lemma run_ops_good os w : good w -> Forall op_ok os -> runs (run_ops os w) good.
Proof using clock_ok alloc_ok code_ok.
  revert w. induction os as [|o os IH]; intros w Hg Hos; [done|].
  apply Forall_cons in Hos as [Ho Hos]. cbn [run_ops].
  eapply runs_bind; [by apply run_op_good|]. intros w1 Hg1. by apply IH.
Qed.

(** ** Properties *)

(** [C4] Safety of the timer queue.  Any interleaving of additions and
    cancellations, in the loop's thread, in others and in the callbacks
    themselves, with expiries and functors, runs without a failed assertion and
    without a dangling or doubly deleted timer (it can only stop because the
    allocator throws); afterwards the live timers are exactly those in the set
    or on their way to it, the two sets agree, and the timerfd is set for the
    earliest timer or earlier, so no timer is forgotten. *)
Theorem timer_queue_safe os :
  Forall op_ok os -> runs (run_ops os new) (fun w => inv [] w /\ armed_for true w).
Proof using clock_ok alloc_ok code_ok. apply run_ops_good, new_good. Qed.

(** [C21] An expiry.  [handleRead] runs exactly the timers whose time has come, in
    the order of their expirations, each once; a repeating one that no callback
    cancelled goes back into the set, its interval from now, and every other one
    is destroyed. *)
Theorem timer_expiry w :
  inv [] w -> inLoop w = true ->
  runs (handleRead clock alloc code w) (fun w' =>
    exists es rest, fired (clock (reads w)) w w' es rest).
Proof using clock_ok alloc_ok code_ok.
  intros Hi Hl. eapply runs_mono; [by apply handleRead_run|]. by intros w' (_ & _ & _ & H).
Qed.

End Handle.

(** Cancellation.  A timer that is in the set is taken out of both sets and
    destroyed, and nothing else changes in the heap; an identifier that is not
    in the set (never added, already run, or of an older timer at the same
    address) changes no timer, and is remembered while the expired timers run. *)
Theorem timer_cancel w limbo id :
  inv limbo w -> inLoop w = true -> armed_for true w ->
  exists w', cancelInLoop id w = Ok w' /\ (id ∉ activeTimers_ w') /\
    (forall a, a <> fst id -> heap w' !! a = heap w !! a) /\
    (id ∈ activeTimers_ w -> heap w' !! fst id = None /\
       (forall e, e ∈ timers_ w' <-> (e ∈ timers_ w /\ snd e <> fst id))) /\
    (id ∉ activeTimers_ w -> heap w' = heap w /\ timers_ w' = timers_ w /\
       (callingExpiredTimers_ w = true -> id ∈ cancelingTimers_ w')).
Proof.
  intros Hi Hl Ha. destruct (decide (id ∈ activeTimers_ w)) as [Hid|Hid].
  - destruct (cancel_active true limbo w id Hi Hl Ha Hid) as (l & H1 & _ & _ & _ & H5).
    exists (without id l w). split_and!; [done| | | |by intros ?].
    + cbn. rewrite elem_of_difference, elem_of_singleton. tauto.
    + intros a Hne. cbn. by apply lookup_delete_ne.
    + intros _. split; [cbn; apply lookup_delete_eq|done].
  - rewrite (cancel_absent w id (inv_sizes _ _ Hi) Hl Hid). eexists. split; [done|].
    destruct (callingExpiredTimers_ w) eqn:Ec; split_and!; try done.
    intros _. split_and!; [done|done|]. intros _. cbn. apply elem_of_union. left.
    by apply elem_of_singleton.
Qed.

End Operations.
(** ** A concrete queue *)

(** A stopped clock, room for three timers, and a callback 1 that cancels. *)
Definition clock0 (n : nat) : Z := 1000000.
Definition alloc0 (h : gmap Z Timer) : option Z :=
  if bool_decide (h !! 5 = None) then Some 5 else
  if bool_decide (h !! 6 = None) then Some 6 else
  if bool_decide (h !! 7 = None) then Some 7 else None.
Definition code0 (cb : Z) (w : TimerQueue) : list action := if cb =? 1 then [Cancel (6, 1)] else [].

(** Zero, and a hundredth of a second. *)
Definition never : double := SpecFloat.S754_zero false.
Definition hundredth : double :=
  SpecFloat.SFdiv Timestamp.prec Timestamp.emax (Timestamp.of_int 1) (Timestamp.of_int 100).

Lemma clock0_ok n : 0 < clock0 n < 2 ^ 61.
Proof. done. Qed.

Lemma alloc0_ok h a : alloc0 h = Some a -> h !! a = None /\ 0 <= a < sentry_address.
Proof.
  unfold alloc0. intros Ha.
  repeat (case_bool_decide; [injection Ha as <-; split; [done|vm_compute; split; congruence]|]).
  done.
Qed.

Lemma code0_ok cb w : Forall action_ok (code0 cb w).
Proof. unfold code0. destruct (cb =? 1); repeat constructor. Qed.

Lemma never_ok : interval_ok never.
Proof. intros H. vm_compute in H. discriminate H. Qed.

Lemma hundredth_ok : interval_ok hundredth.
Proof. intros _. exists 10000. split; [vm_compute; reflexivity|lia]. Qed.

(** Three timers: due and one-shot, due and repeating, due later. *)
Definition adds0 : list op :=
  [OpAdd true 1 900000 never; OpAdd false 2 950000 hundredth; OpTask;
   OpAdd true 3 2000000 hundredth].

Lemma adds0_ok : Forall op_ok adds0.
Proof.
  repeat constructor; cbn; unfold time_ok; try lia; apply never_ok || apply hundredth_ok.
Qed.

Definition queue0 : TimerQueue :=
  match run_ops clock0 alloc0 code0 adds0 new with Ok w => w | Err _ => new end.

Lemma queue0_good : good queue0.
Proof.
  pose proof (run_ops_good clock0 alloc0 clock0_ok alloc0_ok code0 code0_ok adds0 new new_good adds0_ok)
    as Hr.
  unfold queue0. destruct (run_ops _ _ _ _ _); [done|apply new_good].
Qed.

(** The first callback cancels the repeating timer: it still runs this once. *)
Lemma timer_queue_safe_witness :
  runs (run_ops clock0 alloc0 code0 (adds0 ++ [OpFire]) new)
    (fun w => inv [] w /\ armed_for true w) /\
  (w ← run_ops clock0 alloc0 code0 (adds0 ++ [OpFire]) new;
   Ok (ran w, timers_ w, armed w)) = Ok ([(5, 0); (6, 1)], [(2000000, 7)], Some 2000000).
Proof.
  split; [|vm_compute; reflexivity].
  apply (timer_queue_safe clock0 alloc0 clock0_ok alloc0_ok code0 code0_ok).
  apply Forall_app. split; [exact adds0_ok|]. repeat constructor.
Defined.

Lemma timer_expiry_witness :
  runs (handleRead clock0 alloc0 code0 queue0) (fun w' =>
    exists es rest, fired (clock0 (reads queue0)) queue0 w' es rest).
Proof.
  apply (timer_expiry clock0 alloc0 clock0_ok alloc0_ok code0 code0_ok queue0).
  - apply queue0_good.
  - vm_compute. reflexivity.
Defined.

Lemma timer_cancel_witness :
  exists w', cancelInLoop (6, 1) queue0 = Ok w' /\ ((6, 1) ∉ activeTimers_ w') /\
    (forall a, a <> 6 -> heap w' !! a = heap queue0 !! a) /\
    ((6, 1) ∈ activeTimers_ queue0 -> heap w' !! 6 = None /\
       (forall e, e ∈ timers_ w' <-> (e ∈ timers_ queue0 /\ snd e <> 6))) /\
    ((6, 1) ∉ activeTimers_ queue0 -> heap w' = heap queue0 /\ timers_ w' = timers_ queue0 /\
       (callingExpiredTimers_ queue0 = true -> (6, 1) ∈ cancelingTimers_ w')).
Proof.
  apply (timer_cancel queue0 [] (6, 1)).
  - apply queue0_good.
  - vm_compute. reflexivity.
  - apply queue0_good.
Defined.

End TimerQueue.
