(* ===== verification/Connection.v ===== *)
(** * The connection its owner sees: TcpConnection.h

    A server or a client does not look into its connections: it constructs them, calls
    [connectEstablished] and [connectDestroyed] in their loops, and is called back
    when they close.  This is that contract, as a class; TcpServer.v and TcpClient.v
    use it, OwnedConnection.v proves it of TcpConnection.v. *)

From S2P Require Import Prelude.

Module Connection.

Inductive StateE := kDisconnected | kConnecting | kConnected | kDisconnecting.

#[global] Instance StateE_eqdec : EqDecision StateE.
Proof. solve_decision. Defined.

Definition stateToString (s : StateE) : string :=
  match s with
  | kDisconnected => "kDisconnected"
  | kConnecting => "kConnecting"
  | kConnected => "kConnected"
  | kDisconnecting => "kDisconnecting"
  end.

(** Between the two connection callbacks. *)
Definition up (st : StateE) : Prop := st = kConnected \/ st = kDisconnecting.

(** What an operation does to the state, by whether it ends with a call of the
    close callback. *)
Definition turns (closed : bool) (st st' : StateE) : Prop :=
  if closed then up st /\ st' = kDisconnected
  else st' = st \/ (up st /\ st' = kDisconnecting).

(** ** Whose fault it is *)

(** A broken precondition is the owner's fault, anything that goes wrong inside an
    operation of a connection, or in a functor of one, the connection's. *)
Inductive outcome (A : Type) :=
| Done (a : A)
| OwnerFault (f : fault)
| ConnectionFault (f : fault).
Arguments Done {A} _.
Arguments OwnerFault {A} _.
Arguments ConnectionFault {A} _.

#[global] Instance outcome_bind : MBind outcome := fun _ _ k m =>
  match m with
  | Done a => k a
  | OwnerFault f => OwnerFault f
  | ConnectionFault f => ConnectionFault f
  end.

Definition owner {A} (m : result A) : outcome A :=
  match m with Ok a => Done a | Err f => OwnerFault f end.
Definition callee {A} (m : result A) : outcome A :=
  match m with Ok a => Done a | Err f => ConnectionFault f end.

Lemma bind_done {A B} (a : A) (k : A -> outcome B) : (Done a ≫= k) = k a.
Proof. reflexivity. Qed.

Lemma bind_done_inv {A B} (m : outcome A) (k : A -> outcome B) (b : B) :
  (m ≫= k) = Done b -> exists a, m = Done a /\ k a = Done b.
Proof. destruct m as [a|f|f]; [eauto|intros H; discriminate H..]. Qed.

Lemma owner_done_inv {A} (m : result A) a : owner m = Done a -> m = Ok a.
Proof. destruct m; [by intros [= ->]|done]. Qed.

Lemma callee_done_inv {A} (m : result A) a : callee m = Done a -> m = Ok a.
Proof. destruct m; [by intros [= ->]|done]. Qed.

(** The outcome is not the owner's fault, and satisfies [Q] if there is one. *)
Definition blameless {A} (m : outcome A) (Q : A -> Prop) : Prop :=
  match m with Done a => Q a | OwnerFault _ => False | ConnectionFault _ => True end.

Lemma blameless_bind {A B} (m : outcome A) (k : A -> outcome B) (P : A -> Prop) (Q : B -> Prop) :
  blameless m P -> (forall a, P a -> blameless (k a) Q) -> blameless (m ≫= k) Q.
Proof. destruct m; cbn; [auto|done..]. Qed.

Lemma blameless_mono {A} (m : outcome A) (P Q : A -> Prop) :
  (forall a, P a -> Q a) -> blameless m P -> blameless m Q.
Proof. destruct m; cbn; auto. Qed.

Lemma blameless_callee {A} (m : result A) (Q : A -> Prop) :
  (forall a, m = Ok a -> Q a) -> blameless (callee m) Q.
Proof. destruct m; cbn; auto. Qed.

(** Open the hypotheses that say that an outcome was reached. *)
Ltac inv_done :=
  repeat match goal with
  | H : (_ ≫= _) = Done _ |- _ =>
      let a := fresh "a" in let E := fresh "E" in apply bind_done_inv in H as (a & E & H)
  | H : owner _ = Done _ |- _ => apply owner_done_inv in H
  | H : callee _ = Done _ |- _ => apply callee_done_inv in H
  | H : Done _ = Done _ |- _ => injection H as H
  | H : OwnerFault _ = Done _ |- _ => discriminate H
  | H : ConnectionFault _ = Done _ |- _ => discriminate H
  end.

(** ** The contract *)

(** [K]: connection objects.  [L]: what they share with the other users of their
    loop.  [Action]: the events, timers and calls of users, from any thread, that
    may come to a connection; [act] and [run_functor] also tell whether the close
    callback was called, which is then the last thing they do. *)
Class Connection (K L : Type) := {
  Action : Type;
  state_of : K -> StateE;
  channel_of : K -> Z;                               (* the address of its channel *)
  pending : K -> nat;                                (* its functors in the loop's queue *)
  construct : Z -> Z -> Z -> L -> result (K * L);    (* channel, loop, socket *)
  connectEstablished : Z -> K -> L -> result (K * L);
  connectDestroyed : K -> L -> result (K * L);
  destruct : K -> L -> result L;                     (* the destructor *)
  act : Action -> K -> L -> result (K * L * bool);
  run_functor : K -> L -> result (K * L * bool)      (* the oldest of its functors *)
}.

(** [sound]: the invariant of a connection in its loop, until [connectDestroyed];
    established, it cannot be destroyed before that.  [elsewhere c]: nothing
    changed but for the user of the channel [c]. *)
Class ConnectionLaws (K L : Type) `{Connection K L} := {
  sound : K -> L -> Prop;
  unused : Z -> L -> Prop;
  elsewhere : Z -> L -> L -> Prop;

  elsewhere_preorder c : PreOrder (elsewhere c);
  elsewhere_sound c k l l' : elsewhere c l l' -> channel_of k <> c -> sound k l -> sound k l';

  construct_spec c loop fd l k l' : unused c l -> construct c loop fd l = Ok (k, l') ->
    sound k l' /\ state_of k = kConnecting /\ channel_of k = c /\ pending k = 0%nat /\
    elsewhere c l l';
  established_spec self k l k' l' :
    sound k l -> state_of k = kConnecting -> connectEstablished self k l = Ok (k', l') ->
    sound k' l' /\ up (state_of k') /\ channel_of k' = channel_of k /\
    (pending k <= pending k')%nat /\ elsewhere (channel_of k) l l';
  destroyed_spec k l k' l' : sound k l -> connectDestroyed k l = Ok (k', l') ->
    channel_of k' = channel_of k /\ (pending k <= pending k')%nat /\ elsewhere (channel_of k) l l';
  destruct_spec k l l' : destruct k l = Ok l' -> elsewhere (channel_of k) l l';
  destruct_early k l : sound k l -> state_of k <> kConnecting -> destruct k l = Err AssertFailure;
  act_spec a k l k' l' closed : sound k l -> act a k l = Ok (k', l', closed) ->
    sound k' l' /\ turns closed (state_of k) (state_of k') /\ channel_of k' = channel_of k /\
    (pending k <= pending k')%nat /\ elsewhere (channel_of k) l l';
  functor_spec k l k' l' closed : sound k l -> run_functor k l = Ok (k', l', closed) ->
    sound k' l' /\ turns closed (state_of k) (state_of k') /\ channel_of k' = channel_of k /\
    (pred (pending k) <= pending k')%nat /\ elsewhere (channel_of k) l l'
}.

#[global] Existing Instance elsewhere_preorder.

(** The least that keeps the contract: a state, an address, and whether the channel is
    registered.  [true]: the connection closes; [false]: the user asks for that. *)
Record plain := mkPlain { pstate : StateE; paddr : Z; pregistered : bool }.

Definition plain_act (a : bool) (k : plain) (l : unit) : result (plain * unit * bool) :=
  match a, pstate k with
  | true, (kConnected | kDisconnecting) => Ok (mkPlain kDisconnected (paddr k) (pregistered k), l, true)
  | false, kConnected => Ok (mkPlain kDisconnecting (paddr k) (pregistered k), l, false)
  | _, _ => Ok (k, l, false)
  end.

#[global] Instance plain_connection : Connection plain unit := {
  Action := bool;
  state_of := pstate;
  channel_of := paddr;
  pending _ := 0%nat;
  construct c _ _ l := Ok (mkPlain kConnecting c false, l);
  connectEstablished _ k l := Ok (mkPlain kConnected (paddr k) true, l);
  connectDestroyed k l := Ok (mkPlain (pstate k) (paddr k) false, l);
  destruct k l := _ ← assert_ (negb (pregistered k)); Ok l;
  act := plain_act;
  run_functor k l := Ok (k, l, false)
}.

#[global] Instance plain_laws : ConnectionLaws plain unit.
Proof.
  refine {| sound k _ := pstate k = kConnecting \/ pregistered k = true;
            unused _ _ := True; elsewhere _ _ _ := True |}; try done; cbn.
  - intros c loop fd l k l' _ [= <- <-]. cbn. auto.
  - intros self k l k' l' _ _ [= <- <-]. split_and!; [by right|by left|done..].
  - intros k l k' l' _ [= <- <-]. done.
  - intros k l [Hk| ->]; [done|]. done.
  - intros a [st c r] l k' l' closed Hs E. unfold plain_act, turns, up in *. cbn in Hs.
    destruct a, st; cbn in *; injection E as <- <- <-; cbn; naive_solver.
  - intros k l k' l' closed ? [= <- <- <-]. cbn. auto 10.
Defined.

End Connection.
