(* ===== verification/TcpConnection.v ===== *)
(** * [dws::net::TcpConnection]: TcpConnection.h, TcpConnection.cc

    One connection in its loop: the state machine, the two buffers, the channel
    it drives through the interface [Channel.Host], and the functors it sends to
    the loop.  The kernel's answers are parameters, and so is the user's code in
    the callbacks, which may use the public functions of the connection. *)

From S2P Require Import Prelude NetBuffer Channel Service Poller PollPoller EventLoop LoopService Connection.

Module TcpConnection.
Import Buffer (content, readableBytes, append, retrieve, retrieveAll, readFd, readv_result).
Import Connection (StateE, kDisconnected, kConnecting, kConnected, kDisconnecting).

(** The error numbers that matter. *)
Definition EPIPE : Z := 32.
Definition EWOULDBLOCK : Z := 11.
Definition ECONNRESET : Z := 104.

(** The result of write(2): bytes taken, or an error number. *)
Inductive write_answer := Wrote (n : Z) | WriteError (err : Z).

(** What was called, for the record: the user's callbacks, and the system calls
    that end a direction of the stream. *)
Inductive event :=
| ConnectionCallback (up : bool)
| MessageCallback
| WriteCompleteCallback
| CloseCallback
| ShutdownWrite (unsent : list byte).

(** The functors on their way through the loop. *)
Inductive task :=
| SendTask (addr len : Z)            (* [this, message] { sendInLoop(message); } *)
| SendBufferTask (buf : option Z)    (* [this, buf] { sendInLoop(buf->toStringPiece()); } *)
| WriteCompleteTask
| HighWaterMarkTask                  (* [this, &size]: a reference to a dead local *)
| ShutdownTask
| ForceCloseTask
| StartReadTask
| StopReadTask.

(** What the user's code does in a callback. *)
Inductive user_op :=
| Send (addr len : Z)
| SendBuffer (buf : option Z)        (* [None]: inputBuffer() *)
| Consume (n : Z)                    (* inputBuffer()->retrieve(n) *)
| ConsumeAll
| Shutdown
| ForceClose
| StartRead
| StopRead.

Section Connection.
Context {W : Type} `{Channel.Host W}.

(** [mem] and [bufs]: the memory that messages are sent from.  [calls]: write(2)
    and readv(2) made so far.  [wire]: the bytes the kernel took. *)
Record TcpConnection := mkConn {
  state_ : StateE;
  reading_ : bool;
  channel_ : Z;
  inputBuffer_ : Buffer.Buffer;
  outputBuffer_ : Buffer.Buffer;
  highWaterMark_ : Z;
  writeCompleteCallback_ : bool;
  highWaterMarkCallback_ : bool;
  mem : gmap Z (list byte);
  bufs : gmap Z Buffer.Buffer;
  inLoop : bool;
  tasks : list task;
  delayed : nat;
  calls : nat;
  wire : list byte;
  trace : list event;
  world : W
}.

Definition set_state (st : StateE) (s : TcpConnection) : TcpConnection :=
  mkConn st (reading_ s) (channel_ s) (inputBuffer_ s) (outputBuffer_ s) (highWaterMark_ s)
    (writeCompleteCallback_ s) (highWaterMarkCallback_ s) (mem s) (bufs s) (inLoop s) (tasks s)
    (delayed s) (calls s) (wire s) (trace s) (world s).
Definition set_reading (b : bool) (s : TcpConnection) : TcpConnection :=
  mkConn (state_ s) b (channel_ s) (inputBuffer_ s) (outputBuffer_ s) (highWaterMark_ s)
    (writeCompleteCallback_ s) (highWaterMarkCallback_ s) (mem s) (bufs s) (inLoop s) (tasks s)
    (delayed s) (calls s) (wire s) (trace s) (world s).
Definition set_input (b : Buffer.Buffer) (s : TcpConnection) : TcpConnection :=
  mkConn (state_ s) (reading_ s) (channel_ s) b (outputBuffer_ s) (highWaterMark_ s)
    (writeCompleteCallback_ s) (highWaterMarkCallback_ s) (mem s) (bufs s) (inLoop s) (tasks s)
    (delayed s) (calls s) (wire s) (trace s) (world s).
Definition set_output (b : Buffer.Buffer) (s : TcpConnection) : TcpConnection :=
  mkConn (state_ s) (reading_ s) (channel_ s) (inputBuffer_ s) b (highWaterMark_ s)
    (writeCompleteCallback_ s) (highWaterMarkCallback_ s) (mem s) (bufs s) (inLoop s) (tasks s)
    (delayed s) (calls s) (wire s) (trace s) (world s).
Definition set_memory (m : gmap Z (list byte)) (bs : gmap Z Buffer.Buffer) (s : TcpConnection)
  : TcpConnection :=
  mkConn (state_ s) (reading_ s) (channel_ s) (inputBuffer_ s) (outputBuffer_ s) (highWaterMark_ s)
    (writeCompleteCallback_ s) (highWaterMarkCallback_ s) m bs (inLoop s) (tasks s)
    (delayed s) (calls s) (wire s) (trace s) (world s).
Definition set_tasks (ts : list task) (n : nat) (s : TcpConnection) : TcpConnection :=
  mkConn (state_ s) (reading_ s) (channel_ s) (inputBuffer_ s) (outputBuffer_ s) (highWaterMark_ s)
    (writeCompleteCallback_ s) (highWaterMarkCallback_ s) (mem s) (bufs s) (inLoop s) ts
    n (calls s) (wire s) (trace s) (world s).
Definition set_wire (n : nat) (l : list byte) (s : TcpConnection) : TcpConnection :=
  mkConn (state_ s) (reading_ s) (channel_ s) (inputBuffer_ s) (outputBuffer_ s) (highWaterMark_ s)
    (writeCompleteCallback_ s) (highWaterMarkCallback_ s) (mem s) (bufs s) (inLoop s) (tasks s)
    (delayed s) n l (trace s) (world s).
Definition set_trace (l : list event) (s : TcpConnection) : TcpConnection :=
  mkConn (state_ s) (reading_ s) (channel_ s) (inputBuffer_ s) (outputBuffer_ s) (highWaterMark_ s)
    (writeCompleteCallback_ s) (highWaterMarkCallback_ s) (mem s) (bufs s) (inLoop s) (tasks s)
    (delayed s) (calls s) (wire s) l (world s).
Definition set_world (w : W) (s : TcpConnection) : TcpConnection :=
  mkConn (state_ s) (reading_ s) (channel_ s) (inputBuffer_ s) (outputBuffer_ s) (highWaterMark_ s)
    (writeCompleteCallback_ s) (highWaterMarkCallback_ s) (mem s) (bufs s) (inLoop s) (tasks s)
    (delayed s) (calls s) (wire s) (trace s) w.
Definition set_thread (b : bool) (s : TcpConnection) : TcpConnection :=
  mkConn (state_ s) (reading_ s) (channel_ s) (inputBuffer_ s) (outputBuffer_ s) (highWaterMark_ s)
    (writeCompleteCallback_ s) (highWaterMarkCallback_ s) (mem s) (bufs s) b (tasks s)
    (delayed s) (calls s) (wire s) (trace s) (world s).

(** The constructor, on a channel of its own at [c]. *)
Definition new (c : Z) (input output : Buffer.Buffer) (w : W) : TcpConnection :=
  mkConn kConnecting true c input output (64 * 1024 * 1024) false false ∅ ∅ true [] 0 0 [] [] w.

(** The constructor with the parts it makes: the channel of [sockfd] at the address
    [c], with the handlers under the names given, and the two buffers. *)
Definition create (on_read on_write on_close on_error : Z) (c loop sockfd : Z) (w : W)
  : result TcpConnection :=
  let ch := Channel.setErrorCallback (Some on_error) (Channel.setCloseCallback (Some on_close)
    (Channel.setWriteCallback (Some on_write) (Channel.setReadCallback (Some on_read)
      (Channel.new loop sockfd)))) in
  input ← Buffer.new Buffer.kInitialSize;
  output ← Buffer.new Buffer.kInitialSize;
  Ok (new c input output (Channel.put_chan c ch w)).

Definition setWriteCompleteCallback (cb : bool) (s : TcpConnection) : TcpConnection :=
  mkConn (state_ s) (reading_ s) (channel_ s) (inputBuffer_ s) (outputBuffer_ s) (highWaterMark_ s)
    cb (highWaterMarkCallback_ s) (mem s) (bufs s) (inLoop s) (tasks s)
    (delayed s) (calls s) (wire s) (trace s) (world s).
Definition setHighWaterMarkCallback (cb : bool) (mark : Z) (s : TcpConnection) : TcpConnection :=
  mkConn (state_ s) (reading_ s) (channel_ s) (inputBuffer_ s) (outputBuffer_ s) mark
    (writeCompleteCallback_ s) cb (mem s) (bufs s) (inLoop s) (tasks s)
    (delayed s) (calls s) (wire s) (trace s) (world s).

Definition connected (s : TcpConnection) : bool := bool_decide (state_ s = kConnected).
Definition disconnected (s : TcpConnection) : bool := bool_decide (state_ s = kDisconnected).

Definition assertInLoopThread (s : TcpConnection) : result unit :=
  if inLoop s then Ok tt else Err Aborted.

(** [loop_->queueInLoop]. *)
Definition queueInLoop (t : task) (s : TcpConnection) : TcpConnection :=
  set_tasks (tasks s ++ [t]) (delayed s) s.

(** An operation of the channel. *)
Definition on_channel (f : Z -> W -> result W) (s : TcpConnection) : result TcpConnection :=
  w ← f (channel_ s) (world s); Ok (set_world w s).
Definition channel (s : TcpConnection) : result Channel.Channel :=
  Channel.deref (world s) (channel_ s).

Definition record (e : event) (s : TcpConnection) : TcpConnection := set_trace (trace s ++ [e]) s.

(** ** Sending *)

Section Kernel.
(** write(2), by call, on the bytes offered, and readv(2), on the room offered. *)
Context (kwrite : nat -> list byte -> write_answer) (kread : nat -> Z -> readv_result).

(** [socket_->shutdownWrite()]. *)
Definition shutdownInLoop (s : TcpConnection) : result TcpConnection :=
  _ ← assertInLoopThread s;
  ch ← channel s;
  if negb (Channel.isWriting ch) then Ok (record (ShutdownWrite (content (outputBuffer_ s))) s)
  else Ok s.

(** The direct write of [sendInLoop]: what is left of the message, whether an
    error stops the rest, and the connection. *)
Definition try_write (ch : Channel.Channel) (message : list byte) (s : TcpConnection)
  : (Z * Z * bool * TcpConnection) :=
  let len := zlen message in
  if negb (Channel.isWriting ch) && (readableBytes (outputBuffer_ s) =? 0) then
    match kwrite (calls s) message with
    | Wrote n =>
        let s := set_wire (S (calls s)) (wire s ++ ztake n message) s in
        let remaining := wrapu 64 (len - n) in
        (n, remaining, false,
         if (remaining =? 0) && writeCompleteCallback_ s then queueInLoop WriteCompleteTask s else s)
    | WriteError err =>
        (0, len, negb (err =? EWOULDBLOCK) && ((err =? EPIPE) || (err =? ECONNRESET)),
         set_wire (S (calls s)) (wire s) s)
    end
  else (0, len, false, s).

(** The buffering of the rest is inside the test of the high-water mark. *)
Definition sendInLoop (message : list byte) (s : TcpConnection) : result TcpConnection :=
  _ ← assertInLoopThread s;
  let len := zlen message in
  if bool_decide (state_ s = kDisconnected) then Ok s
  else
    ch ← channel s;
    let '(nwrote, remaining, err, s) := try_write ch message s in
    _ ← assert_ (remaining <=? len);
    if negb err && (0 <? remaining) then
      let oldLen := readableBytes (outputBuffer_ s) in
      let size := wrapu 64 (oldLen + remaining) in
      if (highWaterMark_ s <=? size) && (oldLen <? highWaterMark_ s) && highWaterMarkCallback_ s
      then
        let s := queueInLoop HighWaterMarkTask s in
        out ← append (outputBuffer_ s) (ztake remaining (zdrop nwrote message));
        let s := set_output out s in
        ch ← channel s;
        if negb (Channel.isWriting ch) then on_channel Channel.enableWriting s else Ok s
      else Ok s
    else Ok s.

(** A [StringPiece] points into memory of its owner. *)
Definition piece (addr len : Z) (s : TcpConnection) : result (list byte) :=
  match mem s !! addr with
  | Some bytes => _ ← defined_ ((0 <=? len) && (len <=? zlen bytes)); Ok (ztake len bytes)
  | None => Err UndefinedBehaviour
  end.

Definition send (addr len : Z) (s : TcpConnection) : result TcpConnection :=
  if bool_decide (state_ s = kConnected) then
    if inLoop s then message ← piece addr len s; sendInLoop message s
    else Ok (queueInLoop (SendTask addr len) s)
  else Ok s.

(** A [Buffer*]: the input buffer of the connection, or one of the user's. *)
Definition buffer (buf : option Z) (s : TcpConnection) : result Buffer.Buffer :=
  match buf with
  | None => Ok (inputBuffer_ s)
  | Some a => match bufs s !! a with Some b => Ok b | None => Err UndefinedBehaviour end
  end.
Definition put_buffer (buf : option Z) (b : Buffer.Buffer) (s : TcpConnection) : TcpConnection :=
  match buf with
  | None => set_input b s
  | Some a => set_memory (mem s) (<[a := b]> (bufs s)) s
  end.

(** [sendInLoop] of a view, whose length is an [int]. *)
Definition sendInLoop_piece (str : list byte * Z) (s : TcpConnection) : result TcpConnection :=
  _ ← defined_ (0 <=? snd str);
  sendInLoop (fst str) s.

Definition send_buffer (buf : option Z) (s : TcpConnection) : result TcpConnection :=
  if bool_decide (state_ s = kConnected) then
    if inLoop s then
      b ← buffer buf s;
      s ← sendInLoop (content b) s;
      b ← buffer buf s;
      Ok (put_buffer buf (retrieveAll b) s)
    else Ok (queueInLoop (SendBufferTask buf) s)
  else Ok s.

(** ** Closing *)

Definition shutdown (s : TcpConnection) : result TcpConnection :=
  if bool_decide (state_ s = kConnected) then
    let s := set_state kDisconnecting s in
    if inLoop s then shutdownInLoop s else Ok (queueInLoop ShutdownTask s)
  else Ok s.

Definition closing (s : TcpConnection) : bool :=
  bool_decide (state_ s = kConnected) || bool_decide (state_ s = kDisconnecting).

Definition forceClose (s : TcpConnection) : TcpConnection :=
  if closing s then queueInLoop ForceCloseTask (set_state kDisconnecting s) else s.

(** [runAfter] with a weak pointer. *)
Definition forceCloseWithDelay (s : TcpConnection) : result TcpConnection :=
  _ ← assertInLoopThread s;
  if closing s then
    let s := set_state kDisconnecting s in Ok (set_tasks (tasks s) (S (delayed s)) s)
  else Ok s.

(** ** Reading on and off *)

Definition startReadInLoop (s : TcpConnection) : result TcpConnection :=
  _ ← assertInLoopThread s;
  ch ← channel s;
  if negb (reading_ s) || negb (Channel.isReading ch) then
    s ← on_channel Channel.enableReading s; Ok (set_reading true s)
  else Ok s.

Definition stopReadInLoop (s : TcpConnection) : result TcpConnection :=
  _ ← assertInLoopThread s;
  ch ← channel s;
  if reading_ s || Channel.isReading ch then
    s ← on_channel Channel.disableReading s; Ok (set_reading false s)
  else Ok s.

Definition startRead (s : TcpConnection) : result TcpConnection :=
  if inLoop s then startReadInLoop s else Ok (queueInLoop StartReadTask s).
Definition stopRead (s : TcpConnection) : result TcpConnection :=
  if inLoop s then stopReadInLoop s else Ok (queueInLoop StopReadTask s).

(** ** User code *)

Definition run_user (o : user_op) (s : TcpConnection) : result TcpConnection :=
  match o with
  | Send addr len => send addr len s
  | SendBuffer buf => send_buffer buf s
  | Consume n => b ← retrieve (inputBuffer_ s) (Buffer.size_t n); Ok (set_input b s)
  | ConsumeAll => Ok (set_input (retrieveAll (inputBuffer_ s)) s)
  | Shutdown => shutdown s
  | ForceClose => Ok (forceClose s)
  | StartRead => startRead s
  | StopRead => stopRead s
  end.

Fixpoint exec (l : list user_op) (s : TcpConnection) : result TcpConnection :=
  match l with
  | [] => Ok s
  | o :: l => s ← run_user o s; exec l s
  end.

(** ** Events *)

Section Callbacks.
(** What the user's callbacks do. *)
Context (user : event -> TcpConnection -> list user_op).

Definition callback (e : event) (s : TcpConnection) : result TcpConnection :=
  let s := record e s in exec (user e s) s.

Definition connectEstablished (self : Z) (s : TcpConnection) : result TcpConnection :=
  _ ← assertInLoopThread s;
  _ ← assert_ (bool_decide (state_ s = kConnecting));
  let s := set_state kConnected s in
  s ← on_channel (fun c => Channel.modify c (Channel.tie self)) s;
  s ← on_channel Channel.enableReading s;
  callback (ConnectionCallback true) s.

Definition connectDestroyed (s : TcpConnection) : result TcpConnection :=
  _ ← assertInLoopThread s;
  s ← (if bool_decide (state_ s = kConnected) then
         let s := set_state kDisconnected s in
         s ← on_channel Channel.disableAll s;
         callback (ConnectionCallback false) s
       else Ok s);
  on_channel Channel.remove s.

Definition handleClose (s : TcpConnection) : result TcpConnection :=
  _ ← assertInLoopThread s;
  _ ← assert_ (closing s);
  let s := set_state kDisconnected s in
  s ← on_channel Channel.disableAll s;
  s ← callback (ConnectionCallback false) s;
  callback CloseCallback s.

(** [handleError] only logs. *)
Definition handleRead (s : TcpConnection) : result TcpConnection :=
  _ ← assertInLoopThread s;
  '(n, err, b) ← readFd (inputBuffer_ s) (kread (calls s) (Buffer.iov_room (inputBuffer_ s)));
  let s := set_wire (S (calls s)) (wire s) (set_input b s) in
  if 0 <? n then callback MessageCallback s
  else if n =? 0 then handleClose s
  else Ok s.

Definition handleWrite (s : TcpConnection) : result TcpConnection :=
  _ ← assertInLoopThread s;
  ch ← channel s;
  if Channel.isWriting ch then
    match kwrite (calls s) (content (outputBuffer_ s)) with
    | Wrote n =>
        let s := set_wire (S (calls s)) (wire s ++ ztake n (content (outputBuffer_ s))) s in
        if 0 <? n then
          out ← retrieve (outputBuffer_ s) n;
          let s := set_output out s in
          if readableBytes out =? 0 then
            s ← on_channel Channel.disableWriting s;
            let s := if writeCompleteCallback_ s then queueInLoop WriteCompleteTask s else s in
            if bool_decide (state_ s = kDisconnecting) then shutdownInLoop s else Ok s
          else Ok s
        else Ok s
    | WriteError err => Ok (set_wire (S (calls s)) (wire s) s)
    end
  else Ok s.

Definition forceCloseInLoop (s : TcpConnection) : result TcpConnection :=
  _ ← assertInLoopThread s;
  if closing s then handleClose s else Ok s.

(** The loop runs the oldest functor of the connection. *)
Definition run_task (s : TcpConnection) : result TcpConnection :=
  match tasks s with
  | [] => Ok s
  | t :: ts =>
      let s := set_tasks ts (delayed s) s in
      match t with
      | SendTask addr len => message ← piece addr len s; sendInLoop message s
      | SendBufferTask buf => b ← buffer buf s; sendInLoop_piece (Buffer.toStringPiece b) s
      | WriteCompleteTask => callback WriteCompleteCallback s
      | HighWaterMarkTask => Err UndefinedBehaviour
      | ShutdownTask => shutdownInLoop s
      | ForceCloseTask => forceCloseInLoop s
      | StartReadTask => startReadInLoop s
      | StopReadTask => stopReadInLoop s
      end
  end.

(** The timer of [forceCloseWithDelay]. *)
Definition run_timer (s : TcpConnection) : TcpConnection :=
  match delayed s with
  | O => s
  | S n => forceClose (set_tasks (tasks s) n s)
  end.

End Callbacks.
End Kernel.

(** [~TcpConnection]. *)
Definition destroy (s : TcpConnection) : result unit :=
  assert_ (bool_decide (state_ s = kDisconnected)).

End Connection.
Arguments TcpConnection W : clear implicits.

(** ** What the record of events says *)

#[global] Instance event_eqdec : EqDecision event.
Proof. solve_decision. Defined.

(** The connection callbacks of a record, and how often the close callback
    was called. *)
Definition lives (l : list event) : list bool :=
  omap (fun e => match e with ConnectionCallback up => Some up | _ => None end) l.
Definition closes (l : list event) : nat :=
  length (filter (fun e => e = CloseCallback) l).

(** What the user has been told, by state. *)
Definition told (st : StateE) : list bool :=
  match st with
  | kConnecting => []
  | kConnected | kDisconnecting => [true]
  | kDisconnected => [true; false]
  end.

(** Until the user is told that the connection is down, the writing side is
    only shut down with nothing left to send. *)
Fixpoint clean (l : list event) : Prop :=
  match l with
  | [] => True
  | ConnectionCallback false :: _ => True
  | ShutdownWrite unsent :: l => unsent = [] /\ clean l
  | _ :: l => clean l
  end.

Lemma lives_app l k : lives (l ++ k) = lives l ++ lives k.
Proof. apply omap_app. Qed.

Lemma closes_app l k : closes (l ++ k) = (closes l + closes k)%nat.
Proof. unfold closes. by rewrite filter_app, length_app. Qed.

Lemma clean_snoc l e :
  clean l -> (forall u, e = ShutdownWrite u -> false ∈ lives l \/ u = []) -> clean (l ++ [e]).
Proof.
  intros Hl He. induction l as [|[[]| | | |u] l IH]; cbn in *.
  - destruct e as [[]| | | |u]; try done. destruct (He u eq_refl) as [Hf|]; [set_solver|done].
  - apply IH; [done|]. intros u ->. destruct (He u eq_refl) as [Hf|]; [|by right].
    left. by apply elem_of_cons in Hf as [|].
  - done.
  - by apply IH.
  - by apply IH.
  - by apply IH.
  - destruct Hl as [-> Hl]. split; [done|]. by apply IH.
Qed.

#[global] Arguments lives : simpl never.
#[global] Arguments closes : simpl never.

(** ** The invariant *)

Section Laws.
Context {W : Type} `{Channel.HostLaws W}.
Implicit Types s : TcpConnection W.

(** The channel wants to write whenever an open connection has bytes left. *)
Definition armed (st : StateE) (out : Buffer.Buffer) (c : Z) (w : W) : Prop :=
  exists ch sw, Channel.chan_of w c = Some ch /\ Channel.events_ ch = Channel.interest_bits sw /\
    (st <> kDisconnected -> content out <> [] -> snd sw = true).

(** The memory of the user is well formed. *)
Definition memory_ok (m : gmap Z (list byte)) (bs : gmap Z Buffer.Buffer) : Prop :=
  map_Forall (fun _ l => zlen l <= Buffer.max_size) m /\ map_Forall (fun _ b => Buffer.wf b) bs.

Record Inv (s : TcpConnection W) : Prop := {
  inv_input : Buffer.wf (inputBuffer_ s);
  inv_output : Buffer.wf (outputBuffer_ s);
  inv_memory : memory_ok (mem s) (bufs s);
  inv_armed : armed (state_ s) (outputBuffer_ s) (channel_ s) (world s);
  inv_lives : lives (trace s) = told (state_ s);
  inv_closes : (closes (trace s) <= if bool_decide (state_ s = kDisconnected) then 1 else 0)%nat;
  inv_clean : clean (trace s)
}.

(** The bytes the connection took charge of, in order. *)
Definition stream (s : TcpConnection W) : list byte := wire s ++ content (outputBuffer_ s).

(** What no operation undoes. *)
Record advances (s s' : TcpConnection W) : Prop := {
  advances_stream : stream s `prefix_of` stream s';
  advances_wire : wire s `prefix_of` wire s';
  advances_tasks : tasks s `prefix_of` tasks s';
  advances_channel : channel_ s' = channel_ s;
  advances_world : Channel.others (channel_ s) (world s) (world s')
}.

#[local] Instance advances_preorder : PreOrder advances.
Proof.
  split; [by intros s; split|]. intros s1 s2 s3 [] []. split; try by etrans.
  rewrite advances_channel0 in *. by etrans.
Qed.

(** The same, for operations that do not take the channel off its loop. *)
Record grows (s s' : TcpConnection W) : Prop := {
  grows_stream : stream s `prefix_of` stream s';
  grows_wire : wire s `prefix_of` wire s';
  grows_trace : trace s `prefix_of` trace s';
  grows_tasks : tasks s `prefix_of` tasks s';
  grows_channel : channel_ s' = channel_ s;
  grows_world : Channel.others (channel_ s) (world s) (world s');
  grows_registered : Channel.registered (channel_ s) (world s) -> Channel.registered (channel_ s) (world s')
}.

#[local] Instance grows_preorder : PreOrder grows.
Proof.
  split; [by intros s; split|]. intros s1 s2 s3 [] []. split; try by etrans.
  all: rewrite grows_channel0 in *; first [by etrans|auto].
Qed.

Lemma grows_advances s s' : grows s s' -> advances s s'.
Proof. intros []. by split. Qed.

(** What the user's code does to the connection, in a callback or elsewhere:
    nothing but asking for the end changes the phase. *)
Record keeps (s s' : TcpConnection W) : Prop := {
  keeps_grows : grows s s';
  keeps_channel : channel_ s' = channel_ s;
  keeps_lives : lives (trace s') = lives (trace s);
  keeps_closes : closes (trace s') = closes (trace s);
  keeps_phase : state_ s' = state_ s \/ (closing s = true /\ state_ s' = kDisconnecting)
}.

Lemma closing_iff s : closing s = true <-> state_ s = kConnected \/ state_ s = kDisconnecting.
Proof. unfold closing. rewrite orb_true_iff, !bool_decide_eq_true. done. Qed.

#[local] Instance keeps_preorder : PreOrder keeps.
Proof.
  split; [by intros s; split; [|..|left]|]. intros s1 s2 s3 [] []. split; try congruence.
  - by etrans.
  - rewrite closing_iff in *. intuition congruence.
Qed.

Definition safe (f : TcpConnection W -> result (TcpConnection W)) : Prop :=
  forall s s', Inv s -> f s = Ok s' -> Inv s' /\ keeps s s'.

Lemma safe_bind f g : safe f -> safe g -> safe (fun s => s ← f s; g s).
Proof.
  intros Hf Hg s s' Hs Hr. inv_ok. destruct (Hf _ _ Hs E) as [H1 K1].
  destruct (Hg _ _ H1 Hr) as [H2 K2]. split; [done|]. by etrans.
Qed.

Lemma queue_inv t s : Inv s -> Inv (queueInLoop t s) /\ keeps s (queueInLoop t s).
Proof.
  intros []. split; [by split|]. split; cbn; auto. split; cbn; try done. by apply prefix_app_r.
Qed.

Lemma on_channel_request r s s' ch sw :
  Channel.chan_of (world s) (channel_ s) = Some ch ->
  Channel.events_ ch = Channel.interest_bits sw ->
  on_channel (Channel.request_op r) s = Ok s' ->
  s' = set_world (world s') s /\
  (exists ch', Channel.chan_of (world s') (channel_ s) = Some ch' /\
    Channel.events_ ch' = Channel.interest_bits (Channel.switch sw r)) /\
  Channel.others (channel_ s) (world s) (world s') /\ Channel.registered (channel_ s) (world s').
Proof.
  intros Ec Es Hr. unfold on_channel in Hr. inv_ok. subst s'.
  split_and!; [done| |by eapply Channel.request_others|by eapply Channel.request_registered].
  apply (Channel.requests_events [r] _ _ _ _ _ Ec Es). cbn. by rewrite E.
Qed.

Lemma on_channel_registered r s s' : Inv s -> on_channel (Channel.request_op r) s = Ok s' ->
  Channel.registered (channel_ s') (world s').
Proof.
  intros Hs Ho. destruct (inv_armed _ Hs) as (ch & sw & Ec & Es & _).
  by destruct (on_channel_request _ _ _ _ _ Ec Es Ho) as (-> & _ & _ & ?).
Qed.

(** A request that leaves writing on, or comes when nothing is left to write. *)
Lemma request_inv r s s' :
  Inv s ->
  (state_ s <> kDisconnected -> content (outputBuffer_ s) <> [] ->
   r <> Channel.DisableWriting /\ r <> Channel.DisableAll) ->
  on_channel (Channel.request_op r) s = Ok s' -> Inv s' /\ keeps s s' /\ s' = set_world (world s') s.
Proof.
  intros Hs Hr Ho. destruct (inv_armed _ Hs) as (ch & sw & Ec & Es & Ha).
  destruct (on_channel_request _ _ _ _ _ Ec Es Ho) as (-> & (ch' & Ec' & Es') & Ho' & Hreg').
  destruct Hs. split; [|split; [|done]].
  - split; cbn; try done. exists ch', (Channel.switch sw r). split_and!; [done..|].
    intros Hd Hc. specialize (Hr Hd Hc). specialize (Ha Hd Hc).
    destruct r; cbn; [done..|tauto|tauto].
  - split; cbn; try done; by left.
Qed.

Lemma record_inv e s :
  Inv s -> (exists u, e = ShutdownWrite u /\ (state_ s <> kDisconnected -> u = [])) \/
           e = MessageCallback \/ e = WriteCompleteCallback ->
  Inv (record e s) /\ keeps s (record e s).
Proof.
  intros Hs He. pose proof (inv_lives _ Hs) as Hl.
  assert (lives (trace s ++ [e]) = lives (trace s) /\ closes (trace s ++ [e]) = closes (trace s))
    as [El Ec].
  { rewrite lives_app, closes_app.
    destruct He as [(u & -> & _)|[->| ->]]; cbn; by rewrite app_nil_r, Nat.add_0_r. }
  destruct Hs. split.
  - split; cbn [state_ trace record set_trace]; try done; rewrite ?El, ?Ec; try done.
    apply clean_snoc; [done|]. intros u ->. destruct He as [(u' & [= <-] & He)|[?|?]]; [|done..].
    rewrite Hl. destruct (decide (state_ s = kDisconnected)) as [->|]; [left; set_solver|auto].
  - split; cbn; try done; auto. split; cbn; try done. by apply prefix_app_r.
Qed.

Lemma conn_shutdown_inv : safe shutdownInLoop.
Proof.
  intros s s' Hs Hr. unfold shutdownInLoop, channel, Channel.deref in Hr.
  destruct (inv_armed _ Hs) as (ch & sw & Ec & Es & Ha). rewrite Ec in Hr. inv_ok. simplify_eq.
  rewrite (Channel.interest_isWriting _ _ Es) in Hr.
  destruct (snd sw) eqn:E2; cbn [negb] in Hr; inv_ok; subst; [done|].
  apply record_inv; [done|]. left. eexists; split; [done|]. intros Hd.
  destruct (content (outputBuffer_ s)); [done|]. by specialize (Ha Hd ltac:(done)).
Qed.

Section Sending.
(** write(2) takes no more than it is offered; readv(2) delivers no more than
    there is room for. *)
Context (kwrite : nat -> list byte -> write_answer) (kread : nat -> Z -> readv_result).
Definition write_contract : Prop := forall k l n, kwrite k l = Wrote n -> 0 <= n <= zlen l.
Definition read_contract : Prop := forall k room d, kread k room = Buffer.ReadvData d -> zlen d <= room.
Context (Hkw : write_contract) (Hkr : read_contract).

(** The direct write takes a prefix of the message. *)
Lemma try_write_spec ch message s n rem err s1 :
  zlen message <= Buffer.max_size ->
  try_write kwrite ch message s = (n, rem, err, s1) ->
  0 <= n /\ n + rem = zlen message /\ 0 <= rem /\
  (0 < n -> Channel.isWriting ch = false /\ readableBytes (outputBuffer_ s) = 0) /\
  exists k b, let s2 := set_wire k (wire s ++ ztake n message) s in
    s1 = if b : bool then queueInLoop WriteCompleteTask s2 else s2.
Proof using H0 Hkw.
  intros Hm. unfold try_write. pose proof (zlen_nonneg message).
  assert (s = set_wire (calls s) (wire s ++ ztake 0 message) s) as Hid.
  { rewrite ztake_nonpos, app_nil_r by lia. by destruct s. }
  destruct (Channel.isWriting ch) eqn:Ew; cbn [negb andb];
    [|destruct (readableBytes (outputBuffer_ s) =? 0) eqn:Er; zprop;
      [destruct (kwrite (calls s) message) as [m|e] eqn:Ek|]];
    intros [= <- <- <- <-].
  1,4: split_and!; [lia..|]; exists (calls s), false; exact Hid.
  - apply Hkw in Ek. unfold Buffer.max_size in Hm.
    rewrite wrapu_small by lia. split_and!; [lia..|done|].
    exists (S (calls s)), ((zlen message - m =? 0) && writeCompleteCallback_ s). reflexivity.
  - split_and!; [lia..|]. exists (S (calls s)), false.
    cbn zeta. by rewrite ztake_nonpos, app_nil_r by lia.
Qed.

Lemma wire_inv k d s :
  Inv s -> (d <> [] -> content (outputBuffer_ s) = []) ->
  let s' := set_wire k (wire s ++ d) s in Inv s' /\ keeps s s'.
Proof.
  intros [] Hd. split; [by split|]. split; cbn; auto. split; cbn; try done.
  - unfold stream. cbn. destruct d as [|x d]; [by rewrite app_nil_r|].
    rewrite Hd, !app_nil_r by done. by apply prefix_app_r.
  - by apply prefix_app_r.
Qed.

(** Whether the rest of a message makes the buffer cross the mark, with
    somebody to tell. *)
Definition crosses (rest : Z) (s : TcpConnection W) : bool :=
  (highWaterMark_ s <=? zlen (content (outputBuffer_ s)) + rest) &&
  (zlen (content (outputBuffer_ s)) <? highWaterMark_ s) && highWaterMarkCallback_ s.

(** Bytes of the message sent, and bytes left over; only with a crossing are
    those buffered. *)
Record sent_as (message sent rest : list byte) (lost : bool) (s s' : TcpConnection W) : Prop := {
  sent_split : message = sent ++ rest;
  sent_wire : wire s' = wire s ++ sent;
  sent_direct : sent <> [] -> content (outputBuffer_ s) = [];
  sent_output : content (outputBuffer_ s') =
    content (outputBuffer_ s) ++ (if lost then [] else rest)
}.

Lemma buffer_rest_inv rest s s' :
  Inv s -> rest <> [] -> zlen rest <= Buffer.max_size ->
  (out ← append (outputBuffer_ s) rest;
   let s := set_output out s in
   ch ← channel s;
   if negb (Channel.isWriting ch) then on_channel Channel.enableWriting s else Ok s) = Ok s' ->
  Inv s' /\ keeps s s' /\ wire s' = wire s /\ state_ s' = state_ s /\
  content (outputBuffer_ s') = content (outputBuffer_ s) ++ rest /\ tasks s' = tasks s.
Proof.
  intros Hs Hn Hm Hr. inv_ok. cbn zeta in Hr. inv_ok. destruct (Hs) as [? Ho ? (ch & sw & Ec & Es & Ha) ? ? ?].
  destruct (Buffer.append_inv _ _ _ Ho Hm E) as (Ho1 & Hc & _).
  unfold channel, Channel.deref in E0. cbn in E0. rewrite Ec in E0. inv_ok. subst a0.
  assert (grows s (set_output a s)) as Hg.
  { split; try done. unfold stream. cbn. rewrite Hc, app_assoc. by apply prefix_app_r. }
  rewrite (Channel.interest_isWriting _ _ Es) in Hr.
  destruct (snd sw) eqn:Ew; cbn [negb] in Hr.
  - inv_ok. subst s'. split_and!; [|by split; cbn; auto|done..].
    split; cbn; try done. by exists ch, sw.
  - destruct (on_channel_request Channel.EnableWriting (set_output a s) _ ch sw Ec Es Hr)
      as (-> & (ch' & Ec' & Es') & Ho' & Hreg').
    split_and!; [| |done..].
    + split; cbn; try done. exists ch', (Channel.switch sw Channel.EnableWriting).
      split_and!; [done..|]. by destruct sw.
    + split; cbn; auto. destruct Hg. by split.
Qed.

(** The first write, as [sendInLoop] uses it. *)
Lemma try_write_inv ch message s n rem err s1 :
  zlen message <= Buffer.max_size -> Inv s -> try_write kwrite ch message s = (n, rem, err, s1) ->
  0 <= n /\ n + rem = zlen message /\ 0 <= rem /\ Inv s1 /\ keeps s s1 /\ zlen (zdrop n message) = rem /\
  wire s1 = wire s ++ ztake n message /\ outputBuffer_ s1 = outputBuffer_ s /\
  highWaterMark_ s1 = highWaterMark_ s /\ highWaterMarkCallback_ s1 = highWaterMarkCallback_ s /\
  (ztake n message <> [] -> content (outputBuffer_ s) = []).
Proof using H0 Hkw.
  intros Hm Hs Et.
  destruct (try_write_spec _ _ _ _ _ _ _ Hm Et) as (? & ? & ? & Hn & k & b & Hs1).
  cbn zeta in Hs1. set (s2 := set_wire k (wire s ++ ztake n message) s) in Hs1.
  assert (ztake n message <> [] -> content (outputBuffer_ s) = []) as Hdir.
  { intros Hne. destruct (decide (0 < n)) as [Hp|]; [|by rewrite ztake_nonpos in Hne by lia].
    destruct (Hn Hp) as [_ Hz]. rewrite <- Buffer.content_readable in Hz by apply Hs.
    by destruct (content (outputBuffer_ s)). }
  assert (Inv s1 /\ keeps s s1) as [J1 K1].
  { destruct (wire_inv k (ztake n message) s Hs Hdir) as [J2 K2]. fold s2 in J2, K2.
    destruct b; subst s1; [|done]. destruct (queue_inv WriteCompleteTask _ J2). split; [done|].
    by etrans. }
  assert (zlen (zdrop n message) = rem) as Hrem by zlen_lia.
  assert (wire s1 = wire s ++ ztake n message /\ outputBuffer_ s1 = outputBuffer_ s /\
    highWaterMark_ s1 = highWaterMark_ s /\
    highWaterMarkCallback_ s1 = highWaterMarkCallback_ s) as (Ew & Eo & Em & Eh)
    by (subst s1; by destruct b).
  by split_and!.
Qed.

(** What is left of the message after the direct write, and whether it is lost. *)
Lemma sendInLoop_spec message s s' :
  zlen message <= Buffer.max_size -> Inv s -> sendInLoop kwrite message s = Ok s' ->
  state_ s = kDisconnected /\ s' = s \/
  state_ s <> kDisconnected /\ Inv s' /\ keeps s s' /\
  exists sent rest err, sent_as message sent rest (err || negb (crosses (zlen rest) s)) s s' /\
    (rest <> [] -> err || negb (crosses (zlen rest) s) = false -> HighWaterMarkTask ∈ tasks s').
Proof using H0 Hkw.
  intros Hm Hs Hr. unfold sendInLoop in Hr. inv_ok. case_bool_decide as Hd.
  { inv_ok. auto. }
  right. split; [done|]. unfold channel, Channel.deref in Hr.
  destruct (inv_armed _ Hs) as (ch & sw & Ec & Es & Ha). rewrite Ec, bind_ok in Hr.
  destruct (try_write kwrite ch message s) as [[[n rem] err] s1] eqn:Et.
  destruct (try_write_inv _ _ _ _ _ _ _ Hm Hs Et) as (? & ? & ? & J1 & K1 & Hrem & Ew & Eo & Em & Eh & Hdir).
  inv_ok. zprop.
  assert (Inv s1 -> err || negb (crosses rem s) = true \/ rem = 0 -> s1 = s' ->
    Inv s' /\ keeps s s' /\ exists sent rest err,
      sent_as message sent rest (err || negb (crosses (zlen rest) s)) s s' /\
      (rest <> [] -> err || negb (crosses (zlen rest) s) = false -> HighWaterMarkTask ∈ tasks s'))
    as Hlost.
  { intros _ Hl <-. split_and!; [done..|]. exists (ztake n message), (zdrop n message), err.
    rewrite Hrem. assert (zdrop n message = [] \/ err || negb (crosses rem s) = true) as Hl'.
    { destruct Hl as [|Hl]; [auto|left]. apply zdrop_all. lia. }
    split.
    - split; [by rewrite ztake_zdrop|done..|]. rewrite Eo.
      destruct Hl' as [->| ->]; [by rewrite ?if_same; destruct (_ || _); rewrite app_nil_r|].
      by rewrite app_nil_r.
    - intros ? Hf. destruct Hl' as [|Hl']; [done|congruence]. }
  destruct err; cbn [negb andb orb] in *; [inv_ok; by apply Hlost; auto|].
  zcase (0 <? rem); [|inv_ok; apply Hlost; auto with lia].
  assert (readableBytes (outputBuffer_ s1) = zlen (content (outputBuffer_ s))) as Hrb.
  { rewrite Eo. symmetry. apply Buffer.content_readable, Hs. }
  pose proof (Buffer.zlen_content _ (inv_output _ Hs)) as Hzc.
  destruct (inv_output _ Hs) as [? ? ?]. unfold Buffer.max_size in *.
  rewrite Hrb, wrapu_small in Hr by lia. rewrite Em, Eh in Hr. fold (crosses rem s) in Hr.
  destruct (crosses rem s) eqn:Hcr; [|inv_ok; by apply Hlost; auto].
  destruct (queue_inv HighWaterMarkTask _ J1) as [J2 K2].
  rewrite ztake_all in Hr by lia.
  destruct (buffer_rest_inv (zdrop n message) (queueInLoop HighWaterMarkTask s1) s' J2)
    as (J3 & K3 & Ew3 & _ & Eo3 & Et3);
    [intros Hz; rewrite Hz, zlen_nil in Hrem; lia|rewrite Hrem; unfold Buffer.max_size; lia|done|].
  split_and!; [done|by do 2 (etrans; [done|])|].
  exists (ztake n message), (zdrop n message), false. rewrite Hrem, Hcr. split.
  - split; [by rewrite ztake_zdrop|by rewrite Ew3|done|]. rewrite Eo3. cbn. by rewrite Eo.
  - intros _ _. rewrite Et3. cbn. apply elem_of_app. right. by left.
Qed.

Lemma send_in_loop_inv message : zlen message <= Buffer.max_size -> safe (sendInLoop kwrite message).
Proof using H0 Hkw.
  intros Hm s s' Hs Hr. destruct (sendInLoop_spec _ _ _ Hm Hs Hr) as [[_ ->]|(_ & ? & ? & _)];
    [|done]. done.
Qed.

Lemma input_inv b s : Buffer.wf b -> Inv s -> Inv (set_input b s) /\ keeps s (set_input b s).
Proof. intros ? []. split; [by split|]. by split; cbn; auto. Qed.

Lemma memory_inv m bs s :
  memory_ok m bs -> Inv s -> Inv (set_memory m bs s) /\ keeps s (set_memory m bs s).
Proof. intros ? []. split; [by split|]. by split; cbn; auto. Qed.

Lemma thread_inv b s : Inv s -> Inv (set_thread b s) /\ keeps s (set_thread b s).
Proof. intros []. split; [by split|]. by split; cbn; auto. Qed.

Lemma reading_inv b s : Inv s -> Inv (set_reading b s) /\ keeps s (set_reading b s).
Proof. intros []. split; [by split|]. by split; cbn; auto. Qed.

Lemma tasks_inv ts n s : Inv s -> Inv (set_tasks ts n s).
Proof. intros []. by split. Qed.

Lemma disconnecting_inv s :
  Inv s -> closing s = true ->
  Inv (set_state kDisconnecting s) /\ keeps s (set_state kDisconnecting s).
Proof.
  intros [? ? ? (ch & sw & ? & ? & Ha) Hl Hc ?] Hcl.
  pose proof (proj1 (closing_iff s) Hcl) as Hst. split; [split; cbn; try done|].
  - exists ch, sw. split_and!; [done..|]. intros _. apply Ha. by destruct Hst as [->| ->].
  - rewrite Hl. by destruct Hst as [->| ->].
  - by destruct Hst as [E|E]; rewrite E in Hc.
  - by split; cbn; auto.
Qed.

Lemma piece_len addr len s message :
  Inv s -> piece addr len s = Ok message -> zlen message <= Buffer.max_size.
Proof.
  intros Hs Hp. unfold piece in Hp. destruct (mem s !! addr) as [l|] eqn:El; [|done].
  inv_ok. subst. apply inv_memory in Hs as [Hm _]. pose proof (Hm _ _ El). cbn in *. zlen_lia.
Qed.

Lemma buffer_wf buf s b : Inv s -> buffer buf s = Ok b -> Buffer.wf b.
Proof.
  intros Hs Hb. destruct buf as [a|]; cbn in Hb; [|inv_ok; subst; apply Hs].
  destruct (bufs s !! a) as [b'|] eqn:Eb; inv_ok. subst.
  apply inv_memory in Hs as [_ Hm]. apply (Hm _ _ Eb).
Qed.

Lemma content_max b : Buffer.wf b -> zlen (content b) <= Buffer.max_size.
Proof. intros Hb. rewrite Buffer.zlen_content by done. destruct Hb. lia. Qed.

Lemma send_inv addr len : safe (send kwrite addr len).
Proof using H0 Hkw.
  intros s s' Hs Hr. unfold send in Hr. case_bool_decide; [|inv_ok; by subst].
  destruct (inLoop s); inv_ok; [|subst; by apply queue_inv].
  eapply send_in_loop_inv; [by eapply piece_len|done|done].
Qed.

Lemma put_buffer_inv buf b s :
  Buffer.wf b -> Inv s -> Inv (put_buffer buf b s) /\ keeps s (put_buffer buf b s).
Proof.
  intros Hb Hs. destruct buf as [a|]; cbn [put_buffer]; [|by apply input_inv].
  apply memory_inv; [|done]. apply inv_memory in Hs as [? ?]. split; [done|].
  by apply map_Forall_insert_2.
Qed.

Lemma send_buffer_inv buf : safe (send_buffer kwrite buf).
Proof using H0 Hkw.
  intros s s' Hs Hr. unfold send_buffer in Hr. case_bool_decide; [|inv_ok; by subst].
  destruct (inLoop s); inv_ok; [|subst; by apply queue_inv].
  destruct (send_in_loop_inv (content a)
    (content_max _ (buffer_wf _ _ _ Hs E)) _ _ Hs E0) as [J1 K1].
  subst s'. destruct (put_buffer_inv buf (retrieveAll a1) a0) as [J2 K2];
    [by eapply Buffer.wf_retrieveAll, buffer_wf|done|]. split; [done|]. by etrans.
Qed.

Lemma shutdown_op_inv : safe shutdown.
Proof.
  intros s s' Hs Hr. unfold shutdown in Hr. case_bool_decide as Hd; [|inv_ok; by subst].
  destruct (disconnecting_inv s Hs) as [J1 K1]; [apply closing_iff; auto|].
  cbn zeta in Hr. set (s1 := set_state _ _) in *. clearbody s1.
  assert (Inv s' /\ keeps s1 s') as [J2 K2]; [|split; [done|by etrans]].
  destruct (inLoop s1); inv_ok; [by apply conn_shutdown_inv|subst; by apply queue_inv].
Qed.

Lemma forceClose_inv s : Inv s -> Inv (forceClose s) /\ keeps s (forceClose s).
Proof.
  intros Hs. unfold forceClose. destruct (closing s) eqn:Ec; [|done].
  destruct (disconnecting_inv s Hs Ec) as [J1 K1].
  destruct (queue_inv ForceCloseTask _ J1) as [J2 K2]. split; [done|]. by etrans.
Qed.

Lemma force_later_inv : safe forceCloseWithDelay.
Proof.
  intros s s' Hs Hr. unfold forceCloseWithDelay in Hr. inv_ok.
  destruct (closing s) eqn:Ec; inv_ok; subst; [|done].
  destruct (disconnecting_inv s Hs Ec) as [[] []]. split; [by split|].
  split; cbn in *; auto. destruct keeps_grows0. by split.
Qed.

Lemma reads_inv r b :
  r = Channel.EnableReading \/ r = Channel.DisableReading ->
  safe (fun s => s ← on_channel (Channel.request_op r) s; Ok (set_reading b s)).
Proof.
  intros Hr. apply safe_bind.
  - intros s s' Hs Ho. destruct (request_inv r s s' Hs) as (? & ? & _); [|done|done].
    intros _ _. by destruct Hr as [->| ->].
  - intros s s' Hs [= <-]. by apply reading_inv.
Qed.

Lemma startReadInLoop_inv : safe startReadInLoop.
Proof.
  intros s s' Hs Hr. unfold startReadInLoop in Hr. apply bind_ok_inv in Hr as (? & _ & Hr).
  apply bind_ok_inv in Hr as (? & _ & Hr). destruct (_ || _); [|inv_ok; by subst].
  by apply (reads_inv Channel.EnableReading true (or_introl eq_refl)).
Qed.

Lemma stopReadInLoop_inv : safe stopReadInLoop.
Proof.
  intros s s' Hs Hr. unfold stopReadInLoop in Hr. apply bind_ok_inv in Hr as (? & _ & Hr).
  apply bind_ok_inv in Hr as (? & _ & Hr). destruct (_ || _); [|inv_ok; by subst].
  by apply (reads_inv Channel.DisableReading false (or_intror eq_refl)).
Qed.

Lemma run_user_inv o : safe (run_user kwrite o).
Proof using H0 Hkw.
  destruct o as [addr len|buf|n| | | | |]; cbn [run_user].
  - apply send_inv.
  - apply send_buffer_inv.
  - intros s s' Hs Hr. cbn [run_user] in Hr. inv_ok. subst s'.
    destruct (Buffer.retrieve_inv _ _ _ (inv_input _ Hs) (proj1 (wrapu_range 64 n ltac:(lia))) E).
    by apply input_inv.
  - intros s s' Hs [= <-]. apply input_inv; [|done]. by apply Buffer.wf_retrieveAll, Hs.
  - apply shutdown_op_inv.
  - intros s s' Hs [= <-]. by apply forceClose_inv.
  - intros s s' Hs Hr. cbn [run_user] in Hr. unfold startRead in Hr.
    destruct (inLoop s); [by apply startReadInLoop_inv|inv_ok; subst; by apply queue_inv].
  - intros s s' Hs Hr. cbn [run_user] in Hr. unfold stopRead in Hr.
    destruct (inLoop s); [by apply stopReadInLoop_inv|inv_ok; subst; by apply queue_inv].
Qed.

Lemma exec_inv l : safe (exec kwrite l).
Proof using H0 Hkw.
  induction l as [|o l IH]; [by intros s s' Hs [= <-]|].
  apply (safe_bind (run_user kwrite o)); [apply run_user_inv|done].
Qed.

(** ** Handlers *)

Section Handlers.
Context (user : event -> TcpConnection W -> list user_op).

(** Operations that may also change the phase. *)
Definition sound (f : TcpConnection W -> result (TcpConnection W)) : Prop :=
  forall s s', Inv s -> f s = Ok s' -> Inv s' /\ advances s s'.

Lemma safe_sound f : safe f -> sound f.
Proof. intros Hf s s' Hs Hr. destruct (Hf _ _ Hs Hr) as [? []]. split; [done|by apply grows_advances]. Qed.

Lemma sound_bind f g : sound f -> sound g -> sound (fun s => s ← f s; g s).
Proof.
  intros Hf Hg s s' Hs Hr. inv_ok. destruct (Hf _ _ Hs E) as [J1 K1].
  destruct (Hg _ _ J1 Hr) as [J2 K2]. split; [done|]. by etrans.
Qed.

Lemma callback_inv e :
  e = MessageCallback \/ e = WriteCompleteCallback -> safe (callback kwrite user e).
Proof using H0 Hkw.
  intros He s s' Hs Hr. unfold callback in Hr. cbn zeta in Hr.
  destruct (record_inv e s Hs ltac:(by right)) as [J1 K1].
  destruct (exec_inv _ _ _ J1 Hr) as [J2 K2]. split; [done|]. by etrans.
Qed.

(** The next phase, and the user told. *)
Definition phase (up : bool) (s : TcpConnection W) : TcpConnection W :=
  record (ConnectionCallback up) (set_state (if up then kConnected else kDisconnected) s).

Lemma phase_inv (up : bool) s :
  Inv s -> (if up then state_ s = kConnecting else closing s = true) ->
  Inv (phase up s) /\ grows s (phase up s) /\ closes (trace (phase up s)) = 0%nat.
Proof.
  intros [? ? ? (ch & sw & ? & ? & Ha) Hl Hc ?] Hst.
  assert (lives (trace (phase up s)) = told (state_ (phase up s))) as Hl'.
  { unfold phase. cbn. rewrite lives_app, Hl. destruct up; [by rewrite Hst|].
    by destruct (proj1 (closing_iff s) Hst) as [->| ->]. }
  assert (closes (trace s) = 0%nat) as Hc0.
  { rewrite bool_decide_false in Hc; [lia|]. destruct up; [by rewrite Hst|].
    by destruct (proj1 (closing_iff s) Hst) as [->| ->]. }
  assert (closes (trace (phase up s)) = 0%nat) as Hc1.
  { unfold phase. cbn. by rewrite closes_app, Hc0. }
  split_and!; [split; try done|split; try done|done].
  - exists ch, sw. split_and!; [done..|]. cbn. destruct up; [|done]. intros _. apply Ha. by rewrite Hst.
  - rewrite Hc1. lia.
  - by apply clean_snoc.
  - by apply prefix_app_r.
Qed.

Lemma on_channel_record f e s s' :
  on_channel f s = Ok s' -> on_channel f (record e s) = Ok (record e s').
Proof. unfold on_channel. cbn. intros Hr. inv_ok. subst. by rewrite E. Qed.

(** Up: the channel tied and reading, and the user told. *)
Lemma up_recorded self s s1 s2 :
  Inv s -> state_ s = kConnecting ->
  on_channel (fun c => Channel.modify c (Channel.tie self)) (set_state kConnected s) = Ok s1 ->
  on_channel Channel.enableReading s1 = Ok s2 ->
  let t := record (ConnectionCallback true) s2 in
  Inv t /\ grows s t /\ state_ t = kConnected /\ Channel.registered (channel_ t) (world t).
Proof.
  intros Hs Hst E1 E2. destruct (phase_inv true s Hs Hst) as (J1 & K1 & _).
  apply (on_channel_record _ (ConnectionCallback true)) in E1, E2.
  change (on_channel (fun c => Channel.modify c (Channel.tie self)) (phase true s) =
    Ok (record (ConnectionCallback true) s1)) in E1.
  assert (state_ (phase true s) = kConnected) as Hup by done.
  set (s0 := phase true s) in *. clearbody s0. cbn zeta.
  set (t1 := record (ConnectionCallback true) s1) in *. clearbody t1.
  assert (Inv t1 /\ keeps s0 t1) as [J2 K2].
  { destruct (inv_armed _ J1) as (ch & sw & Ec & Es & Ha). unfold on_channel in E1.
    rewrite (Channel.modify_ok _ _ _ _ Ec), bind_ok in E1. injection E1 as <-. destruct J1. split.
    - split; cbn; try done. eexists _, sw. split_and!; [apply Channel.chan_put_eq|done|done].
    - split; cbn; auto. split; try done; cbn.
      + intros d Hd. by rewrite Channel.chan_put_ne by congruence.
      + intros (ch0 & Ec0 & Hr0). simplify_eq. eexists. split; [apply Channel.chan_put_eq|done]. }
  destruct (request_inv Channel.EnableReading _ _ J2 ltac:(done) E2) as (J3 & K3 & E3).
  pose proof (on_channel_registered Channel.EnableReading _ _ J2 E2) as Hreg.
  assert (keeps s0 (record (ConnectionCallback true) s2)) as [K5 _ _ _ Hp] by (etrans; [exact K2|exact K3]).
  split_and!; [done|by etrans| |done]. rewrite closing_iff in Hp.
  assert (state_ (record (ConnectionCallback true) s2) = state_ t1) as -> by (by rewrite E3).
  unfold on_channel in E1. apply bind_ok_inv in E1 as (w & _ & [= <-]). done.
Qed.

Lemma connectEstablished_run self s s' :
  Inv s -> connectEstablished kwrite user self s = Ok s' ->
  Inv s' /\ grows s s' /\ state_ s = kConnecting /\ Connection.up (state_ s') /\
  Channel.registered (channel_ s') (world s').
Proof using H0 Hkw.
  intros Hs Hr. unfold connectEstablished in Hr. inv_ok. apply bool_decide_eq_true in E0.
  cbn zeta in Hr. inv_ok. unfold callback in Hr. cbn zeta in Hr.
  destruct (up_recorded self s _ _ Hs E0 E1 E2) as (J & K & Hup & Hreg).
  destruct (exec_inv _ _ _ J Hr) as [J4 [K4 Hch _ _ Hp]].
  split_and!; [done|by etrans|done| |].
  - unfold Connection.up. rewrite <- Hup. destruct Hp as [->|[_ ->]]; auto.
  - rewrite Hch. by apply (grows_registered _ _ K4).
Qed.

Lemma connectEstablished_inv self : sound (connectEstablished kwrite user self).
Proof using H0 Hkw.
  intros s s' Hs Hr. destruct (connectEstablished_run self s s' Hs Hr) as (? & ? & _).
  split; [done|by apply grows_advances].
Qed.

(** Closing down: the state, the channel, and the user told. *)
Lemma down_recorded s s1 :
  Inv s -> closing s = true ->
  on_channel Channel.disableAll (set_state kDisconnected s) = Ok s1 ->
  let t := record (ConnectionCallback false) s1 in
  Inv t /\ grows s t /\ state_ t = kDisconnected /\ closes (trace t) = 0%nat.
Proof.
  intros Hs Hc E1. destruct (phase_inv false s Hs Hc) as (J1 & K1 & Hz).
  apply (on_channel_record _ (ConnectionCallback false)) in E1. cbn zeta.
  change (on_channel Channel.disableAll (phase false s) = Ok (record (ConnectionCallback false) s1)) in E1.
  destruct (request_inv Channel.DisableAll _ _ J1 ltac:(done) E1) as (J2 & K2 & E2).
  split_and!; [done|by etrans; [|apply K2]|by rewrite E2|by rewrite (keeps_closes _ _ K2)].
Qed.

Lemma down_inv s s1 s2 :
  Inv s -> closing s = true ->
  on_channel Channel.disableAll (set_state kDisconnected s) = Ok s1 ->
  callback kwrite user (ConnectionCallback false) s1 = Ok s2 ->
  Inv s2 /\ grows s s2 /\ state_ s2 = kDisconnected /\ closes (trace s2) = 0%nat.
Proof using H0 Hkw.
  intros Hs Hc E1 E2. destruct (down_recorded _ _ Hs Hc E1) as (J1 & K1 & Hd & Hz).
  unfold callback in E2. cbn zeta in E2. destruct (exec_inv _ _ _ J1 E2) as [J3 [K3 _ _ Hcl Hp]].
  split_and!; [done|by etrans| |congruence]. rewrite closing_iff in Hp. intuition congruence.
Qed.

(** The close callback, on a connection that is down. *)
Lemma close_recorded s : Inv s -> state_ s = kDisconnected -> closes (trace s) = 0%nat ->
  Inv (record CloseCallback s) /\ grows s (record CloseCallback s).
Proof.
  intros [? ? ? ? Hl ? ?] Hd Hz. split; split; try done; cbn.
  - by rewrite lives_app, Hl, app_nil_r.
  - by rewrite closes_app, Hz, bool_decide_true.
  - by apply clean_snoc.
  - by apply prefix_app_r.
Qed.

(** What an owner is told: nothing, or the close callback, as the last thing. *)
Definition turned (s s' : TcpConnection W) : Prop := exists closed : bool,
  closes (trace s') = (closes (trace s) + if closed then 1 else 0)%nat /\
  Connection.turns closed (state_ s) (state_ s').

Lemma keeps_turned s s' : keeps s s' -> turned s s'.
Proof.
  intros [_ _ _ Hc Hp]. exists false. split; [by rewrite Hc|]. rewrite closing_iff in Hp. exact Hp.
Qed.

Lemma keeps_then_turned s1 s2 s3 : keeps s1 s2 -> turned s2 s3 -> turned s1 s3.
Proof.
  intros [_ _ _ Hc Hp] (b & Hb & Ht). exists b. split; [congruence|].
  rewrite closing_iff in Hp. unfold Connection.turns, Connection.up in *.
  destruct b; intuition congruence.
Qed.

(** Operations that an owner may leave to the loop and the user. *)
Definition serves (f : TcpConnection W -> result (TcpConnection W)) : Prop :=
  forall s s', Inv s -> f s = Ok s' -> Inv s' /\ grows s s' /\ turned s s'.

Lemma safe_serves f : safe f -> serves f.
Proof.
  intros Hf s s' Hs Hr. destruct (Hf _ _ Hs Hr) as [? Hk].
  split_and!; [done|apply Hk|by apply keeps_turned].
Qed.

Lemma serves_sound f : serves f -> sound f.
Proof. intros Hf s s' Hs Hr. destruct (Hf _ _ Hs Hr) as (? & ? & _). split; [done|by apply grows_advances]. Qed.

Lemma handleClose_inv : serves (handleClose kwrite user).
Proof using H0 Hkw.
  intros s s' Hs Hr. unfold handleClose in Hr. inv_ok. cbn zeta in Hr. inv_ok.
  destruct (down_inv _ _ _ Hs E0 E1 E2) as (J1 & K1 & Hd & Hz).
  unfold callback in Hr. cbn zeta in Hr.
  destruct (close_recorded _ J1 Hd Hz) as [J2 K2].
  destruct (exec_inv _ _ _ J2 Hr) as [J3 [K3 _ _ Hc3 Hp3]].
  split_and!; [done|by do 2 (etrans; [eassumption|])|]. exists true. split.
  - pose proof (inv_closes _ Hs) as Hc0. rewrite bool_decide_false in Hc0.
    2:{ intros Hd0. apply closing_iff in E0. destruct E0; congruence. }
    rewrite Hc3. cbn. rewrite closes_app, Hz. cbn. change (closes [CloseCallback]) with 1%nat. lia.
  - split; [by apply closing_iff|]. rewrite closing_iff in Hp3. cbn in Hp3. intuition congruence.
Qed.

Lemma remove_inv : sound (on_channel Channel.remove).
Proof.
  intros s s' Hs Hr. destruct (Hs) as [? ? ? (ch & sw & Ec & Es & Ha) ? ? ?].
  unfold on_channel in Hr. inv_ok. subst s'. unfold Channel.remove, Channel.deref in E.
  rewrite Ec, bind_ok in E. apply bind_ok_inv in E as (? & _ & E).
  rewrite (Channel.modify_ok _ _ _ _ Ec), bind_ok in E.
  assert (Channel.others (channel_ s) (world s) a) as Hoth.
  { intros d Hd. apply Channel.remove_keeps with (d := d) in E. rewrite E. by rewrite Channel.chan_put_ne by congruence. }
  apply Channel.remove_keeps with (d := channel_ s) in E.
  rewrite Channel.chan_put_eq in E. destruct (Channel.chan_of a (channel_ s)) as [ch'|] eqn:Ec';
    [|done]. apply (inj Some), (f_equal Channel.events_) in E. cbn in E.
  split; [|by split]. split; cbn; try done.
  exists ch', sw. by rewrite E.
Qed.

Lemma connectDestroyed_inv : sound (connectDestroyed kwrite user).
Proof using H0 Hkw.
  intros s s' Hs Hr. unfold connectDestroyed in Hr. inv_ok.
  assert (Inv a0 /\ advances s a0) as [J1 K1].
  { case_bool_decide as Hd; [|inv_ok; by subst]. cbn zeta in E0. inv_ok.
    assert (closing s = true) as Hc by (apply closing_iff; auto).
    destruct (down_inv _ _ _ Hs Hc E1 E0) as (? & ? & _). split; [done|by apply grows_advances]. }
  destruct (remove_inv _ _ J1 Hr). split; [done|]. by etrans.
Qed.

Lemma calls_inv s : Inv s ->
  let s' := set_wire (S (calls s)) (wire s) s in Inv s' /\ keeps s s'.
Proof. intros []. split; [by split|]. by split; cbn; auto. Qed.

(** What readv(2) delivered is in the buffer. *)
Lemma conn_read_inv s n e b : Inv s ->
  readFd (inputBuffer_ s) (kread (calls s) (Buffer.iov_room (inputBuffer_ s))) = Ok (n, e, b) ->
  let s' := set_wire (S (calls s)) (wire s) (set_input b s) in Inv s' /\ keeps s s'.
Proof using Hkr.
  intros Hs E. assert (Buffer.wf b) as Hb.
  { destruct (kread _ _) as [err|d] eqn:Ek; [cbn in E; simplify_eq; apply Hs|].
    apply Hkr in Ek. by destruct (Buffer.readFd_inv _ _ _ _ _ (inv_input _ Hs) Ek E). }
  destruct (input_inv b s Hb Hs) as [J1 K1]. destruct (calls_inv _ J1) as [J2 K2].
  split; [exact J2|]. etrans; [exact K1|exact K2].
Qed.

Lemma handleRead_inv : serves (handleRead kwrite kread user).
Proof using H0 Hkw Hkr.
  intros s s' Hs Hr. unfold handleRead in Hr. inv_ok. destruct a0 as [[n e] b].
  destruct (conn_read_inv _ _ _ _ Hs E0) as [J2 K].
  cbn zeta in Hr. set (s1 := set_wire _ _ _) in *. clearbody s1.
  assert (Inv s' /\ grows s1 s' /\ turned s1 s') as (J3 & K3 & T3).
  2:{ split_and!; [done| |by eapply keeps_then_turned]. etrans; [apply K|done]. }
  destruct (0 <? n); [|destruct (n =? 0)].
  - apply (safe_serves (callback kwrite user MessageCallback)); [by apply callback_inv; left|done..].
  - by apply handleClose_inv.
  - apply (safe_serves Ok); [|done..]. by intros t t' Ht [= <-].
Qed.

(** What a write event does when there was something to write. *)
Lemma handleWrite_spec s s' :
  Inv s -> handleWrite kwrite s = Ok s' ->
  Inv s' /\ keeps s s' /\ stream s' = stream s.
Proof using H0 Hkw.
  intros Hs Hr. unfold handleWrite in Hr. inv_ok. destruct (Channel.isWriting a0);
    [|inv_ok; by subst].
  destruct (kwrite _ _) as [n|e] eqn:Ek; [|inv_ok; subst; by destruct (calls_inv s Hs)].
  apply Hkw in Ek. cbn zeta in Hr. zcase (0 <? n).
  2:{ rewrite ztake_nonpos, app_nil_r in Hr by lia. inv_ok. subst. by destruct (calls_inv s Hs). }
  apply bind_ok_inv in Hr as (a1 & Er & Hr). cbn [outputBuffer_ set_wire] in Er.
  destruct (Buffer.retrieve_inv _ _ _ (inv_output _ Hs) (proj1 Ek) Er) as (Hw & Hc & _).
  cbn zeta in Hr. set (s1 := set_output a1 _) in Hr.
  assert (stream s1 = stream s) as Hst.
  { unfold stream. cbn. by rewrite Hc, <- app_assoc, ztake_zdrop. }
  assert (Inv s1 /\ keeps s s1) as [J1 K1].
  { destruct Hs as [? ? ? (ch & sw & ? & ? & Ha) ? ? ?]. split.
    - split; try done. exists ch, sw. split_and!; [done..|]. intros Hd Hne. apply Ha; [done|].
      cbn in Hne. rewrite Hc in Hne. intros Hz. apply Hne, zdrop_all. rewrite Hz, zlen_nil. lia.
    - split; cbn; auto. split; try done; [by rewrite Hst|]. by apply prefix_app_r. }
  assert (content (outputBuffer_ s1) = content a1) as Ho by done.
  clearbody s1. zcase (readableBytes a1 =? 0); [|inv_ok; by subst].
  rewrite <- Buffer.content_readable in E2 by done.
  apply bind_ok_inv in Hr as (a2 & Ed & Hr).
  destruct (request_inv Channel.DisableWriting s1 a2 J1) as (J2 & K2 & E2');
    [intros _ Hne; rewrite Ho in Hne; destruct (content a1); [done|zlen_lia]|done|].
  assert (stream a2 = stream s1) as Hst2 by (by rewrite E2').
  set (s3 := if writeCompleteCallback_ a2 then _ else _) in Hr.
  assert (Inv s3 /\ keeps a2 s3 /\ stream s3 = stream a2) as (J3 & K3 & Hst3).
  { unfold s3. destruct (writeCompleteCallback_ a2); [|done].
    by destruct (queue_inv WriteCompleteTask a2 J2). }
  clearbody s3. assert (Inv s' /\ keeps s3 s' /\ stream s' = stream s3) as (J4 & K4 & Hst4).
  { case_bool_decide; [|inv_ok; by subst]. destruct (conn_shutdown_inv _ _ J3 Hr).
    split_and!; [done..|]. unfold shutdownInLoop in Hr. inv_ok.
    by destruct (negb _); inv_ok; subst. }
  split_and!; [done|by do 3 (etrans; [done|])|congruence].
Qed.

Lemma forceCloseInLoop_inv : serves (forceCloseInLoop kwrite user).
Proof using H0 Hkw.
  intros s s' Hs Hr. unfold forceCloseInLoop in Hr. inv_ok.
  destruct (closing s); [by apply handleClose_inv|].
  apply (safe_serves Ok); [|done..]. by intros t t' Ht [= <-].
Qed.

Lemma run_task_inv s s' : Inv s -> run_task kwrite user s = Ok s' ->
  Inv s' /\ grows (set_tasks (tail (tasks s)) (delayed s) s) s' /\
  head (tasks s) <> Some HighWaterMarkTask /\ turned s s'.
Proof using H0 Hkw.
  intros Hs Hr. unfold run_task in Hr. destruct (tasks s) as [|t ts] eqn:Et.
  { inv_ok. subst. split_and!; [done| |done|by apply keeps_turned]. by split; cbn; rewrite ?Et. }
  cbn [tail]. pose proof (tasks_inv ts (delayed s) s Hs) as J1. cbn zeta in Hr.
  set (s1 := set_tasks _ _ s) in *. assert (turned s1 s' -> turned s s') as Ht by done. clearbody s1.
  assert (forall f, serves f -> f s1 = Ok s' -> Inv s' /\ grows s1 s' /\ turned s s') as Hserves.
  { intros f Hf Hfs. destruct (Hf _ _ J1 Hfs) as (? & ? & ?). auto. }
  assert (forall f, safe f -> f s1 = Ok s' -> Inv s' /\ grows s1 s' /\ turned s s') as Hsafe.
  { intros f Hf. by apply Hserves, safe_serves. }
  enough (Inv s' /\ grows s1 s' /\ turned s s' /\ Some t <> Some HighWaterMarkTask) by tauto.
  rewrite (and_assoc (grows s1 s')), (and_assoc (Inv s')). destruct t; (split; [|try done]).
  - inv_ok. by eapply Hsafe; [eapply send_in_loop_inv, piece_len|].
  - inv_ok. unfold sendInLoop_piece in Hr. inv_ok. eapply Hsafe; [|exact Hr].
    apply send_in_loop_inv. pose proof (buffer_wf _ _ _ J1 E) as Hw.
    pose proof (Buffer.peek_bytes_content) as Hp. unfold Buffer.toStringPiece in *. cbn [fst snd] in *.
    unfold Buffer.peek_bytes, zslice. destruct Hw. zlen_lia.
  - eapply Hsafe; [|exact Hr]. by apply callback_inv; right.
  - done.
  - by eapply Hsafe; [apply conn_shutdown_inv|].
  - by eapply Hserves; [apply forceCloseInLoop_inv|].
  - by eapply Hsafe; [apply startReadInLoop_inv|].
  - by eapply Hsafe; [apply stopReadInLoop_inv|].
Qed.

Lemma run_timer_inv s : Inv s -> Inv (run_timer s) /\ grows s (run_timer s).
Proof.
  intros Hs. unfold run_timer. destruct (delayed s) as [|n]; [done|].
  pose proof (tasks_inv (tasks s) n s Hs) as J1.
  destruct (forceClose_inv _ J1) as [J2 [K2 _ _ _ _]]. split; [done|].
  destruct K2. by split.
Qed.

(** The loop runs [n] functors. *)
Fixpoint run_tasks (n : nat) (s : TcpConnection W) : result (TcpConnection W) :=
  match n with
  | O => Ok s
  | S n => s ← run_task kwrite user s; run_tasks n s
  end.

Lemma run_tasks_fatal n s s' :
  Inv s -> HighWaterMarkTask ∈ take n (tasks s) -> run_tasks n s <> Ok s'.
Proof using H0 Hkw.
  revert s. induction n as [|n IH]; intros s Hs Hin Hr; [by apply elem_of_nil in Hin|].
  cbn [run_tasks] in Hr. inv_ok. destruct (run_task_inv _ _ Hs E) as (J1 & [_ _ _ [k Hk] _ _ _] & Hh & _).
  cbn in Hk. destruct (tasks s) as [|t ts]; [by apply elem_of_nil in Hin|].
  cbn in Hk, Hh, Hin. apply elem_of_cons in Hin as [<-|Hin]; [done|].
  apply (IH _ J1); [|done]. rewrite Hk, take_app. by apply elem_of_app; left.
Qed.

(** ** Runs *)

(** Everything that may happen to a connection: the user calls a function of it
    from the loop thread or from another one, the loop calls a handler, a functor
    or the timer, the server establishes and destroys it, and the memory and the
    rest of the world go their own way. *)
Inductive step (self : Z) : relation (TcpConnection W) :=
| step_user b o s s' : run_user kwrite o (set_thread b s) = Ok s' ->
    step self s (set_thread (inLoop s) s')
| step_force_later s s' : forceCloseWithDelay s = Ok s' -> step self s s'
| step_established s s' : connectEstablished kwrite user self s = Ok s' -> step self s s'
| step_destroyed s s' : connectDestroyed kwrite user s = Ok s' -> step self s s'
| step_read s s' : handleRead kwrite kread user s = Ok s' -> step self s s'
| step_write s s' : handleWrite kwrite s = Ok s' -> step self s s'
| step_close s s' : handleClose kwrite user s = Ok s' -> step self s s'
| step_task s s' : run_task kwrite user s = Ok s' -> step self s s'
| step_timer s : step self s (run_timer s)
| step_write_complete cb s : step self s (setWriteCompleteCallback cb s)
| step_high_water cb mark s : step self s (setHighWaterMarkCallback cb mark s)
| step_memory m bs s : memory_ok m bs -> step self s (set_memory m bs s)
| step_world w s :
    Channel.events_ <$> Channel.chan_of w (channel_ s) =
      Channel.events_ <$> Channel.chan_of (world s) (channel_ s) ->
    step self s (set_world w s).

(** A connection as the constructor leaves it. *)
Definition initial (s : TcpConnection W) : Prop :=
  exists c input output w ch, s = new c input output w /\
    Buffer.wf input /\ Buffer.wf output /\ content input = [] /\ content output = [] /\
    Channel.chan_of w c = Some ch /\ Channel.events_ ch = Channel.kNoneEvent.

Lemma initial_inv s : initial s -> Inv s.
Proof.
  intros (c & i & o & w & ch & -> & ? & ? & _ & Ho & Ec & Es).
  split; cbn; try done. exists ch, (false, false). by split_and!.
Qed.

Lemma create_initial r1 r2 r3 r4 c loop fd w s : create r1 r2 r3 r4 c loop fd w = Ok s ->
  initial s /\ state_ s = kConnecting /\ channel_ s = c /\ tasks s = [] /\ Channel.others c w (world s).
Proof.
  unfold create. intros Hr.
  destruct (Buffer.new_ok Buffer.kInitialSize ltac:(split; vm_compute; discriminate))
    as (b & Eb & Hw & Hc & _).
  rewrite Eb, !bind_ok in Hr. injection Hr as <-. split_and!; [|done..|].
  - eexists c, b, b, _, _. split_and!; [done..|apply Channel.chan_put_eq|done].
  - intros d Hd. cbn. by rewrite Channel.chan_put_ne by congruence.
Qed.

Lemma conn_step_inv self s s' : Inv s -> step self s s' ->
  Inv s' /\ stream s `prefix_of` stream s' /\ wire s `prefix_of` wire s'.
Proof using H0 Hkw Hkr.
  intros Hs Hst.
  assert (forall f, sound f -> f s = Ok s' ->
    Inv s' /\ stream s `prefix_of` stream s' /\ wire s `prefix_of` wire s') as Hsound.
  { intros f Hf Hfs. by destruct (Hf _ _ Hs Hfs) as [? []]. }
  destruct Hst as [b o s s' E|s s' E|s s' E|s s' E|s s' E|s s' E|s s' E|s s' E|s|cb s|cb m s|m bs s E|w s E].
  - destruct (thread_inv b s Hs) as [J1 [[? ? _ _ _ _ _] _ _ _ _]].
    destruct (run_user_inv o _ _ J1 E) as [J2 [[? ? _ _ _ _ _] _ _ _ _]].
    destruct (thread_inv (inLoop s) s' J2) as [J3 [[? ? _ _ _ _ _] _ _ _ _]].
    split_and!; [done|by do 2 (etrans; [done|])..].
  - by eapply Hsound; [apply safe_sound, force_later_inv|].
  - by eapply Hsound; [apply (connectEstablished_inv self)|].
  - by eapply Hsound; [apply connectDestroyed_inv|].
  - by eapply Hsound; [apply serves_sound, handleRead_inv|].
  - destruct (handleWrite_spec _ _ Hs E) as (? & [[] _ _ _ _] & _). done.
  - by eapply Hsound; [apply serves_sound, handleClose_inv|].
  - by destruct (run_task_inv _ _ Hs E) as (? & [] & _).
  - by destruct (run_timer_inv s Hs) as [? []].
  - split_and!; [|done..]. by destruct Hs; split.
  - split_and!; [|done..]. by destruct Hs; split.
  - by destruct (memory_inv m bs s E Hs) as [? [[] _ _ _ _]].
  - split_and!; [|done..]. destruct Hs as [? ? ? (ch & sw & Ec & Es & Ha) ? ? ?].
    rewrite Ec in E. split; try done. cbn.
    destruct (Channel.chan_of w (channel_ s)) as [ch'|] eqn:Ec'; [|done].
    apply (inj Some) in E. exists ch', sw. by rewrite E.
Qed.

Lemma steps_inv self s s' : Inv s -> rtc (step self) s s' ->
  Inv s' /\ stream s `prefix_of` stream s' /\ wire s `prefix_of` wire s'.
Proof using H0 Hkw Hkr.
  intros Hs Hst. induction Hst as [s|s1 s2 s3 Hst _ IH]; [done|].
  destruct (conn_step_inv _ _ _ Hs Hst) as (J & ? & ?). destruct (IH J) as (? & ? & ?).
  split_and!; [done|by etrans..].
Qed.

End Handlers.

(** ** Draining *)

Definition writing (s : TcpConnection W) : bool :=
  match channel s with Ok ch => Channel.isWriting ch | Err _ => false end.

Lemma unsent_writing s : Inv s -> state_ s <> kDisconnected -> content (outputBuffer_ s) <> [] -> writing s = true.
Proof.
  intros [_ _ _ (ch & sw & Ec & Es & Ha) _ _ _] Hd Hne. unfold writing, channel, Channel.deref.
  by rewrite Ec, (Channel.interest_isWriting _ _ Es), Ha.
Qed.

(** In the loop's registry; and a kernel that takes something of what it is offered. *)
Definition served {SV : Service.Service W} (s : TcpConnection W) : Prop := exists l ch,
  Service.turning l (world s) /\ Channel.chan_of (world s) (channel_ s) = Some ch /\
  Channel.loop_ ch = l /\ Service.registry (world s) !! Channel.fd_ ch = Some (channel_ s).
Definition taking : Prop :=
  forall k l, l <> [] -> exists n, kwrite k l = Wrote n /\ 0 < n <= zlen l.

Context {SV : Service.Service W}.

(** The end of the stream that is owed once everything is sent. *)
Definition farewell (s : TcpConnection W) : list event :=
  if bool_decide (state_ s = kDisconnecting) then [ShutdownWrite []] else [].

Lemma handleWrite_progress s :
  served s -> taking -> Inv s -> inLoop s = true -> state_ s <> kDisconnected ->
  content (outputBuffer_ s) <> [] ->
  exists s', handleWrite kwrite s = Ok s' /\ inLoop s' = true /\ state_ s' = state_ s /\
    zlen (content (outputBuffer_ s')) < zlen (content (outputBuffer_ s)) /\
    if bool_decide (content (outputBuffer_ s') = [])
    then trace s' = trace s ++ farewell s /\ writing s' = false /\ exists ch, channel s' = Ok ch
    else trace s' = trace s /\ served s'.
Proof using H0.
  intros Hsv Htk Hs Hl Hd Hne. destruct (inv_armed _ Hs) as (ch & sw & Ec & Es & Ha).
  unfold handleWrite, assertInLoopThread, channel, Channel.deref. rewrite Hl, bind_ok, Ec, bind_ok.
  rewrite (Channel.interest_isWriting _ _ Es), (Ha Hd Hne).
  destruct (Htk (calls s) _ Hne) as (n & -> & Hn). cbn zeta. zcase (0 <? n); [|lia].
  cbn [outputBuffer_ set_wire]. pose proof (inv_output _ Hs) as Hw.
  destruct (Buffer.retrieve_ok _ n Hw) as (b & -> & Hwb & Hc);
    [rewrite <- Buffer.content_readable by done; lia|]. rewrite bind_ok. cbn zeta.
  set (s1 := set_output b _). rewrite <- Buffer.content_readable by done.
  assert (zlen (content b) < zlen (content (outputBuffer_ s))) as Hlt by (rewrite Hc; zlen_lia).
  zcase (zlen (content b) =? 0).
  2:{ exists s1. split_and!; [done..|]. rewrite bool_decide_false; [by split|].
      cbn. by intros Hz; rewrite Hz in *. }
  assert (content b = []) as Hb by (destruct (content b); [done|zlen_lia]).
  destruct Hsv as (l & ch0 & Ht & Ec0 & El & Er). assert (ch0 = ch) as -> by congruence.
  destruct (Service.change l Channel.DisableWriting (channel_ s) ch (world s) Ht Ec El Er) as (w' & Ew & _).
  assert (on_channel Channel.disableWriting s1 = Ok (set_world w' s1)) as Eo.
  { unfold on_channel. cbn [channel_ world set_output set_wire s1].
    change (Channel.disableWriting (channel_ s) (world s) = Ok w') in Ew. by rewrite Ew. }
  destruct (on_channel_request Channel.DisableWriting s1 _ ch sw Ec Es Eo) as (_ & (ch' & Ec' & Es') & _).
  cbn in Ec'. rewrite Eo, bind_ok.
  set (s3 := if writeCompleteCallback_ (set_world w' s1) then _ else _).
  assert (world s3 = w' /\ channel_ s3 = channel_ s /\ trace s3 = trace s /\ inLoop s3 = true /\
    outputBuffer_ s3 = b /\ state_ s3 = state_ s) as (E1 & E2 & E3 & E4 & E5 & E6)
    by (unfold s3; by destruct (writeCompleteCallback_ _)).
  assert (Channel.chan_of (world s3) (channel_ s3) = Some ch') as E9 by (by rewrite E1, E2, Ec').
  assert (channel s3 = Ok ch') as E7 by (unfold channel, Channel.deref; by rewrite E9).
  assert (Channel.isWriting ch' = false) as E8 by (by rewrite (Channel.interest_isWriting _ _ Es')).
  clearbody s3. unfold shutdownInLoop, assertInLoopThread. rewrite E4, E6, bind_ok, E7, bind_ok, E8.
  cbn [negb]. unfold farewell. case_bool_decide; eexists; (split; [reflexivity|]).
  - unfold writing, channel, Channel.deref.
    cbn [record set_trace inLoop state_ outputBuffer_ trace world channel_].
    rewrite E5, Hb, E3, bool_decide_true, E9 by done. rewrite Hb in Hlt. by split_and!; [..|exists ch'].
  - unfold writing, channel, Channel.deref.
    rewrite E5, Hb, E3, bool_decide_true, E9 by done. rewrite Hb in Hlt.
    split_and!; [done..|by rewrite app_nil_r|done|by exists ch'].
Qed.

(** [n] write events. *)
Fixpoint write_events (n : nat) (s : TcpConnection W) : result (TcpConnection W) :=
  match n with
  | O => Ok s
  | S n => s ← handleWrite kwrite s; write_events n s
  end.

Lemma write_events_idle n s ch :
  inLoop s = true -> channel s = Ok ch -> Channel.isWriting ch = false -> write_events n s = Ok s.
Proof.
  intros Hl Hc Hw. induction n as [|n IH]; [done|]. cbn [write_events].
  unfold handleWrite, assertInLoopThread. by rewrite Hl, bind_ok, Hc, bind_ok, Hw, bind_ok.
Qed.

Lemma write_events_drain n s :
  served s -> taking -> Inv s -> inLoop s = true -> state_ s <> kDisconnected ->
  content (outputBuffer_ s) <> [] -> zlen (content (outputBuffer_ s)) <= Z.of_nat n ->
  exists s', write_events n s = Ok s' /\ Inv s' /\ content (outputBuffer_ s') = [] /\
    stream s' = stream s /\ writing s' = false /\ trace s' = trace s ++ farewell s.
Proof using H0 Hkw.
  intros Hsv Htk. revert s Hsv. induction n as [|n IH]; intros s Hsv Hs Hl Hd Hne Hn.
  { destruct (content (outputBuffer_ s)); [done|zlen_lia]. }
  destruct (handleWrite_progress s) as (s1 & E & Hl1 & Hst & Hlt & Ht); [done..|].
  destruct (handleWrite_spec _ _ Hs E) as (J1 & _ & Hstr). cbn [write_events]. rewrite E, bind_ok.
  case_bool_decide as Hz.
  - destruct Ht as (Ht & Hw & ch & Ec). unfold writing in Hw. rewrite Ec in Hw.
    rewrite (write_events_idle n s1 ch) by done. exists s1. split_and!; try done.
    unfold writing. by rewrite Ec.
  - destruct Ht as [Ht Hsv1].
    destruct (IH s1) as (s' & ? & ? & ? & ? & ? & Ht'); [done|done|done|by rewrite Hst|done|lia|].
    exists s'. split_and!; [done|done|done|congruence|done|].
    rewrite Ht', Ht. unfold farewell. by rewrite Hst.
Qed.

End Sending.
End Laws.

(** ** Properties *)

(** [C2] The life of a connection.  Whatever the user calls, from which thread
    and in which callback, and in whatever order the loop delivers its events:
    the user is told exactly once that the connection is up and exactly once that
    it is down, as the state says; the close callback is called at most once, and
    only then; until then the writing side is never shut down with bytes unsent;
    and as long as bytes are unsent the channel waits to write. *)
Theorem tcp_lifecycle {W} `{Channel.HostLaws W} kwrite kread user self (s0 s : TcpConnection W) :
  write_contract kwrite -> read_contract kread -> initial s0 ->
  rtc (step kwrite kread user self) s0 s ->
  lives (trace s) = told (state_ s) /\
  (closes (trace s) <= if bool_decide (state_ s = kDisconnected) then 1 else 0)%nat /\
  clean (trace s) /\
  (state_ s <> kDisconnected -> content (outputBuffer_ s) <> [] -> writing s = true).
Proof.
  intros Hkw Hkr Hi Hst.
  destruct (steps_inv kwrite kread Hkw Hkr user _ _ _ (initial_inv _ Hi) Hst) as (J & _).
  pose proof (unsent_writing _ J). by destruct J.
Qed.

(** [C15] The byte stream.  What the kernel was given, followed by what is in the
    output buffer, only ever grows at its end: no event, callback or call
    reorders, repeats or takes back a byte that the connection accepted. *)
Theorem tcp_stream_grows {W} `{Channel.HostLaws W} kwrite kread user self
    (s0 s1 s2 : TcpConnection W) :
  write_contract kwrite -> read_contract kread -> initial s0 ->
  rtc (step kwrite kread user self) s0 s1 -> rtc (step kwrite kread user self) s1 s2 ->
  wire s1 ++ content (outputBuffer_ s1) `prefix_of` wire s2 ++ content (outputBuffer_ s2) /\
  wire s1 `prefix_of` wire s2.
Proof.
  intros Hkw Hkr Hi Hst1 Hst2.
  destruct (steps_inv kwrite kread Hkw Hkr user _ _ _ (initial_inv _ Hi) Hst1) as (J & _).
  by destruct (steps_inv kwrite kread Hkw Hkr user _ _ _ J Hst2) as (_ & ? & ?).
Qed.

(** [C36] The outcome of [sendInLoop] on an open connection.  The message splits
    into a part given to the kernel at once, empty unless nothing was waiting,
    and a rest; the rest is appended to the output buffer, or it is lost.  It is
    lost whenever it does not make the buffer reach the high-water mark, or there
    is no callback for that; and when it is not lost, that callback is queued. *)
Theorem tcp_send_outcome {W} `{Channel.HostLaws W} kwrite message (s s' : TcpConnection W) :
  write_contract kwrite -> Inv s -> state_ s <> kDisconnected ->
  zlen message <= Buffer.max_size -> sendInLoop kwrite message s = Ok s' ->
  exists sent rest lost, sent_as message sent rest lost s s' /\
    (crosses (zlen rest) s = false -> lost = true) /\
    (rest <> [] -> lost = false -> HighWaterMarkTask ∈ tasks s').
Proof.
  intros Hkw Hs Hd Hm Hr.
  destruct (sendInLoop_spec kwrite Hkw _ _ _ Hm Hs Hr) as [[? _]|(_ & _ & _ & sent & rest & err & Hsa & Ht)];
    [done|].
  exists sent, rest, (err || negb (crosses (zlen rest) s)). split_and!; [done| |done].
  intros ->. apply orb_true_r.
Qed.

(** A message that is buffered ends the process.  When [sendInLoop] adds
    anything to the output buffer, one of the functors that the loop then has to
    run reads a reference to a variable that is gone, so running them never
    completes. *)
Theorem tcp_buffering_fatal {W} `{Channel.HostLaws W} kwrite kread user self message
    (s0 s s1 : TcpConnection W) :
  write_contract kwrite -> read_contract kread -> initial s0 ->
  rtc (step kwrite kread user self) s0 s -> zlen message <= Buffer.max_size ->
  sendInLoop kwrite message s = Ok s1 ->
  content (outputBuffer_ s1) <> content (outputBuffer_ s) ->
  forall s2, run_tasks kwrite user (length (tasks s1)) s1 <> Ok s2.
Proof.
  intros Hkw Hkr Hi Hst Hm Hr Hne s2.
  destruct (steps_inv kwrite kread Hkw Hkr user _ _ _ (initial_inv _ Hi) Hst) as (J & _).
  destruct (sendInLoop_spec kwrite Hkw _ _ _ Hm J Hr)
    as [[_ ->]|(_ & J1 & _ & sent & rest & err & [_ _ _ Ho] & Ht)]; [done|].
  apply run_tasks_fatal; [done..|]. rewrite firstn_all. apply Ht.
  - intros ->. rewrite Ho in Hne. destruct (_ || _); by rewrite app_nil_r in Hne.
  - destruct (_ || _); [|done]. by rewrite app_nil_r in Ho.
Qed.

(** [C20] Draining.  With a kernel that takes at least one byte of what it is
    offered, an open connection with bytes left has sent them all, in order, after
    at most as many write events as there are bytes; then it stops waiting to
    write, and it shuts the writing side down if and only if the user has asked
    for the end. *)
Theorem tcp_drain {W} `{Channel.HostLaws W} {SV : Service.Service W} kwrite n (s : TcpConnection W) :
  write_contract kwrite -> served s -> taking kwrite ->
  Inv s -> inLoop s = true -> state_ s <> kDisconnected ->
  content (outputBuffer_ s) <> [] -> zlen (content (outputBuffer_ s)) <= Z.of_nat n ->
  exists s', write_events kwrite n s = Ok s' /\
    wire s' = wire s ++ content (outputBuffer_ s) /\ content (outputBuffer_ s') = [] /\
    writing s' = false /\
    trace s' = trace s ++ if bool_decide (state_ s = kDisconnecting) then [ShutdownWrite []] else [].
Proof.
  intros Hkw Hacc Htk Hs Hl Hd Hne Hn.
  destruct (write_events_drain kwrite Hkw n s) as (s' & ? & _ & Ho & Hstr & ? & ?); [done..|].
  exists s'. unfold stream in Hstr. rewrite Ho, app_nil_r in Hstr. by split_and!.
Qed.

(** Destroying a connection that is being shut down.  After [shutdown] on an
    established connection that reads or writes, [connectDestroyed] ends the
    process: it only disables the channel in the state [kConnected], and removing
    an enabled channel fails an assertion. *)
Theorem tcp_destroy_aborts {W} `{Channel.HostLaws W} kwrite user (s s1 : TcpConnection W) ch :
  inLoop s = true -> state_ s = kConnected -> Channel.chan_of (world s) (channel_ s) = Some ch ->
  Channel.isNoneEvent ch = false -> shutdown s = Ok s1 ->
  connectDestroyed kwrite user s1 = Err AssertFailure.
Proof.
  intros Hl Hst Ec He Hr.
  assert (state_ s1 = kDisconnecting /\ inLoop s1 = true /\ world s1 = world s /\
    channel_ s1 = channel_ s) as (E1 & E2 & E3 & E4).
  { unfold shutdown in Hr. rewrite bool_decide_true in Hr by done. cbn zeta in Hr.
    change (inLoop (set_state kDisconnecting s)) with (inLoop s) in Hr. rewrite Hl in Hr.
    unfold shutdownInLoop in Hr. inv_ok. by destruct (negb _); inv_ok; subst. }
  unfold connectDestroyed, assertInLoopThread. rewrite E1, E2, bind_ok, bool_decide_false, bind_ok by done.
  unfold on_channel, Channel.remove, Channel.deref. rewrite E3, E4, Ec, bind_ok. cbn.
  by rewrite He.
Qed.

(** ** Witnesses *)

Abbreviation Loop := (EventLoop.EventLoop PollPoller.PollPoller).

(** A kernel that takes three bytes at a time and delivers "hi" once, a user who
    answers every message with [bye] and asks for the end. *)
Definition kwrite3 (k : nat) (l : list byte) : write_answer := Wrote (Z.min 3 (zlen l)).
Definition kread_hi (k : nat) (room : Z) : readv_result :=
  if 2 <=? room then Buffer.ReadvData (bytes_of "hi") else Buffer.ReadvError EWOULDBLOCK.
Definition polite (e : event) (s : TcpConnection Loop) : list user_op :=
  match e with MessageCallback => [ConsumeAll; Send 1 3; Shutdown] | _ => [] end.

Lemma kwrite3_contract : write_contract kwrite3.
Proof. intros k l n [= <-]. pose proof (zlen_nonneg l). lia. Qed.

Lemma kread_hi_contract : read_contract kread_hi.
Proof. intros k room d. unfold kread_hi. zcase (2 <=? room); [|done]. by intros [= <-]. Qed.

Definition empty_buffer : Buffer.Buffer := Buffer.mkBuffer (zreplicate 72 Byte.x00) 8 8.

Lemma empty_buffer_wf : Buffer.wf empty_buffer.
Proof. split; vm_compute; split || idtac; discriminate. Qed.

(** The channel of descriptor 5 in a loop on poll(2). *)
Definition world0 : Loop := Channel.put_chan 7 (Channel.new 1 5) (LoopService.poll_loop 1).

Definition fresh : TcpConnection Loop :=
  new 7 empty_buffer empty_buffer world0.

Lemma fresh_initial : initial fresh.
Proof.
  exists 7, empty_buffer, empty_buffer, world0, (Channel.new 1 5).
  split_and!; try reflexivity; apply empty_buffer_wf.
Qed.

(** The state after an operation that returns. *)
Definition after (r : result (TcpConnection Loop)) : TcpConnection Loop :=
  match r with Ok s => s | Err _ => fresh end.

Definition mem1 : gmap Z (list byte) := {[ 1 := bytes_of "bye" ]}.
Definition conn_mem := set_memory mem1 ∅ fresh.
Definition conn_up := after (connectEstablished kwrite3 polite 9 conn_mem).
Definition conn_bye := after (handleRead kwrite3 kread_hi polite conn_up).
Definition conn_closed := after (handleClose kwrite3 polite conn_bye).

Lemma mem1_ok : memory_ok mem1 ∅.
Proof. split; [|done]. by apply map_Forall_singleton. Qed.

Lemma steps_up : rtc (step kwrite3 kread_hi polite 9) fresh conn_up.
Proof.
  eapply rtc_l; [by apply (step_memory _ _ _ _ mem1 ∅), mem1_ok|].
  apply rtc_once, step_established. vm_compute. reflexivity.
Qed.

Lemma steps_closed : rtc (step kwrite3 kread_hi polite 9) conn_up conn_closed.
Proof.
  eapply (rtc_l _ _ conn_bye); [apply step_read; vm_compute; reflexivity|].
  apply rtc_once, step_close. vm_compute. reflexivity.
Qed.

Lemma tcp_lifecycle_witness :
  wire conn_closed = bytes_of "bye" /\ lives (trace conn_closed) = told (state_ conn_closed).
Proof.
  split; [vm_compute; reflexivity|].
  apply (tcp_lifecycle kwrite3 kread_hi polite 9 fresh conn_closed kwrite3_contract
    kread_hi_contract fresh_initial). etrans; [exact steps_up|exact steps_closed].
Defined.

Lemma tcp_stream_grows_witness :
  wire conn_up ++ content (outputBuffer_ conn_up)
    `prefix_of` wire conn_closed ++ content (outputBuffer_ conn_closed).
Proof.
  apply (tcp_stream_grows kwrite3 kread_hi polite 9 fresh conn_up conn_closed kwrite3_contract
    kread_hi_contract fresh_initial steps_up steps_closed).
Defined.

(** With a callback for the high-water mark of 4 bytes. *)
Definition conn_mark := setHighWaterMarkCallback true 4 conn_up.

Lemma steps_mark : rtc (step kwrite3 kread_hi polite 9) fresh conn_mark.
Proof. etrans; [exact steps_up|]. apply rtc_once, step_high_water. Qed.

Lemma conn_mark_inv : Inv conn_mark.
Proof.
  apply (steps_inv kwrite3 kread_hi kwrite3_contract kread_hi_contract polite 9 fresh);
    [apply initial_inv, fresh_initial|exact steps_mark].
Qed.

(** Three of the ten bytes are sent, seven are kept; of six bytes, three are lost. *)
Definition conn_sent := after (sendInLoop kwrite3 (bytes_of "0123456789") conn_mark).
Definition conn_lost := after (sendInLoop kwrite3 (bytes_of "012345") conn_mark).

Lemma tcp_send_outcome_witness :
  wire conn_lost = bytes_of "012" /\ content (outputBuffer_ conn_lost) = [] /\
  exists sent rest lost, sent_as (bytes_of "0123456789") sent rest lost conn_mark conn_sent /\
    (crosses (zlen rest) conn_mark = false -> lost = true) /\
    (rest <> [] -> lost = false -> HighWaterMarkTask ∈ tasks conn_sent).
Proof.
  split_and!; [vm_compute; reflexivity..|].
  apply (tcp_send_outcome kwrite3 (bytes_of "0123456789") conn_mark conn_sent kwrite3_contract
    conn_mark_inv); [discriminate|vm_compute; discriminate|vm_compute; reflexivity].
Defined.

Lemma tcp_buffering_fatal_witness :
  content (outputBuffer_ conn_sent) = bytes_of "3456789" /\
  run_tasks kwrite3 polite (length (tasks conn_sent)) conn_sent <> Ok conn_sent.
Proof.
  split; [vm_compute; reflexivity|].
  apply (tcp_buffering_fatal kwrite3 kread_hi polite 9 (bytes_of "0123456789") fresh conn_mark
    conn_sent kwrite3_contract kread_hi_contract fresh_initial steps_mark);
    [vm_compute; discriminate|vm_compute; reflexivity|vm_compute; discriminate].
Defined.

Lemma conn_sent_inv : Inv conn_sent.
Proof.
  apply (send_in_loop_inv kwrite3 kwrite3_contract (bytes_of "0123456789") ltac:(vm_compute; discriminate)
    conn_mark); [exact conn_mark_inv|vm_compute; reflexivity].
Qed.

(** The channel was registered for reading, then also for writing. *)
Lemma conn_sent_served : served conn_sent.
Proof.
  set (w1 := Channel.put_chan 7 (Channel.tie 9 (Channel.new 1 5)) (LoopService.poll_loop 1)).
  destruct (Service.make 1 7 (Channel.tie 9 (Channel.new 1 5)) (LoopService.poll_loop 1))
    as (Ht1 & Er1 & _ & Hroom1 & _); [apply LoopService.poll_loop_idle|reflexivity|].
  destruct (Service.register 1 Channel.EnableReading 7 (Channel.tie 9 (Channel.new 1 5)) w1 0)
    as (w2 & E2 & Ht2 & Er2 & _);
    [exact Ht1|by apply Hroom1, LoopService.poll_loop_room|reflexivity|reflexivity|reflexivity|done|reflexivity|].
  assert (Channel.request_op Channel.EnableReading 7 w1 = Ok (world conn_mark)) as E by (vm_compute; reflexivity).
  assert (w2 = world conn_mark) as -> by congruence.
  destruct (Channel.chan_of (world conn_mark) 7) as [ch|] eqn:Ec; [|vm_compute in Ec; discriminate Ec].
  assert (Channel.loop_ ch = 1 /\ Channel.fd_ ch = 5) as [El Ef] by (vm_compute in Ec; by injection Ec as <-).
  destruct (Service.change 1 Channel.EnableWriting 7 ch (world conn_mark) Ht2 Ec El) as (w3 & E3 & Ht3 & Er3 & _);
    [by rewrite Er2, Ef|].
  assert (Channel.request_op Channel.EnableWriting 7 (world conn_mark) = Ok (world conn_sent)) as E' by (vm_compute; reflexivity).
  assert (w3 = world conn_sent) as -> by congruence. destruct (Channel.request_events _ _ _ _ _ Ec E') as (ch' & Ec' & Es').
  exists 1, ch'. split_and!; [exact Ht3|exact Ec'|rewrite <- El; exact (f_equal Channel.loop_ Es')|].
  pose proof (f_equal Channel.fd_ Es') as Ef'. cbn in Ef'. rewrite Er3, Er2, Ef', Ef. reflexivity.
Qed.

Lemma tcp_drain_witness :
  exists s', write_events kwrite3 7 conn_sent = Ok s' /\
    wire s' = wire conn_sent ++ content (outputBuffer_ conn_sent) /\
    content (outputBuffer_ s') = [] /\ writing s' = false /\
    trace s' = trace conn_sent ++
      if bool_decide (state_ conn_sent = kDisconnecting) then [ShutdownWrite []] else [].
Proof.
  apply (tcp_drain kwrite3 7 conn_sent kwrite3_contract);
    [exact conn_sent_served| |exact conn_sent_inv|vm_compute; reflexivity|vm_compute; discriminate|vm_compute; discriminate
    |vm_compute; discriminate].
  intros k [|b l] Hl; [done|]. eexists. split; [reflexivity|]. pose proof (zlen_nonneg l).
  rewrite zlen_cons. lia.
Defined.

Lemma tcp_destroy_aborts_witness :
  connectDestroyed kwrite3 polite (after (shutdown conn_up)) = Err AssertFailure.
Proof.
  eapply (tcp_destroy_aborts kwrite3 polite conn_up); vm_compute; reflexivity.
Defined.

End TcpConnection.
