(* ===== verification/OwnedConnection.v ===== *)
(** * A connection keeps its contract: TcpConnection.cc behind Connection.v

    In any world of channels that several connections share, a [TcpConnection] keeps
    what Connection.v promises to its owner, be it a server or a client. *)

From S2P Require Import Prelude NetBuffer Channel Poller PollPoller EventLoop Connection TcpConnection.

Module OwnedConnection.
Import TcpConnection.
Import Connection (StateE, kDisconnected, kConnecting, kConnected, kDisconnecting).

Section Shared.
Context {W : Type} `{Channel.HostLaws W}.
Abbreviation Conn := (TcpConnection W).

(** The kernel, the user's callbacks, and the names of the four handlers. *)
Context (kwrite : nat -> list byte -> write_answer) (kread : nat -> Z -> Buffer.readv_result).
Context (user : event -> Conn -> list user_op).
Context (on_read on_write on_close on_error : Z).

(** The close callback is the server's [removeConnection]: no code of the user runs
    in it. *)
Definition callbacks (e : event) (s : Conn) : list user_op :=
  match e with CloseCallback => [] | _ => user e s end.

(** What may come to a connection: calls of its functions from the loop's thread or
    another one, the handlers of its channel, its timer, and changes of the memory
    that messages are sent from. *)
Inductive action :=
| Call (in_loop : bool) (o : user_op)
| CloseLater
| ReadEvent
| WriteEvent
| CloseEvent
| TimerEvent
| SetWriteComplete (cb : bool)
| SetHighWater (cb : bool) (mark : Z)
| Memory (m : gmap Z (list byte)) (bs : gmap Z Buffer.Buffer) (Hm : memory_ok m bs).

Definition run_action (a : action) (s : Conn) : result Conn :=
  match a with
  | Call b o => run_user kwrite o (set_thread b s)
  | CloseLater => forceCloseWithDelay s
  | ReadEvent => handleRead kwrite kread callbacks s
  | WriteEvent => handleWrite kwrite s
  | CloseEvent => handleClose kwrite callbacks s
  | TimerEvent => Ok (run_timer s)
  | SetWriteComplete cb => Ok (setWriteCompleteCallback cb s)
  | SetHighWater cb mark => Ok (setHighWaterMarkCallback cb mark s)
  | Memory m bs _ => Ok (set_memory m bs s)
  end.

(** In the thread of its loop, whose state is [w]. *)
Definition enter (s : Conn) (w : W) : Conn := set_thread true (set_world w s).

(** The connection and the loop afterwards, and whether the close callback was
    called. *)
Definition leave (s : Conn) (r : result Conn) : result (Conn * W * bool) :=
  t ← r; Ok (t, world t, (closes (trace s) <? closes (trace t))%nat).

#[global] Instance connection : Connection.Connection Conn W := {
  Connection.Action := action;
  Connection.state_of := state_;
  Connection.channel_of := channel_;
  Connection.pending s := length (tasks s);
  Connection.construct c loop fd w :=
    s ← create on_read on_write on_close on_error c loop fd w; Ok (s, world s);
  Connection.connectEstablished self s w :=
    t ← connectEstablished kwrite callbacks self (enter s w); Ok (t, world t);
  Connection.connectDestroyed s w :=
    t ← connectDestroyed kwrite callbacks (enter s w); Ok (t, world t);
  Connection.destruct s w := _ ← destroy s; Channel.destroy (channel_ s) w;
  Connection.act a s w := leave s (run_action a (enter s w));
  Connection.run_functor s w := leave s (run_task kwrite callbacks (enter s w))
}.

(** ** The contract is kept *)

#[local] Existing Instances grows_preorder keeps_preorder.

Context (Hkw : write_contract kwrite) (Hkr : read_contract kread).

Definition sound (s : Conn) (w : W) : Prop :=
  Inv (set_world w s) /\ (state_ s <> kConnecting -> Channel.registered (channel_ s) w).

Lemma sound_enter s w : sound s w -> Inv (enter s w).
Proof using. intros [Hs _]. by apply thread_inv. Qed.

Lemma sound_world s : Inv s -> (state_ s <> kConnecting -> Channel.registered (channel_ s) (world s)) ->
  sound s (world s).
Proof using. intros Hs Hr. split; [|done]. by destruct s. Qed.

(** What a connection does between being established and destroyed keeps it so. *)
Lemma sound_turned s w t closed : sound s w -> Inv t -> channel_ t = channel_ s ->
  (Channel.registered (channel_ s) w -> Channel.registered (channel_ s) (world t)) ->
  Connection.turns closed (state_ s) (state_ t) -> sound t (world t).
Proof using.
  intros [_ Hr] J Hc Hreg Ht. apply sound_world; [done|]. intros Hst. rewrite Hc. apply Hreg, Hr.
  unfold Connection.turns, Connection.up in Ht. destruct closed; intuition congruence.
Qed.

(** The invariant looks at the connection's own channel alone. *)
Lemma others_sound c s w w' : Channel.others c w w' -> channel_ s <> c -> sound s w -> sound s w'.
Proof using.
  intros Ho Hne [[I1 I2 I3 (ch & sw & Ec & Es & Ha) I5 I6 I7] Hr].
  split; [|intros Hst; eapply Channel.others_registered; [done..|by apply Hr]]. split; try done.
  specialize (Ho _ Hne). cbn in *. rewrite Ec in Ho.
  destruct (Channel.chan_of w' (channel_ s)) as [ch'|] eqn:Ec'; [|done]. apply (inj Some) in Ho.
  exists ch', sw. split_and!; [done| |done]. rewrite <- Es. exact (f_equal Channel.events_ Ho).
Qed.

Lemma run_action_serves a s s' : Inv s -> run_action a s = Ok s' ->
  Inv s' /\ grows s s' /\ turned s s'.
Proof using Hkw Hkr H0.
  intros Hs Hr. destruct a as [b o| | | | | |cb|cb mark|m bs Hm]; cbn [run_action] in Hr.
  - destruct (thread_inv b s Hs) as [J1 K1]. destruct (run_user_inv _ Hkw o _ _ J1 Hr) as [J2 K2].
    assert (keeps s s') as K by by etrans. split_and!; [done|apply K|by apply keeps_turned].
  - by apply (safe_serves forceCloseWithDelay); [apply force_later_inv|..].
  - by eapply handleRead_inv.
  - destruct (handleWrite_spec _ Hkw _ _ Hs Hr) as (J & K & _). split_and!; [done|apply K|by apply keeps_turned].
  - by eapply handleClose_inv.
  - injection Hr as <-. unfold run_timer. destruct (delayed s) as [|n]; [by apply (safe_serves Ok); [intros ? ? ? [= <-]|..]|].
    pose proof (tasks_inv (tasks s) n s Hs) as J1. destruct (forceClose_inv _ J1) as [J2 K2].
    split_and!; [done| |].
    + destruct K2 as [[] _ _ _ _]. by split.
    + by apply keeps_turned in K2.
  - injection Hr as <-. apply (safe_serves (fun t => Ok (setWriteCompleteCallback cb t))); [|done..].
    intros t t' [] [= <-]. split; [by split|]. by split; cbn; auto; split.
  - injection Hr as <-. apply (safe_serves (fun t => Ok (setHighWaterMarkCallback cb mark t))); [|done..].
    intros t t' [] [= <-]. split; [by split|]. by split; cbn; auto; split.
  - injection Hr as <-. apply (safe_serves (fun t => Ok (set_memory m bs t))); [|done..].
    intros t t' Ht [= <-]. by apply memory_inv.
Qed.

(** What growing means for the others and for the functors. *)
Lemma grows_enter s w t : advances (enter s w) t ->
  channel_ t = channel_ s /\ (length (tasks s) <= length (tasks t))%nat /\ Channel.others (channel_ s) w (world t).
Proof using.
  intros [_ _ Ht Hc Hw]. apply prefix_length in Ht. done.
Qed.

(** The flag that [leave] computes is the one the owner is told by. *)
Lemma leave_spec s w r t w' closed : leave s r = Ok (t, w', closed) -> r = Ok t ->
  turned (enter s w) t -> w' = world t /\ Connection.turns closed (state_ s) (state_ t).
Proof using.
  intros E ->. unfold leave in E. rewrite bind_ok in E. injection E as <- <-.
  intros (b & Hb & Ht). split; [done|]. cbn in Hb, Ht. rewrite Hb. destruct b.
  - by rewrite (proj2 (Nat.ltb_lt _ _)) by lia.
  - by rewrite Nat.add_0_r, Nat.ltb_irrefl.
Qed.

#[global] Instance connection_laws : Connection.ConnectionLaws Conn W.
Proof using Hkw Hkr H0.
  refine {| Connection.sound := sound; Connection.unused c w := Channel.chan_of w c = None;
            Connection.elsewhere := Channel.others |}; cbn.
  - intros c s w w' Ho Hne. by apply (others_sound c).
  - intros c loop fd w s w' _ E. apply bind_ok_inv in E as (t & E0 & [= -> <-]). apply create_initial in E0 as (Hi & Hst & Hc & Ht & Ho).
    split_and!; [apply sound_world; [by apply initial_inv|done]|done|done|by rewrite Ht|done].
  - intros self s w t w' Hs Hst E. apply bind_ok_inv in E as (t' & E0 & [= -> <-]).
    destruct (connectEstablished_run kwrite Hkw callbacks self _ _ (sound_enter s w Hs) E0) as (J & G & _ & Hup & Hreg).
    destruct (grows_enter _ _ _ (grows_advances _ _ G)) as (? & ? & ?). split_and!; [by apply sound_world|done..].
  - intros s w t w' Hs E. apply bind_ok_inv in E as (t' & E0 & [= -> <-]).
    destruct (connectDestroyed_inv kwrite Hkw callbacks _ _ (sound_enter s w Hs) E0) as [_ G].
    by destruct (grows_enter _ _ _ G) as (? & ? & ?).
  - intros s w w' E. apply bind_ok_inv in E as (? & _ & E). by apply Channel.destroy_others.
  - intros s w [_ Hreg] Hst. unfold destroy. case_bool_decide; [|done]. by apply Channel.destroy_registered, Hreg.
  - intros a s w t w' closed Hs E. destruct (run_action a (enter s w)) as [t'|f] eqn:Er; [|done].
    destruct (run_action_serves a _ _ (sound_enter s w Hs) Er) as (J & G & Ht).
    assert (t' = t) as -> by (unfold leave in E; rewrite bind_ok in E; by simplify_eq).
    destruct (leave_spec _ w _ _ _ _ E eq_refl Ht) as [-> Hturn].
    destruct (grows_enter _ _ _ (grows_advances _ _ G)) as (? & ? & ?).
    split_and!; [eapply sound_turned; [done..|apply G|done]|done..].
  - intros s w t w' closed Hs E. destruct (run_task kwrite callbacks (enter s w)) as [t'|f] eqn:Er; [|done].
    destruct (run_task_inv kwrite Hkw callbacks _ _ (sound_enter s w Hs) Er) as (J & G & _ & Ht).
    assert (t' = t) as -> by (unfold leave in E; rewrite bind_ok in E; by simplify_eq).
    destruct (leave_spec _ w _ _ _ _ E eq_refl Ht) as [-> Hturn].
    destruct G as [_ _ _ Hpre Hc Hw Hreg]. apply prefix_length in Hpre. cbn in Hpre.
    split_and!; [by eapply sound_turned|done|done| |done]. by destruct (tasks s).
Defined.

End Shared.

(** ** An instance *)

(** In a loop on poll(2), with a user who answers a message with the three bytes at 1,
    and a kernel that takes two bytes at a time. *)
Abbreviation Loop := (EventLoop.EventLoop PollPoller.PollPoller).
Definition answers (e : event) (s : TcpConnection Loop) : list user_op :=
  match e with MessageCallback => [ConsumeAll; Send 1 3] | _ => [] end.
Definition kwrite2 (k : nat) (l : list byte) : write_answer := Wrote (Z.min 2 (zlen l)).

Lemma kwrite2_contract : write_contract kwrite2.
Proof. intros k l n [= <-]. pose proof (zlen_nonneg l). lia. Qed.

Abbreviation one_poll := (connection kwrite2 kread_hi answers 1 2 3 4).
Abbreviation one_poll_laws := (connection_laws kwrite2 kread_hi answers 1 2 3 4 kwrite2_contract kread_hi_contract).
End OwnedConnection.
