(* ===== verification/ConnectionProgress.v ===== *)
(** * Connections in a loop that serves: no handler of theirs faults

    TcpConnection.v says what holds if a handler returns.  Here the handlers return: on
    a loop that keeps Service.v, also while it hands out events, with callbacks of the
    user that return and no callback for the high-water mark, none of the assertions on
    a connection's way fails.  For every operation, what it leaves alone. *)

From S2P Require Import Prelude NetBuffer Channel Service Poller PollPoller EventLoop LoopService Connection TcpConnection OwnedConnection.

Module ConnectionProgress.
Import TcpConnection.
Import Buffer (content).
Import Connection (StateE, kDisconnected, kConnecting, kConnected, kDisconnecting).

(** ** What an operation leaves alone *)

Section Frames.
Context {W : Type} `{Channel.HostLaws W}.
Abbreviation Conn := (TcpConnection W).
Implicit Types s : Conn.

(** Changes of the interest of the channel [c]. *)
Definition asks (c : Z) : relation W := rtc (fun w w' => exists r, Channel.request_op r c w = Ok w').

(** What a connection sends to the loop from the loop's own thread. *)
Definition homely (t : task) : Prop := t = WriteCompleteTask \/ t = ForceCloseTask.

(** To the world, an operation of a connection is changes of the interest of its
    channel; its functors go to the end of the queue; once it is down, it is down. *)
Record turn s s' : Prop := {
  turn_asks : asks (channel_ s) (world s) (world s');
  turn_channel : channel_ s' = channel_ s;
  turn_thread : inLoop s' = inLoop s;
  turn_mark : highWaterMarkCallback_ s' = highWaterMarkCallback_ s;
  turn_tasks : exists k, tasks s' = tasks s ++ k /\
    (inLoop s = true -> highWaterMarkCallback_ s = false -> Forall homely k);
  turn_down : state_ s = kDisconnected -> state_ s' = kDisconnected;
  turn_quiet : state_ s = kDisconnected -> inLoop s = true -> tasks s' = tasks s
}.

(** The same, reading nothing. *)
Record frame s s' : Prop := {
  frame_turn : turn s s';
  frame_input : zlen (Buffer.buffer_ (inputBuffer_ s')) = zlen (Buffer.buffer_ (inputBuffer_ s));
  frame_memory : mem s' = mem s
}.

#[export] Instance turn_preorder : PreOrder turn.
Proof.
  split.
  - intros s. split; try done. exists []. by rewrite app_nil_r.
  - intros s1 s2 s3 [A1 A2 A3 A4 (k1 & E1 & F1) A6 A7] [B1 B2 B3 B4 (k2 & E2 & F2) B6 B7].
    rewrite A2, A3, A4 in *. split; try congruence; try tauto.
    + by etrans.
    + exists (k1 ++ k2). rewrite E2, E1, app_assoc. split; [done|]. intros. apply Forall_app. auto.
    + intros Hd Hl. rewrite B7, A7; auto.
Qed.

#[export] Instance frame_preorder : PreOrder frame.
Proof.
  split; [by intros s; split|]. intros s1 s2 s3 [] []. split; [by etrans|congruence..].
Qed.

(** Fields that the frame does not look at. *)
Lemma frame_fields s s' :
  world s' = world s -> channel_ s' = channel_ s -> inLoop s' = inLoop s ->
  highWaterMarkCallback_ s' = highWaterMarkCallback_ s -> tasks s' = tasks s ->
  (state_ s = kDisconnected -> state_ s' = kDisconnected) ->
  zlen (Buffer.buffer_ (inputBuffer_ s')) = zlen (Buffer.buffer_ (inputBuffer_ s)) -> mem s' = mem s ->
  frame s s'.
Proof.
  intros Hw Hc Hl Hm Ht Hd Hb He. split; [split|done..]; try done; try congruence.
  - by rewrite Hw.
  - exists []. by rewrite app_nil_r.
Qed.

Lemma frame_queue t s : state_ s <> kDisconnected \/ inLoop s = false ->
  (inLoop s = true -> highWaterMarkCallback_ s = false -> homely t) -> frame s (queueInLoop t s).
Proof.
  intros Hd Ht. split; [|done..]. split; cbn; try done.
  - exists [t]. split; [done|]. intros. constructor; auto.
  - by destruct Hd as [?| ->].
Qed.

Lemma frame_request r s s' : on_channel (Channel.request_op r) s = Ok s' -> frame s s'.
Proof.
  unfold on_channel. intros Hr. inv_ok. subst s'. split; [|done..]. split; cbn; try done.
  - apply rtc_once. by exists r.
  - exists []. by rewrite app_nil_r.
Qed.

Lemma frame_bind (f g : Conn -> result Conn) s s' :
  (forall t t', f t = Ok t' -> frame t t') -> (forall t t', g t = Ok t' -> frame t t') ->
  (s1 ← f s; g s1) = Ok s' -> frame s s'.
Proof. intros Hf Hg Hr. inv_ok. etrans; [by apply Hf|by apply Hg]. Qed.

Section User.
Context (kwrite : nat -> list byte -> write_answer).

Lemma shutdownInLoop_frame s s' : shutdownInLoop s = Ok s' -> frame s s'.
Proof.
  unfold shutdownInLoop. intros Hr. inv_ok. destruct (negb _); inv_ok; subst; [by apply frame_fields|done].
Qed.

Lemma try_write_frame ch message s n rem err s1 : state_ s <> kDisconnected ->
  try_write kwrite ch message s = (n, rem, err, s1) -> frame s s1.
Proof.
  intros Hd. unfold try_write. destruct (_ && _); [|by intros [= _ _ _ <-]].
  destruct (kwrite _ _) as [m|e]; intros [= _ _ _ <-]; [|by apply frame_fields].
  destruct (_ && _); [|by apply frame_fields].
  transitivity (set_wire (S (calls s)) (wire s ++ ztake m message) s); [by apply frame_fields|].
  apply frame_queue; [by left|]. by left.
Qed.

Lemma sendInLoop_frame message s s' : sendInLoop kwrite message s = Ok s' -> frame s s'.
Proof.
  unfold sendInLoop. intros Hr. inv_ok. case_bool_decide as Hd; [by inv_ok; subst|]. inv_ok.
  destruct (try_write _ _ _ _) as [[[n rem] err] s1] eqn:Et.
  pose proof (try_write_frame _ _ _ _ _ _ _ Hd Et) as F1.
  assert (state_ s1 = state_ s) as Hs1.
  { unfold try_write in Et. destruct (_ && _); [|by injection Et as _ _ _ <-].
    destruct (kwrite _ _) as [m|e]; injection Et as _ _ _ <-; cbn; [by case_match|done]. }
  inv_ok. destruct (negb err && _); [|inv_ok; by subst]. cbn zeta in Hr.
  destruct (_ && highWaterMarkCallback_ s1) eqn:Ec; [|inv_ok; by subst].
  apply andb_true_iff in Ec as [_ Ec]. apply bind_ok_inv in Hr as (out & _ & Hr).
  apply bind_ok_inv in Hr as (ch & _ & Hr). etrans; [exact F1|].
  transitivity (queueInLoop HighWaterMarkTask s1); [apply frame_queue; [left; congruence|congruence]|].
  transitivity (set_output out (queueInLoop HighWaterMarkTask s1)); [by apply frame_fields|].
  destruct (negb _); [by apply (frame_request Channel.EnableWriting)|by inv_ok; subst].
Qed.

Lemma put_buffer_frame buf b s : zlen (Buffer.buffer_ b) = zlen (Buffer.buffer_ (inputBuffer_ s)) \/ buf <> None ->
  frame s (put_buffer buf b s).
Proof. intros Hb. destruct buf as [a|]; apply frame_fields; try done. by destruct Hb. Qed.

Lemma send_frame addr len s s' : send kwrite addr len s = Ok s' -> frame s s'.
Proof.
  unfold send. intros Hr. case_bool_decide as Hd; [|by inv_ok; subst].
  destruct (inLoop s) eqn:El; inv_ok; [by eapply sendInLoop_frame|]. subst.
  apply frame_queue; [by right|congruence].
Qed.

Lemma send_buffer_frame buf s s' : send_buffer kwrite buf s = Ok s' -> frame s s'.
Proof.
  unfold send_buffer. intros Hr. case_bool_decide as Hd; [|by inv_ok; subst].
  destruct (inLoop s) eqn:El; inv_ok.
  - subst. etrans; [by eapply sendInLoop_frame|]. apply put_buffer_frame.
    destruct buf as [x|]; [by right|]. left. cbn in E1. by injection E1 as <-.
  - subst. apply frame_queue; [by right|congruence].
Qed.

Lemma shutdown_frame s s' : shutdown s = Ok s' -> frame s s'.
Proof.
  unfold shutdown. intros Hr. case_bool_decide as Hd; [|by inv_ok; subst]. cbn zeta in Hr.
  assert (frame s (set_state kDisconnecting s)) as F by (apply frame_fields; congruence || done).
  destruct (inLoop _) eqn:El; [etrans; [exact F|by apply shutdownInLoop_frame]|].
  inv_ok. subst. etrans; [exact F|]. apply frame_queue; [by right|congruence].
Qed.

Lemma forceClose_frame s : frame s (forceClose s).
Proof.
  unfold forceClose. destruct (closing s) eqn:Ec; [|done]. apply closing_iff in Ec.
  etrans; [apply (frame_fields s (set_state kDisconnecting s)); try done; destruct Ec; congruence|].
  apply frame_queue; [by left|]. by right.
Qed.

Lemma reading_frame r (b : bool) s s' :
  (s ← on_channel (Channel.request_op r) s; Ok (set_reading b s)) = Ok s' -> frame s s'.
Proof.
  apply (frame_bind (on_channel (Channel.request_op r)) (fun s => Ok (set_reading b s))).
  - apply frame_request.
  - intros t t' [= <-]. by apply frame_fields.
Qed.

Lemma startReadInLoop_frame s s' : startReadInLoop s = Ok s' -> frame s s'.
Proof.
  unfold startReadInLoop. intros Hr. apply bind_ok_inv in Hr as (? & _ & Hr).
  apply bind_ok_inv in Hr as (? & _ & Hr). destruct (_ || _); [|by inv_ok; subst].
  by apply (reading_frame Channel.EnableReading true).
Qed.

Lemma stopReadInLoop_frame s s' : stopReadInLoop s = Ok s' -> frame s s'.
Proof.
  unfold stopReadInLoop. intros Hr. apply bind_ok_inv in Hr as (? & _ & Hr).
  apply bind_ok_inv in Hr as (? & _ & Hr). destruct (_ || _); [|by inv_ok; subst].
  by apply (reading_frame Channel.DisableReading false).
Qed.

Lemma run_user_frame o s s' : run_user kwrite o s = Ok s' -> frame s s'.
Proof.
  destruct o as [addr len|buf|n| | | | |]; cbn [run_user]; intros Hr.
  - by eapply send_frame.
  - by eapply send_buffer_frame.
  - inv_ok. subst. apply frame_fields; try done. cbn. unfold Buffer.retrieve in E.
    inv_ok. by destruct (_ <? _); inv_ok; subst.
  - by inv_ok; subst; apply frame_fields.
  - by apply shutdown_frame.
  - inv_ok. subst. apply forceClose_frame.
  - unfold startRead in Hr. destruct (inLoop s) eqn:El; [by apply startReadInLoop_frame|].
    inv_ok. subst. apply frame_queue; [by right|congruence].
  - unfold stopRead in Hr. destruct (inLoop s) eqn:El; [by apply stopReadInLoop_frame|].
    inv_ok. subst. apply frame_queue; [by right|congruence].
Qed.

Lemma exec_frame l s s' : exec kwrite l s = Ok s' -> frame s s'.
Proof.
  revert s. induction l as [|o l IH]; intros s Hr; cbn [exec] in Hr; inv_ok; [by subst|].
  etrans; [by eapply run_user_frame|by apply IH].
Qed.

End User.
(** ** A channel in its loop *)

Context {SV : Service.Service W}.

(** What the kernel is asked about for a set of events. *)
Definition watch (ev : Z) : option Z := if ev =? Channel.kNoneEvent then None else Some (wraps 16 ev).

(** The channel [c], which is [ch], is registered with the loop [l], that serves. *)
Record hosted (l c : Z) (ch : Channel.Channel) (w : W) : Prop := {
  hosted_turning : Service.turning l w;
  hosted_chan : Channel.chan_of w c = Some ch;
  hosted_loop : Channel.loop_ ch = l;
  hosted_registry : Service.registry w !! Channel.fd_ ch = Some c;
  hosted_asked : Service.asked w !! Channel.fd_ ch = Some (watch (Channel.events_ ch))
}.

(** What no change of interest changes. *)
Definition static (ch : Channel.Channel) : Channel.Channel :=
  Channel.set_events 0 (Channel.set_addedToLoop true (Channel.strip ch)).

Lemma strip_static ch ch' : Channel.strip ch = Channel.strip ch' -> static ch = static ch'.
Proof. unfold static. by intros ->. Qed.

(** Nothing changed but for the channel [c] and its descriptor [fd]. *)
Record apart (c fd : Z) (w w' : W) : Prop := {
  apart_registry : forall d, d <> fd -> Service.registry w' !! d = Service.registry w !! d;
  apart_asked : forall d, d <> fd -> Service.asked w' !! d = Service.asked w !! d;
  apart_others : Channel.others c w w';
  apart_removable : forall d, Service.removable d w -> Service.removable d w'
}.

#[export] Instance apart_preorder c fd : PreOrder (apart c fd).
Proof.
  split; [by intros w; split|]. intros w1 w2 w3 [] []. split.
  - intros d Hd. rewrite apart_registry1; auto.
  - intros d Hd. rewrite apart_asked1; auto.
  - by etrans.
  - auto.
Qed.

(** The channel is still registered, comes or goes. *)
Definition aside (c fd : Z) (w w' : W) : Prop :=
  apart c fd w w' /\ Service.registry w' = Service.registry w.
Definition taken (c fd : Z) (w w' : W) : Prop :=
  apart c fd w w' /\ Service.registry w' = <[fd := c]> (Service.registry w).
Definition left_by (c fd : Z) (w w' : W) : Prop :=
  apart c fd w w' /\ Service.registry w' = delete fd (Service.registry w).

#[export] Instance aside_preorder c fd : PreOrder (aside c fd).
Proof. split; [by intros w|]. intros w1 w2 w3 [A1 E1] [A2 E2]. split; [by etrans|congruence]. Qed.

Lemma request_effect r l c ch w : hosted l c ch w ->
  exists w' ch', Channel.request_op r c w = Ok w' /\ hosted l c ch' w' /\ static ch' = static ch /\
    Channel.events_ ch' = Channel.request_bits r (Channel.events_ ch) /\ aside c (Channel.fd_ ch) w w'.
Proof.
  intros [Ht Hc Hl Hr Ha]. destruct (Service.change l r c ch w Ht Hc Hl Hr) as (w' & E & Ht' & Er & Ea & Hn & Hd).
  destruct (Channel.request_events _ _ _ _ _ Hc E) as (ch' & Hc' & Hs).
  assert (Channel.fd_ ch' = Channel.fd_ ch) as Hf by exact (f_equal Channel.fd_ Hs).
  pose proof (f_equal Channel.events_ Hs) as Hev. change (Channel.events_ ch' = Channel.request_bits r (Channel.events_ ch)) in Hev.
  exists w', ch'. split_and!; [done| |exact (strip_static _ _ Hs)|done|].
  - split; [done..|rewrite <- Hl; exact (f_equal Channel.loop_ Hs)|by rewrite Er, Hf|].
    by rewrite Ea, Hf, lookup_insert_eq, Hev.
  - split; [|done]. split; [by rewrite Er| |by eapply Channel.request_others|done].
    intros d Hd'. by rewrite Ea, lookup_insert_ne by congruence.
Qed.

Lemma static_fd ch ch' : static ch' = static ch -> Channel.fd_ ch' = Channel.fd_ ch.
Proof. intros Hs. exact (f_equal Channel.fd_ Hs). Qed.

Lemma asks_effect l c ch w w' : hosted l c ch w -> asks c w w' ->
  exists ch', hosted l c ch' w' /\ static ch' = static ch /\ aside c (Channel.fd_ ch) w w'.
Proof.
  intros Hh Ha. revert ch Hh. induction Ha as [w|w w1 w2 (r & E) _ IH]; intros ch Hh; [by exists ch|].
  destruct (request_effect r l c ch w Hh) as (w1' & ch1 & E' & Hh1 & Hs1 & _ & A1).
  assert (w1' = w1) as -> by congruence. destruct (IH ch1 Hh1) as (ch2 & Hh2 & Hs2 & A2).
  rewrite (static_fd _ _ Hs1) in A2. exists ch2. split_and!; [done|congruence|by etrans].
Qed.

(** The other channels of the loop stay hosted. *)
Lemma apart_hosted l c fd d ch w w' : Service.turning l w' -> apart c fd w w' -> d <> c ->
  Service.registry w !! fd <> Some d -> hosted l d ch w ->
  exists ch', hosted l d ch' w' /\ Channel.strip ch' = Channel.strip ch.
Proof.
  intros Ht [Er Ea Ho _] Hne Hfd [_ Hc Hl Hr Has]. specialize (Ho d Hne). rewrite Hc in Ho.
  destruct (Channel.chan_of w' d) as [ch'|] eqn:Hc'; [|done]. apply (inj Some) in Ho.
  pose proof (f_equal Channel.fd_ Ho) as Hf. pose proof (f_equal Channel.events_ Ho) as Hev. cbn in Hf, Hev.
  exists ch'. split; [|done]. split; [done..| | |].
  - rewrite <- Hl. exact (f_equal Channel.loop_ Ho).
  - rewrite Hf, Er; [done|]. congruence.
  - rewrite Hf, Hev, Ea; [done|]. congruence.
Qed.

(** A channel that asks for nothing may be taken off. *)
Lemma unhost l c ch w : hosted l c ch w -> Channel.events_ ch = Channel.kNoneEvent -> Service.removable c w ->
  exists w' ch', Channel.remove c w = Ok w' /\ Service.turning l w' /\ Channel.chan_of w' c = Some ch' /\
    Channel.strip ch' = Channel.strip (Channel.set_addedToLoop false ch) /\
    left_by c (Channel.fd_ ch) w w'.
Proof.
  intros [Ht Hc Hl Hr Ha] He Hrm. rewrite He in Ha.
  destruct (Service.unregister l c ch w) as (w' & E & Ht' & Er & Ea & _ & Hd); [done..|by apply Z.eqb_eq|done|done|].
  pose proof (Channel.remove_others _ _ _ E) as Ho. pose proof E as E'. unfold Channel.remove, Channel.deref in E'.
  rewrite Hc, bind_ok in E'. apply bind_ok_inv in E' as (_ & _ & E').
  rewrite (Channel.modify_ok _ _ _ _ Hc), bind_ok in E'.
  pose proof (Channel.remove_keeps _ _ _ _ E' c) as Hk. rewrite Channel.chan_put_eq in Hk.
  destruct (Channel.chan_of w' c) as [ch'|] eqn:Hc'; [|done]. apply (inj Some) in Hk.
  exists w', ch'. split_and!; try done. split; [split; try done|done]; intros d Hd'; [rewrite Er|rewrite Ea]; by apply lookup_delete_ne.
Qed.

(** ** Connections in order *)

(** What may wait in the queue of the loop: the functors that the connection sends
    itself, and a [shutdown] from another thread. *)
Definition tame (t : task) : Prop := homely t \/ t = ShutdownTask.

(** A connection that a loop may hand events to.  When it is down, its channel asks
    for nothing. *)
Record ready (l : Z) (ch : Channel.Channel) s : Prop := {
  ready_inv : Inv s;
  ready_hosted : hosted l (channel_ s) ch (world s);
  ready_thread : inLoop s = true;
  ready_mark : highWaterMarkCallback_ s = false;
  ready_tasks : Forall tame (tasks s);
  ready_down : state_ s = kDisconnected -> Channel.events_ ch = Channel.kNoneEvent
}.

(** A change of the loop elsewhere. *)
Lemma world_inv w s : Inv s ->
  Channel.events_ <$> Channel.chan_of w (channel_ s) = Channel.events_ <$> Channel.chan_of (world s) (channel_ s) ->
  Inv (set_world w s).
Proof.
  intros [? ? ? (ch & sw & Ec & Es & Ha) ? ? ?] Hw. rewrite Ec in Hw. split; try done. cbn.
  destruct (Channel.chan_of w (channel_ s)) as [ch'|] eqn:Ec'; [|done]. apply (inj Some) in Hw.
  exists ch', sw. split_and!; [done|congruence|done].
Qed.

Lemma ready_elsewhere l ch s c fd w w' : ready l ch (OwnedConnection.enter s w) ->
  Service.turning l w' -> apart c fd w w' -> channel_ s <> c -> Service.registry w !! fd <> Some (channel_ s) ->
  exists ch', ready l ch' (OwnedConnection.enter s w') /\ Channel.strip ch' = Channel.strip ch.
Proof.
  intros [Hi Hh Hl Hm Ht Hd] Htn Ha Hne Hr.
  destruct (apart_hosted l c fd (channel_ s) ch w w') as (ch' & Hh' & Hs); [done..|]. exists ch'. split; [|done].
  pose proof (f_equal Channel.events_ Hs) as He. cbn in He. split; try done.
  - apply (world_inv w' (OwnedConnection.enter s w) Hi). pose proof (hosted_chan _ _ _ _ Hh) as Hc.
    pose proof (hosted_chan _ _ _ _ Hh') as Hc'. cbn in *. rewrite Hc, Hc'. exact (f_equal Some He).
  - intros Hst. rewrite He. by apply Hd.
Qed.

Lemma ready_served l ch s : ready l ch s -> served s.
Proof. intros [_ [] _ _ _ _]. by exists l, ch. Qed.

Lemma ready_request r l ch s : ready l ch s ->
  exists w' ch', Channel.request_op r (channel_ s) (world s) = Ok w' /\
    on_channel (Channel.request_op r) s = Ok (set_world w' s) /\ hosted l (channel_ s) ch' w' /\
    static ch' = static ch /\ Channel.events_ ch' = Channel.request_bits r (Channel.events_ ch) /\
    aside (channel_ s) (Channel.fd_ ch) (world s) w'.
Proof.
  intros Hs. destruct (request_effect r l (channel_ s) ch (world s)) as (w' & ch' & E & ?); [apply Hs|].
  exists w', ch'. unfold on_channel. by rewrite E.
Qed.

(** How one turn of a connection looks from outside. *)
Record turned_to (l : Z) (ch : Channel.Channel) s s' (ch' : Channel.Channel) : Prop := {
  to_ready : ready l ch' s';
  to_turn : turn s s';
  to_static : static ch' = static ch
}.

Lemma turned_aside l ch s s' ch' : hosted l (channel_ s) ch (world s) -> turned_to l ch s s' ch' ->
  aside (channel_ s) (Channel.fd_ ch) (world s) (world s').
Proof. intros Hh [_ [Ha _ _ _ _ _ _] _]. by destruct (asks_effect _ _ _ _ _ Hh Ha) as (? & _ & _ & ?). Qed.

(** After a turn that keeps the invariant, only what [ready] says of the state is
    left to show. *)
Lemma turn_ready l ch s s' : hosted l (channel_ s) ch (world s) -> inLoop s = true ->
  highWaterMarkCallback_ s = false -> Forall tame (tasks s) -> turn s s' -> Inv s' ->
  (forall ch', Channel.chan_of (world s') (channel_ s') = Some ch' ->
     state_ s' = kDisconnected -> Channel.events_ ch' = Channel.kNoneEvent) ->
  exists ch', turned_to l ch s s' ch'.
Proof.
  intros Hh Hl Hm Ht T J Hd. pose proof T as [Ha Hc Hl' Hm' (k & Ek & Hk) _ _].
  destruct (asks_effect _ _ _ _ _ Hh Ha) as (ch' & Hh' & Hs & _). exists ch'. split; [|done|done].
  split; [done|by rewrite Hc|congruence|congruence| |apply Hd; rewrite Hc; apply Hh'].
  rewrite Ek. apply Forall_app. split; [done|]. eapply Forall_impl; [by apply Hk|]. by left.
Qed.

(** ** The user's code *)

Section Progress.
Context (kwrite : nat -> list byte -> write_answer) (kread : nat -> Z -> Buffer.readv_result).
Context (Hkw : write_contract kwrite) (Hkr : read_contract kread).

(** A connection that is down stays as it is, unless it is told to read. *)
Lemma run_user_down o s s' ch : state_ s = kDisconnected -> inLoop s = true -> o <> StartRead ->
  Channel.chan_of (world s) (channel_ s) = Some ch -> Channel.events_ ch = Channel.kNoneEvent ->
  run_user kwrite o s = Ok s' -> exists ch', Channel.chan_of (world s') (channel_ s') = Some ch' /\
    Channel.events_ ch' = Channel.kNoneEvent /\ state_ s' = kDisconnected /\ inLoop s' = true.
Proof.
  intros Hd Hl Ho Hc He Hr. destruct o; cbn [run_user] in Hr; try done.
  - unfold send in Hr. rewrite bool_decide_false in Hr by congruence. inv_ok. subst. by exists ch.
  - unfold send_buffer in Hr. rewrite bool_decide_false in Hr by congruence. inv_ok. subst. by exists ch.
  - inv_ok. subst. by exists ch.
  - inv_ok. subst. by exists ch.
  - unfold shutdown in Hr. rewrite bool_decide_false in Hr by congruence. inv_ok. subst. by exists ch.
  - unfold forceClose, closing in Hr. rewrite Hd in Hr. inv_ok. subst. by exists ch.
  - unfold stopRead in Hr. rewrite Hl in Hr. unfold stopReadInLoop in Hr.
    apply bind_ok_inv in Hr as (? & _ & Hr). apply bind_ok_inv in Hr as (? & _ & Hr).
    destruct (_ || _); [|inv_ok; subst; by exists ch]. inv_ok. subst. unfold on_channel in E. inv_ok. subst.
    destruct (Channel.request_events Channel.DisableReading _ _ _ _ Hc E0) as (ch' & Hc' & Hs').
    exists ch'. split_and!; try done. etrans; [exact (f_equal Channel.events_ Hs')|].
    change (Z.land (Channel.events_ ch) (Z.lnot Channel.kReadEvent) = Channel.kNoneEvent). by rewrite He.
Qed.

Lemma exec_down l s s' ch : state_ s = kDisconnected -> inLoop s = true -> StartRead ∉ l ->
  Channel.chan_of (world s) (channel_ s) = Some ch -> Channel.events_ ch = Channel.kNoneEvent ->
  exec kwrite l s = Ok s' -> exists ch', Channel.chan_of (world s') (channel_ s') = Some ch' /\
    Channel.events_ ch' = Channel.kNoneEvent.
Proof.
  revert s ch. induction l as [|o l IH]; intros s ch Hd Hl Ho Hc He Hr; cbn [exec] in Hr; inv_ok; [subst; eauto|].
  apply not_elem_of_cons in Ho as [Hne Ho].
  destruct (run_user_down _ _ _ _ Hd Hl (not_eq_sym Hne) Hc He E) as (ch1 & ? & ? & ? & ?). by eapply IH.
Qed.

(** Only the user's request for the end changes the phase. *)
Lemma exec_state l s s' : Inv s -> exec kwrite l s = Ok s' -> state_ s' = kDisconnected -> state_ s = kDisconnected.
Proof using H0 Hkw.
  intros Hs Hr Hd. destruct (exec_inv kwrite Hkw l s s' Hs Hr) as [_ [_ _ _ _ Hp]].
  destruct Hp as [Hp|[_ Hp]]; congruence.
Qed.

Lemma exec_ready l ch ops s s' : ready l ch s -> (state_ s = kDisconnected -> StartRead ∉ ops) ->
  exec kwrite ops s = Ok s' -> exists ch', turned_to l ch s s' ch'.
Proof using H0 Hkw.
  intros [Hi Hh Hl Hm Ht Hd] Hu Hr. apply turn_ready; try done.
  - by apply (exec_frame kwrite ops).
  - by apply (exec_inv kwrite Hkw ops s).
  - intros ch' Hc' Hst. pose proof (exec_state _ _ _ Hi Hr Hst) as Hst0.
    destruct (exec_down ops s s' ch) as (ch1 & Hc1 & He1); [done|done|by apply Hu|apply Hh|by apply Hd|done|].
    congruence.
Qed.

(** Callbacks that return, and do not tell a connection to read that is down. *)
Context (user : event -> Conn -> list user_op).
Definition well_behaved : Prop := forall e l ch s, ready l ch s ->
  (exists s', exec kwrite (user e s) s = Ok s') /\ (state_ s = kDisconnected -> StartRead ∉ user e s).
Context (Huser : well_behaved).

Lemma callback_run e l ch s : ready l ch (record e s) ->
  exists s' ch', callback kwrite user e s = Ok s' /\ turned_to l ch (record e s) s' ch' /\
    frame (record e s) s' /\ (state_ s' = kDisconnected -> state_ s = kDisconnected).
Proof using H0 Hkw Huser.
  intros Hs. destruct (Huser e l ch _ Hs) as [(s' & E) Hd].
  destruct (exec_ready l ch _ _ _ Hs Hd E) as (ch' & T). exists s', ch'. split_and!; [done|done| |].
  - by apply (exec_frame kwrite (user e (record e s))).
  - intros Hst. exact (exec_state _ _ _ (ready_inv _ _ _ Hs) E Hst).
Qed.

(** ** Handlers *)

Lemma record_frame e s : frame s (record e s).
Proof. by apply frame_fields. Qed.

Lemma ready_record e l ch s : ready l ch s -> Inv (record e s) -> ready l ch (record e s).
Proof. intros [] J. by split. Qed.

(** A turn in two parts. *)
Lemma turned_to_trans l ch1 ch2 ch3 s1 s2 s3 :
  turned_to l ch1 s1 s2 ch2 -> turned_to l ch2 s2 s3 ch3 -> turned_to l ch1 s1 s3 ch3.
Proof. intros [_ T1 E1] [R T2 E2]. split; [done|by etrans|congruence]. Qed.

Lemma ready_turned l ch s s' : ready l ch s' -> turn s s' -> turned_to l ch s s' ch.
Proof. by split. Qed.

Lemma closing_run l ch s : ready l ch s -> closing s = true ->
  exists s' ch', handleClose kwrite user s = Ok s' /\ turned_to l ch s s' ch' /\ frame s s' /\
    state_ s' = kDisconnected.
Proof using H0 Hkw Huser.
  intros Hs Hc. set (s0 := set_state kDisconnected s).
  destruct (request_effect Channel.DisableAll l (channel_ s) ch (world s)) as (w1 & ch1 & E & Hh1 & Hst1 & He1 & _);
    [apply Hs|].
  assert (on_channel Channel.disableAll s0 = Ok (set_world w1 s0)) as E0.
  { unfold on_channel. change (Channel.disableAll (channel_ s) (world s) = Ok w1) in E. cbn. by rewrite E. }
  set (s1 := set_world w1 s0) in *.
  destruct (down_recorded s s1 (ready_inv _ _ _ Hs) Hc E0) as (J1 & _ & Hd1 & Hz1).
  assert (ready l ch1 (record (ConnectionCallback false) s1)) as R1.
  { destruct Hs. by split. }
  assert (frame s (record (ConnectionCallback false) s1)) as F1.
  { transitivity s0; [by apply frame_fields|]. etrans; [by apply (frame_request Channel.DisableAll)|apply record_frame]. }
  destruct (callback_run _ l ch1 s1 R1) as (s2 & ch2 & E2 & T2 & F2 & _).
  pose proof T2 as [R2 T2' _]. pose proof (turn_down _ _ T2' Hd1) as Hd2.
  assert (closes (trace s2) = 0%nat) as Hz2.
  { unfold callback in E2. destruct (exec_inv kwrite Hkw _ _ _ J1 E2) as [_ [_ _ _ Hcl _]]. congruence. }
  destruct (close_recorded s2 (ready_inv _ _ _ R2) Hd2 Hz2) as [J2 _].
  destruct (callback_run CloseCallback l ch2 s2) as (s3 & ch3 & E3 & T3 & F3 & _); [by apply ready_record|].
  exists s3, ch3. unfold handleClose, assertInLoopThread. rewrite (ready_thread _ _ _ Hs), bind_ok, (assert_true _ Hc), bind_ok.
  cbn zeta. fold s0. rewrite E0, bind_ok, E2, bind_ok. split_and!; [done| | |].
  - apply (turned_to_trans l ch ch1 ch3 s (record (ConnectionCallback false) s1));
      [split; [done|apply F1|done]|]. eapply turned_to_trans; [exact T2|].
    apply (turned_to_trans l ch2 ch2 ch3 s2 (record CloseCallback s2)); [|done].
    apply ready_turned; [by apply ready_record|apply record_frame].
  - etrans; [exact F1|]. etrans; [exact F2|]. etrans; [apply record_frame|exact F3].
  - apply (turn_down _ _ (frame_turn _ _ F3)). exact Hd2.
Qed.

(** An array that may grow by what one read adds. *)
Definition roomy s : Prop := zlen (Buffer.buffer_ (inputBuffer_ s)) + 65536 <= Buffer.max_size.

Lemma readFd_runs s : Buffer.wf (inputBuffer_ s) -> roomy s ->
  exists n e b, Buffer.readFd (inputBuffer_ s) (kread (calls s) (Buffer.iov_room (inputBuffer_ s))) = Ok (n, e, b).
Proof using Hkr.
  intros Hw Hr. destruct (kread _ _) as [err|d] eqn:Ek; [by repeat eexists|].
  apply Hkr in Ek. destruct (Buffer.readFd_ok (inputBuffer_ s) d Hw Ek) as (b & E); [|eauto].
  unfold roomy in Hr. unfold Buffer.iov_room, Buffer.extrabuf_size in Ek. rewrite Buffer.writable_wf in Ek by done.
  destruct Hw. zcase (zlen (Buffer.buffer_ (inputBuffer_ s)) - Buffer.writerIndex_ (inputBuffer_ s) <? 65536); lia.
Qed.

Lemma reading_run l ch s : ready l ch s -> closing s = true -> roomy s ->
  exists s' ch', handleRead kwrite kread user s = Ok s' /\ turned_to l ch s s' ch'.
Proof using H0 Hkw Hkr Huser.
  intros Hs Hc Hr. destruct (readFd_runs s (inv_input _ (ready_inv _ _ _ Hs)) Hr) as (n & e & b & E).
  destruct (conn_read_inv kread Hkr s n e b (ready_inv _ _ _ Hs) E) as [J1 _].
  unfold handleRead, assertInLoopThread. rewrite (ready_thread _ _ _ Hs), bind_ok, E, bind_ok. cbn zeta.
  set (s1 := set_wire _ _ _) in *.
  assert (ready l ch s1) as R1 by (destruct Hs; by split).
  assert (turn s s1) as T1 by (split; try done; exists []; by rewrite app_nil_r).
  assert (forall s' ch', turned_to l ch s1 s' ch' -> turned_to l ch s s' ch') as Hthen.
  { intros s' ch'. apply turned_to_trans. by apply ready_turned. }
  destruct (0 <? n); [|destruct (n =? 0)].
  - destruct (record_inv MessageCallback s1 J1) as [J2 _]; [auto|].
    destruct (callback_run MessageCallback l ch s1) as (s2 & ch2 & E2 & T2 & _); [by apply ready_record|].
    exists s2, ch2. split; [done|]. apply Hthen. eapply turned_to_trans; [|exact T2].
    apply ready_turned; [by apply ready_record|apply record_frame].
  - destruct (closing_run l ch s1 R1) as (s2 & ch2 & E2 & T2 & _); [exact Hc|].
    exists s2, ch2. split; [exact E2|by apply Hthen].
  - exists s1, ch. split; [done|]. apply Hthen. by apply ready_turned.
Qed.

Lemma channel_ready l ch s : ready l ch s -> channel s = Ok ch.
Proof. intros Hs. unfold channel, Channel.deref. by rewrite (hosted_chan _ _ _ _ (ready_hosted _ _ _ Hs)). Qed.

(** A connection that is down does not write. *)
Lemma down_idle l ch s : ready l ch s -> Channel.isWriting ch = true -> state_ s <> kDisconnected.
Proof. intros Hs Hw Hd. apply (ready_down _ _ _ Hs) in Hd. unfold Channel.isWriting in Hw. by rewrite Hd in Hw. Qed.

Lemma shutdownInLoop_runs s ch : inLoop s = true -> channel s = Ok ch -> exists s', shutdownInLoop s = Ok s'.
Proof.
  intros Hl Hc. unfold shutdownInLoop, assertInLoopThread. rewrite Hl, bind_ok, Hc, bind_ok.
  destruct (negb _); by eexists.
Qed.

Lemma writing_runs l ch s : ready l ch s ->
  exists s', handleWrite kwrite s = Ok s' /\ turn s s' /\ (state_ s = kDisconnected -> s' = s).
Proof using H0 Hkw.
  intros Hs. unfold handleWrite, assertInLoopThread.
  rewrite (ready_thread _ _ _ Hs), bind_ok, (channel_ready _ _ _ Hs), bind_ok.
  destruct (Channel.isWriting ch) eqn:Ew; [|by exists s]. pose proof (down_idle _ _ _ Hs Ew) as Hd.
  destruct (kwrite _ _) as [n|e] eqn:Ek; [|eexists; split; [done|]; split; [by apply (frame_fields s)|done]].
  apply Hkw in Ek. cbn zeta. pose proof (inv_output _ (ready_inv _ _ _ Hs)) as Hw.
  set (s0 := set_wire _ _ _). assert (frame s s0) as F0 by by apply frame_fields.
  zcase (0 <? n); [|exists s0; split_and!; [done|apply F0|done]].
  destruct (Buffer.retrieve_ok (outputBuffer_ s0) n Hw) as (b & -> & Hwb & _).
  { rewrite Buffer.content_readable in Ek by done. cbn. lia. }
  rewrite bind_ok. cbn zeta. set (s1 := set_output b s0).
  assert (frame s s1) as F1 by (etrans; [exact F0|by apply frame_fields]).
  destruct (Buffer.readableBytes b =? 0); [|exists s1; split_and!; [done|apply F1|done]].
  destruct (ready_request Channel.DisableWriting l ch s Hs) as (w' & ch' & Er & _ & Hh' & _ & _ & _).
  assert (on_channel Channel.disableWriting s1 = Ok (set_world w' s1)) as E1.
  { unfold on_channel. change (Channel.disableWriting (channel_ s) (world s) = Ok w') in Er. cbn. by rewrite Er. }
  rewrite E1, bind_ok. set (s2 := if writeCompleteCallback_ (set_world w' s1) then _ else _).
  assert (frame s s2 /\ inLoop s2 = true /\ channel s2 = Ok ch' /\ state_ s2 = state_ s) as (F2 & Hl2 & Hc2 & Hst2).
  { assert (frame s (set_world w' s1)) as F by (etrans; [exact F1|by apply (frame_request Channel.DisableWriting)]).
    unfold s2, channel, Channel.deref. destruct (writeCompleteCallback_ _); cbn;
      rewrite (hosted_chan _ _ _ _ Hh'), (ready_thread _ _ _ Hs); split_and!; try done.
    etrans; [exact F|]. apply frame_queue; [by left|]. by left. }
  case_bool_decide; [|exists s2; split_and!; [done|apply F2|done]].
  destruct (shutdownInLoop_runs s2 ch' Hl2 Hc2) as (s3 & E3). exists s3. split_and!; [done| |done].
  etrans; [apply F2|by apply frame_turn, shutdownInLoop_frame].
Qed.

Lemma writing_run l ch s : ready l ch s ->
  exists s' ch', handleWrite kwrite s = Ok s' /\ turned_to l ch s s' ch'.
Proof using H0 Hkw.
  intros Hs. destruct (writing_runs l ch s Hs) as (s' & E & T & Hd).
  destruct (handleWrite_spec kwrite Hkw s s' (ready_inv _ _ _ Hs) E) as (J & [_ _ _ _ Hp] & _).
  destruct (turn_ready l ch s s') as (ch' & T'); try apply Hs; [done|done| |by exists s', ch'].
  intros ch' Hc' Hst. assert (state_ s = kDisconnected) as Hst0 by (destruct Hp as [Hp|[_ Hp]]; congruence).
  rewrite (Hd Hst0) in Hc'. rewrite (hosted_chan _ _ _ _ (ready_hosted _ _ _ Hs)) in Hc'. injection Hc' as <-.
  by apply (ready_down _ _ _ Hs).
Qed.

(** ** Functors *)

Lemma run_task_run l ch s t ts : ready l ch s -> tasks s = t :: ts ->
  exists s' ch', run_task kwrite user s = Ok s' /\ turned_to l ch (set_tasks ts (delayed s) s) s' ch'.
Proof using H0 Hkw Huser.
  intros Hs Et. unfold run_task. rewrite Et. cbn zeta. set (s0 := set_tasks ts (delayed s) s).
  assert (tame t /\ ready l ch s0) as [Ht R0].
  { pose proof (ready_tasks _ _ _ Hs) as Hts. rewrite Et in Hts. apply Forall_cons in Hts as [Ht Hts]. split; [done|].
    destruct Hs. split; try done. by apply tasks_inv. }
  clearbody s0. destruct Ht as [[->| ->]| ->].
  - destruct (record_inv WriteCompleteCallback s0 (ready_inv _ _ _ R0)) as [J _]; [auto|].
    destruct (callback_run WriteCompleteCallback l ch s0) as (s' & ch' & E & T & _); [by apply ready_record|].
    exists s', ch'. split; [done|]. eapply turned_to_trans; [|exact T].
    apply ready_turned; [by apply ready_record|apply record_frame].
  - unfold forceCloseInLoop, assertInLoopThread. rewrite (ready_thread _ _ _ R0), bind_ok.
    destruct (closing s0) eqn:Ec; [|exists s0, ch; split; [done|by apply ready_turned]].
    destruct (closing_run l ch s0 R0 Ec) as (s' & ch' & E & T & _). by exists s', ch'.
  - destruct (shutdownInLoop_runs s0 ch (ready_thread _ _ _ R0) (channel_ready _ _ _ R0)) as (s' & E).
    exists s'. destruct (conn_shutdown_inv s0 s' (ready_inv _ _ _ R0) E) as [J _].
    assert (world s' = world s0 /\ state_ s' = state_ s0 /\ channel_ s' = channel_ s0) as (Ew & Est & Ec).
    { unfold shutdownInLoop in E. inv_ok. by destruct (negb _); inv_ok; subst. }
    destruct (turn_ready l ch s0 s') as (ch' & T'); try apply R0; [apply shutdownInLoop_frame, E|done| |by exists ch'].
    rewrite Ew, Est, Ec, (hosted_chan _ _ _ _ (ready_hosted _ _ _ R0)). intros ch' [= <-]. apply R0.
Qed.

(** ** Coming and going *)

(** A connection as the constructor leaves it, on a new channel of [l]. *)
Record fresh (l : Z) (ch : Channel.Channel) s : Prop := {
  fresh_inv : Inv s;
  fresh_state : state_ s = kConnecting;
  fresh_thread : inLoop s = true;
  fresh_mark : highWaterMarkCallback_ s = false;
  fresh_tasks : tasks s = [];
  fresh_turning : Service.turning l (world s);
  fresh_room : Service.room 1 (world s);
  fresh_chan : Channel.chan_of (world s) (channel_ s) = Some ch;
  fresh_new : Channel.loop_ ch = l /\ Channel.index_ ch = -1 /\ 0 <= Channel.fd_ ch;
  fresh_free : Service.registry (world s) !! Channel.fd_ ch = None
}.

Lemma established_ok self l ch s : fresh l ch s ->
  exists s' ch', connectEstablished kwrite user self s = Ok s' /\ ready l ch' s' /\
    static ch' = static (Channel.tie self ch) /\ state_ s' <> kDisconnected /\
    channel_ s' = channel_ s /\ Forall homely (tasks s') /\
    taken (channel_ s) (Channel.fd_ ch) (world s) (world s').
Proof using H0 Hkw Huser.
  intros [Hi Hst Hl Hm Ht Htn Hn Hc (Hlc & Hx & Hf) Hr].
  set (c := channel_ s) in *. set (ch1 := Channel.tie self ch).
  set (w1 := Channel.put_chan c ch1 (world s)).
  destruct (Service.touch l c ch ch1 (world s)) as (Ht1 & Er1 & Ea1 & Hn1 & Hd1); [done..|]. fold w1 in Ht1, Er1, Ea1, Hn1, Hd1.
  assert (Channel.chan_of w1 c = Some ch1) as Hc1 by apply Channel.chan_put_eq.
  destruct (Service.register l Channel.EnableReading c ch1 w1 0) as (w2 & E2 & Ht2 & Er2 & Ea2 & _ & Hd2);
    [done|by apply Hn1|done..|by rewrite Er1|].
  destruct (Channel.request_events _ _ _ _ _ Hc1 E2) as (ch2 & Hc2 & Hs2).
  set (s1 := set_world w1 (set_state kConnected s)). set (s2 := set_world w2 s1).
  assert (on_channel (fun c => Channel.modify c (Channel.tie self)) (set_state kConnected s) = Ok s1) as E1.
  { unfold on_channel. cbn. fold c. by rewrite (Channel.modify_ok _ _ _ _ Hc), bind_ok. }
  assert (on_channel Channel.enableReading s1 = Ok s2) as E2'.
  { unfold on_channel. change (Channel.enableReading c w1 = Ok w2) in E2. cbn. fold c. by rewrite E2. }
  destruct (up_recorded self s s1 s2 Hi Hst E1 E2') as (J & _ & Hup & _).
  pose proof (f_equal Channel.events_ Hs2) as He2. pose proof (f_equal Channel.fd_ Hs2) as Hf2. cbn in He2, Hf2.
  assert (ready l ch2 (record (ConnectionCallback true) s2)) as R2.
  { split; cbn; try done; [|by rewrite Ht].
    split; try done; fold c.
    - rewrite <- Hlc. exact (f_equal Channel.loop_ Hs2).
    - by rewrite Er2, Hf2, lookup_insert_eq.
    - rewrite Ea2, Hf2, lookup_insert_eq, He2. unfold watch. cbn [Channel.request_bits].
      zcase (Z.lor (Channel.events_ ch) Channel.kReadEvent =? Channel.kNoneEvent); [|done].
      apply Z.lor_eq_0_iff in E as [_ E]. done. }
  destruct (callback_run (ConnectionCallback true) l ch2 s2 R2) as (s' & ch' & E' & [R' T' S'] & F' & Hst').
  exists s', ch'. split_and!.
  - unfold connectEstablished, assertInLoopThread. rewrite Hl, bind_ok, assert_decide, bind_ok by done. cbn zeta.
    by rewrite E1, bind_ok, E2', bind_ok.
  - done.
  - rewrite S'. etrans; [exact (strip_static _ _ Hs2)|]. done.
  - intros Hd. by apply Hst' in Hd.
  - by rewrite (turn_channel _ _ T').
  - destruct (turn_tasks _ _ T') as (k & -> & Hk). cbn. rewrite Ht. by apply Hk.
  - pose proof (turned_aside l ch2 _ _ _ (ready_hosted _ _ _ R2) (Build_turned_to _ _ _ _ _ R' T' S')) as [A3 Er3].
    rewrite Hf2 in A3. cbn in A3, Er3. fold c in A3. split; [|by rewrite Er3, Er2, Er1].
    etrans; [|exact A3]. split.
    + intros d Hd. rewrite Er2, lookup_insert_ne by (cbn; congruence). by rewrite Er1.
    + intros d Hd. rewrite Ea2, lookup_insert_ne by (cbn; congruence). by rewrite Ea1.
    + transitivity w1; [|by eapply Channel.request_others]. intros d Hd. unfold w1.
      by rewrite (Channel.chan_put_ne c d) by congruence.
    + auto.
Qed.

(** Destroyed, once it is down. *)
Lemma destroyed_ok l ch s : ready l ch s -> state_ s = kDisconnected ->
  Service.removable (channel_ s) (world s) ->
  exists w' ch', connectDestroyed kwrite user s = Ok (set_world w' s) /\ Service.turning l w' /\
    Channel.chan_of w' (channel_ s) = Some ch' /\
    Channel.strip ch' = Channel.strip (Channel.set_addedToLoop false ch) /\
    left_by (channel_ s) (Channel.fd_ ch) (world s) w'.
Proof using H0.
  intros Hs Hd Hrm. destruct (unhost l (channel_ s) ch (world s)) as (w' & ch' & E & Ht & Hc & Hst & Hl);
    [apply Hs|by apply (ready_down _ _ _ Hs)|done|].
  exists w', ch'. split_and!; try done.
  unfold connectDestroyed, assertInLoopThread. rewrite (ready_thread _ _ _ Hs), bind_ok, bool_decide_false, bind_ok by congruence.
  unfold on_channel. by rewrite E.
Qed.

End Progress.
End Frames.

End ConnectionProgress.
