(* ===== verification/ConnectionLoop.v ===== *)
(** * A connection in its loop: TcpConnection.cc on EventLoop.cc and a poller

    [TcpConnection] is verified against the interface [Channel.Host]; here the world
    is an [EventLoop] on a poller that keeps its contract, and the calls of a
    connection are followed down to the descriptors the kernel is asked about. *)

From S2P Require Import Prelude NetBuffer Channel Poller PollPoller EventLoop LoopLife Connection TcpConnection.
Import Poller.

Module ConnectionLoop.
Import Connection (StateE, kDisconnected, kConnecting, kConnected, kDisconnecting).
Import TcpConnection.

Section Composed.
Context {P : Type} `{PollerLaws P} `{!PollerFrame P}.
Abbreviation Loop := (EventLoop.EventLoop P).
Implicit Types s : TcpConnection Loop.

Context (kwrite : nat -> list byte -> write_answer).
(** A user whose callbacks do nothing to the connection. *)
Definition silent (e : event) (s : TcpConnection Loop) : list user_op := [].

(** The three functors of a connection's life, as the loop runs them: it is
    established, it is closed, it is destroyed. *)
Definition life (self : Z) (s : TcpConnection Loop) : result (TcpConnection Loop) :=
  s ← connectEstablished kwrite silent self s;
  s ← forceCloseInLoop kwrite silent s;
  connectDestroyed kwrite silent s.

(** A connection that was just constructed, on the channel [ch] of [fd]. *)
Record constructed s (ch : Channel.Channel) (fd : Z) : Prop := {
  made_state : state_ s = kConnecting;
  made_thread : inLoop s = true;
  made_idle : LoopLife.idle (world s);
  made_load : load (EventLoop.poller_ (world s)) < 2 ^ 31 - 1;
  made_channel : EventLoop.channels (world s) !! channel_ s = Some ch;
  made_loop : Channel.loop_ ch = EventLoop.this_ (world s);
  made_fd : Channel.fd_ ch = fd;
  made_new : Channel.index_ ch = -1 /\ Channel.events_ ch = 0 /\ 0 <= fd;
  made_free : channels_ (EventLoop.poller_ (world s)) !! fd = None
}.

(** The poller's map and what the kernel is asked about. *)
Definition registered s : gmap Z Z := channels_ (EventLoop.poller_ (world s)).
Definition asked s : gmap Z (option Z) := interest (EventLoop.poller_ (world s)).

Definition ready_channel (self idx : Z) (ch : Channel.Channel) : Channel.Channel :=
  Channel.set_index idx (Channel.set_addedToLoop true
    (Channel.set_events Channel.kReadEvent (Channel.tie self ch))).

(** Established: the channel is tied and registered for reading. *)
Lemma established_run self s ch fd : constructed s ch fd ->
  exists s' idx, connectEstablished kwrite silent self s = Ok s' /\
    state_ s' = kConnected /\ inLoop s' = true /\ LoopLife.idle (world s') /\ channel_ s' = channel_ s /\
    EventLoop.this_ (world s') = EventLoop.this_ (world s) /\
    EventLoop.channels (world s') !! channel_ s = Some (ready_channel self idx ch) /\
    registered s' = <[fd := channel_ s]> (registered s) /\
    asked s' = <[fd := Some Channel.kReadEvent]> (asked s) /\
    trace s' = trace s ++ [ConnectionCallback true].
Proof.
  intros [Hst Hth Hid Hload Hc Hl Hf (Hx & Hev & Hfd) Hfree]. set (w := world s) in *.
  set (ch1 := Channel.tie self ch). set (w1 := Channel.put_chan (channel_ s) ch1 w).
  assert (LoopLife.idle w1) as Hid1.
  { destruct Hid as [H1 H2 H3]. split; [done..|]. by apply (LoopLife.inv_put _ _ _ ch). }
  destruct (LoopLife.register_run (fun ev => Z.lor ev Channel.kReadEvent) (channel_ s) ch1 w1 Hid1 Hload)
    as (p' & idx & E & Hid' & Hch & _ & Hint); [apply lookup_insert_eq|done|done|by rewrite <- Hf in Hfd|cbn; by rewrite Hf|].
  assert (Channel.modify (channel_ s) (Channel.tie self) w = Ok w1) as Em.
  { unfold Channel.modify, Channel.deref. cbn. by rewrite Hc. }
  eexists _, idx. split.
  { unfold connectEstablished, assertInLoopThread. rewrite Hth, Hst, bool_decide_eq_true_2 by done.
    cbn [assert_]. rewrite !bind_ok. unfold on_channel. cbn [channel_ world set_state]. fold w.
    rewrite Em, !bind_ok. cbn [channel_ world set_world set_state]. unfold Channel.enableReading.
    rewrite E, !bind_ok. reflexivity. }
  cbn. split_and!; try done.
  - rewrite insert_insert_eq, lookup_insert_eq. cbn. by rewrite Hev.
  - unfold registered. cbn. rewrite Hch. cbn. by rewrite Hf.
  - unfold asked. cbn. rewrite Hint. cbn. by rewrite Hf, Hev.
Qed.

(** Closed: the kernel is asked about nothing, the registration stays. *)
Lemma closed_run s ch fd :
  closing s = true -> inLoop s = true -> LoopLife.idle (world s) -> registered s !! fd = Some (channel_ s) ->
  EventLoop.channels (world s) !! channel_ s = Some ch -> Channel.loop_ ch = EventLoop.this_ (world s) ->
  Channel.fd_ ch = fd ->
  exists s', forceCloseInLoop kwrite silent s = Ok s' /\
    state_ s' = kDisconnected /\ inLoop s' = true /\ LoopLife.idle (world s') /\ channel_ s' = channel_ s /\
    EventLoop.this_ (world s') = EventLoop.this_ (world s) /\
    EventLoop.channels (world s') !! channel_ s = Some (LoopLife.disabled ch) /\
    registered s' = registered s /\ asked s' = <[fd := None]> (asked s) /\
    trace s' = trace s ++ [ConnectionCallback false; CloseCallback].
Proof.
  intros Hcl Hth Hid Hr Hc Hl Hf. set (w := world s) in *.
  destruct (LoopLife.disableAll_run w (channel_ s) fd ch Hid Hr Hc Hl Hf) as (p' & E & Hid' & Hch & Hint & _).
  eexists. split.
  { unfold forceCloseInLoop, handleClose, assertInLoopThread. rewrite Hth, !Hcl. cbn [assert_]. rewrite !bind_ok.
    unfold on_channel. cbn [channel_ world set_state]. fold w. rewrite E, !bind_ok. reflexivity. }
  cbn. split_and!; try done.
  - apply lookup_insert_eq.
  - by rewrite <- app_assoc.
Qed.

(** Destroyed: nothing of it is left in the poller. *)
Lemma destroyed_run s ch fd :
  state_ s = kDisconnected -> inLoop s = true -> LoopLife.idle (world s) ->
  registered s !! fd = Some (channel_ s) -> asked s !! fd = Some None ->
  EventLoop.channels (world s) !! channel_ s = Some ch -> Channel.loop_ ch = EventLoop.this_ (world s) ->
  Channel.fd_ ch = fd -> Channel.events_ ch = Channel.kNoneEvent ->
  exists s', connectDestroyed kwrite silent s = Ok s' /\ state_ s' = kDisconnected /\
    LoopLife.idle (world s') /\ registered s' = delete fd (registered s) /\ asked s' = delete fd (asked s) /\
    trace s' = trace s.
Proof.
  intros Hst Hth Hid Hr Ha Hc Hl Hf He. set (w := world s) in *.
  destruct (LoopLife.channel_remove_run w (channel_ s) fd ch Hid Hr Hc Hl Hf He Ha)
    as (p' & h' & E & Hid' & _ & Hch & Hint & _).
  eexists. split.
  { unfold connectDestroyed, assertInLoopThread. rewrite Hth, Hst. cbn [assert_]. rewrite !bind_ok.
    rewrite bool_decide_eq_false_2, bind_ok by done. unfold on_channel. fold w. rewrite E, bind_ok. reflexivity. }
  cbn. by split_and!.
Qed.

End Composed.
#[global] Arguments life {P _} kwrite self s.

(** ** Properties *)

(** A connection comes and goes.  On any poller that keeps its contract, a
    connection on a new channel is registered for reading when it is established;
    closing it stops the kernel's interest but keeps the registration; destroying it
    takes it off the poller, whose map is again what it was before.  The user is
    told that it is up, then down, the close callback comes last, and the destructor's
    assertion holds. *)
Theorem connection_comes_and_goes {P} `{PollerLaws P} `{!PollerFrame P} kwrite self
    (s : TcpConnection (EventLoop.EventLoop P)) ch fd :
  constructed s ch fd ->
  exists s1 s2 s3,
    (connectEstablished kwrite silent self s = Ok s1 /\
     registered s1 = <[fd := channel_ s]> (registered s) /\
     asked s1 = <[fd := Some Channel.kReadEvent]> (asked s)) /\
    (forceCloseInLoop kwrite silent s1 = Ok s2 /\
     registered s2 = registered s1 /\ asked s2 = <[fd := None]> (asked s)) /\
    (connectDestroyed kwrite silent s2 = Ok s3 /\
     registered s3 = registered s /\ asked s3 = delete fd (asked s)) /\
    life kwrite self s = Ok s3 /\ destroy s3 = Ok tt /\
    trace s3 = trace s ++ [ConnectionCallback true; ConnectionCallback false; CloseCallback].
Proof.
  intros Hm. destruct (established_run kwrite self s ch fd Hm)
    as (s1 & idx & E1 & Hst1 & Hth1 & Hid1 & Hc1 & Ht1 & Hch1 & Hr1 & Ha1 & Htr1).
  pose proof Hm as [_ _ _ _ _ Hl Hf _ Hfree].
  destruct (closed_run kwrite s1 (ready_channel self idx ch) fd)
    as (s2 & E2 & Hst2 & Hth2 & Hid2 & Hc2 & Ht2 & Hch2 & Hr2 & Ha2 & Htr2); try done.
  { unfold closing. by rewrite Hst1. }
  { by rewrite Hr1, Hc1, lookup_insert_eq. }
  { by rewrite Hc1. }
  { rewrite Ht1. exact Hl. }
  destruct (destroyed_run kwrite s2 (LoopLife.disabled (ready_channel self idx ch)) fd)
    as (s3 & E3 & Hst3 & Hid3 & Hr3 & Ha3 & Htr3); try done.
  { by rewrite Hr2, Hr1, Hc2, Hc1, lookup_insert_eq. }
  { by rewrite Ha2, lookup_insert_eq. }
  { rewrite Hc2. exact Hch2. }
  { rewrite Ht2, Ht1. exact Hl. }
  exists s1, s2, s3. split_and!; try done.
  - by rewrite Ha2, Ha1, insert_insert_eq.
  - rewrite Hr3, Hr2, Hr1. by apply delete_insert_id.
  - by rewrite Ha3, Ha2, Ha1, !delete_insert_eq.
  - unfold life. by rewrite E1, bind_ok, E2, bind_ok.
  - unfold destroy. by rewrite Hst3.
  - by rewrite Htr3, Htr2, Htr1, <- app_assoc.
Qed.

(** A connection on descriptor 7, alone in a loop on poll(2). *)
Definition loop0 : EventLoop.EventLoop PollPoller.PollPoller :=
  EventLoop.mkLoop 1 100 100 true false false false 0 0 PollPoller.new {[ 20 := Channel.new 1 7 ]} ∅ 0 [] None [].
Definition connection0 : TcpConnection (EventLoop.EventLoop PollPoller.PollPoller) :=
  TcpConnection.new 20 TcpConnection.empty_buffer TcpConnection.empty_buffer loop0.

Lemma connection_comes_and_goes_witness :
  exists s1 s3, connectEstablished TcpConnection.kwrite3 silent 9 connection0 = Ok s1 /\
    registered s1 = {[ 7 := 20 ]} /\ life TcpConnection.kwrite3 9 connection0 = Ok s3 /\ registered s3 = ∅.
Proof.
  destruct (connection_comes_and_goes TcpConnection.kwrite3 9 connection0 (Channel.new 1 7) 7)
    as (s1 & s2 & s3 & (E1 & R1 & _) & _ & (_ & R3 & _) & E & _).
  { split; try reflexivity.
    - split; [reflexivity|reflexivity|apply PollPoller.wf_new].
    - split_and!; [reflexivity|reflexivity|discriminate]. }
  exists s1, s3. split_and!; [exact E1|rewrite R1; reflexivity|exact E|rewrite R3; reflexivity].
Defined.

End ConnectionLoop.
