(* ===== verification/Reactor.v ===== *)
(** * A loop with its connections: EventLoop.cc, Channel.cc and TcpConnection.cc at work

    The rounds of [EventLoop::loop] down to the handlers of the connections that live
    in the loop: what the poller reports is handed to the channels, these call the
    handlers bound to them, and then the functors run that the handlers have queued.
    A connection that closes is taken out by its owner, as in a TcpServer whose only
    loop is this one, by a functor that destroys it. *)

From S2P Require Import Prelude NetBuffer Channel Service Poller PollPoller EventLoop LoopLife LoopService Connection TcpConnection OwnedConnection ConnectionProgress.
Import Poller.

Module Reactor.
Import TcpConnection ConnectionProgress.
Import OwnedConnection (callbacks).
Import Connection (StateE, kDisconnected, kConnecting, kConnected, kDisconnecting).

(** ** The functions bound to channels *)

(** [[this] { handleRead(); }] and the like: a function and an object.  The last two
    are those of the loop's own channels. *)
Inductive handler := OnRead | OnWrite | OnClose | OnError | OnWakeup | OnTimer.

Definition handler_code (h : handler) : Z :=
  match h with OnRead => 0 | OnWrite => 1 | OnClose => 2 | OnError => 3 | OnWakeup => 4 | OnTimer => 5 end.
Definition bind_ (h : handler) (self : Z) : Z := 6 * self + handler_code h.
Definition bound_object (f : Z) : Z := f / 6.
Definition bound_handler (f : Z) : handler :=
  match f mod 6 with 0 => OnRead | 1 => OnWrite | 2 => OnClose | 3 => OnError | 4 => OnWakeup | _ => OnTimer end.

Lemma bound_bind h self : bound_handler (bind_ h self) = h /\ bound_object (bind_ h self) = self.
Proof.
  unfold bound_handler, bound_object, bind_. split.
  - rewrite Z.add_comm, Z.mul_comm, Z.mod_add by done. by destruct h.
  - rewrite Z.mul_comm, Z.div_add_l by done. rewrite (Z.div_small (handler_code h)) by (destruct h; cbn; lia). lia.
Qed.

(** The functors of connections in the queue: the next one of the object, and
    [connectDestroyed] with the last reference to it. *)
Inductive item := Functor (obj : Z) | Destroyed (obj : Z).

#[global] Instance item_eqdec : EqDecision item.
Proof. solve_decision. Defined.

Definition item_object (i : item) : Z := match i with Functor obj | Destroyed obj => obj end.

Section Rounds.
Context {P : Type} `{PollerLaws P} {PF : PollerFrame P}.
Abbreviation Loop := (EventLoop.EventLoop P).
Abbreviation Conn := (TcpConnection Loop).

(** [conns]: the live connections, by address.  [pending]: their functors in
    [pendingFunctors_].  [dying]: destroyed, but still held by the functors of the
    batch that is running. *)
Record Reactor := mkReactor {
  loop_ : Loop;
  conns : gmap Z Conn;
  pending : list item;
  dying : list (Z * Conn)
}.

Definition on_loop (f : Loop -> Loop) (r : Reactor) : Reactor :=
  mkReactor (f (loop_ r)) (conns r) (pending r) (dying r).

(** The channels are those of the loop. *)
#[global] Instance reactor_host : Channel.Host Reactor := {
  Channel.chan_of r c := Channel.chan_of (loop_ r) c;
  Channel.put_chan c ch r := on_loop (Channel.put_chan c ch) r;
  Channel.free_chan c r := on_loop (Channel.free_chan c) r;
  Channel.loop_updateChannel l c r :=
    w ← Channel.loop_updateChannel l c (loop_ r); Ok (on_loop (fun _ => w) r);
  Channel.loop_removeChannel l c r :=
    w ← Channel.loop_removeChannel l c (loop_ r); Ok (on_loop (fun _ => w) r);
  Channel.loop_hasChannel l c r := Channel.loop_hasChannel l c (loop_ r);
  Channel.loop_isInLoopThread l r := Channel.loop_isInLoopThread l (loop_ r)
}.

Section Code.
Context (kwrite : nat -> list byte -> write_answer) (kread : nat -> Z -> Buffer.readv_result).
Context (user : event -> Conn -> list user_op).

(** A connection in the loop's thread. *)
Definition enter (s : Conn) (r : Reactor) : Conn := OwnedConnection.enter s (loop_ r).

(** What became of the connection [obj] after a call, that began with [s]: the functors
    it queued, and, when it closed, what its owner queued in the close callback. *)
Definition queued (obj : Z) (s t : Conn) : list item :=
  replicate (length (tasks t) - length (tasks s)) (Functor obj) ++
  if (closes (trace s) <? closes (trace t))%nat then [Destroyed obj] else [].
Definition settle (obj : Z) (s t : Conn) (r : Reactor) : Reactor :=
  mkReactor (world t) (<[obj := t]> (conns r)) (pending r ++ queued obj s t) (dying r).

(** ** Events *)

Definition handle (h : handler) (s : Conn) : result Conn :=
  match h with
  | OnRead => handleRead kwrite kread (callbacks user) s
  | OnWrite => handleWrite kwrite s
  | OnClose => handleClose kwrite (callbacks user) s
  | _ => Ok s                                        (* handleError only logs *)
  end.

(** Calling a bound function.  No timers are waiting, so the timer's channel finds
    nothing to do. *)
Definition call (f : Z) (arg : option Z) (r : Reactor) : result Reactor :=
  match bound_handler f with
  | OnWakeup => Ok (on_loop EventLoop.handleRead r)
  | OnTimer => Ok r
  | h =>
      match conns r !! bound_object f with
      | Some s => t ← handle h (enter s r); Ok (settle (bound_object f) s t r)
      | None => Err UndefinedBehaviour
      end
  end.

(** A weak pointer to a connection.  The owner, or the functor that destroys it, holds
    another reference, so that releasing this one destroys nothing. *)
Definition lock (obj : Z) (r : Reactor) : option Reactor :=
  match conns r !! obj with Some _ => Some r | None => None end.
Definition unlock (obj : Z) (r : Reactor) : result Reactor := Ok r.

Definition handleEvent (c : Z) (r : Reactor) : result Reactor :=
  Channel.handleEvent call lock unlock c (EventLoop.pollReturnTime_ (loop_ r)) r.

Fixpoint dispatch_active (l : list Z) (r : Reactor) : result Reactor :=
  match l with
  | [] => Ok r
  | c :: l =>
      r ← handleEvent c (on_loop (EventLoop.with_current true (Some c)) r);
      dispatch_active l r
  end.

(** ** Functors *)

(** The connection without the oldest of its functors. *)
Definition pop (s : Conn) : Conn := set_tasks (tail (tasks s)) (delayed s) s.

Definition run_item (i : item) (r : Reactor) : result Reactor :=
  match conns r !! item_object i with
  | None => Err UndefinedBehaviour
  | Some s =>
      match i with
      | Functor obj => t ← run_task kwrite (callbacks user) (enter s r); Ok (settle obj (pop s) t r)
      | Destroyed obj =>
          t ← connectDestroyed kwrite (callbacks user) (enter s r);
          Ok (mkReactor (world t) (delete obj (conns r)) (pending r) (dying r ++ [(obj, t)]))
      end
  end.

Fixpoint run_items (l : list item) (r : Reactor) : result Reactor :=
  match l with
  | [] => Ok r
  | i :: l => r ← run_item i r; run_items l r
  end.

(** The end of the vector [functors]: the last references go, [~TcpConnection] runs
    and destroys the channel. *)
Fixpoint bury (l : list (Z * Conn)) (w : Loop) : result Loop :=
  match l with
  | [] => Ok w
  | (_, s) :: l => _ ← destroy s; w ← Channel.destroy (channel_ s) w; bury l w
  end.

Definition doPendingFunctors (r : Reactor) : result Reactor :=
  let functors := pending r in
  let r := mkReactor (EventLoop.with_calling true (loop_ r)) (conns r) [] (dying r) in
  r ← run_items functors r;
  let r := on_loop (EventLoop.with_calling false) r in
  w ← bury (dying r) (loop_ r);
  Ok (mkReactor w (conns r) (pending r) []).

(** ** Rounds *)

(** The part of a round that hands out events, and the round. *)
Definition dispatch (a : Answer P) (now : Z) (r : Reactor) : result Reactor :=
  '(active, p, h) ← Poller.poll a (EventLoop.poller_ (loop_ r)) (EventLoop.channels (loop_ r));
  let r := on_loop (EventLoop.with_poll p h active now) r in
  let r := on_loop (EventLoop.with_current true (EventLoop.currentActiveChannel_ (loop_ r))) r in
  r ← dispatch_active (EventLoop.activeChannels_ (loop_ r)) r;
  Ok (on_loop (EventLoop.with_current false None) r).
Definition round (a : Answer P) (now : Z) (r : Reactor) : result Reactor :=
  r ← dispatch a now r; doPendingFunctors r.

(** ** From outside *)

(** A new connection: the constructor, what its owner sets ([wc]: a callback for
    complete writes), and [connectEstablished] in the loop. *)
Definition connect (obj c fd : Z) (wc : bool) (r : Reactor) : result Reactor :=
  s ← create (bind_ OnRead obj) (bind_ OnWrite obj) (bind_ OnClose obj) (bind_ OnError obj) c
    (EventLoop.this_ (loop_ r)) fd (loop_ r);
  let s := setWriteCompleteCallback wc s in
  t ← connectEstablished kwrite (callbacks user) obj s;
  Ok (settle obj s t r).

(** A call from another thread, which finds the loop between two rounds. *)
Definition elsewhere (obj : Z) (o : user_op) (r : Reactor) : result Reactor :=
  match conns r !! obj with
  | None => Err UndefinedBehaviour
  | Some s =>
      t ← run_user kwrite o (set_thread false (enter s r));
      Ok (mkReactor (loop_ r) (<[obj := t]> (conns r)) (pending r ++ queued obj s t) (dying r))
  end.

Inductive action :=
| Connect (obj c fd : Z) (wc : bool)
| Round (a : Answer P) (now : Z)
| Elsewhere (obj : Z) (o : user_op).

Definition act (x : action) (r : Reactor) : result Reactor :=
  match x with
  | Connect obj c fd wc => connect obj c fd wc r
  | Round a now => round a now r
  | Elsewhere obj o => elsewhere obj o r
  end.

Fixpoint run (l : list action) (r : Reactor) : result Reactor :=
  match l with
  | [] => Ok r
  | x :: l => r ← act x r; run l r
  end.

(** ** The invariant *)

(** The channel of the connection [obj]; [b]: it is handling an event. *)
Definition bound (b : bool) (obj : Z) (ch : Channel.Channel) : Prop :=
  Channel.tied_ ch = true /\ Channel.tie_ ch = Some obj /\
  Channel.readCallback_ ch = Some (bind_ OnRead obj) /\ Channel.writeCallback_ ch = Some (bind_ OnWrite obj) /\
  Channel.closeCallback_ ch = Some (bind_ OnClose obj) /\ Channel.errorCallback_ ch = Some (bind_ OnError obj) /\
  Channel.eventHandling_ ch = b.

(** A channel of the loop itself. *)
Definition own_channel (ch : Channel.Channel) : Prop :=
  Channel.tied_ ch = false /\ Channel.closeCallback_ ch = None /\ Channel.errorCallback_ ch = None /\
  Channel.writeCallback_ ch = None /\
  exists f, Channel.readCallback_ ch = Some f /\ (bound_handler f = OnWakeup \/ bound_handler f = OnTimer).

Lemma bound_agree b obj ch ch' : Channel.tied_ ch' = Channel.tied_ ch -> Channel.tie_ ch' = Channel.tie_ ch ->
  Channel.readCallback_ ch' = Channel.readCallback_ ch -> Channel.writeCallback_ ch' = Channel.writeCallback_ ch ->
  Channel.closeCallback_ ch' = Channel.closeCallback_ ch -> Channel.errorCallback_ ch' = Channel.errorCallback_ ch ->
  Channel.eventHandling_ ch' = Channel.eventHandling_ ch -> bound b obj ch -> bound b obj ch'.
Proof. unfold bound. by intros -> -> -> -> -> -> ->. Qed.

Lemma own_agree ch ch' : Channel.tied_ ch' = Channel.tied_ ch ->
  Channel.readCallback_ ch' = Channel.readCallback_ ch -> Channel.writeCallback_ ch' = Channel.writeCallback_ ch ->
  Channel.closeCallback_ ch' = Channel.closeCallback_ ch -> Channel.errorCallback_ ch' = Channel.errorCallback_ ch ->
  own_channel ch -> own_channel ch'.
Proof. unfold own_channel. by intros -> -> -> -> ->. Qed.

(** Both are settled by an equality of channels up to other fields. *)
Ltac by_fields E := first [exact (f_equal Channel.tied_ E) | exact (f_equal Channel.tie_ E)
  | exact (f_equal Channel.readCallback_ E) | exact (f_equal Channel.writeCallback_ E)
  | exact (f_equal Channel.closeCallback_ E) | exact (f_equal Channel.errorCallback_ E)
  | exact (f_equal Channel.eventHandling_ E)].

Lemma bound_static b obj ch ch' : static ch' = static ch -> bound b obj ch -> bound b obj ch'.
Proof. intros E. apply bound_agree; by_fields E. Qed.

Lemma own_strip ch ch' : Channel.strip ch' = Channel.strip ch -> own_channel ch -> own_channel ch'.
Proof. intros E. apply own_agree; by_fields E. Qed.

(** What a round writes into channels that are not at work. *)
Definition base (ch : Channel.Channel) : Channel.Channel :=
  Channel.set_eventHandling false (Channel.set_revents 0 (Channel.strip ch)).

Lemma own_base ch ch' : base ch' = base ch -> own_channel ch -> own_channel ch'.
Proof. intros E. apply own_agree; by_fields E. Qed.

(** The functors of one connection, and those that it has waiting: once it is down,
    the last one destroys it. *)
Definition mine (obj : Z) (l : list item) : list item := filter (fun i => item_object i = obj) l.
Definition waiting (obj : Z) (s : Conn) : list item :=
  replicate (length (tasks s)) (Functor obj) ++ if bool_decide (state_ s = kDisconnected) then [Destroyed obj] else [].

(** A connection that is gone, but for its memory. *)
Definition retired (l obj : Z) (s : Conn) (w : Loop) : Prop :=
  state_ s = kDisconnected /\ exists ch, Channel.chan_of w (channel_ s) = Some ch /\ Channel.loop_ ch = l /\
    Channel.tie_ ch = Some obj /\ Channel.eventHandling_ ch = false /\ Channel.addedToLoop_ ch = false /\
    Service.registry w !! Channel.fd_ ch = None.

(** In the loop [l], the channel of [cur] handling an event, with [todo] the functors
    left to run. *)
Record Inv (l : Z) (cur : option Z) (todo : list item) (r : Reactor) : Prop := {
  inv_turning : Service.turning l (loop_ r);
  inv_conns : forall obj s, conns r !! obj = Some s -> state_ s <> kConnecting /\
    exists ch, ready l ch (enter s r) /\ bound (bool_decide (cur = Some obj)) obj ch;
  inv_own : forall fd c, Service.registry (loop_ r) !! fd = Some c ->
    (exists obj s, conns r !! obj = Some s /\ channel_ s = c) \/
    (exists ch, Channel.chan_of (loop_ r) c = Some ch /\ own_channel ch);
  inv_todo : forall obj, mine obj todo = match conns r !! obj with Some s => waiting obj s | None => [] end;
  inv_dying : NoDup (dying r).*1 /\
    forall obj s, (obj, s) ∈ dying r -> conns r !! obj = None /\ retired l obj s (loop_ r)
}.

Lemma mine_app obj l k : mine obj (l ++ k) = mine obj l ++ mine obj k.
Proof. apply filter_app. Qed.

Lemma mine_replicate obj n i : mine obj (replicate n i) = if decide (item_object i = obj) then replicate n i else [].
Proof.
  unfold mine. induction n as [|n IH]; [by destruct (decide _)|]. cbn [replicate].
  rewrite filter_cons, IH. by destruct (decide _).
Qed.

Lemma mine_queued obj o s t : mine obj (queued o s t) = if decide (o = obj) then queued o s t else [].
Proof.
  unfold queued. rewrite mine_app, mine_replicate. cbn [item_object].
  destruct (_ <? _)%nat; destruct (decide (o = obj)) as [E|E]; try done.
  - unfold mine. rewrite filter_cons_True by exact E. done.
  - unfold mine. rewrite filter_cons_False by exact E. done.
Qed.

Context (Hkw : write_contract kwrite) (Hkr : read_contract kread).
Context (Huser : well_behaved kwrite (callbacks user)).

(** Two connections have two channels. *)
Lemma channels_differ l cur todo r o1 o2 s1 s2 : Inv l cur todo r ->
  conns r !! o1 = Some s1 -> conns r !! o2 = Some s2 -> o1 <> o2 -> channel_ s1 <> channel_ s2.
Proof.
  intros Hi H1 H2 Hne E. destruct (inv_conns _ _ _ _ Hi _ _ H1) as (_ & ch1 & R1 & _ & T1 & _).
  destruct (inv_conns _ _ _ _ Hi _ _ H2) as (_ & ch2 & R2 & _ & T2 & _).
  pose proof (hosted_chan _ _ _ _ (ready_hosted _ _ _ R1)) as C1.
  pose proof (hosted_chan _ _ _ _ (ready_hosted _ _ _ R2)) as C2. cbn in C1, C2. rewrite E in C1. congruence.
Qed.

Lemma dying_differs l cur todo r o1 o2 s1 s2 : Inv l cur todo r ->
  conns r !! o1 = Some s1 -> (o2, s2) ∈ dying r -> channel_ s2 <> channel_ s1.
Proof.
  intros Hi H1 H2 E. destruct (inv_conns _ _ _ _ Hi _ _ H1) as (_ & ch1 & R1 & _ & T1 & _).
  destruct (proj2 (inv_dying _ _ _ _ Hi) _ _ H2) as (Hn & _ & ch2 & C2 & _ & T2 & _).
  pose proof (hosted_chan _ _ _ _ (ready_hosted _ _ _ R1)) as C1. cbn in C1, C2. rewrite E in C2. congruence.
Qed.

(** When only the channel [c] and its descriptor change, the rest is in order. *)
Record rest_kept (l : Z) (cur : option Z) (c : Z) (r : Reactor) (w' : Loop) : Prop := {
  rest_conns : forall o s, conns r !! o = Some s -> channel_ s <> c -> exists ch,
    ready l ch (OwnedConnection.enter s w') /\ bound (bool_decide (cur = Some o)) o ch;
  rest_own : forall d, d <> c -> (exists ch, Channel.chan_of (loop_ r) d = Some ch /\ own_channel ch) ->
    exists ch, Channel.chan_of w' d = Some ch /\ own_channel ch;
  rest_dying : (forall fd, Service.registry (loop_ r) !! fd = None -> Service.registry w' !! fd = None) ->
    forall o s, (o, s) ∈ dying r -> channel_ s <> c -> retired l o s w'
}.

Lemma others_retired l c o s w w' : Channel.others c w w' -> channel_ s <> c ->
  (forall fd, Service.registry w !! fd = None -> Service.registry w' !! fd = None) ->
  retired l o s w -> retired l o s w'.
Proof.
  intros Ho Hne Hr (Hst & ch & Hc & Hl & Ht & He & Ha & Hf). split; [done|]. specialize (Ho _ Hne). rewrite Hc in Ho.
  destruct (Channel.chan_of w' (channel_ s)) as [ch'|]; [|done]. apply (inj Some) in Ho. exists ch'.
  rewrite (f_equal Channel.loop_ Ho : Channel.loop_ ch' = Channel.loop_ ch),
    (f_equal Channel.tie_ Ho : Channel.tie_ ch' = Channel.tie_ ch),
    (f_equal Channel.eventHandling_ Ho : Channel.eventHandling_ ch' = Channel.eventHandling_ ch),
    (f_equal Channel.addedToLoop_ Ho : Channel.addedToLoop_ ch' = Channel.addedToLoop_ ch),
    (f_equal Channel.fd_ Ho : Channel.fd_ ch' = Channel.fd_ ch). split_and!; auto.
Qed.

Lemma kept_rest l cur todo r c fd w' : Inv l cur todo r -> Service.turning l w' -> apart c fd (loop_ r) w' ->
  (forall d, Service.registry (loop_ r) !! fd = Some d -> d = c) -> rest_kept l cur c r w'.
Proof.
  intros Hi Ht Ha Hfd. split.
  - intros o s Ho Hne. destruct (inv_conns _ _ _ _ Hi _ _ Ho) as (_ & ch & R & B).
    destruct (ready_elsewhere l ch s c fd (loop_ r) w' R Ht Ha Hne) as (ch2 & R2 & S2); [by intros E; apply Hne, Hfd|].
    exists ch2. split; [done|]. by eapply bound_static; [apply strip_static|].
  - intros d Hd (ch & Hc & Hw). pose proof (apart_others _ _ _ _ Ha d Hd) as Hoth. rewrite Hc in Hoth.
    destruct (Channel.chan_of w' d) as [ch1|]; [|done]. exists ch1. split; [done|]. apply (inj Some) in Hoth. by eapply own_strip.
  - intros Hn o s Hd Hne. apply (others_retired l c o s (loop_ r)); [apply Ha|done|done|]. by apply (inv_dying _ _ _ _ Hi).
Qed.

(** So it is when the channel is that of the connection [obj]. *)
Lemma kept_others l cur todo r obj s ch w' : Inv l cur todo r -> conns r !! obj = Some s ->
  hosted l (channel_ s) ch (loop_ r) -> Service.turning l w' ->
  apart (channel_ s) (Channel.fd_ ch) (loop_ r) w' ->
  (forall fd, Service.registry (loop_ r) !! fd = None -> Service.registry w' !! fd = None) ->
  (forall o s2, conns r !! o = Some s2 -> o <> obj -> exists ch2,
     ready l ch2 (OwnedConnection.enter s2 w') /\ bound (bool_decide (cur = Some o)) o ch2) /\
  (forall d, d <> channel_ s -> (exists ch, Channel.chan_of (loop_ r) d = Some ch /\ own_channel ch) ->
     exists ch, Channel.chan_of w' d = Some ch /\ own_channel ch) /\
  (forall o s2, (o, s2) ∈ dying r -> retired l o s2 w').
Proof.
  intros Hi Ho Hh Ht Ha Hn. destruct (kept_rest l cur todo r (channel_ s) (Channel.fd_ ch) w' Hi Ht Ha) as [Kc Ko Kd].
  { intros d Hd. rewrite (hosted_registry _ _ _ _ Hh) in Hd. congruence. }
  split_and!.
  - intros o s2 Ho2 Hne. apply Kc; [done|]. by eapply channels_differ.
  - done.
  - intros o s2 Hd. apply Kd; [done..|]. by eapply dying_differs.
Qed.

#[local] Existing Instances keeps_preorder grows_preorder.

(** ** One call *)

Lemma enter_self (t : Conn) : inLoop t = true -> OwnedConnection.enter t (world t) = t.
Proof. intros Hl. destruct t. cbn in Hl. by subst. Qed.

(** The close callback was called if and only if the connection is down now and was
    not before. *)
Lemma turned_closed (s t : Conn) : turned s t -> state_ s <> kConnecting ->
  state_ t <> kConnecting /\
  (closes (trace s) <? closes (trace t))%nat =
    negb (bool_decide (state_ s = kDisconnected)) && bool_decide (state_ t = kDisconnected).
Proof.
  intros (b & Hb & Ht) Hs. rewrite Hb. unfold Connection.turns, Connection.up in Ht. destruct b.
  - destruct Ht as [Hu Hd]. rewrite Hd. split; [done|]. rewrite (bool_decide_true (kDisconnected = _)) by done.
    rewrite bool_decide_false by (destruct Hu; congruence). apply Nat.ltb_lt. lia.
  - rewrite Nat.add_0_r, Nat.ltb_irrefl. split; [intuition congruence|].
    destruct Ht as [->|[Hu ->]]; [by destruct (bool_decide _)|].
    rewrite (bool_decide_false (kDisconnecting = _)) by done. by rewrite andb_false_r.
Qed.

(** The functors of a connection after a turn. *)
Lemma waiting_turn l ch obj (s t : Conn) r ch' : ready l ch (enter s r) -> state_ s <> kConnecting ->
  turned_to l ch (enter s r) t ch' -> turned (enter s r) t -> waiting obj t = waiting obj s ++ queued obj s t.
Proof.
  intros Hr Hs [_ Ht _] Hc. destruct (turned_closed _ _ Hc Hs) as [_ Hcl].
  change (trace (enter s r)) with (trace s) in Hcl. change (state_ (enter s r)) with (state_ s) in Hcl.
  unfold waiting, queued. rewrite Hcl. destruct (turn_tasks _ _ Ht) as (k & Ek & _). cbn in Ek.
  rewrite Ek, length_app. replace (length (tasks s) + length k - length (tasks s))%nat with (length k) by lia.
  pose proof (turn_quiet _ _ Ht) as Hq. pose proof (turn_down _ _ Ht) as Hd. cbn in Hq, Hd. rewrite Ek in Hq.
  case_bool_decide as Hst; cbn [negb andb].
  - specialize (Hq Hst eq_refl). assert (k = []) as -> by (destruct k; [done|]; apply (f_equal length) in Hq;
      rewrite length_app in Hq; cbn in Hq; lia).
    rewrite bool_decide_true by auto. by rewrite Nat.add_0_r, !app_nil_r.
  - by rewrite app_nil_r, replicate_add, <- app_assoc.
Qed.

Lemma settle_inv l cur todo r obj s ch t ch' : Inv l cur todo r -> conns r !! obj = Some s ->
  ready l ch (enter s r) -> bound (bool_decide (cur = Some obj)) obj ch ->
  turned_to l ch (enter s r) t ch' -> turned (enter s r) t ->
  Inv l cur (todo ++ queued obj s t) (settle obj s t r).
Proof using PF.
  intros Hi Ho Hr Hb Hto Htd. pose proof Hto as [Hrt Ht Hst].
  destruct (turned_aside l ch _ _ _ (ready_hosted _ _ _ Hr) Hto) as [Hap Hreg].
  change (world (enter s r)) with (loop_ r) in Hap, Hreg. change (channel_ (enter s r)) with (channel_ s) in Hap.
  pose proof (turn_channel _ _ Ht) as Hch. cbn in Hch.
  destruct (kept_others l cur todo r obj s ch (world t) Hi Ho) as (Kc & Ko & Kd);
    [apply Hr|apply Hrt|done|intros fd Hfd; by rewrite Hreg|].
  destruct (inv_conns _ _ _ _ Hi _ _ Ho) as [Hs _].
  split; cbn [settle loop_ conns pending dying].
  - apply Hrt.
  - intros o s2 H2. apply lookup_insert_Some in H2 as [[<- <-]|[Hne H2]].
    + split; [by apply (turned_closed _ _ Htd)|]. exists ch'.
      split; [|by eapply bound_static]. unfold enter. cbn [settle loop_]. by rewrite enter_self by apply Hrt.
    + split; [by apply (inv_conns _ _ _ _ Hi _ _ H2)|]. apply Kc; [done|congruence].
  - intros fd c Hfd. rewrite Hreg in Hfd. destruct (decide (c = channel_ s)) as [->|Hc].
    + left. exists obj, t. split; [apply lookup_insert_eq|done].
    + destruct (inv_own _ _ _ _ Hi _ _ Hfd) as [(o & s2 & H2 & <-)|Hw].
      * left. exists o, s2. split; [|done]. rewrite lookup_insert_ne; [done|]. intros ->. congruence.
      * right. by apply Ko.
  - intros o. rewrite mine_app, mine_queued, (inv_todo _ _ _ _ Hi o). destruct (decide (obj = o)) as [<-|Hne].
    + rewrite lookup_insert_eq, Ho. symmetry. by eapply waiting_turn.
    + rewrite lookup_insert_ne, app_nil_r by done. done.
  - destruct (inv_dying _ _ _ _ Hi) as [Hnd Hd]. split; [done|]. intros o s2 Hos. split; [|by apply Kd].
    destruct (Hd _ _ Hos) as [Hn _]. rewrite lookup_insert_ne; [done|]. intros ->. congruence.
Qed.

(** Handlers of a connection, by the event they answer. *)
Definition permitted (h : handler) (s : Conn) : Prop :=
  match h with
  | OnRead => closing s = true /\ roomy s
  | OnClose => closing s = true
  | OnWrite | OnError => True
  | OnWakeup | OnTimer => False
  end.

Lemma handle_run l ch h s : ready l ch s -> permitted h s ->
  exists t ch', handle h s = Ok t /\ turned_to l ch s t ch' /\ turned s t.
Proof using PF Hkw Hkr Huser.
  intros Hs Hp. assert (forall t ch', handle h s = Ok t -> turned_to l ch s t ch' ->
    turned s t -> exists t ch', handle h s = Ok t /\ turned_to l ch s t ch' /\ turned s t) as Hthen by eauto.
  destruct h; cbn [handle permitted] in *; try done.
  - destruct Hp as [Hc Hroom]. destruct (reading_run kwrite kread Hkw Hkr _ Huser l ch s Hs Hc Hroom) as (t & ch' & E & T).
    apply (Hthen t ch' E T). by apply (handleRead_inv kwrite kread Hkw Hkr _ _ _ (ready_inv _ _ _ Hs)) in E as (_ & _ & ?).
  - destruct (writing_run kwrite Hkw l ch s Hs) as (t & ch' & E & T). apply (Hthen t ch' E T).
    apply keeps_turned. by apply (handleWrite_spec kwrite Hkw _ _ (ready_inv _ _ _ Hs)) in E as (_ & ? & _).
  - destruct (closing_run kwrite Hkw _ Huser l ch s Hs Hp) as (t & ch' & E & T & _).
    apply (Hthen t ch' E T). by apply (handleClose_inv kwrite Hkw _ _ _ (ready_inv _ _ _ Hs)) in E as (_ & _ & ?).
  - apply (Hthen s ch eq_refl); [by apply ready_turned|]. apply keeps_turned. reflexivity.
Qed.

(** ** An event at a channel *)

(** Whether the channel of [obj] is handling an event. *)
Definition at_work (b : bool) (obj : Z) : option Z := if b then Some obj else None.

Lemma at_work_other b b' o obj : o <> obj ->
  bool_decide (at_work b obj = Some o) = bool_decide (at_work b' obj = Some o).
Proof. intros Hne. rewrite !bool_decide_false; [done|destruct b'; cbn; congruence|destruct b; cbn; congruence]. Qed.

Lemma at_work_self b obj : bool_decide (at_work b obj = Some obj) = b.
Proof. destruct b; cbn; by case_bool_decide. Qed.

(** What one step at the channel [c] of [obj] leaves alone; [k]: the functors queued. *)
Record step_at (obj c : Z) (k : list item) (r r' : Reactor) : Prop := {
  at_conns : forall o, o <> obj -> conns r' !! o = conns r !! o;
  at_pending : pending r' = pending r ++ k;
  at_dying : dying r' = dying r;
  at_others : Channel.others c (loop_ r) (loop_ r');
  at_registry : Service.registry (loop_ r') = Service.registry (loop_ r)
}.

Lemma step_at_refl obj c r : step_at obj c [] r r.
Proof. split; try done. by rewrite app_nil_r. Qed.

Lemma step_at_trans obj c k1 k2 r1 r2 r3 :
  step_at obj c k1 r1 r2 -> step_at obj c k2 r2 r3 -> step_at obj c (k1 ++ k2) r1 r3.
Proof.
  intros [A1 A2 A3 A4 A5] [B1 B2 B3 B4 B5]. split; try congruence.
  - intros o Ho. by rewrite B1, A1.
  - by rewrite B2, A2, app_assoc.
  - by etrans.
Qed.

(** The connection [obj], which is [s], with its channel [ch]. *)
Record at_channel (l : Z) (b : bool) (todo : list item) (obj : Z) (s : Conn) (ch : Channel.Channel) (r : Reactor)
  : Prop := {
  at_inv : Inv l (at_work b obj) todo r;
  at_conn : conns r !! obj = Some s;
  at_ready : ready l ch (enter s r);
  at_bound : bound b obj ch
}.

Lemma at_channel_intro l b todo obj s r : Inv l (at_work b obj) todo r -> conns r !! obj = Some s ->
  exists ch, at_channel l b todo obj s ch r.
Proof.
  intros Hi Ho. destruct (inv_conns _ _ _ _ Hi _ _ Ho) as (_ & ch & Hr & Hb). exists ch.
  rewrite at_work_self in Hb. by split.
Qed.

(** The flag of the channel is written. *)
Lemma mark_run l b todo obj s ch r : at_channel l (negb b) todo obj s ch r ->
  exists r', Channel.modify (channel_ s) (Channel.set_eventHandling b) r = Ok r' /\
    at_channel l b todo obj s (Channel.set_eventHandling b ch) r' /\ step_at obj (channel_ s) [] r r'.
Proof using PF.
  intros [Hi Ho Hr Hb]. pose proof (ready_hosted _ _ _ Hr) as Hh.
  change (hosted l (channel_ s) ch (loop_ r)) in Hh. set (c := channel_ s) in *. set (ch1 := Channel.set_eventHandling b ch).
  set (w' := Channel.put_chan c ch1 (loop_ r)).
  destruct (Service.touch l c ch ch1 (loop_ r)) as (Ht & Er & Ea & _ & Hrm); [apply Hh|apply Hh|done..|]. fold w' in Ht, Er, Ea, Hrm.
  assert (Channel.others c (loop_ r) w') as Hoth.
  { intros d Hd. unfold w'. by rewrite (Channel.chan_put_ne c d) by congruence. }
  assert (hosted l c ch1 w') as Hh1.
  { destruct Hh as [? ? ? ? ?]. split; [done|apply (Channel.chan_put_eq c ch1)|done|by rewrite Er|by rewrite Ea]. }
  destruct (kept_others l _ todo r obj s ch w' Hi Ho Hh Ht) as (Kc & Ko & Kd).
  { split; [by rewrite Er|by rewrite Ea|done|done]. } { intros fd Hfd. by rewrite Er. }
  assert (ready l ch1 (OwnedConnection.enter s w')) as Hr1.
  { destruct Hr as [Ri Rh Rl Rm Rt Rd]. split; try done.
    apply (world_inv w' (enter s r) Ri). cbn. pose proof (hosted_chan _ _ _ _ Hh) as E1.
    pose proof (hosted_chan _ _ _ _ Hh1) as E2. fold c. cbn in E1, E2. by rewrite E1, E2. }
  exists (on_loop (Channel.put_chan c ch1) r). split_and!.
  - exact (Channel.modify_ok c (Channel.set_eventHandling b) r ch (hosted_chan _ _ _ _ Hh)).
  - split; [|done|done|unfold bound in *; tauto]. split.
    + done.
    + intros o s2 H2. destruct (decide (o = obj)) as [->|Hne].
      * assert (s2 = s) as -> by (cbn in H2; congruence). split; [apply (inv_conns _ _ _ _ Hi _ _ Ho)|].
        exists ch1. rewrite at_work_self. split; [done|]. unfold bound in *. tauto.
      * split; [apply (inv_conns _ _ _ _ Hi _ _ H2)|]. rewrite (at_work_other b (negb b)) by done. by apply Kc.
    + intros fd d Hfd. change (Service.registry w' !! fd = Some d) in Hfd. rewrite Er in Hfd.
      destruct (inv_own _ _ _ _ Hi _ _ Hfd) as [Hc|Hw]; [by left|]. destruct (decide (d = c)) as [->|Hdc].
      * left. by exists obj, s.
      * right. by apply Ko.
    + apply Hi.
    + destruct (inv_dying _ _ _ _ Hi) as [Hnd Hd]. split; [done|]. intros o s2 Hos.
      split; [exact (proj1 (Hd _ _ Hos))|by apply Kd].
  - split; try done. by rewrite app_nil_r.
Qed.

(** What the events [rev] ask of a connection, and events that ask for no more than a
    connection can stand: no hang-up with urgent data. *)
Definition react (b : bool) (h : handler) (s : Conn) : result Conn := if b then handle h s else Ok s.
Definition reaction (rev : Z) (s : Conn) : result Conn :=
  s ← react (Channel.hung_up rev) OnClose s;
  s ← react (Channel.broken rev) OnError s;
  s ← react (Channel.readable rev) OnRead s;
  react (Channel.writable rev) OnWrite s.
Definition orderly (rev : Z) : bool := negb (Channel.hung_up rev && Channel.readable rev).

Lemma static_revents ch ch' : static ch' = static ch -> Channel.revents_ ch' = Channel.revents_ ch.
Proof. intros E. exact (f_equal Channel.revents_ E). Qed.

(** One callback of the channel: if the events ask for it, the bound handler runs. *)
Lemma fire_run l todo obj c rev s ch r test cb h arg :
  at_channel l true todo obj s ch r -> channel_ s = c -> Channel.revents_ ch = rev ->
  cb ch = Some (bind_ h obj) -> (test rev = true -> permitted h (enter s r)) ->
  exists r' s' ch' k, Channel.fire call c test cb arg r = Ok r' /\
    at_channel l true (todo ++ k) obj s' ch' r' /\ channel_ s' = c /\ Channel.revents_ ch' = rev /\
    react (test rev) h (enter s r) = Ok (enter s' r') /\ step_at obj c k r r'.
Proof using PF Hkw Hkr Huser.
  intros [Hi Ho Hr Hb] <- <- Hcb Hp. pose proof (ready_hosted _ _ _ Hr) as Hh.
  assert (Channel.chan_of r (channel_ s) = Some ch) as Hc by exact (hosted_chan _ _ _ _ Hh).
  unfold Channel.fire, Channel.deref, react. rewrite Hc, bind_ok.
  destruct (test (Channel.revents_ ch)).
  2:{ exists r, s, ch, []. rewrite app_nil_r. split_and!; [done|by split|done..|apply step_at_refl]. }
  rewrite Hcb. unfold call. destruct (bound_bind h obj) as [-> ->]. rewrite Ho. specialize (Hp eq_refl).
  destruct (handle_run l ch h (enter s r) Hr Hp) as (t & ch' & E & T & Td).
  exists (settle obj s t r), t, ch', (queued obj s t).
  pose proof (settle_inv l (at_work true obj) todo r obj s ch t ch' Hi Ho Hr) as Hi'.
  rewrite at_work_self in Hi'. specialize (Hi' Hb T Td).
  pose proof (turned_aside l ch _ _ _ Hh T) as [Hap Hreg]. pose proof T as [Hrt Ht Hst].
  assert (enter t (settle obj s t r) = t) as Het by (apply enter_self, Hrt).
  split_and!; [destruct h; try done; by rewrite E, bind_ok| |apply (turn_channel _ _ Ht)|by apply static_revents|by rewrite Het|].
  - split; [done|apply lookup_insert_eq|by rewrite Het|by eapply bound_static].
  - split; cbn [settle conns loop_ pending dying]; try done.
    + intros o Hne. by apply lookup_insert_ne.
    + apply Hap.
Qed.

(** The four callbacks in a row. *)
Lemma fires_run l todo obj c rev s ch r arg : at_channel l true todo obj s ch r ->
  channel_ s = c -> Channel.revents_ ch = rev -> orderly rev = true -> closing s = true ->
  (Channel.readable rev = true -> roomy s) ->
  exists r' s' ch' k,
    (r ← Channel.fire call c Channel.closes Channel.closeCallback_ None r;
     r ← Channel.fire call c Channel.fails Channel.errorCallback_ None r;
     r ← Channel.fire call c Channel.reads Channel.readCallback_ arg r;
     Channel.fire call c Channel.writes Channel.writeCallback_ None r) = Ok r' /\
    at_channel l true (todo ++ k) obj s' ch' r' /\ channel_ s' = c /\
    reaction rev (enter s r) = Ok (enter s' r') /\ step_at obj c k r r'.
Proof using PF Hkw Hkr Huser.
  intros A0 Hc0 Hv0 Hord Hcl Hroom. unfold reaction, orderly in *.
  rewrite <- Channel.closes_spec, <- Channel.fails_spec, <- Channel.reads_spec, <- Channel.writes_spec.
  rewrite <- Channel.closes_spec, <- Channel.reads_spec in Hord. rewrite <- Channel.reads_spec in Hroom.
  destruct (fire_run l todo obj c rev s ch r Channel.closes Channel.closeCallback_ OnClose None A0)
    as (r1 & s1 & ch1 & k1 & E1 & A1 & Hc1 & Hv1 & R1 & K1); [done..|apply A0|done|].
  destruct (fire_run l _ obj c rev s1 ch1 r1 Channel.fails Channel.errorCallback_ OnError None A1)
    as (r2 & s2 & ch2 & k2 & E2 & A2 & Hc2 & Hv2 & R2 & K2); [done..|apply A1|done|].
  destruct (fire_run l _ obj c rev s2 ch2 r2 Channel.reads Channel.readCallback_ OnRead arg A2)
    as (r3 & s3 & ch3 & k3 & E3 & A3 & Hc3 & Hv3 & R3 & K3); [done..|apply A2| |].
  { intros Hrd. rewrite Hrd, andb_true_r in Hord. apply negb_true_iff in Hord.
    rewrite Hord in R1. assert (enter s2 r2 = enter s r) as ->; [|by split; [|apply Hroom]].
    unfold react in R1, R2. cbn [handle] in R2. destruct (Channel.fails rev); congruence. }
  destruct (fire_run l _ obj c rev s3 ch3 r3 Channel.writes Channel.writeCallback_ OnWrite None A3)
    as (r4 & s4 & ch4 & k4 & E4 & A4 & Hc4 & Hv4 & R4 & K4); [done..|apply A3|done|].
  exists r4, s4, ch4, (k1 ++ k2 ++ k3 ++ k4). rewrite E1, bind_ok, E2, bind_ok, E3, bind_ok, E4.
  rewrite R1, bind_ok, R2, bind_ok, R3, bind_ok, R4. rewrite !app_assoc in *. split_and!; [done..|].
  rewrite <- !app_assoc. by repeat (eapply step_at_trans; [eassumption|]).
Qed.

(** ** A round's events *)

(** The channel [c] is in both worlds, but for what a round writes into it, the same:
    its descriptor, its interest, its callbacks. *)
Definition same_channel (c : Z) (w w' : Loop) : Prop :=
  base <$> Channel.chan_of w c = base <$> Channel.chan_of w' c.

Lemma same_others c d w w' : Channel.others c w w' -> d <> c -> same_channel d w w'.
Proof.
  intros Ho Hd. specialize (Ho d Hd). unfold same_channel.
  destruct (Channel.chan_of w d) as [ch|], (Channel.chan_of w' d) as [ch'|]; try done.
  apply (inj Some) in Ho. unfold base. cbn. by rewrite Ho.
Qed.

(** [t] is what [s] becomes with the events [rev]: all four handlers that they ask for
    have run, from a world in which the channel of [s] is as in [w0] to one in which it
    is as in [w1]. *)
Definition answered (rev : Z) (w0 w1 : Loop) (s t : Conn) : Prop := channel_ t = channel_ s /\
  exists w w', same_channel (channel_ s) w w0 /\ same_channel (channel_ s) w' w1 /\
    reaction rev (OwnedConnection.enter s w) = Ok (OwnedConnection.enter t w').

Lemma answered_same rev w0 w1 v0 v1 s t : same_channel (channel_ s) w0 v0 -> same_channel (channel_ s) w1 v1 ->
  answered rev w0 w1 s t -> answered rev v0 v1 s t.
Proof.
  intros Hw0 Hw1 (Hc & w & w' & E0 & E1 & E). split; [done|]. exists w, w'.
  unfold same_channel in *. split_and!; congruence.
Qed.

(** What the event at the channel [c] does; [k]: the functors queued. *)
Record event_at (c : Z) (k : list item) (r r' : Reactor) : Prop := {
  ev_pending : pending r' = pending r ++ k;
  ev_dying : dying r' = dying r;
  ev_others : Channel.others c (loop_ r) (loop_ r');
  ev_registry : Service.registry (loop_ r') = Service.registry (loop_ r);
  ev_none : forall o, conns r !! o = None -> conns r' !! o = None;
  ev_spared : forall o s, conns r !! o = Some s -> channel_ s <> c -> conns r' !! o = Some s;
  ev_struck : forall o s ch, conns r !! o = Some s -> channel_ s = c -> Channel.chan_of (loop_ r) c = Some ch ->
    exists t, conns r' !! o = Some t /\ answered (Channel.revents_ ch) (loop_ r) (loop_ r') s t
}.

(** What the poller says of the channel [c] can be handed to it. *)
Definition deliverable (c : Z) (r : Reactor) : Prop := exists ch, Channel.chan_of (loop_ r) c = Some ch /\
  (own_channel ch /\ (exists fd, Service.registry (loop_ r) !! fd = Some c) \/
   exists obj s, conns r !! obj = Some s /\ channel_ s = c /\ orderly (Channel.revents_ ch) = true /\
     closing s = true /\ (Channel.readable (Channel.revents_ ch) = true -> roomy s)).

Lemma connection_event l todo obj s ch r : Inv l None todo r -> conns r !! obj = Some s ->
  Channel.chan_of (loop_ r) (channel_ s) = Some ch -> orderly (Channel.revents_ ch) = true ->
  closing s = true -> (Channel.readable (Channel.revents_ ch) = true -> roomy s) ->
  exists r' k, handleEvent (channel_ s) r = Ok r' /\ Inv l None (todo ++ k) r' /\ event_at (channel_ s) k r r'.
Proof using PF Hkw Hkr Huser.
  intros Hi Ho Hc Hord Hcl Hroom. set (c := channel_ s) in *. set (rev := Channel.revents_ ch) in *.
  destruct (at_channel_intro l false todo obj s r Hi Ho) as (ch0 & A0).
  assert (Channel.chan_of r c = Some ch) as Hc' by exact Hc.
  pose proof (hosted_chan _ _ _ _ (ready_hosted _ _ _ (at_ready _ _ _ _ _ _ _ A0))) as E0.
  change (Channel.chan_of (loop_ r) c = Some ch0) in E0. rewrite Hc in E0. injection E0 as <-.
  destruct (mark_run l true todo obj s ch r A0) as (r1 & E1 & A1 & K1).
  destruct (fires_run l todo obj c rev s _ r1 (Some (EventLoop.pollReturnTime_ (loop_ r))) A1)
    as (r2 & s2 & ch2 & k & E2 & A2 & Hc2 & R2 & K2); [done..|].
  destruct (mark_run l false _ obj s2 ch2 r2 A2) as (r3 & E3 & A3 & K3). rewrite Hc2 in *.
  pose proof (step_at_trans _ _ _ _ _ _ _ K1 (step_at_trans _ _ _ _ _ _ _ K2 K3)) as K. rewrite app_nil_r in K.
  exists r3, k. split_and!; [|apply A3|].
  - unfold handleEvent, Channel.handleEvent, Channel.deref. destruct (at_bound _ _ _ _ _ _ _ A0) as (Ht & Htie & _).
    rewrite Hc', bind_ok, Ht, Htie. unfold lock. rewrite Ho. unfold Channel.handleEventWithGuard.
    apply bind_ok_inv in E2 as (x1 & F1 & E2). apply bind_ok_inv in E2 as (x2 & F2 & E2).
    apply bind_ok_inv in E2 as (x3 & F3 & E2).
    fold c in E1. rewrite E1, bind_ok, F1, bind_ok, F2, bind_ok, F3, bind_ok, E2, bind_ok, E3. done.
  - destruct K as [K1' K2' K3' K4' K5']. split; try done.
    + intros o Hn. rewrite K1'; [done|]. intros ->. congruence.
    + intros o s0 Hs0 Hne. rewrite K1'; [done|]. intros ->. rewrite Ho in Hs0. by injection Hs0 as <-.
    + intros o s0 ch0 Hs0 Hcs0 Hch0. rewrite Hc in Hch0. injection Hch0 as <-. destruct (decide (o = obj)) as [->|Hne].
      * rewrite Ho in Hs0. injection Hs0 as <-. exists s2. split; [apply A3|]. split; [done|]. exists (loop_ r1), (loop_ r2).
        pose proof (hosted_chan _ _ _ _ (ready_hosted _ _ _ (at_ready _ _ _ _ _ _ _ A1))) as F1.
        pose proof (hosted_chan _ _ _ _ (ready_hosted _ _ _ (at_ready _ _ _ _ _ _ _ A2))) as F2.
        pose proof (hosted_chan _ _ _ _ (ready_hosted _ _ _ (at_ready _ _ _ _ _ _ _ A3))) as F3.
        change (Channel.chan_of (loop_ r1) c = Some (Channel.set_eventHandling true ch)) in F1.
        change (Channel.chan_of (loop_ r2) (channel_ s2) = Some ch2) in F2.
        change (Channel.chan_of (loop_ r3) (channel_ s2) = Some (Channel.set_eventHandling false ch2)) in F3.
        rewrite Hc2 in F2, F3. unfold same_channel. fold c. by rewrite F1, F2, F3, Hc.
      * by destruct (channels_differ _ _ _ _ _ _ _ _ Hi Hs0 Ho Hne).
Qed.

(** The loop notes something down, or in a channel of its own. *)
Lemma handover l cur todo r w' : Inv l cur todo r -> Service.turning l w' ->
  Service.registry w' = Service.registry (loop_ r) -> Service.asked w' = Service.asked (loop_ r) ->
  (forall c, base <$> Channel.chan_of w' c = base <$> Channel.chan_of (loop_ r) c) ->
  (forall o s, conns r !! o = Some s \/ (o, s) ∈ dying r ->
     Channel.eventHandling_ <$> Channel.chan_of w' (channel_ s) =
     Channel.eventHandling_ <$> Channel.chan_of (loop_ r) (channel_ s)) ->
  Inv l cur todo (mkReactor w' (conns r) (pending r) (dying r)).
Proof.
  intros Hi Ht Hr Ha Hb He. split.
  - done.
  - intros o s Ho. destruct (inv_conns _ _ _ _ Hi _ _ Ho) as (Hs & ch & [Ri Rh Rl Rm Rt Rd] & B). split; [done|].
    destruct Rh as [_ Hc Hl Hreg Hask].
    change (Channel.chan_of (loop_ r) (channel_ s) = Some ch) in Hc.
    change (Service.registry (loop_ r) !! Channel.fd_ ch = Some (channel_ s)) in Hreg.
    change (Service.asked (loop_ r) !! Channel.fd_ ch = Some (watch (Channel.events_ ch))) in Hask.
    specialize (Hb (channel_ s)). specialize (He _ _ (or_introl Ho)).
    rewrite Hc in Hb, He. destruct (Channel.chan_of w' (channel_ s)) as [ch'|] eqn:Hc'; [|done].
    apply (inj Some) in Hb, He.
    pose proof (f_equal Channel.events_ Hb : Channel.events_ ch' = Channel.events_ ch) as Ee.
    pose proof (f_equal Channel.fd_ Hb : Channel.fd_ ch' = Channel.fd_ ch) as Ef.
    exists ch'. split.
    + split; try done.
      * apply (world_inv w' (enter s r) Ri). change (Channel.chan_of (world (enter s r)) _) with (Channel.chan_of (loop_ r) (channel_ s)).
        change (channel_ (enter s r)) with (channel_ s). rewrite Hc, Hc'. exact (f_equal Some Ee).
      * split; [done..|rewrite <- Hl; exact (f_equal Channel.loop_ Hb)| |];
          change (world (enter _ _)) with w'; rewrite Ef; [by rewrite Hr|by rewrite Ha, Ee].
      * intros Hd. rewrite Ee. by apply Rd.
    + apply (bound_agree _ _ ch); first [exact He|exact B|by_fields Hb].
  - intros fd c Hfd. change (Service.registry w' !! fd = Some c) in Hfd. rewrite Hr in Hfd. destruct (inv_own _ _ _ _ Hi _ _ Hfd) as [?|(ch & Hc & Hown)]; [by left|].
    right. specialize (Hb c). rewrite Hc in Hb. destruct (Channel.chan_of w' c) as [ch'|] eqn:Ec; [|done].
    apply (inj Some) in Hb. exists ch'. split; [exact Ec|]. by eapply own_base.
  - apply Hi.
  - destruct (inv_dying _ _ _ _ Hi) as [Hnd Hd]. split; [done|]. intros o s Hos.
    destruct (Hd _ _ Hos) as (Hn & Hst & ch & Hc & Hl & Htie & Heh & Hadd & Hfd). split; [done|]. split; [done|].
    specialize (Hb (channel_ s)). specialize (He _ _ (or_intror Hos)). rewrite Hc in Hb, He. cbn [loop_].
    destruct (Channel.chan_of w' (channel_ s)) as [ch'|] eqn:Ec; [|done]. apply (inj Some) in Hb, He.
    exists ch'. rewrite (f_equal Channel.loop_ Hb : Channel.loop_ ch' = Channel.loop_ ch),
      (f_equal Channel.tie_ Hb : Channel.tie_ ch' = Channel.tie_ ch), He,
      (f_equal Channel.addedToLoop_ Hb : Channel.addedToLoop_ ch' = Channel.addedToLoop_ ch),
      (f_equal Channel.fd_ Hb : Channel.fd_ ch' = Channel.fd_ ch), Hr. by split_and!.
Qed.

(** Reading the eventfd. *)
Lemma wakeup_turning l (w : Loop) : Service.turning l w -> Service.turning l (EventLoop.handleRead w).
Proof. intros [[? ? ?] ?]. split; [by split|done]. Qed.

(** A callback of a channel of the loop itself. *)
Lemma own_fire c ch w cs k test cb arg : Channel.chan_of w c = Some ch ->
  (forall f, cb ch = Some f -> bound_handler f = OnWakeup \/ bound_handler f = OnTimer) ->
  exists w', (w' = w \/ w' = EventLoop.handleRead w) /\
    Channel.fire call c test cb arg (mkReactor w cs k []) = Ok (mkReactor w' cs k []).
Proof.
  intros Hc Hcb. unfold Channel.fire, Channel.deref.
  assert (Channel.chan_of (mkReactor w cs k []) c = Some ch) as -> by exact Hc. rewrite bind_ok.
  destruct (test _); [|by exists w; auto]. destruct (cb ch) as [f|]; [|by exists w; auto].
  unfold call. destruct (Hcb f eq_refl) as [-> | ->]; eauto.
Qed.

Lemma unbound_fire c ch r test cb arg : Channel.chan_of (loop_ r) c = Some ch -> cb ch = None ->
  Channel.fire call c test cb arg r = Ok r.
Proof.
  intros Hc Hcb. unfold Channel.fire, Channel.deref.
  assert (Channel.chan_of r c = Some ch) as -> by exact Hc. rewrite bind_ok, Hcb. by destruct (test _).
Qed.

Lemma own_event l todo r c ch fd : Inv l None todo r -> dying r = [] ->
  Channel.chan_of (loop_ r) c = Some ch -> own_channel ch -> Service.registry (loop_ r) !! fd = Some c ->
  exists r', handleEvent c r = Ok r' /\ Inv l None todo r' /\ event_at c [] r r'.
Proof using PF.
  intros Hi Hdy Hc (Htied & Hclose & Herror & Hwrite & f & Hread & Hf) Hreg.
  destruct r as [w cs k d]. cbn [loop_ dying] in *. subst d.
  set (ch1 := Channel.set_eventHandling true ch). set (w1 := Channel.put_chan c ch1 w).
  destruct (Service.touch l c ch ch1 w) as (T1 & Er1 & Ea1 & _); [apply Hi|done..|].
  assert (exists w2, (w2 = w1 \/ w2 = EventLoop.handleRead w1) /\
    Channel.fire call c Channel.reads Channel.readCallback_ (Some (EventLoop.pollReturnTime_ w)) (mkReactor w1 cs k []) =
      Ok (mkReactor w2 cs k [])) as (w2 & Hw2 & E2).
  { apply (own_fire c ch1); [apply (Channel.chan_put_eq c ch1 w)|]. intros g Hg. cbn in Hg. congruence. }
  assert (Channel.chan_of w2 c = Some ch1 /\ Service.turning l w2 /\ Service.registry w2 = Service.registry w /\
    Service.asked w2 = Service.asked w /\ forall e, e <> c -> Channel.chan_of w2 e = Channel.chan_of w e)
    as (Hc2 & T2 & Er2 & Ea2 & Ho2).
  { assert (forall e, e <> c -> Channel.chan_of w1 e = Channel.chan_of w e) as Hne
      by (intros e Hne; apply Channel.chan_put_ne; congruence).
    pose proof (Channel.chan_put_eq c ch1 w) as Hc1. fold w1 in Hc1, T1, Er1, Ea1.
    destruct Hw2 as [-> | ->]; [done|]. split_and!; try done. by apply wakeup_turning. }
  set (ch3 := Channel.set_eventHandling false ch1). set (w3 := Channel.put_chan c ch3 w2).
  destruct (Service.touch l c ch1 ch3 w2) as (T3 & Er3 & Ea3 & _); [done..|]. fold w3 in T3, Er3, Ea3.
  assert (Channel.chan_of w3 c = Some ch3) as Hc3 by apply (Channel.chan_put_eq c ch3 w2).
  assert (forall e, e <> c -> Channel.chan_of w3 e = Channel.chan_of w e) as Ho3.
  { intros e Hne. unfold w3. rewrite (Channel.chan_put_ne c e) by congruence. by apply Ho2. }
  assert (forall o s, cs !! o = Some s -> channel_ s <> c) as Hnot.
  { intros o s Hs Ecs. destruct (inv_conns _ _ _ _ Hi _ _ Hs) as (_ & ch0 & R0 & Htd & _).
    pose proof (hosted_chan _ _ _ _ (ready_hosted _ _ _ R0)) as Hc0.
    change (Channel.chan_of w (channel_ s) = Some ch0) in Hc0. congruence. }
  exists (mkReactor w3 cs k []). split_and!.
  - unfold handleEvent, Channel.handleEvent, Channel.deref.
    assert (Channel.chan_of (mkReactor w cs k []) c = Some ch) as Hcr by exact Hc. rewrite Hcr, bind_ok, Htied.
    unfold Channel.handleEventWithGuard. cbn [loop_]. rewrite (Channel.modify_ok c _ _ ch Hcr), bind_ok.
    change (Channel.put_chan c (Channel.set_eventHandling true ch) (mkReactor w cs k [])) with (mkReactor w1 cs k []).
    assert (Channel.chan_of w1 c = Some ch1) as Hc1 by apply (Channel.chan_put_eq c ch1 w).
    rewrite (unbound_fire c ch1 (mkReactor w1 cs k []) _ _ _ Hc1), bind_ok by done.
    rewrite (unbound_fire c ch1 (mkReactor w1 cs k []) _ _ _ Hc1), bind_ok, E2, bind_ok by done.
    rewrite (unbound_fire c ch1 (mkReactor w2 cs k []) _ _ _ Hc2), bind_ok by done.
    exact (Channel.modify_ok c _ (mkReactor w2 cs k []) ch1 Hc2).
  - apply (handover l None todo (mkReactor w cs k []) w3 Hi); [done|by rewrite Er3, Er2|by rewrite Ea3, Ea2| |].
    + intros e. destruct (decide (e = c)) as [->|Hne]; [|by rewrite Ho3]. cbn [loop_]. by rewrite Hc3, Hc.
    + intros o s [Hs|Hs]; [|by apply elem_of_nil in Hs]. cbn [loop_]. rewrite Ho3; [done|]. by eapply Hnot.
  - split; cbn [pending dying loop_ conns]; try done.
    + by rewrite app_nil_r.
    + intros e Hne. by rewrite Ho3.
    + intros o s ch0 Hs Ecs. by destruct (Hnot o s Hs).
Qed.

Lemma channel_event_run l todo r c : Inv l None todo r -> dying r = [] -> deliverable c r ->
  exists r' k, handleEvent c r = Ok r' /\ Inv l None (todo ++ k) r' /\ event_at c k r r'.
Proof using PF Hkw Hkr Huser.
  intros Hi Hdy (ch & Hc & [(Hown & fd & Hfd)|(obj & s & Ho & <- & Hord & Hcl & Hroom)]).
  - destruct (own_event l todo r c ch fd) as (r' & E & Hi' & Hev); [done..|].
    exists r', []. by rewrite app_nil_r.
  - by apply (connection_event l todo obj s ch).
Qed.

(** What [loop] notes down besides. *)
Lemma noted_inv l cur todo r f : (forall w : Loop, EventLoop.channels (f w) = EventLoop.channels w /\
    EventLoop.poller_ (f w) = EventLoop.poller_ w /\ EventLoop.this_ (f w) = EventLoop.this_ w /\
    EventLoop.isInLoopThread (f w) = EventLoop.isInLoopThread w) ->
  Inv l cur todo r -> Inv l cur todo (on_loop f r).
Proof.
  intros Hf Hi. destruct (Hf (loop_ r)) as (E1 & E2 & E3 & E4).
  assert (forall c, Channel.chan_of (f (loop_ r)) c = Channel.chan_of (loop_ r) c) as Ec
    by (intros c; exact (f_equal (fun h => h !! c) E1)).
  apply (handover l cur todo r (f (loop_ r)) Hi).
  - destruct (inv_turning _ _ _ _ Hi) as [[Ht _ Hp] Hl]. split; [|by rewrite <- Hl].
    split; [by rewrite <- Ht|done|]. change (inv (EventLoop.poller_ (f (loop_ r))) (EventLoop.channels (f (loop_ r)))).
    by rewrite E1, E2.
  - exact (f_equal Poller.channels_ E2).
  - exact (f_equal interest E2).
  - intros c. by rewrite Ec.
  - intros o s _. by rewrite Ec.
Qed.

(** What an event does not touch is still to be delivered. *)
Lemma deliverable_kept c d k r r' : event_at c k r r' -> d <> c -> deliverable d r -> deliverable d r'.
Proof.
  intros [_ _ Ho Hr _ Hs _] Hne (ch & Hc & Hd). specialize (Ho d Hne). rewrite Hc in Ho.
  destruct (Channel.chan_of (loop_ r') d) as [ch'|] eqn:Hc'; [|done]. apply (inj Some) in Ho.
  assert (Channel.revents_ ch' = Channel.revents_ ch) as Er by exact (f_equal Channel.revents_ Ho).
  exists ch'. split; [exact Hc'|]. rewrite Hr, Er.
  destruct Hd as [(Hown & Hfd)|(obj & s & Hobj & Hcs & Hrest)]; [left; split; [by eapply own_strip|done]|right].
  exists obj, s. split; [apply Hs; congruence|done].
Qed.

(** What the events at the channels [l] do. *)
Record events_at (l : list Z) (k : list item) (r r' : Reactor) : Prop := {
  evs_pending : pending r' = pending r ++ k;
  evs_dying : dying r' = dying r;
  evs_others : forall d, d ∉ l -> same_channel d (loop_ r') (loop_ r);
  evs_none : forall o, conns r !! o = None -> conns r' !! o = None;
  evs_spared : forall o s, conns r !! o = Some s -> channel_ s ∉ l -> conns r' !! o = Some s;
  evs_struck : forall o s ch, conns r !! o = Some s -> channel_ s ∈ l ->
    Channel.chan_of (loop_ r) (channel_ s) = Some ch ->
    exists t, conns r' !! o = Some t /\ answered (Channel.revents_ ch) (loop_ r) (loop_ r') s t
}.

Lemma events_at_cons c l k1 k2 r1 r2 r3 : c ∉ l -> event_at c k1 r1 r2 -> events_at l k2 r2 r3 ->
  events_at (c :: l) (k1 ++ k2) r1 r3.
Proof.
  intros Hcl [A1 A2 A3 A4 A5 A6 A7] [B1 B2 B0 B3 B4 B5].
  assert (forall d, d <> c -> same_channel d (loop_ r2) (loop_ r1)) as A0.
  { intros d Hd. symmetry. by apply (same_others c). }
  split.
  - by rewrite B1, A1, app_assoc.
  - congruence.
  - intros d Hd. apply not_elem_of_cons in Hd as [Hne Hd]. unfold same_channel in *. by rewrite B0, A0.
  - auto.
  - intros o s Hs Hn. apply not_elem_of_cons in Hn as [Hne Hn]. auto.
  - intros o s ch Hs Hin Hc. destruct (decide (channel_ s = c)) as [<-|Hne].
    + destruct (A7 o s ch Hs eq_refl Hc) as (t & Ht & Ha). exists t. split.
      * apply B4; [done|]. by rewrite (proj1 Ha).
      * eapply answered_same; [done| |exact Ha]. symmetry. by apply B0.
    + apply elem_of_cons in Hin as [?|Hin]; [done|]. pose proof (A3 _ Hne) as Hoth. rewrite Hc in Hoth.
      destruct (Channel.chan_of (loop_ r2) (channel_ s)) as [ch2|] eqn:Hc2; [|done]. apply (inj Some) in Hoth.
      destruct (B5 o s ch2) as (t & Ht & Ha); [by apply A6|done|exact Hc2|]. exists t. split; [done|].
      rewrite <- (f_equal Channel.revents_ Hoth : Channel.revents_ ch2 = Channel.revents_ ch).
      eapply answered_same; [by apply A0|done|exact Ha].
Qed.

Lemma dispatch_active_run l cs r : forall todo, Inv l None todo r -> dying r = [] -> NoDup cs ->
  (forall c, c ∈ cs -> deliverable c r) ->
  exists r' k, dispatch_active cs r = Ok r' /\ Inv l None (todo ++ k) r' /\ events_at cs k r r'.
Proof using PF Hkw Hkr Huser.
  revert r. induction cs as [|c cs IH]; intros r todo Hi Hdy Hnd Hdel; cbn [dispatch_active].
  - exists r, []. rewrite app_nil_r. split_and!; [done..|]. split; try done; [by rewrite app_nil_r|].
    intros o s ch _ Hin. by apply elem_of_nil in Hin.
  - apply NoDup_cons in Hnd as [Hc Hnd].
    set (r0 := on_loop (EventLoop.with_current true (Some c)) r).
    assert (Inv l None todo r0) as Hi0 by (by apply noted_inv).
    destruct (channel_event_run l todo r0 c Hi0 Hdy (Hdel c ltac:(left))) as (r1 & k1 & E1 & Hi1 & Hev).
    rewrite E1, bind_ok. destruct (IH r1 (todo ++ k1) Hi1) as (r2 & k2 & E2 & Hi2 & Hevs); [|done| |].
    + rewrite (ev_dying _ _ _ _ Hev). exact Hdy.
    + intros d Hd. apply (deliverable_kept c d k1 r0 r1 Hev); [congruence|]. apply Hdel. by right.
    + exists r2, (k1 ++ k2). rewrite app_assoc. split_and!; [done..|].
      by destruct (events_at_cons c cs k1 k2 r0 r1 r2 Hc Hev Hevs).
Qed.

(** The poller's report, which says of each ready descriptor what happened: no hang-up
    of a connection comes with urgent data, and what is read finds room. *)
Definition sensible (evs : list (Z * Z)) (r : Reactor) : Prop := forall fd rev o s, (fd, rev) ∈ evs ->
  conns r !! o = Some s -> Service.registry (loop_ r) !! fd = Some (channel_ s) ->
  orderly rev = true /\ (Channel.readable rev = true -> roomy s).

Record dispatched (evs : list (Z * Z)) (r r' : Reactor) : Prop := {
  disp_none : forall o, conns r !! o = None -> conns r' !! o = None;
  disp_spared : forall o s, conns r !! o = Some s ->
    (forall fd rev, (fd, rev) ∈ evs -> Service.registry (loop_ r) !! fd <> Some (channel_ s)) -> conns r' !! o = Some s;
  disp_struck : forall fd rev o s, (fd, rev) ∈ evs -> conns r !! o = Some s ->
    Service.registry (loop_ r) !! fd = Some (channel_ s) ->
    exists t, conns r' !! o = Some t /\ answered rev (loop_ r) (loop_ r') s t
}.

Lemma mark_ready_keeps {B} (f : Channel.Channel -> B) l (h : heap) c :
  (forall rev ch, f (Channel.set_revents rev ch) = f ch) -> f <$> mark_ready l h !! c = f <$> h !! c.
Proof.
  intros Hf. revert h. induction l as [|[d rev] l IH]; intros h; [done|]. cbn [mark_ready]. rewrite IH.
  destruct (decide (d = c)) as [->|Hne]; [|by rewrite lookup_alter_ne].
  rewrite lookup_alter_eq, <- option_fmap_compose. destruct (h !! c); cbn; [by rewrite Hf|done].
Qed.

(** The channels of different descriptors are different. *)
Lemma reported_nodup (p : P) h cs (evs : list (Z * Z)) : inv p h -> NoDup evs.*1 ->
  Forall2 (fun c fr => channels_ p !! fst fr = Some c) cs evs -> NoDup cs.
Proof.
  intros Hi Hnd Hall. induction Hall as [|c [fd rev] cs evs Hc Hall IH]; [constructor|].
  cbn in *. apply NoDup_cons in Hnd as [Hfd Hnd]. apply NoDup_cons. split; [|by apply IH].
  intros Hin. apply list_elem_of_lookup in Hin as (i & Hi'). destruct (Forall2_lookup_l _ _ _ _ _ Hall Hi') as ([fd2 rev2] & H2 & Hc2).
  cbn in Hc2. destruct (registered_channel _ _ _ _ Hi Hc) as (ch & E1 & E2 & _).
  destruct (registered_channel _ _ _ _ Hi Hc2) as (ch2 & E3 & E4 & _). assert (fd = fd2) as -> by congruence.
  apply Hfd. apply list_elem_of_fmap. exists (fd2, rev2). split; [done|]. by eapply list_elem_of_lookup_2.
Qed.

(** What the poller hands over: [c] is the channel of the descriptor [fd], which is
    watched, and on which [rev] happened. *)
Record reported (evs : list (Z * Z)) (w : Loop) (h : heap) (c fd rev : Z) : Prop := {
  rep_event : (fd, rev) ∈ evs;
  rep_registry : Service.registry w !! fd = Some c;
  rep_asked : exists ev, Service.asked w !! fd = Some (Some ev);
  rep_channel : exists ch, Channel.chan_of w c = Some ch /\ Channel.fd_ ch = fd /\
    h !! c = Some (Channel.set_revents rev ch)
}.

Lemma poll_report_run l r a now evs : Inv l None (pending r) r ->
  lawful (EventLoop.poller_ (loop_ r)) a evs ->
  exists cs p h, Poller.poll a (EventLoop.poller_ (loop_ r)) (EventLoop.channels (loop_ r)) = Ok (cs, p, h) /\
    NoDup cs /\ Inv l None (pending r) (on_loop (EventLoop.with_poll p h cs now) r) /\
    channels_ p = Service.registry (loop_ r) /\
    (forall c, c ∈ cs -> exists fd rev, reported evs (loop_ r) h c fd rev) /\
    (forall fd rev, (fd, rev) ∈ evs -> exists c, c ∈ cs /\ reported evs (loop_ r) h c fd rev).
Proof using PF.
  intros Hi Hlaw. set (w := loop_ r) in *. destruct (inv_turning _ _ _ _ Hi) as [[Hth Hhd Hpi] Hl].
  destruct (poll_ready (EventLoop.poller_ w) (EventLoop.channels w) a evs Hpi Hlaw)
    as (cs & p & h & Ep & Hpi' & Ech & Eint & _ & Hnd & Hall & Eh).
  assert (NoDup cs) as Hndc.
  { eapply reported_nodup; [exact Hpi|exact Hnd|]. eapply Forall2_impl; [exact Hall|]. by intros c fr [? _]. }
  assert (forall i c fd rev, cs !! i = Some c -> evs !! i = Some (fd, rev) -> reported evs w h c fd rev) as Hrep.
  { intros i c fd rev Hc He. destruct (Forall2_lookup_lr _ _ _ _ _ _ Hall Hc He) as [Hreg Hint].
    destruct (registered_channel _ _ _ _ Hpi Hreg) as (ch & Hch & Hfd & _).
    split; [by eapply list_elem_of_lookup_2|exact Hreg|exact Hint|]. exists ch. split_and!; [exact Hch|done|].
    rewrite Eh. apply mark_ready_at; [| |done].
    - rewrite fst_zip; [done|]. rewrite length_fmap. by erewrite Forall2_length.
    - apply (list_elem_of_lookup_2 _ i). apply lookup_zip_with_Some. exists c, rev. split_and!; [done..|].
      by rewrite list_lookup_fmap, He. }
  exists cs, p, h. split_and!; [done|done| |exact Ech| |].
  - apply (handover l None _ _ (EventLoop.with_poll p h cs now w) Hi); [split; [by split|done]|exact Ech|exact Eint| |].
    + intros c. change (base <$> h !! c = base <$> EventLoop.channels w !! c). rewrite Eh. by apply mark_ready_keeps.
    + intros o s _. change (Channel.eventHandling_ <$> h !! channel_ s = Channel.eventHandling_ <$> EventLoop.channels w !! channel_ s).
      rewrite Eh. by apply mark_ready_keeps.
  - intros c Hc. apply list_elem_of_lookup in Hc as (i & Hc).
    destruct (Forall2_lookup_l _ _ _ _ _ Hall Hc) as ([fd rev] & He & _). eauto.
  - intros fd rev He. apply list_elem_of_lookup in He as (i & He).
    destruct (Forall2_lookup_r _ _ _ _ _ Hall He) as (c & Hc & _). exists c. split; [by eapply list_elem_of_lookup_2|eauto].
Qed.

(** It is deliverable: a connection that is down asks for nothing. *)
Lemma reported_deliverable l r evs p h cs now c fd rev : Inv l None (pending r) r -> sensible evs r ->
  channels_ p = Service.registry (loop_ r) -> reported evs (loop_ r) h c fd rev ->
  deliverable c (on_loop (EventLoop.with_poll p h cs now) r).
Proof using PF.
  intros Hi Hsens Ep [Hev Hreg (ev & Hask) (ch & Hch & Hfd & Hh)].
  exists (Channel.set_revents rev ch). split; [exact Hh|].
  destruct (inv_own _ _ _ _ Hi fd c Hreg) as [(obj & s & Ho & <-)|(ch2 & Hc2 & Hown)].
  - right. exists obj, s. destruct (Hsens fd rev obj s) as [Hord Hroom]; [done..|]. split_and!; try done.
    destruct (inv_conns _ _ _ _ Hi _ _ Ho) as (Hs & ch2 & [_ Rh _ _ _ Rd] & _).
    pose proof (hosted_chan _ _ _ _ Rh) as Hc2. pose proof (hosted_asked _ _ _ _ Rh) as Ha.
    change (Channel.chan_of (loop_ r) (channel_ s) = Some ch2) in Hc2.
    change (Service.asked (loop_ r) !! Channel.fd_ ch2 = Some (watch (Channel.events_ ch2))) in Ha.
    assert (ch2 = ch) as -> by congruence. rewrite Hfd, Hask in Ha.
    assert (state_ s <> kDisconnected) as Hup. { intros Hd. rewrite (Rd Hd) in Ha. done. }
    unfold closing. destruct (state_ s); done.
  - left. rewrite Hch in Hc2. injection Hc2 as <-. split; [by apply (own_agree ch)|]. exists fd.
    change (channels_ p !! fd = Some c). by rewrite Ep.
Qed.

Lemma dispatch_run l r a now evs : Inv l None (pending r) r -> dying r = [] ->
  lawful (EventLoop.poller_ (loop_ r)) a evs -> sensible evs r ->
  exists r', dispatch a now r = Ok r' /\ Inv l None (pending r') r' /\ dying r' = [] /\
    dispatched evs r r' /\ forall c, Service.removable c (loop_ r').
Proof using PF Hkw Hkr Huser.
  intros Hi Hdy Hlaw Hsens.
  destruct (poll_report_run l r a now evs Hi Hlaw) as (cs & p & h & Ep & Hnd & Hi0 & Ech & Hcs & Hevs).
  unfold dispatch. rewrite Ep, bind_ok. cbn zeta. set (r0 := on_loop (EventLoop.with_poll p h cs now) r) in *.
  set (r1 := on_loop _ r0). change (EventLoop.activeChannels_ (loop_ r1)) with cs.
  destruct (dispatch_active_run l cs r1 (pending r)) as (r2 & k & E & Hi2 & [D1 D2 _ D3 D4 D5]);
    [by apply noted_inv|exact Hdy|done| |].
  { intros c Hc. destruct (Hcs c Hc) as (fd & rev & Hrep). by eapply reported_deliverable. }
  change (pending r2 = pending r ++ k) in D1. change (dying r2 = dying r) in D2. rewrite Hdy in D2.
  rewrite E, bind_ok. eexists. split_and!; [done| |exact D2| |by intros c [=]].
  - apply noted_inv; [done|]. change (Inv l None (pending r2) r2). by rewrite D1.
  - split; cbn [on_loop conns].
    + exact D3.
    + intros o s Ho Hn. apply D4; [done|]. intros Hin. destruct (Hcs _ Hin) as (fd & rev & [Hev Hreg _ _]). by eapply Hn.
    + intros fd rev o s Hev Ho Hreg. destruct (Hevs fd rev Hev) as (c & Hc & [_ Hreg' _ (ch & Hch & _ & Hh)]).
      assert (c = channel_ s) as -> by congruence.
      destruct (D5 o s (Channel.set_revents rev ch) Ho Hc Hh) as (t & Ht & Ha). exists t. split; [exact Ht|].
      eapply answered_same; [|done|exact Ha]. unfold same_channel. rewrite Hch.
      change (base <$> h !! channel_ s = base <$> Some ch). by rewrite Hh.
Qed.

(** ** Functors *)

Lemma registered_fd l (w : Loop) fd c ch : Service.turning l w -> Service.registry w !! fd = Some c ->
  Channel.chan_of w c = Some ch -> Channel.fd_ ch = fd.
Proof. intros [[_ _ Hi] _] Hr Hc. exact (LoopLife.registered_own _ _ _ _ _ Hi Hr Hc). Qed.

(** Every channel may be taken off: no event is being handed out. *)
Definition unguarded (r : Reactor) : Prop := forall c, Service.removable c (loop_ r).

(** A functor of a connection is at the head of its queue, or the connection is down
    and has no other left. *)
Lemma todo_head l i todo r : Inv l None (i :: todo) r -> exists s, conns r !! item_object i = Some s /\
  match i with
  | Functor obj => (exists t ts, tasks s = t :: ts) /\ mine obj todo = waiting obj (pop s)
  | Destroyed obj => state_ s = kDisconnected /\ mine obj todo = []
  end.
Proof.
  intros Hi. pose proof (inv_todo _ _ _ _ Hi (item_object i)) as Hm. unfold mine in Hm.
  rewrite filter_cons_True in Hm by done. fold (mine (item_object i) todo) in Hm.
  destruct (conns r !! item_object i) as [s|]; [|done]. exists s. split; [done|].
  unfold waiting in Hm. destruct (tasks s) as [|t ts] eqn:Et; cbn in Hm.
  - case_bool_decide; [|done]. injection Hm as Hi' Hm. destruct i; by simplify_eq/=.
  - injection Hm as Hi' Hm. destruct i as [obj|obj]; [|by simplify_eq/=]. split; [by exists t, ts|].
    unfold waiting, pop. cbn. by rewrite Et.
Qed.

(** The functor is taken from the queue. *)
Lemma pop_inv l todo obj r s t ts : Inv l None (Functor obj :: todo) r -> conns r !! obj = Some s ->
  tasks s = t :: ts -> mine obj todo = waiting obj (pop s) ->
  Inv l None todo (mkReactor (loop_ r) (<[obj := pop s]> (conns r)) (pending r) (dying r)).
Proof.
  intros Hi Ho Et Hm. destruct (inv_conns _ _ _ _ Hi _ _ Ho) as (Hs & ch & [Ri Rh Rl Rm Rt Rd] & B).
  split; cbn [loop_ conns dying].
  - apply Hi.
  - intros o s2 H2. apply lookup_insert_Some in H2 as [[<- <-]|[Hne H2]]; [|by apply (inv_conns _ _ _ _ Hi)].
    split; [done|]. exists ch. split; [|done]. cbn in Rt. rewrite Et in Rt. apply Forall_cons in Rt as [_ Rt].
    split; try done; [exact (tasks_inv _ _ (enter s r) Ri)|]. cbn. by rewrite Et.
  - intros fd c Hfd. destruct (inv_own _ _ _ _ Hi _ _ Hfd) as [(o & s2 & H2 & Hc)|Hown]; [left|by right].
    destruct (decide (o = obj)) as [->|Hne]; [|exists o, s2; by rewrite lookup_insert_ne].
    exists obj, (pop s). rewrite lookup_insert_eq. split; [done|]. assert (s2 = s) as -> by congruence. exact Hc.
  - intros o. destruct (decide (o = obj)) as [->|Hne]; [by rewrite lookup_insert_eq|].
    rewrite lookup_insert_ne by done. rewrite <- (inv_todo _ _ _ _ Hi o). unfold mine.
    by rewrite filter_cons_False by (cbn; congruence).
  - destruct (inv_dying _ _ _ _ Hi) as [Hnd Hd]. split; [done|]. intros o s2 Hos. destruct (Hd _ _ Hos) as [Hn ?].
    split; [|done]. rewrite lookup_insert_ne; [done|]. intros ->. congruence.
Qed.

(** One functor, of those that [run_items] takes one by one. *)
Lemma functor_item_run l todo obj r : Inv l None (Functor obj :: todo) r -> unguarded r ->
  exists r' k, run_item (Functor obj) r = Ok r' /\ Inv l None (todo ++ k) r' /\ pending r' = pending r ++ k /\
    unguarded r' /\ forall o, conns r !! o = None -> conns r' !! o = None.
Proof using PF Hkw Hkr Huser.
  intros Hi Hu. destruct (todo_head _ _ _ _ Hi) as (s & Ho & (t & ts & Et) & Hm). cbn [item_object] in Ho.
  pose proof (pop_inv l todo obj r s t ts Hi Ho Et Hm) as Hi0.
  set (r0 := mkReactor _ _ _ _) in Hi0.
  assert (conns r0 !! obj = Some (pop s)) as Ho0 by apply lookup_insert_eq.
  destruct (inv_conns _ _ _ _ Hi _ _ Ho) as (_ & ch & Hr & Hb).
  destruct (inv_conns _ _ _ _ Hi0 _ _ Ho0) as (_ & ch0 & Hr0 & Hb0).
  pose proof (hosted_chan _ _ _ _ (ready_hosted _ _ _ Hr)) as Hc.
  pose proof (hosted_chan _ _ _ _ (ready_hosted _ _ _ Hr0)) as Hc0.
  assert (ch0 = ch) as -> by (change (Channel.chan_of (world (enter s r)) (channel_ (enter s r)) = Some ch0) in Hc0; congruence).
  destruct (run_task_run kwrite Hkw (callbacks user) Huser l ch (enter s r) t ts Hr Et) as (s' & ch' & E & T).
  assert (enter (pop s) r0 = set_tasks ts (delayed (enter s r)) (enter s r)) as Ep by (unfold pop; by rewrite Et).
  rewrite <- Ep in T.
  assert (turned (enter (pop s) r0) s') as Htd by
    exact (proj2 (proj2 (proj2 (run_task_inv kwrite Hkw _ _ _ (ready_inv _ _ _ Hr) E)))).
  destruct (turned_aside l ch _ _ _ (ready_hosted _ _ _ Hr0) T) as [Hap _].
  pose proof (settle_inv l None todo r0 obj (pop s) ch s' ch' Hi0 Ho0 Hr0 Hb0 T Htd) as Hi1.
  assert (settle obj (pop s) s' r0 = settle obj (pop s) s' r) as Es.
  { unfold settle, r0. cbn. by rewrite insert_insert_eq. }
  rewrite Es in Hi1. exists (settle obj (pop s) s' r), (queued obj (pop s) s'). split_and!.
  - unfold run_item. cbn [item_object]. by rewrite Ho, E, bind_ok.
  - done.
  - done.
  - intros c. apply (apart_removable _ _ _ _ Hap). apply Hu.
  - intros o Hn. cbn. rewrite lookup_insert_ne; [done|]. intros ->. congruence.
Qed.

(** The last functor of a connection that is down. *)
Lemma destroyed_item_run l todo obj r : Inv l None (Destroyed obj :: todo) r -> unguarded r ->
  exists r', run_item (Destroyed obj) r = Ok r' /\ Inv l None todo r' /\ pending r' = pending r /\
    unguarded r' /\ conns r' = delete obj (conns r).
Proof using PF.
  intros Hi Hu. destruct (todo_head _ _ _ _ Hi) as (s & Ho & Hd & Hm). cbn [item_object] in Ho.
  destruct (inv_conns _ _ _ _ Hi _ _ Ho) as (_ & ch & Hr & Hb).
  destruct (destroyed_ok kwrite (callbacks user) l ch (enter s r) Hr Hd (Hu _)) as (w' & ch' & E & Ht & Hc' & Hst & [Hap Hreg]).
  pose proof (ready_hosted _ _ _ Hr) as Hh.
  change (hosted l (channel_ s) ch (loop_ r)) in Hh. change (Channel.chan_of w' (channel_ s) = Some ch') in Hc'.
  change (apart (channel_ s) (Channel.fd_ ch) (loop_ r) w') in Hap.
  change (Service.registry w' = delete (Channel.fd_ ch) (Service.registry (loop_ r))) in Hreg.
  destruct (kept_others l None _ r obj s ch w' Hi Ho Hh Ht Hap) as (Kc & Ko & Kd).
  { intros fd Hfd. rewrite Hreg, lookup_delete_None. by right. }
  eexists. unfold run_item. cbn [item_object]. rewrite Ho, E, bind_ok. split_and!; [done| |done| |done].
  - split; cbn [loop_ conns dying world set_world].
    + done.
    + intros o s2 H2. apply lookup_delete_Some in H2 as [Hne H2].
      split; [by apply (inv_conns _ _ _ _ Hi _ _ H2)|]. by apply Kc.
    + intros fd c Hfd. rewrite Hreg in Hfd. apply lookup_delete_Some in Hfd as [Hne Hfd].
      destruct (inv_own _ _ _ _ Hi _ _ Hfd) as [(o & s2 & H2 & <-)|Hown].
      * left. exists o, s2. split; [|done]. rewrite lookup_delete_ne; [done|]. intros <-.
        assert (s2 = s) as -> by congruence. destruct Hne.
        by apply (registered_fd l (loop_ r) fd (channel_ s)); [apply Hi|done|apply Hh].
      * right. apply Ko; [|done]. intros ->. destruct Hne.
        by apply (registered_fd l (loop_ r) fd (channel_ s)); [apply Hi|done|apply Hh].
    + intros o. destruct (decide (o = obj)) as [->|Hne]; [by rewrite lookup_delete_eq|].
      rewrite lookup_delete_ne by done. rewrite <- (inv_todo _ _ _ _ Hi o). unfold mine.
      by rewrite filter_cons_False by (cbn; congruence).
    + destruct (inv_dying _ _ _ _ Hi) as [Hnd Hdy]. split.
      * rewrite fmap_app. apply NoDup_app. split_and!; [done| |apply NoDup_singleton].
        intros o Hin Hob. apply list_elem_of_singleton in Hob. cbn in Hob. subst o.
        apply list_elem_of_fmap in Hin as ([o s2] & -> & Hin). destruct (Hdy _ _ Hin) as [Hn _]. cbn in Ho. congruence.
      * intros o s2 Hin. apply elem_of_app in Hin as [Hin|Hin].
        { split; [|by apply Kd]. rewrite lookup_delete_None. right. by apply (Hdy _ _ Hin). }
        apply list_elem_of_singleton in Hin. injection Hin as -> ->. split; [apply lookup_delete_eq|].
        split; [done|]. exists ch'. destruct Hb as (_ & Htie & _ & _ & _ & _ & He). split_and!.
        -- exact Hc'.
        -- rewrite <- (hosted_loop _ _ _ _ Hh). exact (f_equal Channel.loop_ Hst).
        -- rewrite <- Htie. exact (f_equal Channel.tie_ Hst).
        -- transitivity (Channel.eventHandling_ ch); [exact (f_equal Channel.eventHandling_ Hst)|done].
        -- exact (f_equal Channel.addedToLoop_ Hst).
        -- rewrite Hreg. rewrite (f_equal Channel.fd_ Hst : Channel.fd_ ch' = Channel.fd_ ch). apply lookup_delete_eq.
  - intros c. apply (apart_removable _ _ _ _ Hap). apply Hu.
Qed.

Lemma run_items_run l fs : forall r, Inv l None (fs ++ pending r) r -> unguarded r ->
  exists r', run_items fs r = Ok r' /\ Inv l None (pending r') r' /\ unguarded r' /\
    (forall o, conns r !! o = None -> conns r' !! o = None) /\
    (forall o, Destroyed o ∈ fs -> conns r' !! o = None).
Proof using PF Hkw Hkr Huser.
  induction fs as [|i fs IH]; intros r Hi Hu; cbn [run_items].
  - exists r. split_and!; try done. intros o Hin. by apply elem_of_nil in Hin.
  - assert (exists r1, run_item i r = Ok r1 /\ Inv l None (fs ++ pending r1) r1 /\ unguarded r1 /\
      (forall o, conns r !! o = None -> conns r1 !! o = None) /\
      (forall o, i = Destroyed o -> conns r1 !! o = None)) as (r1 & E1 & Hi1 & Hu1 & Hn1 & Hd1).
    { destruct i as [obj|obj].
      - destruct (functor_item_run l (fs ++ pending r) obj r Hi Hu) as (r1 & k & E & Hi1 & Ep & Hu1 & Hn).
        exists r1. rewrite Ep, app_assoc. done.
      - destruct (destroyed_item_run l (fs ++ pending r) obj r Hi Hu) as (r1 & E & Hi1 & Ep & Hu1 & Ec).
        exists r1. rewrite Ep, Ec. split_and!; try done.
        + intros o Hn. rewrite lookup_delete_None. by right.
        + intros o [= ->]. apply lookup_delete_eq. }
    rewrite E1, bind_ok. destruct (IH r1 Hi1 Hu1) as (r' & E & Hi' & Hu' & Hn & Hd).
    exists r'. split_and!; try done; [by auto|]. intros o Hin. apply elem_of_cons in Hin as [<-|Hin]; auto.
Qed.

(** The channel of a retired connection is destroyed. *)
Lemma bury_one l todo r obj s d : Inv l None todo r -> dying r = (obj, s) :: d -> unguarded r ->
  exists w', Channel.destroy (channel_ s) (loop_ r) = Ok w' /\ destroy s = Ok tt /\
    Inv l None todo (mkReactor w' (conns r) (pending r) d) /\ forall c, Service.removable c w'.
Proof using PF.
  intros Hi Hdy Hu. destruct (inv_dying _ _ _ _ Hi) as [Hnd Hd]. rewrite Hdy in Hnd, Hd.
  destruct (Hd obj s ltac:(left)) as [Hn (Hst & ch & Hc & Hl & Htie & He & Ha & Hfd)].
  destruct (Service.unmake l (channel_ s) ch (loop_ r) (inv_turning _ _ _ _ Hi) Hc Hl He Ha Hfd)
    as (w' & E & Ht & Er & Ea & _ & Hrm).
  pose proof (Channel.destroy_others _ _ _ E) as Hoth.
  assert (apart (channel_ s) (Channel.fd_ ch) (loop_ r) w') as Hap.
  { split; [by rewrite Er|by rewrite Ea|done|done]. }
  destruct (kept_rest l None todo r (channel_ s) (Channel.fd_ ch) w' Hi Ht Hap ltac:(intros d' Hd'; congruence))
    as [Kc Ko Kd].
  exists w'. split; [done|]. split; [by unfold destroy; rewrite Hst|].
  split; [|by intros c; apply Hrm, Hu]. split; cbn [loop_ conns dying].
  - done.
  - intros o s2 H2. split; [by apply (inv_conns _ _ _ _ Hi _ _ H2)|]. apply Kc; [done|].
    intros E2. symmetry in E2. revert E2. eapply dying_differs; [exact Hi|exact H2|rewrite Hdy; left].
  - intros fd c Hreg. rewrite Er in Hreg. destruct (inv_own _ _ _ _ Hi _ _ Hreg) as [?|Hown]; [by left|right].
    apply Ko; [|done]. intros ->.
    rewrite <- (registered_fd l (loop_ r) fd (channel_ s) ch (inv_turning _ _ _ _ Hi) Hreg Hc) in Hreg. congruence.
  - apply Hi.
  - cbn in Hnd. apply NoDup_cons in Hnd as [Hobj Hnd]. split; [done|]. intros o s2 Hin.
    destruct (Hd o s2 ltac:(by right)) as [Hn2 Hr2]. split; [done|].
    apply Kd; [by rewrite Er|by rewrite Hdy; right|]. intros Ec. destruct Hr2 as (_ & ch2 & Hc2 & _ & Htie2 & _). rewrite Ec, Hc in Hc2.
    injection Hc2 as <-. rewrite Htie in Htie2. injection Htie2 as <-. apply Hobj.
    apply list_elem_of_fmap. by exists (obj, s2).
Qed.

Lemma bury_run l todo d : forall r, Inv l None todo r -> dying r = d -> unguarded r ->
  exists w', bury d (loop_ r) = Ok w' /\ Inv l None todo (mkReactor w' (conns r) (pending r) []) /\
    forall c, Service.removable c w'.
Proof using PF.
  induction d as [|[obj s] d IH]; intros r Hi Hdy Hu; cbn [bury].
  - exists (loop_ r). split_and!; [done| |done]. by destruct r; cbn in Hdy; subst.
  - destruct (bury_one l todo r obj s d Hi Hdy Hu) as (w1 & E1 & E2 & Hi1 & Hu1). rewrite E2, bind_ok, E1, bind_ok.
    by destruct (IH _ Hi1 eq_refl Hu1) as (w2 & E3 & Hi2 & Hu2); exists w2.
Qed.

(** Between two rounds. *)
Record serving (l : Z) (r : Reactor) : Prop := {
  serving_inv : Inv l None (pending r) r;
  serving_dying : dying r = [];
  serving_unguarded : unguarded r
}.

Lemma doPendingFunctors_run l r : serving l r -> exists r', doPendingFunctors r = Ok r' /\ serving l r' /\
    (forall o, conns r !! o = None -> conns r' !! o = None) /\
    (forall o, Destroyed o ∈ pending r -> conns r' !! o = None).
Proof using PF Hkw Hkr Huser.
  intros [Hi Hdy Hu]. unfold doPendingFunctors. cbn zeta. set (r0 := mkReactor _ _ _ _).
  assert (Inv l None (pending r ++ pending r0) r0) as Hi0.
  { rewrite app_nil_r. pose proof (noted_inv l None (pending r) r (EventLoop.with_calling true) ltac:(done) Hi) as [? ? ? ? ?].
    by split. }
  destruct (run_items_run l (pending r) r0 Hi0 Hu) as (r1 & E1 & Hi1 & Hu1 & Hn & Hd). rewrite E1, bind_ok.
  pose proof (noted_inv l None (pending r1) r1 (EventLoop.with_calling false) ltac:(done) Hi1) as Hi2.
  destruct (bury_run l (pending r1) (dying r1) _ Hi2 eq_refl Hu1) as (w' & E2 & Hi3 & Hu3).
  change (bury (dying r1) (EventLoop.with_calling false (loop_ r1)) = Ok w') in E2.
  cbn [on_loop dying loop_ conns pending]. rewrite E2, bind_ok.
  eexists. split_and!; [done|by split|done|done].
Qed.

Lemma round_run l r a now evs : serving l r -> lawful (EventLoop.poller_ (loop_ r)) a evs -> sensible evs r ->
  exists r1 r', dispatch a now r = Ok r1 /\ round a now r = Ok r' /\ serving l r' /\ dispatched evs r r1 /\
    Inv l None (pending r1) r1 /\
    (forall o, conns r !! o = None -> conns r' !! o = None) /\
    (forall o, Destroyed o ∈ pending r1 -> conns r' !! o = None).
Proof using PF Hkw Hkr Huser.
  intros [Hi Hdy Hu] Hlaw Hsens.
  destruct (dispatch_run l r a now evs Hi Hdy Hlaw Hsens) as (r1 & E1 & Hi1 & Hdy1 & Hd & Hu1).
  destruct (doPendingFunctors_run l r1) as (r' & E2 & Hs & Hn & Hgone); [by split|].
  exists r1, r'. unfold round. rewrite E1, bind_ok. split_and!; try done.
  intros o Ho. by apply Hn, (disp_none _ _ _ Hd).
Qed.

(** ** From outside *)

(** A place for a new connection. *)
Record vacant (obj c fd : Z) (r : Reactor) : Prop := {
  vacant_conn : conns r !! obj = None;
  vacant_chan : Channel.chan_of (loop_ r) c = None;
  vacant_fd : 0 <= fd /\ Service.registry (loop_ r) !! fd = None;
  vacant_room : Service.room 1 (loop_ r)
}.

Lemma create_fresh l obj c fd r : serving l r -> vacant obj c fd r -> exists s ch,
  create (bind_ OnRead obj) (bind_ OnWrite obj) (bind_ OnClose obj) (bind_ OnError obj) c
    (EventLoop.this_ (loop_ r)) fd (loop_ r) = Ok s /\ fresh l ch s /\ channel_ s = c /\ Channel.fd_ ch = fd /\
  trace s = [] /\ apart c fd (loop_ r) (world s) /\ Service.registry (world s) = Service.registry (loop_ r) /\
  bound false obj (Channel.tie obj ch).
Proof using PF.
  intros [Hi Hdy Hu] [Ho Hc [Hfd Hreg] Hroom]. pose proof (inv_turning _ _ _ _ Hi) as Ht.
  set (ch := Channel.setErrorCallback (Some (bind_ OnError obj)) (Channel.setCloseCallback (Some (bind_ OnClose obj))
    (Channel.setWriteCallback (Some (bind_ OnWrite obj)) (Channel.setReadCallback (Some (bind_ OnRead obj))
      (Channel.new (EventLoop.this_ (loop_ r)) fd))))).
  destruct (Service.make l c ch (loop_ r) Ht Hc) as (Ht' & Er & Ea & Hn & Hrm).
  destruct (create _ _ _ _ _ _ _ _) as [s|e] eqn:E.
  2:{ unfold create in E. destruct (Buffer.new_ok Buffer.kInitialSize ltac:(split; vm_compute; discriminate)) as (b & Eb & _).
      by rewrite Eb, !bind_ok in E. }
  destruct (create_initial _ _ _ _ _ _ _ _ _ E) as (Hin & Hst & Hcs & Hts & Hoth).
  assert (inLoop s = true /\ highWaterMarkCallback_ s = false /\ trace s = [] /\ world s = Channel.put_chan c ch (loop_ r))
    as (Hl & Hm & Htr & Hw).
  { unfold create in E. inv_ok. by subst s. }
  exists s, ch. rewrite Hw in *. split; [done|].
  assert (apart c fd (loop_ r) (Channel.put_chan c ch (loop_ r))) as Ha.
  { split; [by rewrite Er|by rewrite Ea| |done]. intros d Hd. by rewrite (Channel.chan_put_ne c d) by congruence. }
  assert (Channel.loop_ ch = l) as Hlc by apply Ht. assert (Channel.chan_of (Channel.put_chan c ch (loop_ r)) c = Some ch)
    as Hc' by apply (Channel.chan_put_eq c ch).
  split; [|by split_and!]. split; rewrite ?Hw, ?Hcs; try done. by apply initial_inv.
Qed.

Lemma fresh_complete l ch wc s : fresh l ch s -> fresh l ch (setWriteCompleteCallback wc s).
Proof. intros [[]]. by split. Qed.

Lemma connection_added l obj c fd wc r : serving l r -> vacant obj c fd r ->
  exists r', connect obj c fd wc r = Ok r' /\ serving l r' /\
    forall o s, conns r !! o = Some s -> conns r' !! o = Some s.
Proof using PF Hkw Huser.
  intros Hs Hv. destruct (create_fresh l obj c fd r Hs Hv) as (s0 & ch & E & Hf & <- & Hfd & Htr & Ha1 & Er1 & Hb).
  apply (fresh_complete l ch wc) in Hf. unfold connect. rewrite E, bind_ok. cbn zeta.
  set (s := setWriteCompleteCallback wc s0) in *. change (channel_ s0) with (channel_ s) in *.
  change (world s0) with (world s) in *. change (trace s0) with (trace s) in Htr. clearbody s. clear s0 E.
  destruct Hs as [Hi Hdy Hu]. destruct Hv as [Ho Hc [_ Hreg] _].
  destruct (established_ok kwrite Hkw (callbacks user) Huser obj l ch s Hf)
    as (t & ch' & E2 & Hr & Hst & Hup & Hct & Hhome & [Ha2 Er2]). rewrite Hfd, Er1 in *.
  destruct (connectEstablished_run kwrite Hkw _ _ _ _ (fresh_inv _ _ _ Hf) E2) as (Jt & _ & _ & Hupt & _).
  assert (apart (channel_ s) fd (loop_ r) (world t)) as Ha by (by etrans).
  assert (queued obj s t = replicate (length (tasks t)) (Functor obj)) as Eq.
  { unfold queued. rewrite (fresh_tasks _ _ _ Hf), Htr, Nat.sub_0_r.
    pose proof (inv_closes _ Jt) as Hcl. rewrite bool_decide_false in Hcl by done.
    by rewrite (proj2 (Nat.ltb_ge _ _)), app_nil_r. }
  assert (Channel.chan_of (loop_ r) (channel_ s) = None -> forall o s2, conns r !! o = Some s2 -> channel_ s2 <> channel_ s) as Hne.
  { intros Hnone o s2 H2 Ec. destruct (inv_conns _ _ _ _ Hi _ _ H2) as (_ & ch2 & R2 & _).
    pose proof (hosted_chan _ _ _ _ (ready_hosted _ _ _ R2)) as Hc2.
    change (Channel.chan_of (loop_ r) (channel_ s2) = Some ch2) in Hc2. congruence. }
  specialize (Hne Hc). destruct (kept_rest l None _ r (channel_ s) fd (world t) Hi ltac:(apply Hr) Ha ltac:(intros d Hd; congruence))
    as [Kc Ko _].
  rewrite E2, bind_ok. eexists. split_and!; [done| |].
  2:{ intros o s2 H2. cbn. rewrite lookup_insert_ne; [done|]. intros <-. congruence. }
  split; [|done|intros d; apply (apart_removable _ _ _ _ Ha), Hu].
  split; cbn [settle loop_ conns dying pending].
  - apply Hr.
  - intros o s2 H2. apply lookup_insert_Some in H2 as [[<- <-]|[Hneo H2]].
    + split; [destruct Hupt; congruence|]. exists ch'. split; [|by eapply bound_static].
      unfold enter. cbn [loop_]. by rewrite enter_self by apply Hr.
    + split; [by apply (inv_conns _ _ _ _ Hi _ _ H2)|]. apply Kc; [done|by eapply Hne].
  - intros d e Hd. rewrite Er2 in Hd. apply lookup_insert_Some in Hd as [[<- <-]|[Hned Hd]].
    + left. exists obj, t. by rewrite lookup_insert_eq.
    + destruct (inv_own _ _ _ _ Hi _ _ Hd) as [(o & s2 & H2 & He)|(ch2 & Hc2 & Hown)].
      * left. exists o, s2. rewrite lookup_insert_ne; [done|]. intros <-. congruence.
      * right. apply Ko; [|by exists ch2]. intros ->. congruence.
  - intros o. rewrite mine_app, mine_queued, (inv_todo _ _ _ _ Hi o). destruct (decide (obj = o)) as [<-|Hneo].
    + rewrite lookup_insert_eq, Ho, Eq. unfold waiting. by rewrite bool_decide_false, app_nil_r.
    + by rewrite lookup_insert_ne, app_nil_r.
  - rewrite Hdy. split; [constructor|]. intros o s2 Hin. by apply elem_of_nil in Hin.
Qed.

(** What a [shutdown] or [forceClose] from another thread makes of a connection. *)
Lemma posted_run l ch s r o : ready l ch (enter s r) -> o = Shutdown \/ o = ForceClose ->
  exists t, run_user kwrite o (set_thread false (enter s r)) = Ok t /\ ready l ch (enter t r) /\
    channel_ t = channel_ s /\ trace t = trace s /\
    (state_ t = state_ s /\ tasks t = tasks s \/
     closing s = true /\ state_ t = kDisconnecting /\ exists k, tasks t = tasks s ++ [k]).
Proof using PF.
  intros Hr Ho. set (s0 := set_thread false (enter s r)).
  assert (ready l ch (enter s0 r)) as R0 by exact Hr.
  assert (forall k, closing s = true -> tame k -> ready l ch (enter (queueInLoop k (set_state kDisconnecting s0)) r)) as Hq.
  { intros k Hcl Hk. destruct Hr as [Ri Rh Rl Rm Rt Rd].
    destruct (disconnecting_inv (enter s r) Ri Hcl) as [J _].
    split; try done.
    - exact (proj1 (queue_inv k _ J)).
    - cbn. apply Forall_app. split; [done|]. by constructor. }
  destruct Ho as [-> | ->]; cbn [run_user].
  - unfold shutdown. change (state_ s0) with (state_ s). case_bool_decide as Hst; [|by exists s0; eauto 10].
    eexists. split; [done|]. assert (closing s = true) as Hcl by (apply closing_iff; by left).
    split_and!; [apply Hq; [done|by right]|done..|]. right. split_and!; [done|done|by eexists].
  - unfold forceClose. change (closing s0) with (closing s). destruct (closing s) eqn:Hcl; [|by exists s0; eauto 10].
    eexists. split; [done|]. split_and!; [apply Hq; [done|left; by right]|done..|].
    right. split_and!; [done|done|by eexists].
Qed.

Lemma elsewhere_run l obj o s r : serving l r -> conns r !! obj = Some s -> o = Shutdown \/ o = ForceClose ->
  exists r', elsewhere obj o r = Ok r' /\ serving l r' /\ loop_ r' = loop_ r.
Proof using PF.
  intros [Hi Hdy Hu] Ho Hop. destruct (inv_conns _ _ _ _ Hi _ _ Ho) as (Hs & ch & Hr & Hb).
  destruct (posted_run l ch s r o Hr Hop) as (t & E & Hrt & Hct & Htr & Ht).
  unfold elsewhere. rewrite Ho, E, bind_ok. eexists. split_and!; [done| |done].
  split; [|done|done]. split; cbn [loop_ conns dying pending].
  - apply Hi.
  - intros o2 s2 H2. apply lookup_insert_Some in H2 as [[<- <-]|[Hne H2]]; [|by apply (inv_conns _ _ _ _ Hi)].
    split; [|by exists ch]. destruct Ht as [[-> _]|(_ & -> & _)]; done.
  - intros fd c Hfd. destruct (inv_own _ _ _ _ Hi _ _ Hfd) as [(o2 & s2 & H2 & Hc)|Hown]; [left|by right].
    destruct (decide (o2 = obj)) as [->|Hne]; [|exists o2, s2; by rewrite lookup_insert_ne].
    exists obj, t. rewrite lookup_insert_eq. split; [done|]. congruence.
  - intros o2. rewrite mine_app, mine_queued, (inv_todo _ _ _ _ Hi o2). destruct (decide (obj = o2)) as [<-|Hne].
    + rewrite lookup_insert_eq, Ho. unfold waiting, queued. rewrite Htr, Nat.ltb_irrefl, app_nil_r.
      destruct Ht as [[-> ->]|(Hcl & Hst & k & ->)]; [by rewrite Nat.sub_diag, app_nil_r|].
      rewrite Hst. apply closing_iff in Hcl. rewrite !bool_decide_false, !app_nil_r by (done || destruct Hcl; congruence).
      rewrite length_app, Nat.add_comm, Nat.add_sub. cbn [length]. by rewrite <- replicate_add, Nat.add_comm.
    + by rewrite lookup_insert_ne, app_nil_r.
  - rewrite Hdy. split; [constructor|]. intros o2 s2 Hin. by apply elem_of_nil in Hin.
Qed.

(** What may be asked of a loop that serves. *)
Definition admissible (x : action) (r : Reactor) : Prop :=
  match x with
  | Connect obj c fd _ => vacant obj c fd r
  | Round a now => exists evs, lawful (EventLoop.poller_ (loop_ r)) a evs /\ sensible evs r
  | Elsewhere obj o => conns r !! obj <> None /\ (o = Shutdown \/ o = ForceClose)
  end.

Lemma act_run l x r : serving l r -> admissible x r -> exists r', act x r = Ok r' /\ serving l r'.
Proof using PF Hkw Hkr Huser.
  intros Hs Hx. destruct x as [obj c fd wc|a now|obj o]; cbn [act admissible] in *.
  - destruct (connection_added l obj c fd wc r Hs Hx) as (r' & ? & ? & _). eauto.
  - destruct Hx as (evs & Hlaw & Hsens). destruct (round_run l r a now evs Hs Hlaw Hsens) as (r1 & r' & _ & ? & ? & _). eauto.
  - destruct Hx as [Hobj Ho]. destruct (conns r !! obj) as [s|] eqn:E; [|done].
    destruct (elsewhere_run l obj o s r Hs E Ho) as (r' & ? & ? & _). eauto.
Qed.

(** Actions each of which is admissible when it comes. *)
Fixpoint all_admissible (xs : list action) (r : Reactor) : Prop :=
  match xs with
  | [] => True
  | x :: xs => admissible x r /\ forall r', act x r = Ok r' -> all_admissible xs r'
  end.

Lemma actions_run l xs : forall r, serving l r -> all_admissible xs r -> exists r', run xs r = Ok r' /\ serving l r'.
Proof using PF Hkw Hkr Huser.
  induction xs as [|x xs IH]; intros r Hs Hx; cbn [run all_admissible] in *; [by exists r|].
  destruct Hx as [Hx Hxs]. destruct (act_run l x r Hs Hx) as (r1 & E & Hs1). rewrite E, bind_ok. by apply IH; [|apply Hxs].
Qed.

(** A loop that has just been constructed, with its own two channels. *)
Lemma started_serving st (p : P) : LoopLife.startable st p ∅ -> channels_ p = ∅ ->
  LoopLife.t_loopInThisThread st = None ->
  LoopLife.timer_read st = bind_ OnTimer 0 -> LoopLife.wakeup_read st = bind_ OnWakeup 0 ->
  exists w, LoopLife.construct st p ∅ ∅ = Ok (w, Some (LoopLife.this st)) /\
    serving (LoopLife.this st) (mkReactor w ∅ [] []).
Proof.
  intros Hst Hp Hnone Ht Hw. destruct (LoopLife.constructor_run st p ∅ ∅ Hst) as [_ Hrun].
  destruct (Hrun Hnone) as (w & E & [[Hth Hhd Hinv] [_ (ch & Hc & Hl & _)] _ _ _] & Hch & _ & _ & i & j & Hti & Hwi).
  exists w. split; [done|]. split; [|done|intros c Hh; cbn in Hh; congruence].
  rewrite Hti in Hc. injection Hc as <-. split; cbn [loop_ conns pending dying].
  - split; [by split|done].
  - intros o s Ho. by rewrite lookup_empty in Ho.
  - intros fd c Hfd. right. change (channels_ (EventLoop.poller_ w) !! fd = Some c) in Hfd.
    rewrite Hch, Hp in Hfd. apply lookup_insert_Some in Hfd as [[_ <-]|[_ Hfd]].
    + eexists. split; [exact Hwi|]. split_and!; try done. eexists. split; [done|]. rewrite Hw. left. apply bound_bind.
    + apply lookup_insert_Some in Hfd as [[_ <-]|[_ Hfd]]; [|by rewrite lookup_empty in Hfd].
      eexists. split; [exact Hti|]. split_and!; try done. eexists. split; [done|]. rewrite Ht. right. apply bound_bind.
  - intros o. by rewrite lookup_empty.
  - split; [constructor|]. intros o s Ho. by apply elem_of_nil in Ho.
Qed.

(** ** Hanging up *)

Lemma handleClose_down u (s s' : Conn) : handleClose kwrite u s = Ok s' -> state_ s' = kDisconnected.
Proof using.
  unfold handleClose, callback. intros Hr. inv_ok.
  assert (forall t t' : Conn, frame t t' -> state_ t = kDisconnected -> state_ t' = kDisconnected) as Hdown
    by (intros t t' F; apply (turn_down _ _ (frame_turn _ _ F))).
  apply (Hdown (record CloseCallback a2)); [by eapply exec_frame|]. change (state_ a2 = kDisconnected).
  apply (Hdown (record (ConnectionCallback false) a1)); [by eapply exec_frame|]. change (state_ a1 = kDisconnected).
  by eapply (Hdown (set_state kDisconnected s)); [eapply (frame_request Channel.DisableAll)|].
Qed.

Lemma handleWrite_state (s s' : Conn) : handleWrite kwrite s = Ok s' -> state_ s' = state_ s.
Proof using.
  unfold handleWrite. intros Hr. inv_ok. destruct (Channel.isWriting _); [|by inv_ok; subst].
  destruct (kwrite _ _) as [n|e]; [|by inv_ok; subst]. cbn zeta in Hr. destruct (0 <? n); [|by inv_ok; subst].
  inv_ok. destruct (_ =? 0); [|by inv_ok; subst]. inv_ok.
  assert (state_ a2 = state_ s) as Ha2.
  { unfold on_channel in E2. inv_ok. by subst. }
  set (a3 := if writeCompleteCallback_ a2 then _ else a2) in Hr.
  assert (state_ a3 = state_ s) as <- by (subst a3; by destruct (writeCompleteCallback_ a2)).
  destruct (bool_decide _); [|by inv_ok; subst]. unfold shutdownInLoop in Hr.
  inv_ok. by destruct (negb _); inv_ok; subst.
Qed.

Lemma reaction_closes rev w0 w1 s t : Channel.hung_up rev = true -> orderly rev = true -> answered rev w0 w1 s t ->
  state_ t = kDisconnected.
Proof using.
  intros Hc Ho (_ & w & w' & _ & _ & E). unfold orderly in Ho. rewrite Hc in Ho. apply negb_true_iff in Ho. cbn in Ho.
  unfold reaction in E. rewrite Hc, Ho in E. cbn [react handle] in E.
  apply bind_ok_inv in E as (s1 & E1 & E). apply handleClose_down in E1.
  apply bind_ok_inv in E as (s2 & E2 & E). assert (s2 = s1) as -> by (destruct (Channel.broken rev); cbn in E2; congruence).
  rewrite bind_ok in E. change (state_ (OwnedConnection.enter t w') = kDisconnected).
  destruct (Channel.writable rev); cbn [react handle] in E; [|by injection E as <-].
  by rewrite (handleWrite_state _ _ E).
Qed.

(** A connection that is down has its last functor waiting. *)
Lemma down_waits l todo obj s r : Inv l None todo r -> conns r !! obj = Some s -> state_ s = kDisconnected ->
  Destroyed obj ∈ todo.
Proof using.
  intros Hi Ho Hd. pose proof (inv_todo _ _ _ _ Hi obj) as Hm. rewrite Ho in Hm.
  assert (Destroyed obj ∈ mine obj todo) as Hin.
  { rewrite Hm. unfold waiting. rewrite bool_decide_true by done. apply elem_of_app. right. by left. }
  by apply list_elem_of_filter in Hin as [_ Hin].
Qed.

End Code.
End Rounds.
Arguments Reactor P : clear implicits.

End Reactor.
