(* ===== verification/ReactorRuns.v ===== *)
(** * The loop with its connections: what holds of it, and what breaks it

    The theorems on Reactor.v: a loop never faults as long as what happens to it is
    admissible, and what one round does.  Then two things that are not admissible, and
    the assertions they run into: a hang-up that comes with something to read, and a user
    who turns reading on in a connection that is down. *)

From S2P Require Import Prelude NetBuffer Channel Service Poller PollPoller EventLoop LoopLife LoopService Connection TcpConnection ConnectionProgress OwnedConnection Reactor.
Import Poller.

Module ReactorRuns.
Import TcpConnection ConnectionProgress Reactor.
Import OwnedConnection (callbacks).
Import Connection (StateE, kDisconnected, kConnecting, kConnected, kDisconnecting).

(** ** What breaks it *)

Section Breaks.
Context {P : Type} `{PollerLaws P} {PF : PollerFrame P}.
Abbreviation Loop := (EventLoop.EventLoop P).
Context (kwrite : nat -> list byte -> write_answer) (Hkw : write_contract kwrite).

(** A connection that is down takes no second end. *)
Lemma end_when_down kread user (s : TcpConnection Loop) : state_ s = kDisconnected -> inLoop s = true ->
  Buffer.wf (inputBuffer_ s) -> kread (calls s) (Buffer.iov_room (inputBuffer_ s)) = Buffer.ReadvData [] ->
  handleRead kwrite kread user s = Err AssertFailure.
Proof using.
  intros Hd Hl Hw Hk. unfold handleRead, assertInLoopThread. rewrite Hl, bind_ok, Hk.
  unfold Buffer.readFd. change (zlen (A:=byte) []) with 0. pose proof (Buffer.writable_wf _ Hw). destruct Hw.
  rewrite (proj2 (Z.leb_le _ _)), bind_ok by lia. cbn. unfold handleClose, assertInLoopThread, closing. cbn.
  by rewrite Hl, Hd.
Qed.

Lemma hangup_with_data kread user l ch (s : TcpConnection Loop) rev : well_behaved kwrite (callbacks user) ->
  (forall k room, 0 <= room -> kread k room = Buffer.ReadvData []) ->
  ready l ch s -> closing s = true -> Channel.hung_up rev = true -> Channel.readable rev = true ->
  reaction kwrite kread user rev s = Err AssertFailure.
Proof using PF Hkw.
  intros Hu Hk Hs Hc Hcl Hrd. unfold reaction. rewrite Hcl, Hrd. cbn [react handle].
  destruct (closing_run kwrite Hkw (callbacks user) Hu l ch s Hs Hc) as (t & ch' & E & [Ht _ _] & _ & Hd).
  rewrite E, bind_ok. pose proof (inv_input _ (ready_inv _ _ _ Ht)) as Hw.
  assert (react kwrite kread user (Channel.broken rev) OnError t = Ok t) as -> by by destruct (Channel.broken rev).
  rewrite bind_ok, end_when_down; [done|done|apply Ht|done|]. apply Hk. unfold Buffer.iov_room, Buffer.extrabuf_size.
  rewrite Buffer.writable_wf by done. destruct Hw. destruct (_ <? _); lia.
Qed.

(** Turning reading on again, in the callback that says the connection is down. *)
Definition reader (e : event) (s : TcpConnection Loop) : list user_op :=
  match e with ConnectionCallback false => [StartRead] | _ => [] end.

Lemma reading_when_down l ch (s : TcpConnection Loop) : ready l ch s -> closing s = true ->
  exists t, handleClose kwrite (callbacks reader) s = Ok t /\ state_ t = kDisconnected /\
    connectDestroyed kwrite (callbacks reader) t = Err AssertFailure.
Proof using PF Hkw.
  intros Hs Hc. set (s0 := set_state kDisconnected s).
  destruct (request_effect Channel.DisableAll l (channel_ s) ch (world s)) as (w1 & ch1 & E & Hh1 & _ & He1 & _);
    [apply Hs|].
  destruct (request_effect Channel.EnableReading l (channel_ s) ch1 w1 Hh1) as (w2 & ch2 & E2 & Hh2 & _ & He2 & _).
  rewrite He1 in He2. pose proof (ready_thread _ _ _ Hs) as Hl.
  set (s1 := record (ConnectionCallback false) (set_world w1 s0)).
  set (s2 := set_reading true (set_world w2 s1)). set (t := record CloseCallback s2).
  assert (on_channel Channel.disableAll s0 = Ok (set_world w1 s0)) as E0.
  { unfold on_channel. change (Channel.disableAll (channel_ s) (world s) = Ok w1) in E. cbn. by rewrite E. }
  assert (channel s1 = Ok ch1) as Ec1 by (unfold channel, Channel.deref; by rewrite (hosted_chan _ _ _ _ Hh1 : Channel.chan_of (world s1) (channel_ s1) = _)).
  assert (startRead s1 = Ok s2) as E1.
  { unfold startRead, startReadInLoop, assertInLoopThread. change (inLoop s1) with (inLoop s). rewrite Hl, bind_ok, Ec1, bind_ok.
    assert (Channel.isReading ch1 = false) as -> by (unfold Channel.isReading; by rewrite He1). rewrite orb_true_r.
    unfold on_channel. change (Channel.enableReading (channel_ s) w1 = Ok w2) in E2.
    change (Channel.enableReading (channel_ s1) (world s1)) with (Channel.enableReading (channel_ s) w1). by rewrite E2. }
  exists t. split_and!; [|done|].
  - unfold handleClose, assertInLoopThread. rewrite Hl, bind_ok, (assert_true _ Hc), bind_ok. cbn zeta. fold s0.
    rewrite E0, bind_ok. unfold callback. cbn [callbacks reader exec run_user]. fold s1. by rewrite E1, !bind_ok.
  - unfold connectDestroyed, assertInLoopThread. change (inLoop t) with (inLoop s). rewrite Hl, bind_ok.
    rewrite bool_decide_false, bind_ok by done. unfold on_channel, Channel.remove, Channel.deref.
    rewrite (hosted_chan _ _ _ _ Hh2 : Channel.chan_of (world t) (channel_ t) = _), bind_ok.
    unfold Channel.isNoneEvent. by rewrite He2.
Qed.
End Breaks.

(** ** Properties *)

(** The loop before its first connection. *)
Definition started {P} (w : EventLoop.EventLoop P) : Reactor P := mkReactor w ∅ [] [].

(** The poller's report [evs] says that [rev] happened on the descriptor of [s]. *)
Definition happened {P} `{PollerLaws P} (evs : list (Z * Z)) (r : Reactor P) (fd rev : Z)
    (s : TcpConnection (EventLoop.EventLoop P)) : Prop :=
  (fd, rev) ∈ evs /\ Service.registry (loop_ r) !! fd = Some (channel_ s).

(** [C3] A loop serves its connections.  After its construction on a poller that keeps
    its contract, a loop is given connections, rounds, and calls of [shutdown] and
    [forceClose] from other threads.  A round's report must be sensible: no hang-up of a
    connection without input comes with urgent data or a shutdown of the peer (see
    [reactor_breaks] for one that does), and the input buffer of a connection that is
    read has room.  A new connection needs an unused descriptor; the user's callbacks
    return and do not turn reading on in a connection that is down.  Then no assertion
    fails, no
    freed or dangling object is used, and the invariant holds after each: every live
    connection is registered under its descriptor with its own interest, nothing is
    registered but these and the loop's own channels, and a connection that is down has
    exactly one functor left that destroys it. *)
Theorem reactor_never_faults {P} `{PollerLaws P} `{!PollerFrame P} kwrite kread user st (p : P) :
  write_contract kwrite -> read_contract kread -> well_behaved kwrite (callbacks user) ->
  LoopLife.startable st p ∅ -> channels_ p = ∅ -> LoopLife.t_loopInThisThread st = None ->
  LoopLife.timer_read st = bind_ OnTimer 0 -> LoopLife.wakeup_read st = bind_ OnWakeup 0 ->
  exists w, LoopLife.construct st p ∅ ∅ = Ok (w, Some (LoopLife.this st)) /\
    forall xs, all_admissible kwrite kread user xs (started w) ->
    exists r', run kwrite kread user xs (started w) = Ok r' /\ serving (LoopLife.this st) r'.
Proof.
  intros Hkw Hkr Hu Hst Hp Hn Ht Hw. destruct (started_serving st p Hst Hp Hn Ht Hw) as (w & E & Hs).
  exists w. split; [done|]. intros xs Hxs. by apply actions_run.
Qed.

(** [C11] A round.  When the report is sensible (no hang-up without input comes with
    urgent data or a shutdown of the peer, and what is read has room) and the callbacks
    are well behaved, a loop that serves hands every report of the poller to the
    connection that is registered for the descriptor.  That becomes what the four
    handlers, each called if its bits are reported, make of it, from its channel as it
    is in the loop before the round to its channel as it is after the events.  The others
    stay as they are.  Then the functors run: each connection that was closed by its
    events is destroyed in the same round, those that were hung up on with nothing left
    to read among them, and the loop serves again. *)
Theorem reactor_round {P} `{PollerLaws P} `{!PollerFrame P} kwrite kread user l (r : Reactor P) a now evs :
  write_contract kwrite -> read_contract kread -> well_behaved kwrite (callbacks user) ->
  serving l r -> lawful (EventLoop.poller_ (loop_ r)) a evs -> sensible evs r ->
  exists r1 r', dispatch kwrite kread user a now r = Ok r1 /\ round kwrite kread user a now r = Ok r' /\
    (forall fd rev o s, conns r !! o = Some s -> happened evs r fd rev s ->
       exists t, conns r1 !! o = Some t /\ answered kwrite kread user rev (loop_ r) (loop_ r1) s t) /\
    (forall o s, conns r !! o = Some s -> (forall fd rev, ~ happened evs r fd rev s) -> conns r1 !! o = Some s) /\
    (forall o t, conns r1 !! o = Some t -> state_ t = kDisconnected -> conns r' !! o = None) /\
    (forall fd rev o s, conns r !! o = Some s -> happened evs r fd rev s -> Channel.hung_up rev = true ->
       conns r' !! o = None) /\
    serving l r'.
Proof.
  intros Hkw Hkr Hu Hs Hlaw Hsens.
  destruct (round_run kwrite kread user Hkw Hkr Hu l r a now evs Hs Hlaw Hsens)
    as (r1 & r' & E1 & E2 & Hs' & [_ Hspared Hstruck] & Hi1 & _ & Hgone).
  assert (forall o t, conns r1 !! o = Some t -> state_ t = kDisconnected -> conns r' !! o = None) as Hdown.
  { intros o t Ho Hd. by eapply Hgone, down_waits. }
  exists r1, r'. split_and!; try done.
  - intros fd rev o s Ho [Hev Hreg]. by eapply Hstruck.
  - intros o s Ho Hn. apply Hspared; [done|]. intros fd rev Hev Hreg. by apply (Hn fd rev).
  - intros fd rev o s Ho [Hev Hreg] Hc. destruct (Hstruck fd rev o s Hev Ho Hreg) as (t & Ht & Ha).
    apply (Hdown o t Ht). apply (reaction_closes kwrite kread user rev (loop_ r) (loop_ r1) s t Hc); [|done].
    by apply (Hsens fd rev o s).
Qed.

(** [C39] What a loop cannot stand.  For every connection that is up: a hang-up that comes
    with urgent data and no ordinary data, when the read then finds the end of the stream,
    closes it twice in one event and the assertion of [handleClose] fails; and a user who
    turns reading on in the callback that says the connection is down registers the
    channel again, so that the assertion of [Channel::remove] fails when the connection is
    destroyed. *)
Theorem reactor_breaks {P} `{PollerLaws P} `{!PollerFrame P} kwrite l ch (s : TcpConnection (EventLoop.EventLoop P)) :
  write_contract kwrite -> ready l ch s -> closing s = true ->
  (forall kread user rev, well_behaved kwrite (callbacks user) ->
     (forall k room, 0 <= room -> kread k room = Buffer.ReadvData []) ->
     Channel.hung_up rev = true -> Channel.readable rev = true ->
     reaction kwrite kread user rev s = Err AssertFailure) /\
  exists t, handleClose kwrite (callbacks reader) s = Ok t /\ state_ t = kDisconnected /\
    connectDestroyed kwrite (callbacks reader) t = Err AssertFailure.
Proof.
  intros Hkw Hs Hc. split; [|by eapply reading_when_down].
  intros kread user rev Hu Hk Hcl Hrd. by eapply hangup_with_data.
Qed.

(** ** A server that discards *)

Definition discard (e : event) (s : TcpConnection (EventLoop.EventLoop PollPoller.PollPoller)) : list user_op :=
  match e with MessageCallback => [ConsumeAll] | _ => [] end.

Lemma discard_behaves kwrite : well_behaved kwrite (callbacks discard).
Proof.
  intros e l ch s _. unfold callbacks, discard. split; [destruct e; cbn; eauto|].
  intros _. by destruct e; apply not_elem_of_nil || (apply not_elem_of_cons; split; [done|apply not_elem_of_nil]).
Qed.

Definition kwrite_all (k : nat) (l : list byte) : write_answer := Wrote (zlen l).
(** Two bytes for the first read, the end of the stream for the others. *)
Definition kread_once (k : nat) (room : Z) : Buffer.readv_result :=
  match k with
  | O => TcpConnection.kread_hi k room
  | _ => if 0 <=? room then Buffer.ReadvData [] else Buffer.ReadvError 9
  end.

Lemma kwrite_all_contract : write_contract kwrite_all.
Proof. intros k l n [= <-]. pose proof (zlen_nonneg l). lia. Qed.
Lemma kread_once_contract : read_contract kread_once.
Proof.
  intros [|k] room d; [by apply TcpConnection.kread_hi_contract|]. cbn. zcase (0 <=? room); [|done]. by intros [= <-].
Qed.

(** The hypotheses of the theorems, decided. *)
Definition lawful_b (p : PollPoller.PollPoller) (a : PollPoller.poll_answer) (evs : list (Z * Z)) : bool :=
  let revs := PollPoller.revents_out a in
  bool_decide (length revs = length (PollPoller.pollfds_ p)) && forallb (Z.eqb 0) (take 16 revs) &&
  forallb (fun '(r, e) => (0 <=? PollPoller.pfd_fd e) || (r =? 0)) (zip revs (PollPoller.pollfds_ p)) &&
  bool_decide (evs = PollPoller.ready (PollPoller.set_all_revents (PollPoller.pollfds_ p) revs)) &&
  (PollPoller.numEvents a =? zlen evs).

Lemma lawful_b_sound p a evs : lawful_b p a evs = true -> PollPoller.lawful p a evs.
Proof.
  unfold lawful_b. rewrite !andb_true_iff, !bool_decide_eq_true, !forallb_forall, Z.eqb_eq.
  intros [[[[Hlen Hblank] Hign] ->] Hn]. split; try done.
  - intros i r Hi Hr. specialize (Hblank r). rewrite Z.eqb_eq in Hblank. symmetry. apply Hblank.
    apply list_elem_of_In. apply (list_elem_of_lookup_2 _ i). by rewrite lookup_take_lt.
  - intros i r e Hr He Hneg. specialize (Hign (r, e)).
    rewrite orb_true_iff, Z.leb_le, Z.eqb_eq in Hign. destruct Hign as [?|?]; [|lia|done].
    apply list_elem_of_In, (list_elem_of_lookup_2 _ i), lookup_zip_Some. done.
Qed.

Definition sensible_b (evs : list (Z * Z)) (r : Reactor PollPoller.PollPoller) : bool :=
  forallb (fun '(fd, rev) => forallb (fun '(o, s) =>
    negb (bool_decide (Service.registry (loop_ r) !! fd = Some (channel_ s))) ||
    (orderly rev && (zlen (Buffer.buffer_ (inputBuffer_ s)) + 65536 <=? Buffer.max_size)))
    (map_to_list (conns r))) evs.

Lemma sensible_b_sound evs r : sensible_b evs r = true -> sensible evs r.
Proof.
  unfold sensible_b. rewrite forallb_forall. intros Hall fd rev o s Hev Ho Hreg.
  specialize (Hall (fd, rev) (proj1 (list_elem_of_In _ _) Hev)). cbn beta iota in Hall. rewrite forallb_forall in Hall.
  specialize (Hall (o, s) (proj1 (list_elem_of_In _ _) (proj2 (elem_of_map_to_list _ _ _) Ho))). cbn beta iota in Hall.
  rewrite bool_decide_true in Hall by done. apply andb_true_iff in Hall as [Hord Hroom].
  split; [done|]. intros _. by apply Z.leb_le.
Qed.

Definition vacant_b (obj c fd : Z) (r : Reactor PollPoller.PollPoller) : bool :=
  match conns r !! obj, EventLoop.channels (loop_ r) !! c, Service.registry (loop_ r) !! fd with
  | None, None, None => (0 <=? fd) && (load (EventLoop.poller_ (loop_ r)) + 1 <? 2 ^ 31)
  | _, _, _ => false
  end.

(** Actions, a round with what the kernel reports, each checked when it comes. *)
Definition checked_action : Type := action (P:=PollPoller.PollPoller) * list (Z * Z).
Definition admissible_b (x : checked_action) (r : Reactor PollPoller.PollPoller) : bool :=
  match x with
  | (Connect obj c fd _, _) => vacant_b obj c fd r
  | (Round a _, evs) => lawful_b (EventLoop.poller_ (loop_ r)) a evs && sensible_b evs r
  | (Elsewhere obj o, _) =>
      match conns r !! obj, o with Some _, Shutdown | Some _, ForceClose => true | _, _ => false end
  end.
Fixpoint checked kwrite kread user (xs : list checked_action) (r : Reactor PollPoller.PollPoller) : bool :=
  match xs with
  | [] => true
  | x :: xs => admissible_b x r &&
      match act kwrite kread user (fst x) r with Ok r => checked kwrite kread user xs r | Err _ => true end
  end.

Lemma admissible_b_sound x r : admissible_b x r = true -> admissible (fst x) r.
Proof.
  destruct x as [[obj c fd wc|a now|obj o] evs]; cbn [admissible_b admissible fst].
  - unfold vacant_b. destruct (conns r !! obj) eqn:E1; [done|]. destruct (_ !! c) eqn:E2; [done|].
    destruct (_ !! fd) eqn:E3; [done|]. rewrite andb_true_iff, Z.leb_le, Z.ltb_lt. by intros [? ?]; split.
  - rewrite andb_true_iff. intros [Hl Hs]. exists evs. split; [by apply lawful_b_sound|by apply sensible_b_sound].
  - destruct (conns r !! obj); [|done]. by destruct o; auto.
Qed.

Lemma checked_sound kwrite kread user xs : forall r, checked kwrite kread user xs r = true ->
  all_admissible kwrite kread user (map fst xs) r.
Proof.
  induction xs as [|x xs IH]; intros r; cbn [checked all_admissible map]; [done|].
  rewrite andb_true_iff. intros [Hx Hxs]. split; [by apply admissible_b_sound|]. intros r' E. rewrite E in Hxs. by apply IH.
Qed.

(** The loop: timer on descriptor 4, eventfd on 5.  Two clients come; the first sends
    two bytes, the second is told to shut down from another thread; the first goes, then
    the second is hung up on. *)
Definition setup_two : LoopLife.setup := LoopLife.mkSetup 1 100 10 11 (bind_ OnTimer 0) (bind_ OnWakeup 0) 4 5 None.
Definition loop_two : EventLoop.EventLoop PollPoller.PollPoller :=
  match LoopLife.construct setup_two PollPoller.new ∅ ∅ with Ok (w, _) => w | Err _ => LoopService.poll_loop 1 end.
Definition answers_with (n : Z) (l : list Z) : PollPoller.poll_answer := PollPoller.mkAnswer n 0 (replicate 16 0 ++ l).
Definition two_clients : list checked_action :=
  [(Connect 7 20 8 true, []); (Connect 8 21 9 false, []);
   (Round (answers_with 2 [0; 1; 1; 0]) 50, [(5, 1); (8, 1)]); (Elsewhere 8 Shutdown, []);
   (Round (answers_with 1 [0; 0; 17; 0]) 60, [(8, 17)]);
   (Round (answers_with 1 [0; 0; 16]) 70, [(9, 16)])].

Lemma setup_two_startable : LoopLife.startable setup_two PollPoller.new ∅.
Proof. split; [apply PollPoller.wf_new|reflexivity|split_and!; reflexivity || discriminate..|discriminate|discriminate]. Qed.

Lemma reactor_never_faults_witness :
  exists r', run kwrite_all kread_once discard (map fst two_clients) (started loop_two) = Ok r' /\
    serving 1 r' /\ conns r' = ∅.
Proof.
  destruct (reactor_never_faults kwrite_all kread_once discard setup_two PollPoller.new kwrite_all_contract
    kread_once_contract (discard_behaves kwrite_all) setup_two_startable) as (w & E & Hrun); [reflexivity..|].
  assert (w = loop_two) as -> by (unfold loop_two; rewrite E; reflexivity).
  destruct (Hrun (map fst two_clients)) as (r' & Er & Hs).
  { apply checked_sound. vm_compute. reflexivity. }
  exists r'. split_and!; [exact Er|exact Hs|].
  assert (match run kwrite_all kread_once discard (map fst two_clients) (started loop_two) with
    Ok r => bool_decide (dom (conns r) = ∅) | Err _ => false end = true) as Hd by (vm_compute; reflexivity).
  rewrite Er in Hd. apply bool_decide_eq_true in Hd. by apply dom_empty_inv_L.
Defined.

(** The two clients have come. *)
Definition loop_busy : Reactor PollPoller.PollPoller :=
  match run kwrite_all kread_once discard (map fst (take 2 two_clients)) (started loop_two) with
  | Ok r => r
  | Err _ => started loop_two
  end.

Lemma loop_busy_serving : serving 1 loop_busy.
Proof.
  destruct (started_serving setup_two PollPoller.new setup_two_startable) as (w & E & Hs); [reflexivity..|].
  assert (w = loop_two) as -> by (unfold loop_two; rewrite E; reflexivity).
  destruct (actions_run kwrite_all kread_once discard kwrite_all_contract kread_once_contract (discard_behaves kwrite_all)
    1 (map fst (take 2 two_clients)) (started loop_two) Hs) as (r & Er & Hr); [apply checked_sound; vm_compute; reflexivity|].
  unfold loop_busy. rewrite Er. exact Hr.
Qed.

Definition hung_up : Answer PollPoller.PollPoller := answers_with 1 [0; 0; 16; 0].

(** The first client is hung up on: it is gone after the round, the other is untouched
    while the events are handed out. *)
Lemma reactor_round_witness :
  exists r1 r', round kwrite_all kread_once discard hung_up 50 loop_busy = Ok r' /\
    dispatch kwrite_all kread_once discard hung_up 50 loop_busy = Ok r1 /\
    conns r' !! 7 = None /\ conns r1 !! 8 = conns loop_busy !! 8.
Proof.
  destruct (reactor_round kwrite_all kread_once discard 1 loop_busy hung_up 50 [(8, 16)]
    kwrite_all_contract kread_once_contract (discard_behaves kwrite_all) loop_busy_serving)
    as (r1 & r' & E1 & E2 & _ & Hspared & _ & Hgone & _).
  { apply lawful_b_sound. vm_compute. reflexivity. }
  { apply sensible_b_sound. vm_compute. reflexivity. }
  exists r1, r'. split_and!; [exact E2|exact E1| |].
  - assert (exists s, conns loop_busy !! 7 = Some s /\ channel_ s = 20) as (s & Hs & Hc)
      by (eexists; split; [vm_compute; reflexivity|reflexivity]).
    apply (Hgone 8 16 7 s Hs); [split; [left|rewrite Hc; vm_compute; reflexivity]|reflexivity].
  - assert (exists s, conns loop_busy !! 8 = Some s /\ channel_ s = 21) as (s & Hs & Hc)
      by (eexists; split; [vm_compute; reflexivity|reflexivity]).
    rewrite Hs. apply Hspared; [exact Hs|]. intros fd rev [Hin Hreg]. apply list_elem_of_singleton in Hin.
    injection Hin as -> ->. rewrite Hc in Hreg. vm_compute in Hreg. discriminate Hreg.
Defined.

(** The first of the two clients; POLLHUP and POLLPRI. *)
Definition nothing_read (k : nat) (room : Z) : Buffer.readv_result :=
  if 0 <=? room then Buffer.ReadvData [] else Buffer.ReadvError 9.

Lemma reactor_breaks_witness : exists s t, conns loop_busy !! 7 = Some s /\
  reaction kwrite_all nothing_read discard 18 (enter s loop_busy) = Err AssertFailure /\
  handleClose kwrite_all (callbacks reader) (enter s loop_busy) = Ok t /\
  connectDestroyed kwrite_all (callbacks reader) t = Err AssertFailure.
Proof.
  assert (exists s, conns loop_busy !! 7 = Some s /\ closing s = true) as (s & Hs & Hc)
    by (eexists; split; [vm_compute; reflexivity|reflexivity]).
  destruct (inv_conns _ _ _ _ (serving_inv _ _ loop_busy_serving) _ _ Hs) as (_ & ch & Hr & _).
  destruct (reactor_breaks kwrite_all 1 ch (enter s loop_busy) kwrite_all_contract Hr Hc) as [Hhup (t & E1 & _ & E2)].
  exists s, t. split_and!; [exact Hs| |exact E1|exact E2].
  apply Hhup; [apply discard_behaves| |reflexivity|reflexivity].
  intros k room Hroom. unfold nothing_read. by rewrite (proj2 (Z.leb_le _ _) Hroom).
Defined.

End ReactorRuns.
