(* ===== verification/Connector.v ===== *)
(** * [dws::net::Connector]: Connector.h, Connector.cc

    One outgoing connection attempt after another, with a growing delay between
    them, until a socket is connected and handed over.  The channel that waits
    for the socket is used through [Channel.Host]; its destruction is a functor,
    because it is removed from inside its own callbacks. *)

From S2P Require Import Prelude Channel Service Poller PollPoller EventLoop LoopService Sockets.

Module Connector.
Import Sockets (EINTR, EAGAIN, EACCES, EPERM, EBADF, EFAULT, ENOTSOCK, EAFNOSUPPORT, EADDRINUSE,
  EADDRNOTAVAIL, ENETUNREACH, EISCONN, ECONNREFUSED, EALREADY, EINPROGRESS).

Inductive State := kDisconnected | kConnecting | kConnected.

#[global] Instance State_eqdec : EqDecision State.
Proof. solve_decision. Defined.

Definition kMaxRetryDelayMs : Z := 30 * 1000.
Definition kInitRetryDelayMs : Z := 500.

(** Functors on their way through the loop. *)
Inductive task := StartTask | StopTask | ResetTask.

#[global] Instance task_eqdec : EqDecision task.
Proof. solve_decision. Defined.

(** What happens to a socket: made, closed, handed to the callback. *)
Inductive socket_event := Created (fd : Z) | Closed (fd : Z) | Handed (fd : Z).

(** The public functions. *)
Inductive call := CallStart | CallRestart | CallStop.

Section Connector.
Context {W : Type} `{Channel.Host W}.

(** [timers]: the retries asked for and not yet run, by the thousandths of a
    second.  [delays]: those asked for since the last [restart].  [calls]: system
    calls made.  [sockets]: the fates of sockets, in order. *)
Record Connector := mkConnector {
  connect_ : bool;
  state_ : State;
  channel_ : option Z;
  retryDelayMs_ : Z;
  inLoop : bool;
  tasks : list task;
  timers : list Z;
  delays : list Z;
  calls : nat;
  sockets : list socket_event;
  world : W
}.

Definition set_connect (b : bool) (s : Connector) : Connector :=
  mkConnector b (state_ s) (channel_ s) (retryDelayMs_ s) (inLoop s) (tasks s) (timers s)
    (delays s) (calls s) (sockets s) (world s).
Definition setState (st : State) (s : Connector) : Connector :=
  mkConnector (connect_ s) st (channel_ s) (retryDelayMs_ s) (inLoop s) (tasks s) (timers s)
    (delays s) (calls s) (sockets s) (world s).
Definition set_channel (c : option Z) (w : W) (s : Connector) : Connector :=
  mkConnector (connect_ s) (state_ s) c (retryDelayMs_ s) (inLoop s) (tasks s) (timers s)
    (delays s) (calls s) (sockets s) w.
Definition set_tasks (ts : list task) (s : Connector) : Connector :=
  mkConnector (connect_ s) (state_ s) (channel_ s) (retryDelayMs_ s) (inLoop s) ts (timers s)
    (delays s) (calls s) (sockets s) (world s).
Definition set_retry (delay : Z) (ts ds : list Z) (s : Connector) : Connector :=
  mkConnector (connect_ s) (state_ s) (channel_ s) delay (inLoop s) (tasks s) ts ds (calls s)
    (sockets s) (world s).
Definition set_sockets (n : nat) (l : list socket_event) (s : Connector) : Connector :=
  mkConnector (connect_ s) (state_ s) (channel_ s) (retryDelayMs_ s) (inLoop s) (tasks s) (timers s)
    (delays s) n l (world s).
Definition set_thread (b : bool) (s : Connector) : Connector :=
  mkConnector (connect_ s) (state_ s) (channel_ s) (retryDelayMs_ s) b (tasks s) (timers s)
    (delays s) (calls s) (sockets s) (world s).

Definition new (w : W) : Connector :=
  mkConnector false kDisconnected None kInitRetryDelayMs true [] [] [] 0 [] w.

Definition assertInLoopThread (s : Connector) : result unit :=
  if inLoop s then Ok tt else Err Aborted.
Definition queueInLoop (t : task) (s : Connector) : Connector := set_tasks (tasks s ++ [t]) s.
Definition note (e : socket_event) (s : Connector) : Connector :=
  set_sockets (S (calls s)) (sockets s ++ [e]) s.
Definition close (fd : Z) (s : Connector) : Connector := note (Closed fd) s.

(** [channel_->...]: the pointer must not be null. *)
Definition get_channel (s : Connector) : result Z :=
  match channel_ s with Some c => Ok c | None => Err UndefinedBehaviour end.

(** ** Operations *)

Section Kernel.
(** By call: the descriptor of socket(2), the error number of connect(2) or 0,
    the pending error, whether the socket is connected to itself; the address of
    a new channel, its loop, and the names of the two handlers. *)
Context (socket : nat -> Z) (connect_errno : nat -> Z) (so_error : nat -> Z) (self_connect : nat -> bool).
Context (alloc : W -> Z) (loop_ on_write on_error : Z).

Definition retry (sockfd : Z) (s : Connector) : Connector :=
  let s := close sockfd s in
  let s := setState kDisconnected s in
  if connect_ s then
    set_retry (Z.min (retryDelayMs_ s * 2) kMaxRetryDelayMs) (timers s ++ [retryDelayMs_ s])
      (delays s ++ [retryDelayMs_ s]) s
  else s.

Definition connecting (sockfd : Z) (s : Connector) : result Connector :=
  let s := setState kConnecting s in
  _ ← assert_ (bool_decide (channel_ s = None));
  let c := alloc (world s) in
  let ch := Channel.setErrorCallback (Some on_error)
    (Channel.setWriteCallback (Some on_write) (Channel.new loop_ sockfd)) in
  w ← Channel.enableWriting c (Channel.put_chan c ch (world s));
  Ok (set_channel (Some c) w s).

Definition goes_on (errno : Z) : bool := existsb (Z.eqb errno) [0; EINPROGRESS; EINTR; EISCONN].
Definition tries_again (errno : Z) : bool :=
  existsb (Z.eqb errno) [EAGAIN; EADDRINUSE; EADDRNOTAVAIL; ECONNREFUSED; ENETUNREACH].

(** The other error numbers, known or not, close the socket. *)
Definition connect (s : Connector) : result Connector :=
  sockfd ← Sockets.createNonblockingOrDie (socket (calls s));
  let s := note (Created sockfd) s in
  let save_errno := connect_errno (calls s) in
  if goes_on save_errno then connecting sockfd s
  else if tries_again save_errno then Ok (retry sockfd s)
  else Ok (close sockfd s).

Definition startInLoop (s : Connector) : result Connector :=
  _ ← assertInLoopThread s;
  _ ← assert_ (bool_decide (state_ s = kDisconnected));
  if connect_ s then connect s else Ok s.

Definition start (s : Connector) : result Connector :=
  let s := set_connect true s in
  if inLoop s then startInLoop s else Ok (queueInLoop StartTask s).

Definition stop (s : Connector) : Connector := queueInLoop StopTask (set_connect false s).

Definition removeAndResetChannel (s : Connector) : result (Z * Connector) :=
  c ← get_channel s;
  w ← Channel.disableAll c (world s);
  w ← Channel.remove c w;
  ch ← Channel.deref w c;
  Ok (Channel.fd_ ch, queueInLoop ResetTask (set_channel (channel_ s) w s)).

(** [channel_.reset()]. *)
Definition resetChannel (s : Connector) : result Connector :=
  match channel_ s with
  | Some c => w ← Channel.destroy c (world s); Ok (set_channel None w s)
  | None => Ok s
  end.

Definition stopInLoop (s : Connector) : result Connector :=
  _ ← assertInLoopThread s;
  if bool_decide (state_ s = kConnecting) then
    '(sockfd, s) ← removeAndResetChannel (setState kDisconnected s);
    Ok (retry sockfd s)
  else Ok s.

Definition restart (s : Connector) : result Connector :=
  _ ← assertInLoopThread s;
  let s := setState kDisconnected s in
  let s := set_retry kInitRetryDelayMs (timers s) [] s in
  startInLoop (set_connect true s).

Definition handleError (s : Connector) : result Connector :=
  if bool_decide (state_ s = kConnecting) then
    '(sockfd, s) ← removeAndResetChannel s;
    Ok (retry sockfd s)
  else Ok s.

Section Callback.
(** [newConnectionCallback_]: what the owner calls while it takes the socket. *)
Context (owner : Z -> list call).

Definition run_call (o : call) (s : Connector) : result Connector :=
  match o with
  | CallStart => start s
  | CallRestart => restart s
  | CallStop => Ok (stop s)
  end.

Fixpoint run_calls (l : list call) (s : Connector) : result Connector :=
  match l with
  | [] => Ok s
  | o :: l => s ← run_call o s; run_calls l s
  end.

Definition handleWrite (s : Connector) : result Connector :=
  if bool_decide (state_ s = kConnecting) then
    '(sockfd, s) ← removeAndResetChannel s;
    let err := so_error (calls s) in
    if negb (err =? 0) then Ok (retry sockfd s)
    else if self_connect (calls s) then Ok (retry sockfd s)
    else
      let s := setState kConnected s in
      if connect_ s then run_calls (owner sockfd) (note (Handed sockfd) s)
      else Ok (close sockfd s)
  else
    _ ← assert_ (bool_decide (state_ s = kDisconnected)); Ok s.

(** The loop runs the oldest functor. *)
Definition run_task (s : Connector) : result Connector :=
  match tasks s with
  | [] => Ok s
  | t :: ts =>
      let s := set_tasks ts s in
      match t with
      | StartTask => startInLoop s
      | StopTask => stopInLoop s
      | ResetTask => resetChannel s
      end
  end.

(** The oldest retry is due: [ptr->startInLoop()]. *)
Definition run_timer (s : Connector) : result Connector :=
  match timers s with
  | [] => Ok s
  | _ :: ts => startInLoop (set_retry (retryDelayMs_ s) ts (delays s) s)
  end.

(** [~Connector]. *)
Definition destroy (s : Connector) : result unit := assert_ (bool_decide (channel_ s = None)).

(** The loop dispatches an event of the channel, which it only has while the
    channel is registered: the error callback, then the write callback. *)
Definition registered (s : Connector) : bool :=
  match channel_ s with
  | Some c => match Channel.chan_of (world s) c with
              | Some ch => negb (Channel.isNoneEvent ch)
              | None => false
              end
  | None => false
  end.
Definition dispatch (err wr : bool) (s : Connector) : result Connector :=
  if registered s then
    s ← (if err then handleError s else Ok s);
    if wr then handleWrite s else Ok s
  else Ok s.

(** What may happen next. *)
Inductive op :=
| OpCall (in_loop : bool) (o : call)
| OpEvent (err wr : bool)
| OpTask
| OpTimer.

Definition run_op (o : op) (s : Connector) : result Connector :=
  match o with
  | OpCall b o => t ← run_call o (set_thread b s); Ok (set_thread (inLoop s) t)
  | OpEvent err wr => dispatch err wr s
  | OpTask => run_task s
  | OpTimer => run_timer s
  end.

Fixpoint run_ops (os : list op) (s : Connector) : result Connector :=
  match os with
  | [] => Ok s
  | o :: os => s ← run_op o s; run_ops os s
  end.

End Callback.
End Kernel.
End Connector.
Arguments Connector W : clear implicits.

(** ** The invariant *)

Definition count (t : task) (l : list task) : nat := length (filter (eq t) l).

#[global] Arguments count : simpl never.

Lemma count_snoc t u l : count t (l ++ [u]) = (count t l + if bool_decide (t = u) then 1 else 0)%nat.
Proof.
  unfold count. rewrite filter_app, length_app, filter_cons. by case_decide; case_bool_decide.
Qed.

Lemma count_cons t u l : count t (u :: l) = ((if bool_decide (t = u) then 1 else 0) + count t l)%nat.
Proof. unfold count. rewrite filter_cons. by case_decide; case_bool_decide. Qed.

(** The fates of sockets, one socket at a time: each is closed or handed over
    exactly once, before the next is made.  The result is the open one. *)
Fixpoint replay (open : option Z) (l : list socket_event) : option (option Z) :=
  match l with
  | [] => Some open
  | Created fd :: l => match open with None => replay (Some fd) l | Some _ => None end
  | Closed fd :: l | Handed fd :: l =>
      if bool_decide (open = Some fd) then replay None l else None
  end.

Lemma replay_snoc open l e : replay open (l ++ [e]) = replay open l ≫= fun o => replay o [e].
Proof.
  revert open. induction l as [|[fd|fd|fd] l IH]; intros open; [done|..]; cbn.
  - by destruct open.
  - by case_bool_decide.
  - by case_bool_decide.
Qed.

(** The delay before the retry number [k]. *)
Definition backoff (k : nat) : Z := Z.min (kInitRetryDelayMs * 2 ^ Z.of_nat k) kMaxRetryDelayMs.

Lemma backoff_next k : Z.min (backoff k * 2) kMaxRetryDelayMs = backoff (S k).
Proof.
  unfold backoff, kInitRetryDelayMs, kMaxRetryDelayMs. rewrite Nat2Z.inj_succ, Z.pow_succ_r by lia.
  pose proof (Z.pow_pos_nonneg 2 (Z.of_nat k)). lia.
Qed.

Section Laws.
Context {W : Type} `{Channel.HostLaws W} {SV : Service.Service W}.
Implicit Types s : Connector W.

(** The loop, and the channels that others have registered with it. *)
Context (loop_ : Z) (R : gmap Z Z).

(** The channel is in use for [fd]. *)
Definition attached (fd : Z) s : Prop := exists c ch, channel_ s = Some c /\
  Channel.chan_of (world s) c = Some ch /\ Channel.fd_ ch = fd /\ Channel.loop_ ch = loop_ /\
  Channel.events_ ch = Channel.interest_bits (false, true) /\ Channel.eventHandling_ ch = false /\
  Service.registry (world s) = <[fd := c]> R /\ R !! fd = None /\ Service.room 0 (world s).

(** The channel has done its work: nothing of it is left in the loop. *)
Definition spent s : Prop := exists c ch, channel_ s = Some c /\
  Channel.chan_of (world s) c = Some ch /\ Channel.loop_ ch = loop_ /\ R !! Channel.fd_ ch = None /\
  Channel.addedToLoop_ ch = false /\ Channel.eventHandling_ ch = false /\ Channel.isNoneEvent ch = true.
Definition parked s : Prop :=
  Service.registry (world s) = R /\ Service.room 1 (world s) /\
  ((channel_ s = None /\ count ResetTask (tasks s) = 0%nat) \/
   (count ResetTask (tasks s) = 1%nat /\ count StartTask (tasks s) = 0%nat /\ spent s)).

Definition waits s : nat := (length (timers s) + count StartTask (tasks s))%nat.

(** By state: what is open, and who may start the next attempt. *)
Definition phase s : Prop :=
  match state_ s with
  | kConnecting => exists fd, replay None (sockets s) = Some (Some fd) /\ attached fd s /\
      waits s = 0%nat /\ count ResetTask (tasks s) = 0%nat
  | kDisconnected => replay None (sockets s) = Some None /\ parked s /\ (waits s <= 1)%nat
  | kConnected => replay None (sockets s) = Some None /\ parked s /\ waits s = 0%nat
  end.

(** The delays asked for since the last restart. *)
Definition backs_off s : Prop :=
  delays s = map backoff (seq 0 (length (delays s))) /\ retryDelayMs_ s = backoff (length (delays s)).

Record Inv s : Prop := {
  inv_thread : inLoop s = true;
  inv_turning : Service.idle loop_ (world s);
  inv_phase : phase s;
  inv_delays : backs_off s
}.

Lemma backs_off_more s :
  backs_off s -> let ds := delays s ++ [retryDelayMs_ s] in
  ds = map backoff (seq 0 (length ds)) /\
  Z.min (retryDelayMs_ s * 2) kMaxRetryDelayMs = backoff (length ds).
Proof.
  intros [Hd Hr] ds. unfold ds. rewrite length_app, Nat.add_1_r. split.
  - rewrite seq_S, map_app, <- Hd. cbn. by rewrite Hr.
  - by rewrite Hr, backoff_next.
Qed.

(** What is left of an attempt is closed, and perhaps another one planned. *)
Lemma retry_inv fd s :
  inLoop s = true -> Service.idle loop_ (world s) -> backs_off s ->
  replay None (sockets s) = Some (Some fd) -> parked s ->
  waits s = 0%nat -> Inv (retry fd s) /\ state_ (retry fd s) = kDisconnected.
Proof.
  intros Hl Ht Hb Ho Hp Hw.
  assert (replay None (sockets s ++ [Closed fd]) = Some None) as Hr.
  { rewrite replay_snoc, Ho. cbn. by rewrite bool_decide_true. }
  unfold retry. cbn [close note set_sockets setState connect_]. destruct (connect_ s).
  - destruct (backs_off_more s Hb) as [Hd1 Hd2]. split; [|done]. split; [done|done|..|done].
    unfold phase. cbn. split_and!; [done|done|]. unfold waits in *. cbn. rewrite length_app. cbn. lia.
  - split; [|done]. split; [done|done|..|done]. unfold phase. cbn. split_and!; [done|done|].
    unfold waits in *. cbn. lia.
Qed.

(** ** Operations on the channel *)

(** The channel is taken out of the loop and its descriptor given back. *)
Lemma removeAndReset_run fd s :
  Service.idle loop_ (world s) -> attached fd s -> count ResetTask (tasks s) = 0%nat ->
  count StartTask (tasks s) = 0%nat ->
  exists s', removeAndResetChannel s = Ok (fd, s') /\ parked s' /\
    exists w, Service.idle loop_ w /\ s' = queueInLoop ResetTask (set_channel (channel_ s) w s).
Proof.
  intros Ht (c & ch & Ec & Ew & Ef & El & Ee & Eh & Er & HR & Hroom) Hr Hst.
  destruct (Service.idle_take_off loop_ c ch (world s)) as (w1 & w & E1 & E2 & Ht' & Er' & Hroom');
    [done..|by rewrite Er, Ef, lookup_insert_eq|].
  destruct (Service.taken_off c ch _ _ _ Ew E1 E2) as (ch' & Ew' & Es).
  unfold removeAndResetChannel, get_channel. rewrite Ec, bind_ok, E1, bind_ok, E2, bind_ok.
  unfold Channel.deref. rewrite Ew', bind_ok. pose proof (f_equal Channel.fd_ Es) as Hf. cbn in Hf.
  rewrite Hf, Ef. eexists. split; [done|]. split; [|by exists w]. split_and!.
  - cbn. by rewrite Er', Er, Ef, delete_insert_id.
  - by apply Hroom'.
  - right. cbn. rewrite !count_snoc, Hr, Hst. split_and!; [done..|]. exists c, ch'.
    split_and!; try done; cbn.
    + rewrite <- El. exact (f_equal Channel.loop_ Es).
    + by rewrite Hf, Ef.
    + exact (f_equal Channel.addedToLoop_ Es).
    + rewrite <- Eh. exact (f_equal Channel.eventHandling_ Es).
    + apply Z.eqb_eq. exact (f_equal Channel.events_ Es).
Qed.

(** A retry after the channel was in use. *)
Lemma give_up_run fd s :
  inLoop s = true -> Service.idle loop_ (world s) -> backs_off s ->
  replay None (sockets s) = Some (Some fd) ->
  attached fd s -> waits s = 0%nat -> count ResetTask (tasks s) = 0%nat ->
  exists s', ('(sockfd, s) ← removeAndResetChannel s; Ok (retry sockfd s)) = Ok s' /\
    Inv s' /\ state_ s' = kDisconnected.
Proof.
  intros Hl Ht Hb Ho Ha Hw Hr. unfold waits in Hw.
  destruct (removeAndReset_run fd s Ht Ha Hr) as (s1 & -> & Hp & w & Ht1 & E1); [lia|]. rewrite bind_ok.
  eexists. split; [done|]. apply retry_inv; [by subst s1..|done|].
  subst s1. unfold waits. cbn. rewrite count_snoc, bool_decide_false by done. lia.
Qed.

Lemma resetChannel_run s : Service.idle loop_ (world s) -> Service.registry (world s) = R ->
  Service.room 1 (world s) -> spent s ->
  exists w, resetChannel s = Ok (set_channel None w s) /\ Service.idle loop_ w /\
    Service.registry w = R /\ Service.room 1 w.
Proof.
  intros Ht Er Hroom (c & ch & Ec & Ew & El & Ef & Ea & Eh & _).
  destruct (Service.idle_unmake loop_ c ch (world s)) as (w & E & Ht' & Er' & Hroom'); [done..|by rewrite Er|].
  exists w. unfold resetChannel. rewrite Ec, E, bind_ok. split_and!; [done|done|congruence|by apply Hroom'].
Qed.

Section Kernel.
Context (socket : nat -> Z) (connect_errno : nat -> Z) (so_error : nat -> Z) (self_connect : nat -> bool).
Context (alloc : W -> Z) (on_write on_error : Z).

(** The kernel's descriptors are not those of the loop's other channels, the
    allocator's addresses are free. *)
Context (Hsock : forall n, 0 <= socket n /\ R !! socket n = None).
Context (Halloc : forall w, Channel.chan_of w (alloc w) = None).

Abbreviation connect := (connect socket connect_errno alloc loop_ on_write on_error).
Abbreviation startInLoop := (startInLoop socket connect_errno alloc loop_ on_write on_error).

Lemma connecting_run fd s :
  inLoop s = true -> Service.idle loop_ (world s) -> backs_off s ->
  replay None (sockets s) = Some (Some fd) -> 0 <= fd /\ R !! fd = None -> parked s ->
  channel_ s = None -> waits s = 0%nat -> count ResetTask (tasks s) = 0%nat ->
  exists s', connecting alloc loop_ on_write on_error fd s = Ok s' /\ Inv s'.
Proof using Halloc H0.
  intros Hl Ht Hb Ho [Hfd HR] (Er & Hroom & _) Hc Hw Hr. unfold connecting. rewrite assert_decide, bind_ok by done.
  set (c := alloc _). set (ch := Channel.setErrorCallback _ _). cbn [world setState].
  destruct (Service.idle_make loop_ c ch (world s)) as (Ht1 & Er1 & Hroom1); [done|apply Halloc|].
  set (w1 := Channel.put_chan _ _ _) in *.
  assert (Channel.chan_of w1 c = Some ch) as Ew1 by apply Channel.chan_put_eq.
  destruct (Service.idle_register loop_ Channel.EnableWriting c ch w1 0) as (w & Hen & Ht2 & Er2 & Hroom2);
    [done|by apply Hroom1|done|done|done|done|by rewrite Er1, Er|].
  destruct (Channel.request_events _ _ _ _ _ Ew1 Hen) as (ch' & Ew & Es).
  change (Channel.enableWriting c w1 = Ok w) in Hen. rewrite Hen, bind_ok.
  eexists. split; [done|]. split; [done|done| |done]. unfold phase. cbn. exists fd. split_and!; try done.
  exists c, ch'. split_and!; try done; cbn.
  - exact (f_equal Channel.fd_ Es).
  - exact (f_equal Channel.loop_ Es).
  - exact (f_equal Channel.events_ Es).
  - exact (f_equal Channel.eventHandling_ Es).
  - by rewrite Er2, Er1, Er.
Qed.

(** An attempt, when nothing is under way. *)
Lemma connect_run s :
  inLoop s = true -> Service.idle loop_ (world s) -> backs_off s -> state_ s = kDisconnected ->
  replay None (sockets s) = Some None -> parked s -> channel_ s = None -> waits s = 0%nat ->
  count ResetTask (tasks s) = 0%nat ->
  exists s', connect s = Ok s' /\ Inv s'.
Proof using Halloc Hsock H0.
  intros Hl Ht Hb Hst Ho Hp Hc Hw Hr. unfold Connector.connect, Sockets.createNonblockingOrDie.
  rewrite (proj2 (Z.ltb_ge _ _)) by apply Hsock. rewrite bind_ok. cbn zeta.
  set (fd := socket (calls s)). set (s1 := note (Created fd) s).
  assert (replay None (sockets s1) = Some (Some fd)) as Ho1.
  { unfold s1. cbn. by rewrite replay_snoc, Ho. }
  destruct (goes_on _); [by apply connecting_run; try done; apply Hsock|]. destruct (tries_again _).
  - eexists. split; [done|]. by apply (retry_inv fd s1).
  - eexists. split; [done|]. split; try done. unfold phase. cbn. rewrite Hst.
    rewrite replay_snoc, replay_snoc, Ho. cbn. rewrite bool_decide_true by done.
    split_and!; [done|done|]. change (waits s <= 1)%nat. lia.
Qed.

Lemma startInLoop_run s :
  inLoop s = true -> Service.idle loop_ (world s) -> backs_off s -> state_ s = kDisconnected ->
  replay None (sockets s) = Some None -> parked s -> channel_ s = None -> waits s = 0%nat ->
  count ResetTask (tasks s) = 0%nat ->
  exists s', startInLoop s = Ok s' /\ Inv s'.
Proof using Halloc Hsock H0.
  intros Hl Ht Hb Hst Ho Hp Hc Hw Hr. unfold Connector.startInLoop, assertInLoopThread.
  rewrite Hl, bind_ok, assert_decide, bind_ok by done.
  destruct (connect_ s); [by apply connect_run|]. eexists. split; [done|]. split; try done.
  unfold phase. rewrite Hst. split_and!; [done|done|lia].
Qed.

(** ** Steps *)

(** The owner only calls [stop] while it takes a socket. *)
Context (owner : Z -> list call) (Howner : forall fd, Forall (eq CallStop) (owner fd)).

Abbreviation run_call := (run_call socket connect_errno alloc loop_ on_write on_error).
Abbreviation run_calls := (run_calls socket connect_errno alloc loop_ on_write on_error).
Abbreviation handleWrite :=
  (handleWrite socket connect_errno so_error self_connect alloc loop_ on_write on_error owner).
Abbreviation run_op :=
  (run_op socket connect_errno so_error self_connect alloc loop_ on_write on_error owner).
Abbreviation run_ops :=
  (run_ops socket connect_errno so_error self_connect alloc loop_ on_write on_error owner).

(** When an operation may happen.  [start] and [restart] are for a connector at
    rest: no retry planned, the last channel gone.  A retry, due after half a
    second or more, comes after the functors queued when it was planned. *)
Definition allowed (o : op) s : Prop :=
  match o with
  | OpCall _ CallStart => state_ s = kDisconnected /\ channel_ s = None /\ waits s = 0%nat
  | OpCall b CallRestart => b = true /\ state_ s = kConnected /\ channel_ s = None
  | OpTimer => count ResetTask (tasks s) = 0%nat
  | _ => True
  end.

Lemma parked_none s : parked s -> channel_ s = None -> count ResetTask (tasks s) = 0%nat.
Proof. intros (_ & _ & [[_ ?]|(_ & _ & c & ch & Ec & _)]) Hn; [done|congruence]. Qed.

Lemma none_parked s : parked s -> count ResetTask (tasks s) = 0%nat -> channel_ s = None.
Proof. intros (_ & _ & [[? _]|(? & _)]) Hn; [done|congruence]. Qed.

Lemma parked_queue t s : t <> ResetTask -> t <> StartTask -> parked s ->
  parked (set_tasks (tasks s ++ [t]) s).
Proof.
  intros Hr Hs Hp. unfold parked in *. cbn. rewrite !count_snoc, !bool_decide_false by done.
  by rewrite !Nat.add_0_r.
Qed.

Lemma stop_inv s : Inv s -> Inv (stop s) /\ state_ (stop s) = state_ s.
Proof.
  intros [Hl Ht Hp Hb]. split; [|done]. split; [done|done| |done].
  assert (waits (stop s) = waits s) as Hw.
  { unfold waits. cbn. rewrite count_snoc, bool_decide_false by done. lia. }
  unfold phase in *. rewrite Hw. cbn [state_ stop queueInLoop set_tasks set_connect sockets].
  assert (parked s -> parked (stop s)) as Hpk.
  { intros H1. by apply (parked_queue StopTask (set_connect false s)). }
  destruct (state_ s).
  - destruct Hp as (? & ? & ?). by split_and!; [|apply Hpk|].
  - destruct Hp as (fd & ? & (c & ch & ?) & ? & ?). exists fd. split_and!; [done|by exists c, ch|done|].
    cbn. rewrite count_snoc, bool_decide_false by done. lia.
  - destruct Hp as (? & ? & ?). by split_and!; [|apply Hpk|].
Qed.

Lemma stops_inv l s : Forall (eq CallStop) l -> Inv s -> exists s', run_calls l s = Ok s' /\ Inv s'.
Proof.
  revert s. induction l as [|o l IH]; intros s Hl Hs; [by exists s|].
  apply Forall_cons in Hl as [<- Hl]. cbn. apply IH; [done|]. by apply stop_inv.
Qed.

Lemma set_thread_same s : inLoop s = true -> set_thread true s = s.
Proof. by destruct s; cbn; intros ->. Qed.

Lemma call_run b o s : Inv s -> allowed (OpCall b o) s ->
  exists s', run_op (OpCall b o) s = Ok s' /\ Inv s'.
Proof using Halloc Hsock H0.
  intros Hs Ha. destruct (Hs) as [Hl Ht Hp Hb]. cbn [Connector.run_op]. destruct o; cbn [Connector.run_call allowed] in *.
  - destruct Ha as (Hst & Hc & Hw). unfold phase in Hp. rewrite Hst in Hp. destruct Hp as (Ho & Hp & _).
    pose proof (parked_none _ Hp Hc) as Hr. destruct b.
    + unfold start. cbn [inLoop set_connect set_thread].
      destruct (startInLoop_run (set_connect true (set_thread true s))) as (s' & -> & Hs'); [done..|].
      rewrite bind_ok. eexists. split; [done|]. rewrite Hl, set_thread_same; [done|]. apply Hs'.
    + cbn. eexists. split; [done|]. split; [done|done| |done]. unfold phase, waits, parked. cbn.
      rewrite Hst, !count_snoc, Hr. unfold waits in Hw. destruct Hp as (? & ? & _). split_and!; [done|done|done|by left|].
      rewrite bool_decide_true by done. lia.
  - destruct Ha as (-> & Hst & Hc). unfold phase in Hp. rewrite Hst in Hp. destruct Hp as (Ho & Hp & Hw).
    pose proof (parked_none _ Hp Hc) as Hr. rewrite set_thread_same by done.
    unfold restart, assertInLoopThread. rewrite Hl, bind_ok.
    destruct (startInLoop_run (set_connect true (set_retry kInitRetryDelayMs (timers s) []
      (setState kDisconnected s)))) as (s' & E & Hs'); try done.
    cbn zeta. cbn [timers setState] in *. rewrite E, bind_ok. eexists. split; [done|].
    rewrite set_thread_same; [done|]. apply Hs'.
  - eexists. split; [done|].
    assert (set_thread (inLoop s) (stop (set_thread b s)) = stop s) as -> by (by destruct s).
    by apply stop_inv.
Qed.

Lemma registered_connecting s : Inv s -> registered s = true -> state_ s = kConnecting.
Proof.
  intros [_ _ Hp _] Hr. unfold registered in Hr. unfold phase in Hp.
  assert (~ parked s) as Hnp.
  { intros (_ & _ & [[Hn _]|(_ & _ & c & ch & Ec & Ew & _ & _ & _ & _ & He)]); [by rewrite Hn in Hr|].
    by rewrite Ec, Ew, He in Hr. }
  destruct (state_ s); [|done|]; by destruct Hp as (_ & Hp & _).
Qed.

Lemma handleError_run s : Inv s -> state_ s = kConnecting ->
  exists s', handleError s = Ok s' /\ Inv s' /\ state_ s' = kDisconnected.
Proof using H0.
  intros [Hl Ht Hp Hb] Hst. unfold phase in Hp. rewrite Hst in Hp. destruct Hp as (fd & Ho & Ha & Hw & Hr).
  unfold handleError. rewrite bool_decide_true by done. by apply give_up_run with fd.
Qed.

Lemma handleWrite_run s : Inv s -> state_ s <> kConnected -> exists s', handleWrite s = Ok s' /\ Inv s'.
Proof using Howner H0.
  intros Hs Hne. unfold Connector.handleWrite. case_bool_decide as Hst.
  2:{ rewrite assert_decide, bind_ok by (by destruct (state_ s)). by exists s. }
  destruct Hs as [Hl Ht Hp Hb]. unfold phase in Hp. rewrite Hst in Hp. destruct Hp as (fd & Ho & Ha & Hw & Hr).
  pose proof Hw as Hw'. unfold waits in Hw'.
  destruct (removeAndReset_run fd s Ht Ha Hr) as (s1 & -> & Hp & w & Ht1 & E1); [lia|]. rewrite bind_ok.
  assert (inLoop s1 = true /\ Service.idle loop_ (world s1) /\ backs_off s1 /\
    replay None (sockets s1) = Some (Some fd) /\ waits s1 = 0%nat) as (Hl1 & Ht1' & Hb1 & Ho1 & Hw1).
  { subst s1. split_and!; try done. unfold waits. cbn.
    rewrite count_snoc, bool_decide_false by done. lia. }
  destruct (retry_inv fd s1) as [Hret _]; [done..|]. clear E1.
  destruct (negb _); [by eexists|]. destruct (self_connect _); [by eexists|]. cbn zeta.
  assert (forall e, e = Closed fd \/ e = Handed fd -> Inv (note e (setState kConnected s1))) as Hend.
  { intros e He. split; [done|done| |done]. unfold phase. cbn. rewrite replay_snoc, Ho1.
    split_and!; [|done|done]. by destruct He as [->| ->]; cbn; rewrite bool_decide_true. }
  destruct (connect_ _); [apply stops_inv; auto|]. eexists. split; [done|]. apply Hend. by left.
Qed.

Lemma event_run err wr s : Inv s -> exists s', run_op (OpEvent err wr) s = Ok s' /\ Inv s'.
Proof using Howner H0.
  intros Hs. cbn [Connector.run_op]. unfold dispatch.
  destruct (registered s) eqn:Hr; [|by exists s]. pose proof (registered_connecting s Hs Hr) as Hst.
  destruct err.
  - destruct (handleError_run s Hs Hst) as (s1 & -> & Hs1 & Hst1). rewrite bind_ok.
    destruct wr; [|by exists s1]. apply handleWrite_run; [done|by rewrite Hst1].
  - rewrite bind_ok. destruct wr; [|by exists s]. apply handleWrite_run; [done|by rewrite Hst].
Qed.

(** The oldest functor is taken off. *)
Lemma pop_phase t ts s :
  Inv s -> tasks s = t :: ts -> t <> ResetTask -> t <> StartTask -> Inv (set_tasks ts s).
Proof.
  intros [Hl Ht Hp Hb] Et Hr Hst. split; [done|done| |done]. unfold phase, parked, waits in *.
  cbn. rewrite Et, !count_cons, !bool_decide_false in Hp by done. exact Hp.
Qed.

Lemma task_run s : Inv s -> exists s', run_op OpTask s = Ok s' /\ Inv s'.
Proof using Halloc Hsock H0.
  intros Hs. cbn [Connector.run_op]. unfold run_task. destruct (tasks s) as [|t ts] eqn:Et; [by exists s|].
  cbn zeta. destruct (Hs) as [Hl Ht Hp Hb]. unfold phase, waits in Hp. rewrite Et, !count_cons in Hp.
  destruct t.
  - (* StartTask *)
    rewrite bool_decide_true in Hp by done. destruct (state_ s) eqn:Hst; [|exfalso..].
    2:{ destruct Hp as (? & ? & ? & Hw & _). lia. }
    2:{ destruct Hp as (? & ? & Hw). lia. }
    destruct Hp as (Ho & Hpk & Hw). destruct (Hpk) as (Er & Hroom & [[Hc Hr]|(_ & Hz & _)]).
    2:{ rewrite Et, count_cons, bool_decide_true in Hz by done. lia. }
    rewrite Et, count_cons in Hr. apply startInLoop_run; try done; [by split_and!; [| |left]|].
    unfold waits. cbn. lia.
  - (* StopTask *)
    pose proof (pop_phase _ _ _ Hs Et ltac:(done) ltac:(done)) as [_ _ Hp1 _].
    clear Hp. unfold stopInLoop, assertInLoopThread. cbn [inLoop set_tasks]. rewrite Hl, bind_ok.
    case_bool_decide as Hst; [|eexists; split; [done|]; by apply pop_phase with StopTask].
    unfold phase in Hp1. cbn [state_ set_tasks] in *. rewrite Hst in Hp1.
    destruct Hp1 as (fd & Ho & Ha & Hw & Hr).
    destruct (give_up_run fd (setState kDisconnected (set_tasks ts s))) as (s' & ? & ? & _); try done.
    by exists s'.
  - (* ResetTask *)
    assert (parked s /\ state_ s <> kConnecting) as [(Er & Hroom & Hpark) Hne].
    { rewrite (bool_decide_true (ResetTask = ResetTask)) in Hp by done.
      destruct (state_ s); [by destruct Hp as (_ & ? & _)| |by destruct Hp as (_ & ? & _)].
      destruct Hp as (? & ? & ? & ? & Hz). lia. }
    rewrite Et, count_cons, bool_decide_true in Hpark by done.
    destruct Hpark as [[_ Hz]|(Hz & _ & Hsp)]; [lia|].
    destruct (resetChannel_run (set_tasks ts s) Ht Er Hroom Hsp) as (w & -> & Ht' & Er' & Hroom').
    eexists. split; [done|]. split; [done|done| |done]. unfold phase, waits. cbn.
    assert (parked (set_channel None w (set_tasks ts s))) as Hpk by (split_and!; [done|done|left; split; [done|cbn; lia]]).
    destruct (state_ s); [|done|]; destruct Hp as (Ho & _ & Hw);
      rewrite (bool_decide_false (StartTask = ResetTask)) in Hw by done; by split_and!.
Qed.

Lemma timer_run s : Inv s -> allowed OpTimer s -> exists s', run_op OpTimer s = Ok s' /\ Inv s'.
Proof using Halloc Hsock H0.
  intros Hs Ha. cbn [Connector.run_op allowed] in *. unfold run_timer.
  destruct (timers s) as [|d ts] eqn:Et; [by exists s|].
  destruct Hs as [Hl Ht Hp Hb]. unfold phase, waits in Hp. rewrite Et in Hp. cbn [length] in Hp.
  destruct (state_ s) eqn:Hst; [|exfalso..].
  - destruct Hp as (Ho & Hp & Hw). apply startInLoop_run; try done; [by apply none_parked|].
    unfold waits. cbn. lia.
  - destruct Hp as (? & ? & ? & Hw & _). lia.
  - destruct Hp as (? & ? & Hw). lia.
Qed.

(** Each operation of a run happens when it is allowed. *)
Fixpoint allowed_all (os : list op) s : Prop :=
  match os with
  | [] => True
  | o :: os => allowed o s /\ match run_op o s with Ok s' => allowed_all os s' | Err _ => True end
  end.

Lemma ops_run os s : Inv s -> allowed_all os s -> exists s', run_ops os s = Ok s' /\ Inv s'.
Proof using Halloc Hsock Howner H0.
  revert s. induction os as [|o os IH]; intros s Hs Ha; [by exists s|].
  destruct Ha as [Ho Ha]. cbn [Connector.run_ops].
  assert (exists s1, run_op o s = Ok s1 /\ Inv s1) as (s1 & E1 & Hs1).
  { destruct o; [by apply call_run|by apply event_run|by apply task_run|by apply timer_run]. }
  rewrite E1, bind_ok. rewrite E1 in Ha. by apply IH.
Qed.

Lemma new_inv w : Service.idle loop_ w -> Service.room 1 w -> Service.registry w = R -> Inv (new w).
Proof.
  intros Ht Hr Er. split; [done|done| |done]. split_and!; [done|by split_and!; [| |left]|unfold waits, count; cbn; lia].
Qed.

End Kernel.
End Laws.

(** ** Properties *)

(** [C8] A connector never fails and never loses a socket, or a place in its loop.
    In a loop that serves, any sequence of connection attempts, events, functors,
    retries, [stop]s from any thread, and [start]s and [restart]s of a connector at
    rest, runs to its end without a failed assertion or a null or dangling channel.
    Sockets come one at a time: each is closed, or handed over, exactly once before
    the next is made, so the only open one is the one being connected; the loop's
    registry has what it had before, and the channel of that socket while there is
    one; and the delays asked for are half a second, doubling up to half a minute,
    from the last restart on. *)
Theorem connector_safe {W} `{Channel.HostLaws W} `{!Service.Service W} socket connect_errno so_error self_connect
    (alloc : W -> Z) loop_ on_write on_error owner os w :
  Service.idle loop_ w -> Service.room 1 w ->
  (forall n, 0 <= socket n /\ Service.registry w !! socket n = None) ->
  (forall w, Channel.chan_of w (alloc w) = None) -> (forall fd, Forall (eq CallStop) (owner fd)) ->
  allowed_all loop_ socket connect_errno so_error self_connect alloc on_write on_error owner os (new w) ->
  exists s, run_ops socket connect_errno so_error self_connect alloc loop_ on_write on_error owner os
      (new w) = Ok s /\
    (exists open, replay None (sockets s) = Some open /\ (open <> None <-> state_ s = kConnecting) /\
       Service.idle loop_ (world s) /\
       Service.registry (world s) = match open, channel_ s with
                                    | Some fd, Some c => <[fd := c]> (Service.registry w)
                                    | _, _ => Service.registry w
                                    end) /\
    delays s = map backoff (seq 0 (length (delays s))) /\
    retryDelayMs_ s = backoff (length (delays s)).
Proof.
  intros Ht Hroom Hsock Halloc Howner Ha.
  destruct (ops_run loop_ (Service.registry w) socket connect_errno so_error self_connect alloc on_write on_error
    Hsock Halloc owner Howner os (new w)) as (s & E & [_ Ht' Hp [Hd Hr]]); [by apply new_inv|done|].
  exists s. split_and!; [done| |done|done]. unfold phase in Hp. destruct (state_ s).
  - destruct Hp as (? & (? & _) & _). by exists None.
  - destruct Hp as (fd & ? & (c & ch & Ec & _ & _ & _ & _ & _ & ? & _) & _). exists (Some fd). by rewrite Ec.
  - destruct Hp as (? & (? & _) & _). by exists None.
Qed.

(** Starting again too early ends the process.  [start] does not look for a
    retry that is already planned: when that one is due while the new attempt
    goes on, [startInLoop] fails its assertion on the state. *)
Theorem connector_early_start_aborts {W} `{Channel.Host W} socket connect_errno
    (alloc : W -> Z) loop_ on_write on_error (s s1 : Connector W) :
  inLoop s = true -> state_ s = kDisconnected -> timers s <> [] ->
  start socket connect_errno alloc loop_ on_write on_error s = Ok s1 -> state_ s1 = kConnecting ->
  run_timer socket connect_errno alloc loop_ on_write on_error s1 = Err AssertFailure.
Proof.
  intros Hl Hst Ht Hr Hst1.
  assert (timers s1 <> [] /\ inLoop s1 = true) as [Ht1 Hl1].
  { unfold start in Hr. cbn [inLoop set_connect] in Hr. rewrite Hl in Hr. unfold startInLoop in Hr.
    inv_ok. cbn [connect_ set_connect] in Hr. unfold connect in Hr. inv_ok. cbn zeta in Hr.
    destruct (goes_on _).
    - unfold connecting in Hr. inv_ok. by subst s1.
    - destruct (tries_again _); inv_ok; subst s1; [|done]. unfold retry. cbn.
      split; [|done]. by destruct (timers s). }
  unfold run_timer. destruct (timers s1) as [|d ts]; [done|].
  unfold startInLoop, assertInLoopThread. cbn [inLoop state_ set_retry]. rewrite Hl1, Hst1, bind_ok.
  by rewrite (assert_decide_not (kConnecting = kDisconnected)).
Qed.

(** ** Witnesses *)

Abbreviation Loop := (EventLoop.EventLoop PollPoller.PollPoller).

(** Descriptors from 10 on; the connection is refused first, then it is made. *)
Definition socket0 (n : nat) : Z := 10 + Z.of_nat n.
Definition errno0 (n : nat) : Z := EINPROGRESS.
Definition so_error0 (n : nat) : Z := if bool_decide (n = 1%nat) then ECONNREFUSED else 0.
Definition alloc0 (w : Loop) : Z := fresh (dom (EventLoop.channels w) : gset Z).
Definition owner0 (fd : Z) : list call := [CallStop].

Definition ops0 : list op :=
  [OpCall true CallStart; OpEvent false true; OpTask; OpTimer; OpEvent false true; OpTask; OpTask].

Lemma alloc0_free w : Channel.chan_of w (alloc0 w) = None.
Proof. apply (not_elem_of_dom (D := gset Z)), (is_fresh (dom (EventLoop.channels w))). Qed.

Definition run0 : result (Connector Loop) :=
  run_ops socket0 errno0 so_error0 (fun _ => false) alloc0 1 2 3 owner0 ops0 (new (LoopService.poll_loop 1)).

Lemma connector_safe_witness :
  (sockets <$> run0) = Ok [Created 10; Closed 10; Created 12; Handed 12] /\
  exists s, run0 = Ok s /\
    (exists open, replay None (sockets s) = Some open /\ (open <> None <-> state_ s = kConnecting) /\
       Service.idle 1 (world s) /\
       Service.registry (world s) = match open, channel_ s with
                                    | Some fd, Some c => <[fd := c]> (Service.registry (LoopService.poll_loop 1))
                                    | _, _ => Service.registry (LoopService.poll_loop 1)
                                    end) /\
    delays s = map backoff (seq 0 (length (delays s))) /\
    retryDelayMs_ s = backoff (length (delays s)).
Proof.
  split; [vm_compute; reflexivity|].
  apply (connector_safe socket0 errno0 so_error0 (fun _ => false) alloc0 1 2 3 owner0 ops0 (LoopService.poll_loop 1)).
  - apply LoopService.poll_loop_idle.
  - by apply LoopService.poll_loop_room.
  - intros n. unfold socket0. split; [lia|done].
  - exact alloc0_free.
  - intros fd. by repeat constructor.
  - vm_compute. repeat split.
Defined.

(** A retry is planned for a refused connection; the user starts again, and this
    time the connection goes on. *)
Definition refused : Connector Loop :=
  set_retry 1000 [500] [500] (set_connect true (new (LoopService.poll_loop 1))).
Definition restarted : Connector Loop :=
  match start socket0 errno0 alloc0 1 2 3 refused with Ok s => s | Err _ => refused end.

Lemma connector_early_start_aborts_witness :
  run_timer socket0 errno0 alloc0 1 2 3 restarted = Err AssertFailure.
Proof.
  apply (connector_early_start_aborts socket0 errno0 alloc0 1 2 3 refused restarted);
    [reflexivity|reflexivity|discriminate|vm_compute; reflexivity|vm_compute; reflexivity].
Defined.

End Connector.
