(* ===== verification/EventLoopThreadPool.v ===== *)
(** * [dws::net::EventLoopThreadPool]: EventLoopThreadPool.h, EventLoopThreadPool.cc

    The loops of a server's threads, and how one is chosen for a connection.
    Starting a thread and getting the address of its loop is a parameter. *)

From S2P Require Import Prelude Text.

Module EventLoopThreadPool.

Section Pool.
(** [startLoop()] of the thread made as number [i] with that name. *)
Context (startLoop : Z -> list byte -> Z).

(** [threads_] keeps the names; [inited]: the loops the callback was given in
    this thread. *)
Record EventLoopThreadPool := mkPool {
  baseLoop_ : Z;
  name_ : list byte;
  started_ : bool;
  numThreads_ : Z;
  next_ : Z;
  threads_ : list (list byte);
  loops_ : list Z;
  inited : list Z;
  inLoop : bool
}.

Definition new (baseLoop : Z) (nameArg : list byte) : EventLoopThreadPool :=
  mkPool baseLoop nameArg false 0 0 [] [] [] true.

Definition setThreadNum (numThreads : Z) (p : EventLoopThreadPool) : EventLoopThreadPool :=
  mkPool (baseLoop_ p) (name_ p) (started_ p) numThreads (next_ p) (threads_ p) (loops_ p)
    (inited p) (inLoop p).

Definition assertInLoopThread (p : EventLoopThreadPool) : result unit :=
  if inLoop p then Ok tt else Err Aborted.

(** The name of a thread: a string as long as the buffer, with the characters
    that [snprintf] left and then zeros. *)
Definition thread_name (p : EventLoopThreadPool) (i : Z) : list byte :=
  let size := zlen (name_ p) + 32 in
  let text := Text.snprintf size (name_ p ++ Text.decimal i) in
  text ++ zreplicate (size - zlen text) Byte.x00.

(** The loop of [start], for the thread [i] and [n] more. *)
Fixpoint start_threads (n : nat) (i : Z) (p : EventLoopThreadPool) : EventLoopThreadPool :=
  match n with
  | O => p
  | S n =>
      let buf := thread_name p i in
      start_threads n (i + 1)
        (mkPool (baseLoop_ p) (name_ p) (started_ p) (numThreads_ p) (next_ p)
           (threads_ p ++ [buf]) (loops_ p ++ [startLoop i buf]) (inited p) (inLoop p))
  end.

Definition start (cb : bool) (p : EventLoopThreadPool) : result EventLoopThreadPool :=
  _ ← assert_ (negb (started_ p));
  _ ← assertInLoopThread p;
  let p := mkPool (baseLoop_ p) (name_ p) true (numThreads_ p) (next_ p) (threads_ p) (loops_ p)
    (inited p) (inLoop p) in
  let p := start_threads (Z.to_nat (numThreads_ p)) 0 p in
  if (numThreads_ p =? 0) && cb then
    Ok (mkPool (baseLoop_ p) (name_ p) (started_ p) (numThreads_ p) (next_ p) (threads_ p)
          (loops_ p) (inited p ++ [baseLoop_ p]) (inLoop p))
  else Ok p.

(** [loops_[i]], an unchecked access. *)
Definition loop_at (i : Z) (p : EventLoopThreadPool) : result Z :=
  match (if i <? 0 then None else loops_ p !! Z.to_nat i) with
  | Some loop => Ok loop
  | None => Err UndefinedBehaviour
  end.

Definition set_next (n : Z) (p : EventLoopThreadPool) : EventLoopThreadPool :=
  mkPool (baseLoop_ p) (name_ p) (started_ p) (numThreads_ p) n (threads_ p) (loops_ p)
    (inited p) (inLoop p).

Definition getNextLoop (p : EventLoopThreadPool) : result (Z * EventLoopThreadPool) :=
  _ ← assertInLoopThread p;
  _ ← assert_ (started_ p);
  match loops_ p with
  | [] => Ok (baseLoop_ p, p)
  | _ =>
      loop ← loop_at (next_ p) p;
      let n := next_ p + 1 in
      Ok (loop, set_next (if wrapu 64 n >=? zlen (loops_ p) then 0 else n) p)
  end.

Definition getLoopForHash (hashCode : Z) (p : EventLoopThreadPool) : result Z :=
  _ ← assertInLoopThread p;
  match loops_ p with
  | [] => Ok (baseLoop_ p)
  | _ => loop_at (Z.land hashCode (zlen (loops_ p))) p
  end.

Definition getAllLoops (p : EventLoopThreadPool) : result (list Z) :=
  _ ← assertInLoopThread p;
  _ ← assert_ (started_ p);
  match loops_ p with
  | [] => Ok [baseLoop_ p]
  | _ => Ok (loops_ p)
  end.

(** The loops of [m] new connections. *)
Fixpoint next_loops (m : nat) (p : EventLoopThreadPool) : result (list Z * EventLoopThreadPool) :=
  match m with
  | O => Ok ([], p)
  | S m =>
      '(loop, p) ← getNextLoop p;
      '(loops, p) ← next_loops m p;
      Ok (loop :: loops, p)
  end.

(** ** Lemmas *)

Lemma start_threads_spec n i p :
  let p' := start_threads n i p in
  loops_ p' = loops_ p ++ map (fun k => startLoop k (thread_name p k)) (seqZ i (Z.of_nat n)) /\
  zlen (threads_ p') = zlen (threads_ p) + Z.of_nat n /\
  baseLoop_ p' = baseLoop_ p /\ started_ p' = started_ p /\ next_ p' = next_ p /\
  inLoop p' = inLoop p /\ numThreads_ p' = numThreads_ p.
Proof.
  revert i p. induction n as [|n IH]; intros i p; cbn [start_threads].
  - rewrite app_nil_r. split_and!; lia || done.
  - destruct (IH (i + 1) (mkPool (baseLoop_ p) (name_ p) (started_ p) (numThreads_ p) (next_ p)
      (threads_ p ++ [thread_name p i]) (loops_ p ++ [startLoop i (thread_name p i)])
      (inited p) (inLoop p))) as (-> & -> & -> & -> & -> & -> & ->).
    cbn. rewrite zlen_app, (seqZ_cons i (Z.of_nat (S n))) by lia.
    replace (Z.pred (Z.of_nat (S n))) with (Z.of_nat n) by lia. rewrite <- Z.add_1_r.
    split_and!; [by rewrite <- app_assoc|change (zlen [_]) with 1; lia|done..].
Qed.

(** A pool in the middle of its round. *)
Definition turning (p : EventLoopThreadPool) : Prop :=
  inLoop p = true /\ started_ p = true /\ zlen (loops_ p) < 2 ^ 31 /\
  (loops_ p <> [] -> 0 <= next_ p < zlen (loops_ p)).

Lemma getNextLoop_spec p :
  turning p -> loops_ p <> [] ->
  exists p', getNextLoop p = Ok (nth (Z.to_nat (next_ p)) (loops_ p) 0, p') /\
    turning p' /\ loops_ p' = loops_ p /\
    next_ p' = (next_ p + 1) mod zlen (loops_ p).
Proof.
  intros (Hl & Hs & Hn & Hr) Hne. specialize (Hr Hne).
  unfold getNextLoop, assertInLoopThread. rewrite Hl, Hs. cbn [assert_]. rewrite !bind_ok.
  assert (loop_at (next_ p) p = Ok (nth (Z.to_nat (next_ p)) (loops_ p) 0)) as ->.
  { unfold loop_at. zcase (next_ p <? 0); [lia|]. unfold zlen in Hr.
    destruct (lookup_lt_is_Some_2 (loops_ p) (Z.to_nat (next_ p))) as [x Ex]; [lia|].
    rewrite Ex. by rewrite (nth_lookup_Some _ _ 0 x Ex). }
  destruct (loops_ p) as [|x l] eqn:El; [done|]. rewrite <- El in *. rewrite bind_ok.
  rewrite wrapu_small by lia. eexists. split; [done|]. rewrite Z.geb_leb.
  zcase (zlen (loops_ p) <=? next_ p + 1); cbn.
  - assert (next_ p + 1 = zlen (loops_ p)) as -> by lia. rewrite Z_mod_same_full.
    split_and!; [|done|done]. split_and!; try done. intros _. cbn. lia.
  - rewrite Z.mod_small by lia. split_and!; [|done|done]. split_and!; try done. intros _. cbn. lia.
Qed.

Lemma next_loops_spec m p :
  turning p -> loops_ p <> [] ->
  exists p', next_loops m p = Ok (map (fun k => nth (Z.to_nat ((next_ p + Z.of_nat k) mod zlen (loops_ p)))
      (loops_ p) 0) (seq 0 m), p').
Proof.
  revert p. induction m as [|m IH]; intros p Hp Hne; [by exists p|]. cbn [next_loops].
  destruct (getNextLoop_spec p Hp Hne) as (p1 & -> & Hp1 & El & En). rewrite bind_ok.
  destruct (IH p1 Hp1) as [p2 ->]; [by rewrite El|]. rewrite bind_ok. exists p2.
  destruct Hp as (_ & _ & _ & Hr). specialize (Hr Hne). cbn [seq map]. rewrite <- seq_shift, map_map.
  rewrite Z.add_0_r, Z.mod_small by lia. do 3 f_equal. rewrite El. apply map_ext. intros k.
  do 2 f_equal. rewrite En, Zplus_mod_idemp_l. f_equal. lia.
Qed.

(** What [start] leaves. *)
Lemma started_turning loop name n cb : 0 <= n < 2 ^ 31 ->
  exists p, start cb (setThreadNum n (new loop name)) = Ok p /\ turning p.
Proof.
  intros Hn. unfold start, setThreadNum, new, assertInLoopThread. cbn [started_ inLoop negb assert_].
  rewrite !bind_ok. cbn [numThreads_ baseLoop_ name_ next_ threads_ loops_ inited].
  set (p0 := mkPool _ _ _ _ _ _ _ _ _).
  destruct (start_threads_spec (Z.to_nat n) 0 p0) as (El & _ & _ & Es & En & Ei & _). cbn in El, Es, En, Ei.
  set (p1 := start_threads _ _ _) in *.
  assert (zlen (loops_ p1) = n) as Hl by (rewrite El; unfold zlen; rewrite length_map, length_seqZ; lia).
  assert (turning p1) as Ht.
  { split_and!; [done|done|lia|]. rewrite En, Hl. intros Hne.
    assert (0 < zlen (loops_ p1)) by (destruct (loops_ p1); [done|rewrite zlen_cons; zlen_lia]). lia. }
  destruct (_ && _); by eexists.
Qed.

End Pool.

(** ** Properties *)

(** Round robin.  A pool started with [n] threads in the loop's thread has
    the [n] loops of the threads, in order, and gives them to successive
    connections in turn: the connection number [k] gets the loop [k mod n].  With
    no threads every connection is for the base loop. *)
Theorem pool_round_robin startLoop base name n cb m :
  0 <= n < 2 ^ 31 ->
  exists p, start startLoop cb (setThreadNum n (new base name)) = Ok p /\
    zlen (loops_ p) = n /\ zlen (threads_ p) = n /\
    exists p', next_loops m p =
      Ok (map (fun k => if n =? 0 then base
                        else nth (Z.to_nat (Z.of_nat k mod n)) (loops_ p) 0) (seq 0 m), p').
Proof.
  intros Hn. unfold start, setThreadNum, new, assertInLoopThread. cbn [started_ inLoop negb assert_].
  rewrite !bind_ok. cbn [numThreads_ baseLoop_ name_ next_ threads_ loops_ inited].
  set (p0 := mkPool _ _ _ _ _ _ _ _ _).
  destruct (start_threads_spec startLoop (Z.to_nat n) 0 p0) as (El & Et & Eb & Es & En & Ei & Enum).
  set (p1 := start_threads _ _ _ _) in *. cbn in El, Et, Eb, Es, En, Ei, Enum.
  assert (zlen (loops_ p1) = n) as Hlen.
  { rewrite El. unfold zlen. rewrite length_map, length_seqZ. lia. }
  rewrite Z2Nat.id in Et by lia. rewrite zlen_nil in Et. clearbody p1.
  zcase (n =? 0); cbn [andb].
  - assert (loops_ p1 = []) as Hnil by (destruct (loops_ p1); [done|zlen_lia]).
    assert (forall p, inLoop p = true -> started_ p = true -> loops_ p = [] -> baseLoop_ p = base ->
      exists p', next_loops m p = Ok (map (fun _ => base) (seq 0 m), p')) as Hbase.
    { intros p Hi Hs Hl Hb. exists p. generalize 0%nat. induction m as [|m IH]; intros k; [done|].
      cbn [next_loops seq map]. unfold getNextLoop, assertInLoopThread. rewrite Hi, Hs, Hl, Hb.
      cbn [assert_]. rewrite !bind_ok. by rewrite (IH (S k)). }
    rewrite Enum, E. cbn. destruct cb; eexists; (split; [done|]); (split_and!; [cbn; lia..|]);
      by apply Hbase.
  - rewrite Enum. rewrite (proj2 (Z.eqb_neq n 0)) by done. cbn [andb].
    exists p1. split_and!; [done|done|done|].
    destruct (next_loops_spec m p1) as [p' ->].
    + split_and!; [done|done|lia|]. intros _. lia.
    + intros Hz. rewrite Hz, zlen_nil in Hlen. lia.
    + exists p'. do 2 f_equal. apply map_ext. intros k. by rewrite En, Z.add_0_l, Hlen.
Qed.

(** Choosing by hash.  [getLoopForHash] indexes with [hashCode & n] where it
    needs the remainder: the access is out of bounds exactly when the hash has
    all the bits of [n], and when [n] is a power of two, every other hash gets
    the first loop. *)
Theorem pool_hash_unbalanced p h :
  inLoop p = true -> loops_ p <> [] ->
  (getLoopForHash h p = Err UndefinedBehaviour <-> Z.land h (zlen (loops_ p)) = zlen (loops_ p)) /\
  (forall k loop, 0 <= k -> zlen (loops_ p) = 2 ^ k -> getLoopForHash h p = Ok loop ->
     loops_ p !! 0%nat = Some loop).
Proof.
  intros Hl Hne. unfold getLoopForHash, assertInLoopThread. rewrite Hl, bind_ok.
  assert (0 < zlen (loops_ p)) as Hpos.
  { destruct (loops_ p); [done|]. rewrite zlen_cons. zlen_lia. }
  assert (match loops_ p with [] => Ok (baseLoop_ p) | _ => loop_at (Z.land h (zlen (loops_ p))) p end
    = loop_at (Z.land h (zlen (loops_ p))) p) as -> by (by destruct (loops_ p)).
  set (n := zlen (loops_ p)) in *.
  assert (0 <= Z.land h n <= n) as Hle.
  { split; [apply Z.land_nonneg; lia|]. apply Z.ldiff_le; [lia|].
    apply Z.bits_inj'. intros i _. rewrite Z.ldiff_spec, Z.land_spec, Z.bits_0.
    by destruct (Z.testbit h i), (Z.testbit n i). }
  unfold loop_at. zcase (Z.land h n <? 0); [lia|]. unfold n, zlen in *. split.
  - destruct (loops_ p !! Z.to_nat (Z.land h (Z.of_nat (length (loops_ p))))) as [x|] eqn:Ex.
    + apply lookup_lt_Some in Ex. split; [done|lia].
    + apply lookup_ge_None in Ex. split; [lia|done].
  - intros k loop Hk Hn Hok.
    assert (Z.land h (Z.of_nat (length (loops_ p))) = 0 \/
      Z.land h (Z.of_nat (length (loops_ p))) = Z.of_nat (length (loops_ p))) as [Hz|Hz].
    { rewrite Hn. destruct (Z.testbit h k) eqn:Eb; [right|left]; apply Z.bits_inj'; intros i Hi;
        rewrite Z.land_spec, ?Z.bits_0, Z.pow2_bits_eqb by lia;
        destruct (Z.eqb_spec k i); try subst i; by rewrite ?Eb, ?andb_false_r, ?andb_true_r. }
    + rewrite Hz in Hok. change (Z.to_nat 0) with 0%nat in Hok. cbn in Hok.
      by destruct (loops_ p !! 0%nat); inv_ok; subst.
    + rewrite Hz in Hok. rewrite lookup_ge_None_2 in Hok by lia. done.
Qed.

(** ** Witnesses *)

Definition startLoop0 (i : Z) (name : list byte) : Z := 100 + i.

Lemma pool_round_robin_witness :
  exists p, start startLoop0 true (setThreadNum 3 (new 1 (bytes_of "io"))) = Ok p /\
    zlen (loops_ p) = 3 /\ zlen (threads_ p) = 3 /\
    exists p', next_loops 5 p =
      Ok (map (fun k => if 3 =? 0 then 1 else nth (Z.to_nat (Z.of_nat k mod 3)) (loops_ p) 0)
            (seq 0 5), p').
Proof. apply (pool_round_robin startLoop0 1 (bytes_of "io") 3 true 5). lia. Defined.

Definition pool4 : EventLoopThreadPool :=
  mkPool 1 [] true 4 0 [] [100; 101; 102; 103] [] true.

Lemma pool_hash_unbalanced_witness :
  getLoopForHash 11 pool4 = Ok 100 /\ getLoopForHash 12 pool4 = Err UndefinedBehaviour.
Proof.
  split; [reflexivity|].
  apply (pool_hash_unbalanced pool4 12); [reflexivity|discriminate|reflexivity].
Defined.

End EventLoopThreadPool.
