(* ===== verification/TcpServer.v ===== *)
(** * [dws::net::TcpServer]: TcpServer.h, TcpServer.cc

    The registry of a server's connections.  Connections are accepted in the
    base loop, live in the loop the pool chose, and are taken out of the registry
    in the base loop again; the loops talk through their functor queues, which the
    connections use too.  A connection is anything that keeps the contract of
    Connection.v; OwnedConnection.v has TcpConnection.v keep it. *)

From stdpp Require Import functions.
From S2P Require Import Prelude Text Connection EventLoopThreadPool.

Module TcpServer.
Import Connection (StateE, kDisconnected, kConnecting, kConnected, kDisconnecting, outcome, Done,
  OwnerFault, ConnectionFault, owner, callee, blameless, state_of, channel_of, pending, sound,
  unused, elsewhere, up, turns).

(** The functors in the queues of the loops; [Remove] holds the server's address,
    [Own] is a functor of the connection with that address and number. *)
Inductive task := Establish (c : Z) | Remove (c : Z) | Destroy (c : Z) | Own (c id : Z).

#[global] Instance task_eqdec : EqDecision task.
Proof. solve_decision. Defined.

(** The stations of a connection's life. *)
Inductive station := Accepted | Established | Removed | Destroyed.

#[global] Instance station_eqdec : EqDecision station.
Proof. solve_decision. Defined.

(** A connection, with the number it was given. *)
Record Conn (K : Type) := mkConn { cname : list byte; cloop : Z; csock : Z; cobj : K; cid : Z }.
Arguments mkConn {K} _ _ _ _ _.
Arguments cname {K} _.
Arguments cloop {K} _.
Arguments csock {K} _.
Arguments cobj {K} _.
Arguments cid {K} _.

Definition set_object {K} (o : K) (k : Conn K) : Conn K :=
  mkConn (cname k) (cloop k) (csock k) o (cid k).

(** [conns]: the connections alive, by address.  [loops]: the loops, by address.
    [queue]: the functors of all loops, each with its loop, oldest first.  [log]:
    the stations passed, by number.  [dead]: the server is destroyed. *)
Record TcpServer (K L : Type) := mkServer {
  loop_ : Z;
  ipPort_ : list byte;
  name_ : list byte;
  threadPool_ : EventLoopThreadPool.EventLoopThreadPool;
  started_ : Z;
  nextConnId_ : Z;
  connections_ : gmap (list byte) Z;
  conns : gmap Z (Conn K);
  loops : Z -> L;
  queue : list (Z * task);
  log : list (Z * station);
  dead : bool
}.
Arguments mkServer {K L} _ _ _ _ _ _ _ _ _ _ _ _.
Arguments loop_ {K L} _.
Arguments ipPort_ {K L} _.
Arguments name_ {K L} _.
Arguments threadPool_ {K L} _.
Arguments started_ {K L} _.
Arguments nextConnId_ {K L} _.
Arguments connections_ {K L} _.
Arguments conns {K L} _.
Arguments loops {K L} _ _.
Arguments queue {K L} _.
Arguments log {K L} _.
Arguments dead {K L} _.

Section Server.
Context {K L : Type} `{Connection.Connection K L}.
Implicit Types s : TcpServer K L.

Definition set_pool (p : EventLoopThreadPool.EventLoopThreadPool) (n : Z) s : TcpServer K L :=
  mkServer (loop_ s) (ipPort_ s) (name_ s) p (started_ s) n (connections_ s) (conns s) (loops s)
    (queue s) (log s) (dead s).
Definition set_registry (m : gmap (list byte) Z) s : TcpServer K L :=
  mkServer (loop_ s) (ipPort_ s) (name_ s) (threadPool_ s) (started_ s) (nextConnId_ s) m (conns s)
    (loops s) (queue s) (log s) (dead s).
Definition set_conns (h : gmap Z (Conn K)) s : TcpServer K L :=
  mkServer (loop_ s) (ipPort_ s) (name_ s) (threadPool_ s) (started_ s) (nextConnId_ s)
    (connections_ s) h (loops s) (queue s) (log s) (dead s).
Definition set_loop (l : Z) (x : L) s : TcpServer K L :=
  mkServer (loop_ s) (ipPort_ s) (name_ s) (threadPool_ s) (started_ s) (nextConnId_ s)
    (connections_ s) (conns s) (<[l := x]> (loops s)) (queue s) (log s) (dead s).
Definition set_queue (q : list (Z * task)) s : TcpServer K L :=
  mkServer (loop_ s) (ipPort_ s) (name_ s) (threadPool_ s) (started_ s) (nextConnId_ s)
    (connections_ s) (conns s) (loops s) q (log s) (dead s).
Definition note (id : Z) (e : station) s : TcpServer K L :=
  mkServer (loop_ s) (ipPort_ s) (name_ s) (threadPool_ s) (started_ s) (nextConnId_ s)
    (connections_ s) (conns s) (loops s) (queue s) (log s ++ [(id, e)]) (dead s).
Definition set_started s : TcpServer K L :=
  mkServer (loop_ s) (ipPort_ s) (name_ s) (threadPool_ s) 1 (nextConnId_ s)
    (connections_ s) (conns s) (loops s) (queue s) (log s) (dead s).
Definition set_dead (m : gmap (list byte) Z) s : TcpServer K L :=
  mkServer (loop_ s) (ipPort_ s) (name_ s) (threadPool_ s) (started_ s) (nextConnId_ s)
    m (conns s) (loops s) (queue s) (log s) true.

Definition new (loop : Z) (ipPort name : list byte) (ls : Z -> L) : TcpServer K L :=
  mkServer loop ipPort name (EventLoopThreadPool.new loop name) 0 1 ∅ ∅ ls [] [] false.

Definition queueInLoop (l : Z) (t : task) s : TcpServer K L := set_queue (queue s ++ [(l, t)]) s.

(** [assertInLoopThread] of the loop [l], in the thread of the loop [cur]. *)
Definition assertInLoopThread (cur l : Z) : outcome unit :=
  owner (if cur =? l then Ok tt else Err Aborted).

Definition deref (c : Z) s : outcome (Conn K) :=
  owner match conns s !! c with Some k => Ok k | None => Err UndefinedBehaviour end.

(** The name of the connection number [id]. *)
Definition conn_name s (id : Z) : list byte :=
  name_ s ++ Text.snprintf 64 (bytes_of "-" ++ ipPort_ s ++ bytes_of "#" ++ Text.decimal id).

(** ** Operations of a connection *)

(** The connection and its loop after an operation that left [before] of its
    functors in the queue: those it queued are at the end. *)
Definition own_functors (c : Z) (k : Conn K) (n : nat) : list (Z * task) :=
  replicate n (cloop k, Own c (cid k)).
Definition commit (c : Z) (k : Conn K) (before : nat) (o : K) (l : L) s : TcpServer K L :=
  set_queue (queue s ++ own_functors c k (pending o - before))
    (set_loop (cloop k) l (set_conns (<[c := set_object o k]> (conns s)) s)).

(** The preconditions are the server's duty. *)
Definition connectEstablished (cur c : Z) s : outcome (TcpServer K L) :=
  k ← deref c s;
  _ ← assertInLoopThread cur (cloop k);
  _ ← owner (assert_ (bool_decide (state_of (cobj k) = kConnecting)));
  '(o, l) ← callee (Connection.connectEstablished c (cobj k) (loops s (cloop k)));
  Done (note (cid k) Established (commit c k (pending (cobj k)) o l s)).

(** The functor is the last to hold the connection, which ends with it; in the two
    states excluded, [Channel::remove] or [~TcpConnection] fails an assertion.
    Functors of the connection that are still queued point to it. *)
Definition connectDestroyed (cur c : Z) s : outcome (TcpServer K L) :=
  k ← deref c s;
  _ ← assertInLoopThread cur (cloop k);
  _ ← owner (assert_ (bool_decide (state_of (cobj k) <> kDisconnecting)));
  _ ← owner (assert_ (bool_decide (state_of (cobj k) <> kConnecting)));
  '(o, l) ← callee (Connection.connectDestroyed (cobj k) (loops s (cloop k)));
  l ← callee (Connection.destruct o l);
  Done (note (cid k) Destroyed
    (set_conns (delete c (conns s)) (commit c k (pending (cobj k)) o l s))).

Definition removeConnectionInLoop (cur c : Z) s : outcome (TcpServer K L) :=
  _ ← assertInLoopThread cur (loop_ s);
  k ← deref c s;
  let n := if bool_decide (is_Some (connections_ s !! cname k)) then 1 else 0 in
  let s := set_registry (delete (cname k) (connections_ s)) s in
  _ ← owner (assert_ (n =? 1));
  Done (queueInLoop (cloop k) (Destroy c) (note (cid k) Removed s)).

Definition removeConnection (cur c : Z) s : outcome (TcpServer K L) :=
  if dead s then OwnerFault UndefinedBehaviour
  else if cur =? loop_ s then removeConnectionInLoop cur c s
  else Done (queueInLoop (loop_ s) (Remove c) s).

(** Something happens to a connection, in its loop's thread as far as closing goes:
    the close callback is [removeConnection]. *)
Definition happens (c : Z) (k : Conn K) (before : nat) (r : result (K * L * bool)) s
  : outcome (TcpServer K L) :=
  '(o, l, closed) ← callee r;
  let s := commit c k before o l s in
  if closed : bool then removeConnection (cloop k) c s else Done s.

Definition connection_act (c : Z) (a : Connection.Action) s : outcome (TcpServer K L) :=
  match conns s !! c with
  | Some k =>
      happens c k (pending (cobj k)) (Connection.act a (cobj k) (loops s (cloop k))) s
  | None => Done s
  end.

(** A functor of a connection, which must be alive. *)
Definition connection_functor (c id : Z) s : outcome (TcpServer K L) :=
  match conns s !! c with
  | Some k =>
      if cid k =? id then
        happens c k (pred (pending (cobj k)))
          (Connection.run_functor (cobj k) (loops s (cloop k))) s
      else ConnectionFault UndefinedBehaviour
  | None => ConnectionFault UndefinedBehaviour
  end.

(** ** The server *)

Section Operations.
(** The start of the pool's threads. *)
Context (startLoop : Z -> list byte -> Z).

Definition setThreadNum (n : Z) s : result (TcpServer K L) :=
  _ ← assert_ (0 <=? n);
  Ok (set_pool (EventLoopThreadPool.setThreadNum n (threadPool_ s)) (nextConnId_ s) s).

(** [start]; [listening]: the acceptor's flag. *)
Definition start (cb listening : bool) s : result (TcpServer K L) :=
  let s := set_started s in
  p ← EventLoopThreadPool.start startLoop cb (threadPool_ s);
  _ ← assert_ (negb listening);
  Ok (set_pool p (nextConnId_ s) s).

End Operations.

(** [c]: the address the allocator gives. *)
Definition newConnection (cur c sockfd : Z) s : outcome (TcpServer K L) :=
  _ ← assertInLoopThread cur (loop_ s);
  '(ioLoop, p) ← owner (EventLoopThreadPool.getNextLoop (threadPool_ s));
  let id := nextConnId_ s in
  _ ← owner (no_overflow 32 [id + 1]);
  let connName := conn_name s id in
  '(o, l) ← callee (Connection.construct c ioLoop sockfd (loops s ioLoop));
  let k := mkConn connName ioLoop sockfd o id in
  let s := set_loop ioLoop l (set_conns (<[c := k]> (conns s)) (set_pool p (id + 1) s)) in
  let s := note id Accepted (set_registry (<[connName := c]> (connections_ s)) s) in
  if cur =? ioLoop then connectEstablished cur c s
  else Done (queueInLoop ioLoop (Establish c) s).

(** [~TcpServer]: every connection is released and, in its loop, destroyed. *)
Fixpoint destroy_all (cur : Z) (cs : list Z) s : outcome (TcpServer K L) :=
  match cs with
  | [] => Done s
  | c :: cs =>
      k ← deref c s;
      s ← (if cur =? cloop k then connectDestroyed cur c s
           else Done (queueInLoop (cloop k) (Destroy c) s));
      destroy_all cur cs s
  end.
Definition destructor (cur : Z) s : outcome (TcpServer K L) :=
  _ ← assertInLoopThread cur (loop_ s);
  s ← destroy_all cur (map snd (map_to_list (connections_ s))) s;
  Done (set_dead ∅ s).

(** The oldest functor of the loop [l]. *)
Fixpoint pop (l : Z) (q : list (Z * task)) : option (task * list (Z * task)) :=
  match q with
  | [] => None
  | (l', t) :: q =>
      if l' =? l then Some (t, q)
      else match pop l q with Some (u, q) => Some (u, (l', t) :: q) | None => None end
  end.

Definition run_functor (l : Z) s : outcome (TcpServer K L) :=
  match pop l (queue s) with
  | None => Done s
  | Some (t, q) =>
      let s := set_queue q s in
      match t with
      | Establish c => connectEstablished l c s
      | Remove c => if dead s then OwnerFault UndefinedBehaviour else removeConnectionInLoop l c s
      | Destroy c => connectDestroyed l c s
      | Own c id => connection_functor c id s
      end
  end.

(** What may happen next: the acceptor has a socket, something happens to a
    connection, a loop runs a functor, the server is destroyed. *)
Inductive op :=
| OpAccept (c sockfd : Z)
| OpConnection (c : Z) (a : Connection.Action)
| OpRun (l : Z)
| OpEnd.

Definition run_op (o : op) s : outcome (TcpServer K L) :=
  match o with
  | OpAccept c sockfd => newConnection (loop_ s) c sockfd s
  | OpConnection c a => connection_act c a s
  | OpRun l => run_functor l s
  | OpEnd => destructor (loop_ s) s
  end.

Fixpoint run_ops (os : list op) s : outcome (TcpServer K L) :=
  match os with
  | [] => Done s
  | o :: os => s ← run_op o s; run_ops os s
  end.

End Server.
Arguments op K L {_}.

(** ** Lemmas *)

Definition cnt (t : task) (q : list (Z * task)) : nat := length (filter (fun p => snd p = t) q).

#[global] Arguments cnt : simpl never.

Lemma cnt_app t q r : cnt t (q ++ r) = (cnt t q + cnt t r)%nat.
Proof. unfold cnt. by rewrite filter_app, length_app. Qed.

Lemma cnt_cons t p q : cnt t (p :: q) = ((if bool_decide (snd p = t) then 1 else 0) + cnt t q)%nat.
Proof. unfold cnt. rewrite filter_cons. by case_decide; case_bool_decide. Qed.

Lemma cnt_snoc t l u q :
  cnt t (q ++ [(l, u)]) = (cnt t q + if bool_decide (u = t) then 1 else 0)%nat.
Proof. rewrite cnt_app, cnt_cons. unfold cnt at 2. cbn. lia. Qed.

Lemma cnt_in t l q : (l, t) ∈ q -> (0 < cnt t q)%nat.
Proof.
  intros Hin. apply list_elem_of_split in Hin as (q1 & q2 & ->).
  rewrite cnt_app, cnt_cons, bool_decide_true by done. lia.
Qed.

Lemma cnt_zero t q : (forall l, (l, t) ∉ q) -> cnt t q = 0%nat.
Proof.
  intros Hn. unfold cnt. destruct (filter _ q) as [|[l u] r] eqn:E; [done|].
  assert ((l, u) ∈ filter (fun p => snd p = t) q) as Hin by (rewrite E; by left).
  apply list_elem_of_filter in Hin as [Hu Hin]. cbn in Hu. subst u. by destruct (Hn l).
Qed.

Lemma cnt_replicate t l u n :
  cnt t (replicate n (l, u)) = if bool_decide (u = t) then n else 0%nat.
Proof.
  induction n as [|n IH]; cbn [replicate]; [by case_bool_decide|].
  rewrite cnt_cons, IH. cbn [snd]. by case_bool_decide.
Qed.

Lemma pop_some l q t q' :
  pop l q = Some (t, q') -> exists q1 q2, q = q1 ++ (l, t) :: q2 /\ q' = q1 ++ q2.
Proof.
  revert q'. induction q as [|[l' u] q IH]; intros q'; [done|]. cbn [pop].
  destruct (Z.eqb_spec l' l) as [->|Hne].
  - intros [= <- <-]. by exists [], q.
  - destruct (pop l q) as [[v q0]|]; [|done]. intros [= <- <-].
    destruct (IH q0 eq_refl) as (q1 & q2 & -> & ->). by exists ((l', u) :: q1), q2.
Qed.

(** The functor that is run is taken off the counts. *)
Lemma pop_cnt l q t q' u : pop l q = Some (t, q') ->
  cnt u q = ((if bool_decide (t = u) then 1 else 0) + cnt u q')%nat.
Proof.
  intros (q1 & q2 & -> & ->)%pop_some. rewrite !cnt_app, cnt_cons. cbn [snd]. lia.
Qed.

Lemma pop_in l q t q' : pop l q = Some (t, q') -> (l, t) ∈ q /\ forall p, p ∈ q' -> p ∈ q.
Proof.
  intros (q1 & q2 & -> & ->)%pop_some. split; [apply elem_of_app; right; by left|].
  intros p. rewrite !elem_of_app, elem_of_cons. tauto.
Qed.

(** The stations of the connection number [id]. *)
Definition life (id : Z) (l : list (Z * station)) : list station :=
  omap (fun p => if bool_decide (fst p = id) then Some (snd p) else None) l.

#[global] Arguments life : simpl never.

Lemma life_snoc id i e l :
  life id (l ++ [(i, e)]) = life id l ++ if bool_decide (i = id) then [e] else [].
Proof. unfold life. rewrite omap_app. f_equal. cbn. by case_bool_decide. Qed.

(** Where a connection is on its way. *)
Inductive phase := Connecting | Up | Closed | Gone.

Definition phase_state (p : phase) (st : StateE) : Prop :=
  match p with
  | Connecting => st = kConnecting
  | Up => up st
  | Closed | Gone => st = kDisconnected
  end.
Definition stations (p : phase) : list station :=
  match p with
  | Connecting => [Accepted]
  | Up | Closed => [Accepted; Established]
  | Gone => [Accepted; Established; Removed]
  end.

(** The connection a functor of the server is for. *)
Definition conn_of (t : task) : option Z :=
  match t with Establish c | Remove c | Destroy c => Some c | Own _ _ => None end.

(** The server's functor that a connection waits for. *)
Definition owed (p : phase) (c : Z) : option task :=
  match p with
  | Connecting => Some (Establish c)
  | Up => None
  | Closed => Some (Remove c)
  | Gone => Some (Destroy c)
  end.

(** Of the functors for [c], the queue has [w] once and no other. *)
Definition waits_for (q : list (Z * task)) (c : Z) (w : option task) : Prop :=
  forall t, conn_of t = Some c -> cnt t q = if bool_decide (w = Some t) then 1%nat else 0%nat.

Lemma waits_snoc q c l t : waits_for q c None -> conn_of t = Some c -> waits_for (q ++ [(l, t)]) c (Some t).
Proof.
  intros Hw Ht u Hu. rewrite cnt_snoc, (Hw u Hu), (bool_decide_ext (Some t = Some u) (t = u)); [done|].
  split; congruence.
Qed.

Lemma waits_own q c w l d id n : waits_for q c w -> waits_for (q ++ replicate n (l, Own d id)) c w.
Proof.
  intros Hw u Hu. rewrite cnt_app, (Hw u Hu), cnt_replicate, (bool_decide_false (Own d id = u)); [lia|].
  by intros <-.
Qed.

Lemma waits_pop l q t q' c w :
  pop l q = Some (t, q') -> conn_of t = Some c -> waits_for q c w -> w = Some t /\ waits_for q' c None.
Proof.
  intros Hp Ht Hw. assert (w = Some t) as ->.
  { pose proof (Hw t Ht) as Hc. rewrite (pop_cnt _ _ _ _ t Hp), bool_decide_true in Hc by done.
    by case_bool_decide. }
  split; [done|]. intros u Hu. pose proof (Hw u Hu) as Hc. rewrite (pop_cnt _ _ _ _ u Hp) in Hc.
  cbn. repeat case_bool_decide; congruence || lia.
Qed.

Lemma waits_pop_other l q t q' c w :
  pop l q = Some (t, q') -> conn_of t <> Some c -> waits_for q c w -> waits_for q' c w.
Proof.
  intros Hp Ht Hw u Hu. rewrite <- (Hw u Hu), (pop_cnt _ _ _ _ u Hp), (bool_decide_false (t = u)); [lia|].
  congruence.
Qed.

(** Names up to 51 characters leave room for every number. *)
Definition named {K L} (s : TcpServer K L) : Prop := zlen (ipPort_ s) <= 51.

Lemma conn_name_inj {K L} (s : TcpServer K L) i j :
  named s -> 0 <= i < 2 ^ 31 -> 0 <= j < 2 ^ 31 -> conn_name s i = conn_name s j -> i = j.
Proof.
  intros Hn Hi Hj E. unfold named in Hn. unfold conn_name, Text.snprintf in E.
  pose proof (Text.zlen_decimal_le i 10 ltac:(lia)). pose proof (Text.zlen_decimal_le j 10 ltac:(lia)).
  rewrite !ztake_all in E
    by (rewrite !zlen_app; change (zlen (bytes_of "-")) with 1;
        change (zlen (bytes_of "#")) with 1; lia).
  rewrite !app_assoc in E. apply app_inv_head in E.
  by rewrite <- (Text.decimal_value_decimal i), E, Text.decimal_value_decimal.
Qed.

Section Laws.
Context {K L : Type} `{Connection.ConnectionLaws K L}.
Implicit Types s : TcpServer K L.

Definition loop_for s (k : Conn K) (t : task) : Z :=
  match t with Remove _ => loop_ s | _ => cloop k end.

(** A connection in its phase: its state, the functor [w] of the server it waits for,
    its own [n] functors, its place in the registry, what the log has of it, its own
    invariant. *)
Record standing s (c : Z) (k : Conn K) (p : phase) (w : option task) (n : nat)
  : Prop := {
  st_state : phase_state p (state_of (cobj k));
  st_tasks : waits_for (queue s) c w;
  st_own : cnt (Own c (cid k)) (queue s) = n;
  st_registered : connections_ s !! cname k = (if p is Gone then None else Some c);
  st_life : life (cid k) (log s) = stations p;
  st_sound : sound (cobj k) (loops s (cloop k));
  st_channel : channel_of (cobj k) = c
}.
Definition phase_ok s (c : Z) (k : Conn K) (p : phase) : Prop :=
  standing s c k p (owed p c) (pending (cobj k)).

(** Functors are in the right loop. *)
Definition placed s (l : Z) (t : task) : Prop :=
  match t with
  | Own c id => 1 <= id < nextConnId_ s /\
      forall k, conns s !! c = Some k -> cid k = id -> l = cloop k
  | Establish c | Remove c | Destroy c => exists k, conns s !! c = Some k /\ l = loop_for s k t
  end.

Record Inv s : Prop := {
  inv_pool : EventLoopThreadPool.turning (threadPool_ s);
  inv_alive : dead s = false;
  inv_named : named s;
  inv_next : 1 <= nextConnId_ s < 2 ^ 31;
  inv_id : forall c k, conns s !! c = Some k -> 1 <= cid k < nextConnId_ s /\ cname k = conn_name s (cid k);
  inv_inj : forall c d k h, conns s !! c = Some k -> conns s !! d = Some h -> cid k = cid h -> c = d;
  inv_phase : forall c k, conns s !! c = Some k -> exists p, phase_ok s c k p;
  inv_registry : forall n c, connections_ s !! n = Some c ->
    exists k, conns s !! c = Some k /\ cname k = n;
  inv_queue : forall l t, (l, t) ∈ queue s -> placed s l t;
  inv_past : forall id, (forall c k, conns s !! c = Some k -> cid k <> id) ->
    life id (log s) = [] \/ life id (log s) = [Accepted; Established; Removed; Destroyed];
  inv_future : forall id, nextConnId_ s <= id -> life id (log s) = []
}.

(** What the steps of a connection leave alone. *)
Record same_server s s' : Prop := {
  same_loop : loop_ s' = loop_ s;
  same_ipPort : ipPort_ s' = ipPort_ s;
  same_name : name_ s' = name_ s;
  same_pool : threadPool_ s' = threadPool_ s;
  same_next : nextConnId_ s' = nextConnId_ s;
  same_dead : dead s' = dead s
}.

#[local] Instance same_server_preorder : PreOrder same_server.
Proof. split; [done|]. intros s1 s2 s3 [] []. split; congruence. Qed.

Lemma conn_name_same s s' id : same_server s s' -> conn_name s' id = conn_name s id.
Proof. intros []. unfold conn_name. congruence. Qed.

Lemma conn_id s c k : Inv s -> conns s !! c = Some k -> 0 <= cid k < 2 ^ 31.
Proof. intros Hi Hc. destruct (inv_id _ Hi _ _ Hc). pose proof (inv_next _ Hi). lia. Qed.

(** Two connections alive have different names. *)
Lemma names_apart s c d k h :
  Inv s -> conns s !! c = Some k -> conns s !! d = Some h -> c <> d -> cname h <> cname k.
Proof.
  intros Hi Hc Hd Hne E. destruct (inv_id _ Hi _ _ Hc) as [_ Ek], (inv_id _ Hi _ _ Hd) as [_ Eh].
  rewrite Ek, Eh in E. apply Hne, (inv_inj _ Hi _ _ _ _ Hc Hd). symmetry.
  apply (conn_name_inj s); [apply Hi|by eapply conn_id..|done].
Qed.

(** ** One connection moves on *)

Definition about (c : Z) (k : Conn K) (t : task) : Prop := conn_of t = Some c \/ t = Own c (cid k).

(** Only the connection [c], its loop, its functors, its name in the registry and
    its entries of the log have changed. *)
Record moved s s' (c : Z) (k k' : Conn K) : Prop := {
  mv_server : same_server s s';
  mv_conns : conns s' = <[c := k']> (conns s);
  mv_name : cname k' = cname k;
  mv_id : cid k' = cid k;
  mv_loop : cloop k' = cloop k;
  mv_loops : forall l, l <> cloop k -> loops s' l = loops s l;
  mv_elsewhere : elsewhere c (loops s (cloop k)) (loops s' (cloop k));
  mv_counts : forall t, ~ about c k t -> cnt t (queue s') = cnt t (queue s);
  mv_placed : forall l t, (l, t) ∈ queue s' -> (l, t) ∈ queue s \/ (about c k t /\ l = loop_for s k t);
  mv_registry : forall n, n <> cname k -> connections_ s' !! n = connections_ s !! n;
  mv_log : forall id, id <> cid k -> life id (log s') = life id (log s)
}.

Lemma moved_trans s1 s2 s3 c k1 k2 k3 :
  moved s1 s2 c k1 k2 -> moved s2 s3 c k2 k3 -> moved s1 s3 c k1 k3.
Proof.
  intros [A1 A2 A3 A4 A5 A6 A7 A8 A9 A10 A11] [B1 B2 B3 B4 B5 B6 B7 B8 B9 B10 B11].
  assert (forall t, about c k2 t <-> about c k1 t) as Hab by (intros t; unfold about; by rewrite A4).
  split; try congruence.
  - by etrans.
  - by rewrite B2, A2, insert_insert_eq.
  - intros l Hl. rewrite B6, A6 by congruence. done.
  - rewrite A5 in B7. by etrans.
  - intros t Ht. rewrite B8, A8 by (rewrite ?Hab; done). done.
  - intros l t Hin. destruct (B9 _ _ Hin) as [Hq|[Ht ->]]; [by apply A9|].
    right. split; [by apply Hab|]. destruct A1. unfold loop_for. by destruct t; congruence.
  - intros n Hn. rewrite B10, A10 by congruence. done.
  - intros id Hid. rewrite B11, A11 by congruence. done.
Qed.

Lemma still s s' c k : same_server s s' -> conns s !! c = Some k -> conns s' = conns s -> loops s' = loops s ->
  (forall t, ~ about c k t -> cnt t (queue s') = cnt t (queue s)) ->
  (forall l t, (l, t) ∈ queue s' -> (l, t) ∈ queue s \/ (about c k t /\ l = loop_for s k t)) ->
  (forall n, n <> cname k -> connections_ s' !! n = connections_ s !! n) ->
  (forall id, id <> cid k -> life id (log s') = life id (log s)) -> moved s s' c k k.
Proof.
  intros Hs Hc Ec El. split; try done; [by rewrite insert_id|by rewrite El|by rewrite El].
Qed.

Lemma note_moved s c k e : conns s !! c = Some k -> moved s (note (cid k) e s) c k k.
Proof.
  intros Hc. apply still; try done; cbn.
  - intros l t Hin. by left.
  - intros id Hne. by rewrite life_snoc, bool_decide_false, app_nil_r by done.
Qed.

Lemma queue_moved s c k t : conns s !! c = Some k -> about c k t ->
  moved s (queueInLoop (loop_for s k t) t s) c k k.
Proof.
  intros Hc Ht. apply still; try done; cbn.
  - intros u Hu. rewrite cnt_snoc, bool_decide_false; [lia|]. by intros <-.
  - intros l u Hin. apply elem_of_app in Hin as [Hin|Hin]; [by left|].
    apply list_elem_of_singleton in Hin as [= -> ->]. by right.
Qed.

Lemma erase_moved s c k : conns s !! c = Some k ->
  moved s (set_registry (delete (cname k) (connections_ s)) s) c k k.
Proof.
  intros Hc. apply still; try done; cbn; [intros l t Hin; by left|].
  intros n Hn. by apply lookup_delete_ne.
Qed.

Lemma pop_moved s c k l t q : conns s !! c = Some k -> pop l (queue s) = Some (t, q) -> about c k t ->
  moved s (set_queue q s) c k k.
Proof.
  intros Hc Hp Ht. apply still; try done; cbn.
  - intros u Hu. rewrite (pop_cnt _ _ _ _ u Hp), bool_decide_false; [lia|]. by intros ->.
  - intros m u Hin. left. by apply (pop_in _ _ _ _ Hp).
Qed.

Lemma commit_moved s c k n o x : conns s !! c = Some k -> elsewhere c (loops s (cloop k)) x ->
  moved s (commit c k n o x s) c k (set_object o k).
Proof.
  intros Hc He. split; try done; cbn.
  - intros l Hl. by apply fn_lookup_insert_ne.
  - by rewrite fn_lookup_insert.
  - intros t Ht. unfold own_functors. rewrite cnt_app, cnt_replicate, bool_decide_false; [lia|].
    intros <-. apply Ht. by right.
  - intros l t Hin. apply elem_of_app in Hin as [Hin|Hin]; [by left|right].
    apply elem_of_replicate in Hin as [[= -> ->] _]. split; [by right|done].
Qed.

Lemma moved_lookup s s' c k k' : moved s s' c k k' -> conns s' !! c = Some k'.
Proof. intros Hm. rewrite (mv_conns _ _ _ _ _ Hm). apply lookup_insert_eq. Qed.

(** The other connections stay as they are. *)
Lemma moved_other s s' c k k' d h : Inv s -> conns s !! c = Some k -> moved s s' c k k' ->
  conns s' !! d = Some h -> d <> c ->
  conns s !! d = Some h /\ cid h <> cid k /\ forall p, phase_ok s d h p -> phase_ok s' d h p.
Proof.
  intros Hi Hc Hm Hd Hne. rewrite (mv_conns _ _ _ _ _ Hm), lookup_insert_ne in Hd by done.
  assert (cid h <> cid k) as Hid by (intros E; by apply Hne, (inv_inj _ Hi d c h k)).
  split_and!; [done..|]. intros p [P1 P2 P3 P4 P5 P6 P7]. destruct Hm. split; try done.
  - intros t Ht. rewrite mv_counts0; [by apply P2|]. intros [?| ->]; [congruence|done].
  - rewrite mv_counts0; [done|]. intros [[=]|[=]]. congruence.
  - rewrite mv_registry0; [done|]. by apply (names_apart s c d).
  - by rewrite mv_log0.
  - destruct (decide (cloop h = cloop k)) as [El|Hl]; [|by rewrite mv_loops0].
    rewrite El in *. eapply Connection.elsewhere_sound; [done| |done]. congruence.
Qed.

Lemma moved_queue s s' c k k' l t : Inv s -> conns s !! c = Some k -> moved s s' c k k' ->
  (l, t) ∈ queue s' -> placed s' l t.
Proof.
  intros Hi Hc Hm Hin. pose proof (moved_lookup _ _ _ _ _ Hm) as Hc'.
  destruct (mv_placed _ _ _ _ _ Hm _ _ Hin) as [Hq|[[Ht| ->] ->]].
  - pose proof (inv_queue _ Hi _ _ Hq) as Hp. destruct (mv_server _ _ _ _ _ Hm).
    assert (forall d h, conns s !! d = Some h -> exists h', conns s' !! d = Some h' /\ cloop h' = cloop h) as Hs.
    { intros d h Hd. destruct (decide (d = c)) as [->|Hne].
      - exists k'. split; [done|]. rewrite (mv_loop _ _ _ _ _ Hm). congruence.
      - exists h. by rewrite (mv_conns _ _ _ _ _ Hm), lookup_insert_ne. }
    destruct t as [d|d|d|d id]; cbn in *.
    1-3: destruct Hp as (h & Hh & ->); destruct (Hs _ _ Hh) as (h' & ? & ?); exists h'; split; [done|congruence].
    rewrite same_next0. destruct Hp as [? Hp]. split; [done|]. intros h Hh Hid.
    rewrite (mv_conns _ _ _ _ _ Hm) in Hh. apply lookup_insert_Some in Hh as [[<- <-]|[_ Hh]]; [|by apply Hp].
    rewrite (mv_loop _ _ _ _ _ Hm). apply Hp; [done|]. rewrite <- Hid. symmetry. apply Hm.
  - destruct Hm, mv_server0. destruct t as [d|d|d|]; cbn in *; try done; injection Ht as ->;
      exists k'; (split; [done|congruence]).
  - destruct Hm, mv_server0. cbn. destruct (inv_id _ Hi _ _ Hc) as [? _]. rewrite same_next0.
    split; [done|]. intros h Hh _. congruence.
Qed.

Lemma moved_ids s s' c k k' : Inv s -> conns s !! c = Some k -> moved s s' c k k' ->
  (forall d h, conns s' !! d = Some h -> 1 <= cid h < nextConnId_ s' /\ cname h = conn_name s' (cid h)) /\
  (forall d e h g, conns s' !! d = Some h -> conns s' !! e = Some g -> cid h = cid g -> d = e).
Proof.
  intros Hi Hc Hm. pose proof (moved_lookup _ _ _ _ _ Hm) as Hc'.
  pose proof (fun d h => moved_other s s' c k k' d h Hi Hc Hm) as Hoth.
  destruct (inv_id _ Hi _ _ Hc) as [Hid Hn]. pose proof (mv_server _ _ _ _ _ Hm) as Hsame.
  pose proof (mv_id _ _ _ _ _ Hm) as Eid. pose proof (mv_name _ _ _ _ _ Hm) as En. split.
  - intros d h Hd. rewrite (same_next _ _ Hsame), (conn_name_same s) by done.
    destruct (decide (d = c)) as [->|Hne]; [|by apply (inv_id _ Hi d), Hoth].
    assert (h = k') as -> by congruence. by rewrite Eid, En.
  - assert (forall d h, conns s' !! d = Some h -> cid h = cid k' -> d = c) as Hone.
    { intros d h Hd E. destruct (decide (d = c)) as [->|Hne]; [done|].
      destruct (Hoth _ _ Hd Hne) as (_ & ? & _). congruence. }
    intros d e h g Hd He Ecid. destruct (decide (d = c)) as [->|Hd1].
    { symmetry. apply (Hone e g He). congruence. }
    destruct (decide (e = c)) as [->|He1]; [apply (Hone d h Hd); congruence|].
    apply (inv_inj _ Hi d e h g); [by apply Hoth..|done].
Qed.

Lemma moved_inv s s' c k k' p : Inv s -> conns s !! c = Some k -> moved s s' c k k' ->
  phase_ok s' c k' p -> Inv s'.
Proof.
  intros Hi Hc Hm Hp. pose proof (moved_lookup _ _ _ _ _ Hm) as Hc'.
  destruct (moved_ids _ _ _ _ _ Hi Hc Hm) as [Hids Hinj]. pose proof (inv_id _ Hi _ _ Hc) as [Hid _].
  pose proof (mv_server _ _ _ _ _ Hm) as []. split; try done.
  - rewrite same_pool0. apply Hi.
  - rewrite same_dead0. apply Hi.
  - unfold named. rewrite same_ipPort0. apply Hi.
  - rewrite same_next0. apply Hi.
  - intros d h Hd. destruct (decide (d = c)) as [->|Hne].
    + assert (h = k') as -> by congruence. by exists p.
    + destruct (moved_other s s' c k k' d h Hi Hc Hm Hd Hne) as (Hd0 & _ & Hph).
      destruct (inv_phase _ Hi _ _ Hd0) as [p0 Hp0]. exists p0. by apply Hph.
  - intros n d Hd. destruct (decide (n = cname k)) as [->|Hne].
    + rewrite <- (mv_name _ _ _ _ _ Hm), (st_registered _ _ _ _ _ _ Hp) in Hd.
      assert (d = c) as -> by (by destruct p; simplify_eq). exists k'. split; [done|apply Hm].
    + rewrite (mv_registry _ _ _ _ _ Hm) in Hd by done. destruct (inv_registry _ Hi _ _ Hd) as (h & Hh & Eh).
      exists h. split; [|done]. rewrite (mv_conns _ _ _ _ _ Hm), lookup_insert_ne; [done|].
      intros ->. congruence.
  - intros l t. by apply (moved_queue s s' c k k').
  - intros id Hno. destruct (decide (id = cid k)) as [->|Hne].
    { destruct (Hno _ _ Hc'). apply Hm. }
    rewrite (mv_log _ _ _ _ _ Hm) by done. apply (inv_past _ Hi). intros d h Hd.
    destruct (decide (d = c)) as [->|Hdc]; [congruence|]. apply (Hno d).
    by rewrite (mv_conns _ _ _ _ _ Hm), lookup_insert_ne.
  - intros id Hge. rewrite same_next0 in Hge. rewrite (mv_log _ _ _ _ _ Hm); [by apply Hi|]. lia.
Qed.

(** ** Steps *)

Lemma moved_refl s c k : conns s !! c = Some k -> moved s s c k k.
Proof. intros Hc. apply still; try done. intros l t Hin. by left. Qed.

Lemma in_thread l : assertInLoopThread l l = Done tt.
Proof. unfold assertInLoopThread. by rewrite Z.eqb_refl. Qed.

Lemma deref_done s c k : conns s !! c = Some k -> deref c s = Done k.
Proof. intros Hc. unfold deref. by rewrite Hc. Qed.

Lemma owner_assert P `{Decision P} : P -> owner (assert_ (bool_decide P)) = Done tt.
Proof. intros HP. by rewrite assert_decide. Qed.

(** A closed connection leaves the registry: it is owed its destruction. *)
Lemma removeConnectionInLoop_ok s0 s c k h : Inv s0 -> conns s0 !! c = Some k -> moved s0 s c k h ->
  standing s c h Closed None (pending (cobj h)) ->
  blameless (removeConnectionInLoop (loop_ s) c s) Inv.
Proof.
  intros Hi Hc Hm [P1 P2 P3 P4 P5 P6 P7]. pose proof (moved_lookup _ _ _ _ _ Hm) as Hh.
  unfold removeConnectionInLoop. rewrite in_thread, Connection.bind_done, (deref_done s c h) by done.
  rewrite Connection.bind_done, P4, bool_decide_true by done. cbn [Z.eqb Pos.eqb assert_ owner].
  rewrite Connection.bind_done. cbn [blameless].
  set (s1 := set_registry _ s). set (s2 := note (cid h) Removed s1).
  change (cloop h) with (loop_for s2 h (Destroy c)).
  apply (moved_inv s0 _ c k h Gone Hi Hc).
  - apply (moved_trans _ _ _ _ _ _ _ Hm), (moved_trans _ s1 _ _ _ h), (moved_trans _ s2 _ _ _ h).
    + by apply erase_moved.
    + by apply note_moved.
    + apply queue_moved; [done|by left].
  - split; cbn; try done.
    + by apply waits_snoc.
    + by rewrite cnt_snoc, bool_decide_false, P3 by done.
    + apply lookup_delete_eq.
    + by rewrite life_snoc, P5, bool_decide_true.
Qed.

Lemma removeConnection_ok s0 s c k h : Inv s0 -> conns s0 !! c = Some k -> moved s0 s c k h ->
  standing s c h Closed None (pending (cobj h)) ->
  blameless (removeConnection (cloop h) c s) Inv.
Proof.
  intros Hi Hc Hm Hs. pose proof (moved_lookup _ _ _ _ _ Hm) as Hh. unfold removeConnection.
  destruct (mv_server _ _ _ _ _ Hm). rewrite same_dead0, (inv_alive _ Hi).
  destruct (Z.eqb_spec (cloop h) (loop_ s)) as [->|_]; [by eapply removeConnectionInLoop_ok|].
  change (loop_ s) with (loop_for s h (Remove c)). destruct Hs as [P1 P2 P3 P4 P5 P6 P7].
  apply (moved_inv s0 _ c k h Closed Hi Hc).
  - apply (moved_trans _ _ _ _ _ _ _ Hm). apply queue_moved; [done|by left].
  - split; cbn; try done; [by apply waits_snoc|]. by rewrite cnt_snoc, bool_decide_false, P3 by done.
Qed.

(** What an operation of the connection [k] may return, when [n] of its functors are
    left in the queue. *)
Definition returns s (k : Conn K) (n : nat) (o : K) (x : L) : Prop :=
  sound o x /\ channel_of o = channel_of (cobj k) /\ (n <= pending o)%nat /\
  elsewhere (channel_of (cobj k)) (loops s (cloop k)) x.

Lemma commit_standing s c k n o x p p' w : standing s c k p w n -> returns s k n o x ->
  phase_state p' (state_of o) -> (p' = Gone <-> p = Gone) -> stations p' = stations p ->
  standing (commit c k n o x s) c (set_object o k) p' w (pending o).
Proof.
  intros [P1 P2 P3 P4 P5 P6 P7] (R1 & R2 & R3 & R4) Hp Hg Hst. split; cbn; try done.
  - by apply waits_own.
  - unfold own_functors. rewrite cnt_app, cnt_replicate, bool_decide_true, P3 by done. lia.
  - rewrite P4. by destruct p, p'; try done; destruct Hg as [H1 H2]; specialize (H1 eq_refl) || specialize (H2 eq_refl).
  - by rewrite Hst.
  - by rewrite fn_lookup_insert.
  - congruence.
Qed.

Lemma happens_ok s0 s c k p n r : Inv s0 -> conns s0 !! c = Some k -> moved s0 s c k k ->
  standing s c k p (owed p c) n ->
  (forall o x closed, r = Ok (o, x, closed) ->
     returns s k n o x /\ turns closed (state_of (cobj k)) (state_of o)) ->
  blameless (happens c k n r s) Inv.
Proof.
  intros Hi Hc Hm Hs Hr. pose proof (moved_lookup _ _ _ _ _ Hm) as Hk. unfold happens.
  apply (Connection.blameless_bind _ _ (fun a => r = Ok a)); [by apply Connection.blameless_callee|].
  intros [[o x] closed] [Hret Ht]%Hr. pose proof (st_channel _ _ _ _ _ _ Hs) as Hch.
  pose proof Hret as (_ & _ & _ & He). rewrite Hch in He.
  pose proof (moved_trans _ _ _ _ _ _ _ Hm (commit_moved s c k n o x Hk He)) as Hm1.
  pose proof (st_state _ _ _ _ _ _ Hs) as Hst. destruct closed; cbn in Ht.
  - destruct Ht as [Hup Hd]. assert (p = Up) as ->.
    { unfold up in Hup. destruct p; cbn in Hst; try done; destruct Hup; congruence. }
    change (cloop k) with (cloop (set_object o k)).
    apply (removeConnection_ok s0 _ c k (set_object o k) Hi Hc Hm1).
    by apply (commit_standing _ _ _ _ _ _ Up).
  - apply (moved_inv s0 _ c k (set_object o k) p Hi Hc Hm1). unfold phase_ok.
    apply (commit_standing _ _ _ _ _ _ p); try done. destruct Ht as [->|[Hup ->]]; [done|].
    destruct p; cbn in *; unfold up in *; destruct Hup; try congruence; by right.
Qed.

Lemma connection_act_ok s c a : Inv s -> blameless (connection_act c a s) Inv.
Proof.
  intros Hi. unfold connection_act. destruct (conns s !! c) as [k|] eqn:Hc; [|done].
  destruct (inv_phase _ Hi _ _ Hc) as [p Hp].
  apply (happens_ok s _ c k p _ _ Hi Hc); [by apply moved_refl|done|].
  intros o x closed E. apply Connection.act_spec in E as (? & ? & ? & ? & ?); [|apply Hp]. done.
Qed.

(** A functor of the connection itself. *)
Lemma connection_functor_ok s c id l q : Inv s -> pop l (queue s) = Some (Own c id, q) ->
  blameless (connection_functor c id (set_queue q s)) Inv.
Proof.
  intros Hi Hpop. unfold connection_functor. cbn [conns set_queue].
  destruct (conns s !! c) as [k|] eqn:Hc; [|done].
  destruct (Z.eqb_spec (cid k) id) as [<-|_]; [|done].
  destruct (inv_phase _ Hi _ _ Hc) as [p Hp]. pose proof Hp as [P1 P2 P3 P4 P5 P6 P7].
  apply (happens_ok s _ c k p _ _ Hi Hc).
  - eapply pop_moved; [done..|by right].
  - split; cbn; try done.
    + by apply (waits_pop_other _ _ _ _ _ _ Hpop).
    + rewrite <- P3, (pop_cnt _ _ _ _ (Own c (cid k)) Hpop), bool_decide_true by done. lia.
  - intros o x closed E. apply Connection.functor_spec in E as (? & ? & ? & ? & ?); done.
Qed.

(** A new connection enters its loop. *)
Lemma connectEstablished_ok s0 s c k cur : Inv s0 -> conns s0 !! c = Some k -> moved s0 s c k k ->
  standing s c k Connecting None (pending (cobj k)) -> cur = cloop k ->
  blameless (connectEstablished cur c s) Inv.
Proof.
  intros Hi Hc Hm Hs ->. pose proof (moved_lookup _ _ _ _ _ Hm) as Hk.
  unfold connectEstablished. rewrite (deref_done s c k), Connection.bind_done, in_thread, Connection.bind_done by done.
  pose proof (st_state _ _ _ _ _ _ Hs) as Hst. rewrite owner_assert, Connection.bind_done by done.
  eapply Connection.blameless_bind; [by apply Connection.blameless_callee; intros a E; exact E|].
  intros [o x] E. apply Connection.established_spec in E as (H1 & H2 & H3 & H4 & H5); [|apply Hs|done].
  assert (returns s k (pending (cobj k)) o x) as Hret by done.
  rewrite (st_channel _ _ _ _ _ _ Hs) in H5. cbn [blameless].
  pose proof (commit_moved s c k (pending (cobj k)) o x Hk H5) as Hm1.
  set (s1 := commit _ _ _ _ _ s) in *.
  apply (moved_inv s0 _ c k (set_object o k) Up Hi Hc).
  - apply (moved_trans _ _ _ _ _ _ _ Hm), (moved_trans _ s1 _ _ _ (set_object o k)); [done|].
    apply (note_moved _ _ (set_object o k)). by apply (moved_lookup _ _ _ _ _ Hm1).
  - pose proof Hs as [P1 P2 P3 P4 P5 P6 P7]. split; cbn; try done.
    + by apply waits_own.
    + unfold own_functors. rewrite cnt_app, cnt_replicate, bool_decide_true, P3 by done. lia.
    + by rewrite life_snoc, bool_decide_true, P5.
    + by rewrite fn_lookup_insert.
    + congruence.
Qed.

(** A connection ends; functors of its own that it leaves behind point nowhere. *)
Lemma destroyed_inv s s' c k n : Inv s -> conns s !! c = Some k -> life (cid k) (log s) = stations Gone ->
  connections_ s !! cname k = None -> channel_of (cobj k) = c ->
  same_server s s' -> conns s' = delete c (conns s) ->
  (forall l, l <> cloop k -> loops s' l = loops s l) ->
  elsewhere c (loops s (cloop k)) (loops s' (cloop k)) ->
  (forall t, ~ about c k t -> cnt t (queue s') = cnt t (queue s)) ->
  (forall l t, (l, t) ∈ queue s' ->
     ((l, t) ∈ queue s /\ conn_of t <> Some c) \/ (l, t) ∈ own_functors c k n) ->
  connections_ s' = connections_ s -> log s' = log s ++ [(cid k, Destroyed)] -> Inv s'.
Proof.
  intros Hi Hc Hlife Hreg Hch [] Hcs Hlo Hel Hcnt Hq Hr Hlog.
  assert (forall d h, conns s' !! d = Some h -> d <> c /\ conns s !! d = Some h /\ cid h <> cid k) as Hdel.
  { intros d h Hd. rewrite Hcs in Hd. apply lookup_delete_Some in Hd as [Hne Hd]. split_and!; [done..|].
    intros E. by apply Hne, (inv_inj _ Hi c d k h). }
  destruct (inv_id _ Hi _ _ Hc) as [Hid _].
  assert (forall id, id <> cid k -> life id (log s') = life id (log s)) as Hother.
  { intros id Hne. by rewrite Hlog, life_snoc, bool_decide_false, app_nil_r. }
  split; rewrite ?same_pool0, ?same_dead0, ?same_next0; try apply Hi.
  - unfold named. rewrite same_ipPort0. apply Hi.
  - intros d h Hd. rewrite (conn_name_same s) by done. by apply (inv_id _ Hi d), Hdel.
  - intros d e h g Hd He. by apply (inv_inj _ Hi d e h g); apply Hdel.
  - intros d h Hd. destruct (Hdel _ _ Hd) as (Hne & Hd0 & Hidh). destruct (inv_phase _ Hi _ _ Hd0) as [p []].
    exists p. split; try done.
    + intros t Ht. rewrite Hcnt; [by apply st_tasks0|]. intros [?| ->]; [congruence|done].
    + rewrite Hcnt; [done|]. intros [[=]|[=]]. congruence.
    + by rewrite Hr.
    + by rewrite Hother.
    + destruct (decide (cloop h = cloop k)) as [El|Hl]; [|by rewrite Hlo].
      rewrite El in *. eapply Connection.elsewhere_sound; [done| |done]. congruence.
  - intros m d Hd. rewrite Hr in Hd. destruct (inv_registry _ Hi _ _ Hd) as (h & Hh & Eh). exists h.
    split; [|done]. rewrite Hcs, lookup_delete_ne; [done|]. intros <-. congruence.
  - intros l t Hin. destruct (Hq _ _ Hin) as [[Hin0 Hne]|Hin0].
    + pose proof (inv_queue _ Hi _ _ Hin0) as Hp. destruct t as [d|d|d|d id]; cbn in *.
      1-3: destruct Hp as (h & Hh & ->); exists h; rewrite Hcs, lookup_delete_ne by congruence; split; congruence.
      rewrite same_next0. destruct Hp as [? Hp]. split; [done|]. intros h Hh. apply Hp. by apply Hdel.
    + apply elem_of_replicate in Hin0 as [[= -> ->] _]. cbn. rewrite same_next0. split; [done|].
      intros h Hh. by destruct (Hdel _ _ Hh).
  - intros id Hno. destruct (decide (id = cid k)) as [->|Hne].
    + right. by rewrite Hlog, life_snoc, Hlife, bool_decide_true.
    + rewrite Hother by done. apply (inv_past _ Hi). intros d h Hd.
      destruct (decide (d = c)) as [->|Hdc]; [congruence|]. apply (Hno d). by rewrite Hcs, lookup_delete_ne.
  - intros id Hge. rewrite Hother; [by apply Hi|]. lia.
Qed.

Lemma connectDestroyed_ok s c k q : Inv s -> conns s !! c = Some k -> phase_ok s c k Gone ->
  pop (cloop k) (queue s) = Some (Destroy c, q) ->
  blameless (connectDestroyed (cloop k) c (set_queue q s)) Inv.
Proof.
  intros Hi Hc [P1 P2 P3 P4 P5 P6 P7] Hpop. cbn in P1. unfold connectDestroyed.
  rewrite (deref_done _ c k), Connection.bind_done, in_thread, Connection.bind_done by done.
  rewrite P1, !owner_assert, !Connection.bind_done by done.
  eapply Connection.blameless_bind; [by apply Connection.blameless_callee; intros a E; exact E|].
  intros [o x1] E. apply Connection.destroyed_spec in E as (Ho & Hn & He1); [|done].
  eapply Connection.blameless_bind; [by apply Connection.blameless_callee; intros x E; exact E|].
  intros x E. apply Connection.destruct_spec in E. rewrite Ho in E.
  assert (elsewhere (channel_of (cobj k)) (loops s (cloop k)) x) as He by (by etrans). clear E He1. rewrite P7 in He.
  destruct (waits_pop _ _ _ _ c _ Hpop eq_refl P2) as [_ Hw].
  apply (destroyed_inv s _ c k (pending o - pending (cobj k)) Hi Hc P5 P4 P7); cbn; try done.
  - intros l Hl. by apply fn_lookup_insert_ne.
  - by rewrite fn_lookup_insert.
  - intros t Ht. unfold own_functors. rewrite cnt_app, cnt_replicate, bool_decide_false.
    + rewrite (pop_cnt _ _ _ _ t Hpop), (bool_decide_false (Destroy c = t)); [lia|]. intros <-. apply Ht. by left.
    + intros <-. apply Ht. by right.
  - intros l t Hin. apply elem_of_app in Hin as [Hin|Hin]; [left|by right].
    split; [by apply (pop_in _ _ _ _ Hpop)|]. intros Ht. apply cnt_in in Hin. rewrite (Hw t Ht), bool_decide_false in Hin by done. lia.
Qed.

Lemma run_functor_ok s l : Inv s -> blameless (run_functor l s) Inv.
Proof.
  intros Hi. unfold run_functor. destruct (pop l (queue s)) as [[t q]|] eqn:Hpop; [|done].
  destruct (pop_in _ _ _ _ Hpop) as [Hin _]. pose proof (inv_queue _ Hi _ _ Hin) as Hpl.
  destruct (decide (is_Some (conn_of t))) as [[c Ht]|Hown].
  2:{ destruct t as [| | |c id]; [by destruct Hown; eexists..|]. by apply connection_functor_ok with l. }
  assert (exists k, conns s !! c = Some k /\ l = loop_for s k t) as (k & Hc & ->)
    by (destruct t; cbn in Hpl, Ht; try done; injection Ht as ->; exact Hpl).
  destruct (inv_phase _ Hi _ _ Hc) as [p Hp]. pose proof Hp as [P1 P2 P3 P4 P5 P6 P7].
  destruct (waits_pop _ _ _ _ c _ Hpop Ht P2) as [Hw Hq].
  assert (moved s (set_queue q s) c k k) as Hm by (eapply pop_moved; [done..|by left]).
  assert (standing (set_queue q s) c k p None (pending (cobj k))) as Hst.
  { split; try done. cbn. rewrite <- P3, (pop_cnt _ _ _ _ (Own c (cid k)) Hpop), bool_decide_false;
      [done|]. intros ->. done. }
  destruct p; cbn in Hw; try done; injection Hw as <-; cbn [loop_for] in *; cbn zeta.
  - by apply (connectEstablished_ok s _ c k).
  - cbn [dead set_queue]. rewrite (inv_alive _ Hi). change (loop_ s) with (loop_ (set_queue q s)).
    by apply (removeConnectionInLoop_ok s _ c k k).
  - by apply connectDestroyed_ok.
Qed.

(** ** Accepting *)

Definition unoccupied (c : Z) s : Prop := conns s !! c = None /\ forall l, unused c (loops s l).

(** The base loop has a new connection: it is in the registry. *)
Definition admit_connection (c : Z) (k : Conn K) (x : L) (p : EventLoopThreadPool.EventLoopThreadPool) s
  : TcpServer K L :=
  note (cid k) Accepted (set_registry (<[cname k := c]> (connections_ s))
    (set_loop (cloop k) x (set_conns (<[c := k]> (conns s)) (set_pool p (cid k + 1) s)))).

Lemma cnt_vacant s c t : Inv s -> conns s !! c = None -> conn_of t = Some c -> cnt t (queue s) = 0%nat.
Proof.
  intros Hi Hc Ht. apply cnt_zero. intros l Hin. pose proof (inv_queue _ Hi _ _ Hin) as Hp.
  destruct t as [d|d|d|]; cbn in *; simplify_eq; destruct Hp as (h & Hh & _); congruence.
Qed.

Lemma cnt_future s c id : Inv s -> nextConnId_ s <= id -> cnt (Own c id) (queue s) = 0%nat.
Proof.
  intros Hi Hid. apply cnt_zero. intros l Hin. destruct (inv_queue _ Hi _ _ Hin). lia.
Qed.

Section Accepted.
Context (s : TcpServer K L) (Hi : Inv s) (Hnext : nextConnId_ s < 2 ^ 31 - 1).
Context (c : Z) (k : Conn K) (x : L) (p : EventLoopThreadPool.EventLoopThreadPool).
Context (Hc : conns s !! c = None) (Hp : EventLoopThreadPool.turning p).
Context (Hid : cid k = nextConnId_ s) (Hname : cname k = conn_name s (nextConnId_ s)).
Context (Hst : state_of (cobj k) = kConnecting) (Hch : channel_of (cobj k) = c).
Context (Hpend : pending (cobj k) = 0%nat) (Hsound : sound (cobj k) x).
Context (Hel : elsewhere c (loops s (cloop k)) x).

Abbreviation s1 := (queueInLoop (cloop k) (Establish c) (admit_connection c k x p s)).

Lemma accepted_lookup d h : conns s1 !! d = Some h ->
  (d = c /\ h = k) \/ (d <> c /\ conns s !! d = Some h /\ cid h <> cid k /\ cname h <> cname k).
Proof using Hi Hnext Hid Hname Hpend.
  cbn. intros Hd. apply lookup_insert_Some in Hd as [[<- <-]|[Hne Hd]]; [by left|right].
  destruct (inv_id _ Hi _ _ Hd) as [Hb En]. split_and!; [done..|lia|].
  intros E. rewrite En, Hname in E. pose proof (inv_next _ Hi).
  apply (conn_name_inj s) in E; [lia|apply Hi|lia..].
Qed.

Lemma accepted_phases d h : conns s1 !! d = Some h -> exists ph, phase_ok s1 d h ph.
Proof using Hi Hnext Hc Hid Hname Hst Hch Hpend Hsound Hel.
  intros Hd. destruct (accepted_lookup d h Hd) as [[-> ->]|(Hne & Hd0 & Hidh & Hn)].
  - exists Connecting. split; cbn; try done.
    + apply waits_snoc; [|done]. intros t Ht. by rewrite (cnt_vacant s c t).
    + rewrite cnt_snoc, bool_decide_false, (cnt_future s) by (done || lia). by rewrite Hpend.
    + apply lookup_insert_eq.
    + rewrite life_snoc, bool_decide_true, (inv_future _ Hi) by (done || lia). done.
    + by rewrite fn_lookup_insert.
  - destruct (inv_phase _ Hi _ _ Hd0) as [ph [Q1 Q2 Q3 Q4 Q5 Q6 Q7]]. exists ph. split; cbn; try done.
    + intros t Ht. rewrite cnt_snoc, (Q2 t Ht), (bool_decide_false (Establish c = t)); [lia|].
      intros <-. injection Ht as Ht. congruence.
    + by rewrite cnt_snoc, bool_decide_false, Q3 by done.
    + by rewrite lookup_insert_ne by congruence.
    + by rewrite life_snoc, bool_decide_false, app_nil_r by congruence.
    + destruct (decide (cloop h = cloop k)) as [El|Hl]; [|by rewrite fn_lookup_insert_ne by congruence].
      rewrite El, fn_lookup_insert in *. eapply Connection.elsewhere_sound; [done| |done]. congruence.
Qed.

Lemma accepted_inv : Inv s1.
Proof using Hi Hnext Hc Hp Hid Hname Hst Hch Hpend Hsound Hel.
  pose proof (inv_next _ Hi) as Hn. pose proof accepted_lookup as Hlk.
  assert (forall d h, conns s !! d = Some h -> conns s1 !! d = Some h) as Hins.
  { intros d h Hd. cbn. rewrite lookup_insert_ne; [done|]. intros <-. congruence. }
  assert (conns s1 !! c = Some k) as Hk by apply lookup_insert_eq.
  split; try done; try apply Hi; cbn; rewrite ?Hid; try lia.
  - intros d h Hd. destruct (Hlk _ _ Hd) as [[-> ->]|(_ & Hd0 & _)].
    + rewrite Hid. by split; [lia|].
    + destruct (inv_id _ Hi _ _ Hd0). by split; [lia|].
  - intros d e h g Hd He E.
    destruct (Hlk _ _ Hd) as [[-> ->]|(_ & Hd0 & Hd1 & _)], (Hlk _ _ He) as [[-> ->]|(_ & He0 & He1 & _)];
      [done|congruence..|]. by apply (inv_inj _ Hi d e h g).
  - apply accepted_phases.
  - intros n d Hd. apply lookup_insert_Some in Hd as [[<- <-]|[Hne Hd]]; [by exists k|].
    destruct (inv_registry _ Hi _ _ Hd) as (h & Hh & Eh). exists h. split; [|done]. by apply Hins.
  - intros l t Hin. apply elem_of_app in Hin as [Hin|Hin].
    + pose proof (inv_queue _ Hi _ _ Hin) as Hpl. destruct t as [d|d|d|d id]; cbn in *.
      1-3: destruct Hpl as (h & Hh & ->); exists h; split; [by apply Hins|done].
      destruct Hpl as [Hb Hpl]. split; [lia|]. intros h Hh E.
      destruct (Hlk _ _ Hh) as [[-> ->]|(_ & Hh0 & _)]; [lia|by apply Hpl].
    + apply list_elem_of_singleton in Hin as [= -> ->]. by exists k.
  - intros id Hno. rewrite life_snoc. case_bool_decide as E; [destruct (Hno c k Hk); congruence|].
    rewrite app_nil_r. apply (inv_past _ Hi). intros d h Hd. apply (Hno d). by apply Hins.
  - intros id Hge. rewrite life_snoc, bool_decide_false, app_nil_r by lia. apply (inv_future _ Hi). lia.
Qed.

(** In the base loop itself the connection is established at once. *)
Lemma accepted_moved : moved s1 (admit_connection c k x p s) c k k /\
  standing (admit_connection c k x p s) c k Connecting None (pending (cobj k)).
Proof using Hi Hnext Hc Hid Hname Hst Hch Hpend Hsound Hel.
  assert (conns s1 !! c = Some k) as Hk by apply lookup_insert_eq. split.
  - apply still; try done; cbn.
    + intros t Ht. rewrite cnt_snoc, bool_decide_false; [lia|]. intros <-. apply Ht. by left.
    + intros l t Hin. left. apply elem_of_app. by left.
  - split; cbn; try done.
    + intros t Ht. by rewrite (cnt_vacant s c t).
    + by rewrite Hpend, (cnt_future s) by (done || lia).
    + apply lookup_insert_eq.
    + rewrite life_snoc, bool_decide_true, (inv_future _ Hi) by (done || lia). done.
    + by rewrite fn_lookup_insert.
Qed.

End Accepted.

Lemma next_loop p :
  EventLoopThreadPool.turning p -> exists loop p',
    EventLoopThreadPool.getNextLoop p = Ok (loop, p') /\ EventLoopThreadPool.turning p'.
Proof using.
  intros Hp. destruct (EventLoopThreadPool.loops_ p) as [|y l] eqn:El.
  - destruct (Hp) as (Hl & Hs & _). exists (EventLoopThreadPool.baseLoop_ p), p. split; [|done].
    unfold EventLoopThreadPool.getNextLoop, EventLoopThreadPool.assertInLoopThread.
    rewrite Hl, Hs, El. done.
  - destruct (EventLoopThreadPool.getNextLoop_spec p Hp) as (p' & E & ? & _); [by rewrite El|].
    by eexists _, p'.
Qed.

Lemma newConnection_ok s c fd : Inv s -> nextConnId_ s < 2 ^ 31 - 1 -> unoccupied c s ->
  blameless (newConnection (loop_ s) c fd s) Inv.
Proof.
  intros Hi Hn [Hc Hu]. unfold newConnection. rewrite in_thread, Connection.bind_done.
  destruct (next_loop _ (inv_pool _ Hi)) as (loop & p & -> & Hp). pose proof (inv_next _ Hi) as Hge.
  cbn [owner]. rewrite Connection.bind_done. cbn zeta.
  rewrite no_overflow_ok by (repeat constructor; lia). cbn [owner]. rewrite Connection.bind_done.
  eapply Connection.blameless_bind; [by apply Connection.blameless_callee; intros a E; exact E|].
  intros [o x] Eo. apply Connection.construct_spec in Eo as (C1 & C2 & C3 & C4 & C5); [|done].
  set (k := mkConn (conn_name s (nextConnId_ s)) loop fd o (nextConnId_ s)).
  pose proof (accepted_inv s Hi Hn c k x p Hc Hp eq_refl eq_refl C2 C3 C4 C1 C5) as Hacc.
  destruct (Z.eqb_spec (loop_ s) loop) as [El|_]; [|exact Hacc].
  destruct (accepted_moved s Hi Hn c k x p Hc eq_refl eq_refl C2 C3 C4 C1 C5) as [Hm Hst].
  eapply (connectEstablished_ok _ _ c k); [exact Hacc|apply lookup_insert_eq|exact Hm|exact Hst|done].
Qed.

(** ** Runs *)

(** A connection may be accepted at an address nobody uses, as long as the numbers
    last; the server is not destroyed. *)
Definition allowed (o : op K L) s : Prop :=
  match o with
  | OpAccept c _ => nextConnId_ s < 2 ^ 31 - 1 /\ unoccupied c s
  | OpEnd => False
  | _ => True
  end.

Fixpoint allowed_all (os : list (op K L)) s : Prop :=
  match os with
  | [] => True
  | o :: os => allowed o s /\ match run_op o s with Done s' => allowed_all os s' | _ => True end
  end.

Lemma run_op_ok o s : Inv s -> allowed o s -> blameless (run_op o s) Inv.
Proof.
  intros Hi Ha. destruct o as [c fd|c a|l|]; cbn [run_op].
  - destruct Ha. by apply newConnection_ok.
  - by apply connection_act_ok.
  - by apply run_functor_ok.
  - done.
Qed.

Lemma server_ops_ok os s : Inv s -> allowed_all os s -> blameless (run_ops os s) Inv.
Proof.
  revert s. induction os as [|o os IH]; intros s Hi Ha; [done|]. destruct Ha as [Ho Ha].
  cbn [run_ops]. apply (Connection.blameless_bind _ _ (fun t => run_op o s = Done t /\ Inv t)).
  - pose proof (run_op_ok o s Hi Ho) as Hb. by destruct (run_op o s).
  - intros t [E Ht]. rewrite E in Ha. by apply IH.
Qed.

(** A server that was started with [n] threads. *)
Lemma server_started_inv startLoop loop ipPort name ls n cb : zlen ipPort <= 51 -> 0 <= n < 2 ^ 31 ->
  exists s, (s ← setThreadNum n (new loop ipPort name ls); start startLoop cb false s) = Ok s /\
    Inv s /\ conns s = ∅ /\ loops s = ls /\ loop_ s = loop /\ nextConnId_ s = 1.
Proof.
  intros Hip Hn. unfold setThreadNum. rewrite assert_true, bind_ok by (zbool; lia). rewrite bind_ok.
  unfold start. cbn [threadPool_ set_pool set_started new].
  destruct (EventLoopThreadPool.started_turning startLoop loop name n cb Hn) as (p & -> & Hp).
  rewrite bind_ok. cbn [assert_ negb]. rewrite bind_ok. eexists. split; [done|]. split; [|done].
  split; cbn; try done.
  - intros l t Hin. by apply not_elem_of_nil in Hin.
  - intros id _. by left.
Qed.

(** What a run leaves behind: the registry holds exactly the connections that are
    not removed, each under its own name; *)
Definition well_kept s : Prop := forall m c,
  connections_ s !! m = Some c <->
  exists k, conns s !! c = Some k /\ cname k = m /\ Removed ∉ life (cid k) (log s).

(** the life of a connection is accepted, established, removed, destroyed; *)
Definition ordered s : Prop := forall id,
  life id (log s) `prefix_of` [Accepted; Established; Removed; Destroyed].

(** and those alive are sound, with their functors in the queue. *)
Definition cared_for s : Prop := forall c k, conns s !! c = Some k ->
  sound (cobj k) (loops s (cloop k)) /\
  (life (cid k) (log s) = [Accepted] <-> state_of (cobj k) = kConnecting) /\
  (Removed ∈ life (cid k) (log s) -> state_of (cobj k) = kDisconnected) /\
  cnt (Own c (cid k)) (queue s) = pending (cobj k).

Lemma Inv_accurate s : Inv s -> well_kept s /\ ordered s /\ cared_for s.
Proof.
  intros Hs. split_and!.
  - intros m c. split.
    + intros Hm. destruct (inv_registry _ Hs _ _ Hm) as (k & Hk & Ek). exists k.
      destruct (inv_phase _ Hs _ _ Hk) as [p [_ _ _ Hr Hl _ _]]. rewrite Ek, Hm in Hr. rewrite Hl.
      split_and!; [done..|]. by destruct p; [..|done]; apply (bool_decide_unpack _).
    + intros (k & Hk & <- & Hl). destruct (inv_phase _ Hs _ _ Hk) as [p [_ _ _ Hr Hlf _ _]].
      rewrite Hlf in Hl. destruct p; try done. cbn in Hl.
      by rewrite !elem_of_cons in Hl; destruct Hl; right; right; left.
  - intros id.
    destruct (decide (map_Exists (fun _ k => cid k = id) (conns s))) as [(c & k & Hk & <-)|Hnone].
    + destruct (inv_phase _ Hs _ _ Hk) as [p [_ _ _ _ -> _ _]].
      by destruct p; apply (bool_decide_unpack _).
    + destruct (inv_past _ Hs id) as [->| ->]; [|apply prefix_nil|done].
      intros c k Hk Ek. apply Hnone. by exists c, k.
  - intros c k Hk. destruct (inv_phase _ Hs _ _ Hk) as [p [Hst _ Ho _ Hl Hsd _]]. split_and!; [done| | |done];
      rewrite Hl; destruct p; cbn in *; unfold up in *; rewrite ?elem_of_cons, ?elem_of_nil; intuition congruence.
Qed.

End Laws.

(** ** Properties *)

(** [C6] The registry of a server.  On connections that keep their contract, in any
    run of accepted connections, events, calls, closes and functors, whatever the
    interleaving of the loops: the server breaks no precondition, fails no
    assertion and uses no connection after its end; the registry holds exactly the
    connections that are not yet removed, each under its own name; every connection
    is accepted, established, removed and destroyed, in this order and at most once
    each; and those alive are sound, with their functors in the queue. *)
Theorem server_registry {K L} `{Connection.ConnectionLaws K L} startLoop loop ipPort name ls n cb s0 os :
  zlen ipPort <= 51 -> 0 <= n < 2 ^ 31 ->
  (s ← setThreadNum n (new loop ipPort name ls); start startLoop cb false s) = Ok s0 ->
  allowed_all os s0 ->
  blameless (run_ops os s0) (fun s => well_kept s /\ ordered s /\ cared_for s).
Proof.
  intros Hip Hn Hs0 Ha. destruct (server_started_inv startLoop loop ipPort name ls n cb Hip Hn) as (s1 & E1 & Hi & _).
  assert (s1 = s0) as -> by congruence.
  by apply (Connection.blameless_mono _ Inv); [|apply server_ops_ok]; [apply Inv_accurate|..].
Qed.

(** What is left of a server whose destructor has run. *)
Section Destroyed.
Context {K L : Type} `{Connection.Connection K L}.
Implicit Types s : TcpServer K L.

Definition extends s s' : Prop :=
  loop_ s' = loop_ s /\ dead s' = dead s /\ forall x, x ∈ queue s -> x ∈ queue s'.

Lemma extends_trans s1 s2 s3 : extends s1 s2 -> extends s2 s3 -> extends s1 s3.
Proof. intros (? & ? & ?) (? & ? & ?). split_and!; [congruence..|auto]. Qed.

Lemma connectDestroyed_extends cur c s s' : connectDestroyed cur c s = Done s' -> extends s s'.
Proof.
  unfold connectDestroyed. intros Hr. Connection.inv_done. destruct a3 as [o l]. Connection.inv_done. subst s'.
  split_and!; [done..|]. intros x Hx. cbn. apply elem_of_app. by left.
Qed.

Lemma destroy_all_extends cur cs s s' : destroy_all cur cs s = Done s' -> extends s s'.
Proof.
  revert s. induction cs as [|c cs IH]; intros s Hr; cbn [destroy_all] in Hr.
  { Connection.inv_done. by subst. }
  Connection.inv_done. apply (extends_trans _ a0); [|by apply IH].
  destruct (_ =? _); [by eapply connectDestroyed_extends|]. Connection.inv_done. subst a0.
  split_and!; [done..|]. intros x Hx. apply elem_of_app. by left.
Qed.

(** No functor that a dead server's loop gets through touches the server. *)
Lemma dead_functor_extends l s s' t q : dead s = true -> pop l (queue s) = Some (t, q) ->
  run_functor l s = Done s' -> extends (set_queue q s) s' /\ forall c, t <> Remove c.
Proof.
  intros Hd Hp Hr. unfold run_functor in Hr. rewrite Hp in Hr. cbn zeta in Hr.
  assert (forall c k n r, happens c k n r (set_queue q s) = Done s' -> extends (set_queue q s) s') as Hh.
  { intros c k n r Hh. unfold happens in Hh. Connection.inv_done. destruct a as [[o x] closed].
    destruct closed; [unfold removeConnection in Hh; cbn in Hh; by rewrite Hd in Hh|].
    Connection.inv_done. subst s'. split_and!; [done..|]. intros y Hy. apply elem_of_app. by left. }
  destruct t as [c|c|c|c id].
  - split; [|done]. unfold connectEstablished in Hr. Connection.inv_done. destruct a2 as [o x].
    Connection.inv_done. subst s'. split_and!; [done..|]. intros y Hy. apply elem_of_app. by left.
  - cbn in Hr. by rewrite Hd in Hr.
  - split; [|done]. by eapply connectDestroyed_extends.
  - split; [|done]. unfold connection_functor in Hr. destruct (conns (set_queue q s) !! c) as [k|]; [|done].
    destruct (cid k =? id); [|done]. by eapply Hh.
Qed.

End Destroyed.

(** Connections of a destroyed server.  A close that reached the base loop's
    queue before the server was destroyed is a functor with a dangling pointer: no
    run of the base loop's functors ever gets past it. *)
Theorem server_destroyed_dangles {K L} `{Connection.Connection K L} (s s1 : TcpServer K L) c n s2 :
  (loop_ s, Remove c) ∈ queue s -> destructor (loop_ s) s = Done s1 ->
  Nat.iter n (fun r => r ≫= run_functor (loop_ s)) (Done s1) = Done s2 ->
  (loop_ s, Remove c) ∈ queue s2.
Proof.
  intros Hin Hd. revert s2.
  assert (loop_ s1 = loop_ s /\ dead s1 = true /\ (loop_ s, Remove c) ∈ queue s1) as (El & Hdead & Hq).
  { unfold destructor in Hd. Connection.inv_done. subst s1.
    destruct (destroy_all_extends _ _ _ _ E0) as (? & _ & ?). cbn. auto. }
  clear Hd Hin. intros s2 Hr.
  enough (loop_ s2 = loop_ s /\ dead s2 = true /\ (loop_ s, Remove c) ∈ queue s2) by tauto.
  revert s2 Hr. induction n as [|n IH]; intros s2 Hr; cbn in Hr; [Connection.inv_done; by subst|].
  Connection.inv_done. destruct (IH _ E) as (El2 & Hd2 & Hq2).
  destruct (pop (loop_ s) (queue a)) as [[t q]|] eqn:Hp.
  2:{ unfold run_functor in Hr. rewrite Hp in Hr. Connection.inv_done. by subst. }
  destruct (dead_functor_extends _ _ _ _ _ Hd2 Hp Hr) as [(E1 & E2 & E3) Hne]. cbn in E1, E2, E3.
  split_and!; [congruence..|]. apply E3. apply pop_some in Hp as (q1 & q2 & Eq & ->). rewrite Eq in Hq2.
  rewrite elem_of_app, elem_of_cons in *. destruct Hq2 as [?|[[=]|?]]; auto. by destruct (Hne c).
Qed.

(** ** Witnesses *)

Definition startLoop0 (i : Z) (name : list byte) : Z := 100 + i.

Definition started0 : result (TcpServer Connection.plain unit) :=
  s ← setThreadNum 1 (new 1 (bytes_of "127.0.0.1:8000") (bytes_of "echo") (fun _ => tt));
  start startLoop0 false false s.
Definition server0 : TcpServer Connection.plain unit :=
  match started0 with Ok s => s | Err _ => new 1 [] [] (fun _ => tt) end.

(** Two connections in the loop 100; the first is closed and leaves. *)
Definition ops0 : list (op Connection.plain unit) :=
  [OpAccept 5 7; OpAccept 6 8; OpRun 100; OpRun 100; OpConnection 5 false; OpConnection 5 true; OpRun 1; OpRun 100].
Definition after0 (os : list (op Connection.plain unit)) : TcpServer Connection.plain unit :=
  match run_ops os server0 with Done s => s | _ => server0 end.

Lemma server_registry_witness :
  map_to_list (connections_ (after0 ops0)) = [(bytes_of "echo-127.0.0.1:8000#2", 6)] /\
  (forall id, life id (log (after0 ops0)) `prefix_of` [Accepted; Established; Removed; Destroyed]).
Proof.
  split; [vm_compute; reflexivity|].
  pose proof (server_registry startLoop0 1 (bytes_of "127.0.0.1:8000") (bytes_of "echo") (fun _ => tt) 1 false
    server0 ops0 ltac:(vm_compute; discriminate) ltac:(lia) ltac:(vm_compute; reflexivity)) as Hb.
  assert (run_ops ops0 server0 = Done (after0 ops0)) as E by (vm_compute; reflexivity).
  rewrite E in Hb. apply Hb. vm_compute. repeat split; discriminate.
Defined.

(** The first connection is closed; the server is destroyed before it hears of it. *)
Definition closed0 : TcpServer Connection.plain unit := after0 [OpAccept 5 7; OpRun 100; OpConnection 5 true].
Definition ended0 : TcpServer Connection.plain unit :=
  match destructor 1 closed0 with Done s => s | _ => server0 end.

Lemma server_destroyed_dangles_witness :
  run_functor 1 ended0 = OwnerFault UndefinedBehaviour /\ (1, Remove 5) ∈ queue ended0.
Proof.
  split; [vm_compute; reflexivity|].
  apply (server_destroyed_dangles closed0 ended0 5 0 ended0);
    [apply (bool_decide_unpack _); vm_compute; exact I|vm_compute; reflexivity|reflexivity].
Defined.

End TcpServer.
