(* ===== verification/ServerConnections.v ===== *)
(** * Servers with their connections: TcpServer.cc on TcpConnection.cc

    TcpServer.v is verified against the contract of Connection.v, which
    OwnedConnection.v proves of TcpConnection.v.  So the theorem on the registry holds
    of servers with real connections, and what TcpConnection.v proves of one connection
    holds of each of them in a running server. *)

From S2P Require Import Prelude NetBuffer Channel Poller PollPoller EventLoop LoopService Connection TcpConnection OwnedConnection EventLoopThreadPool TcpServer.

Module ServerConnections.
Import TcpConnection OwnedConnection.
Import Buffer (content).
Import Connection (StateE, kDisconnected, kConnecting, kConnected, kDisconnecting).

Section Shared.
Context {W : Type} `{Channel.HostLaws W}.
Abbreviation Conn := (TcpConnection W).
Context (kwrite : nat -> list byte -> write_answer) (kread : nat -> Z -> Buffer.readv_result).
Context (user : event -> Conn -> list user_op) (on_read on_write on_close on_error : Z).
Context (Hkw : write_contract kwrite) (Hkr : read_contract kread).

(** Of all connections, those with these parameters. *)
#[local] Hint Extern 0 (Connection.Connection _ W) =>
  exact (connection kwrite kread user on_read on_write on_close on_error) : typeclass_instances.
#[local] Hint Extern 0 (Connection.ConnectionLaws _ W) =>
  exact (connection_laws kwrite kread user on_read on_write on_close on_error Hkw Hkr) : typeclass_instances.

(** ** A server with its connections *)

Implicit Types s : TcpServer.TcpServer Conn W.

(** The connection [k] in its loop. *)
Definition placed s (k : TcpServer.Conn Conn) : Conn :=
  set_world (TcpServer.loops s (TcpServer.cloop k)) (TcpServer.cobj k).

(** The user of the connection [k] was told that it is up when it was established,
    that it is down before it is removed, and what is unsent will be sent. *)
Definition served s (k : TcpServer.Conn Conn) : Prop :=
  let t := placed s k in
  let l := TcpServer.life (TcpServer.cid k) (TcpServer.log s) in
  (lives (trace t) = [] <-> l = [TcpServer.Accepted]) /\
  lives (trace t) `prefix_of` [true; false] /\
  (TcpServer.Removed ∈ l -> lives (trace t) = [true; false]) /\
  clean (trace t) /\
  (state_ t <> kDisconnected -> content (outputBuffer_ t) <> [] -> writing t = true).

Lemma sound_served s c k : TcpServer.cared_for s -> TcpServer.conns s !! c = Some k -> served s k.
Proof using.
  intros Hs Hk. destruct (Hs c k Hk) as ([Hi _] & Ha & Hr & _). unfold served. change (Inv (placed s k)) in Hi.
  change (Connection.state_of (TcpServer.cobj k)) with (state_ (placed s k)) in *.
  pose proof (inv_lives _ Hi) as Hl. split_and!.
  - rewrite Hl, Ha. by destruct (state_ _).
  - rewrite Hl. by destruct (state_ _); apply (bool_decide_unpack _).
  - intros Hin. by rewrite Hl, (Hr Hin).
  - apply Hi.
  - by apply unsent_writing.
Qed.

(** [C9] A server and its connections as one system.  In any run of accepted
    connections, events of their channels, calls of their users, timers and functors,
    whatever the interleaving of the loops: the server breaks no precondition and
    uses no connection after its end, its registry holds exactly the connections not
    yet removed, and the user of each is told that it is up exactly when it is
    established, that it is down before it is removed, each once; no writing side is
    shut down with bytes unsent, and unsent bytes keep the channel writing. *)
Theorem server_of_connections startLoop loop ipPort name ls n cb s0 os :
  zlen ipPort <= 51 -> 0 <= n < 2 ^ 31 ->
  (s ← TcpServer.setThreadNum n (TcpServer.new loop ipPort name ls); TcpServer.start startLoop cb false s) = Ok s0 ->
  TcpServer.allowed_all os s0 ->
  Connection.blameless (TcpServer.run_ops os s0) (fun s =>
    TcpServer.well_kept s /\ TcpServer.ordered s /\
    forall c k, TcpServer.conns s !! c = Some k -> served s k).
Proof using All.
  intros Hip Hn Hs0 Ha.
  destruct (TcpServer.server_started_inv startLoop loop ipPort name ls n cb Hip Hn) as (s1 & E1 & Hi & _).
  assert (s1 = s0) as -> by congruence.
  apply (Connection.blameless_mono _ TcpServer.Inv); [|by apply TcpServer.server_ops_ok].
  intros s Hs. apply TcpServer.Inv_accurate in Hs as (? & ? & Hc). split_and!; [done..|].
  intros c k. by apply sound_served.
Qed.

End Shared.
(** ** Witness *)

Abbreviation server := (TcpServer.TcpServer (TcpConnection Loop) Loop).

Definition started1 : result server :=
  s ← TcpServer.setThreadNum 2 (TcpServer.new 1 (bytes_of "127.0.0.1:8000") (bytes_of "echo") LoopService.poll_loop);
  TcpServer.start TcpServer.startLoop0 false false s.
Definition server1 : server :=
  match started1 with Ok s => s | Err _ => TcpServer.new 1 [] [] LoopService.poll_loop end.

Definition OpCall (c : Z) (a : action) : @TcpServer.op _ _ one_poll := @TcpServer.OpConnection _ _ one_poll c a.

(** Two connections in two loops.  The first gets a message, answers, and is closed by
    its peer; it leaves.  The other one gets its message meanwhile, and has a byte of
    its answer left to send. *)
Definition ops1 : list (@TcpServer.op _ _ one_poll) :=
  [TcpServer.OpAccept 5 7; TcpServer.OpAccept 6 8; TcpServer.OpRun 100; TcpServer.OpRun 101;
   OpCall 6 (SetHighWater true 1); OpCall 5 (Memory mem1 ∅ mem1_ok); OpCall 6 (Memory mem1 ∅ mem1_ok);
   OpCall 5 ReadEvent; OpCall 5 CloseEvent; OpCall 6 ReadEvent; TcpServer.OpRun 1;
   TcpServer.OpRun 100].
Definition after1 : server := match TcpServer.run_ops ops1 server1 with Connection.Done s => s | _ => server1 end.

Definition sent_unsent (c : Z) (s : server) : option (list byte * list byte) :=
  k ← TcpServer.conns s !! c; Some (wire (TcpServer.cobj k), content (outputBuffer_ (TcpServer.cobj k))).

(** Only accepting has a condition. *)
Lemma allowed_events {K L} `{Connection.ConnectionLaws K L} (os : list (TcpServer.op K L)) s :
  forallb (fun o => match o with TcpServer.OpConnection _ _ | TcpServer.OpRun _ => true | _ => false end) os = true ->
  TcpServer.allowed_all os s.
Proof.
  revert s. induction os as [|o os IH]; intros s Hos; [done|]. apply andb_true_iff in Hos as [Ho Hos].
  split; [by destruct o|]. destruct (TcpServer.run_op o s); [by apply IH|done..].
Qed.

Lemma ops1_allowed : @TcpServer.allowed_all _ _ one_poll one_poll_laws ops1 server1.
Proof.
  split; [split; [reflexivity|]; by split|]. destruct (TcpServer.run_op _ _) as [s| |] eqn:E; [|done..].
  vm_compute in E. injection E as <-. split; [split; [reflexivity|split; [reflexivity|]]|].
  - intros l. cbn. case_match; reflexivity.
  - destruct (TcpServer.run_op _ _) as [s| |]; [|done..]. by apply allowed_events.
Qed.

Lemma ops1_done :
  match @TcpServer.run_ops _ _ one_poll ops1 server1 with Connection.Done _ => true | _ => false end = true.
Proof. vm_compute. reflexivity. Qed.

Lemma server_of_connections_witness :
  map_to_list (TcpServer.connections_ after1) = [(bytes_of "echo-127.0.0.1:8000#2", 6)] /\
  sent_unsent 6 after1 = Some (bytes_of "by", bytes_of "e") /\
  forall c k, TcpServer.conns after1 !! c = Some k -> served after1 k.
Proof.
  split_and!; [vm_compute; reflexivity..|].
  pose proof (server_of_connections kwrite2 kread_hi answers 1 2 3 4 kwrite2_contract kread_hi_contract
    TcpServer.startLoop0 1 (bytes_of "127.0.0.1:8000") (bytes_of "echo") LoopService.poll_loop 2 false server1 ops1
    ltac:(vm_compute; discriminate) ltac:(lia) ltac:(vm_compute; reflexivity) ops1_allowed) as Hb.
  pose proof ops1_done as Hd.
  unfold after1. destruct (@TcpServer.run_ops _ _ one_poll ops1 server1) as [s| |]; [apply Hb|done..].
Defined.

End ServerConnections.
