(* ===== verification/BlockQueue.v ===== *)
(** * The blocking queues: BlockQueue.h, BoundedBlockQueue.h, CountDownLatch

    Monitors: a mutex, condition variables and [while (...) wait(lock)].  A
    critical section is one step of its thread; a thread that waits gives the
    mutex up until it is notified, or wakes spuriously, and then checks again.
    Threads have no names: the model counts them by what they are about to do.

    A [BoundedBlockingQueue] cannot be made: its constructor calls [queue_.reserve],
    which a [std::deque] does not have, so that it does not compile.  What is said of
    its member functions below is said of states in which the invariant holds. *)

From S2P Require Import Prelude.

Module BlockQueue.

Section Queue.
Context {T : Type}.

(** [capacity]: [max_size_] of a [BoundedBlockingQueue], [None] for a
    [BlockQueue]. *)
Context (capacity : option Z).

(** [put_ready], [put_asleep]: the threads about to check in [put], and those
    waiting on [notFull_], with what they bring; [take_ready], [take_asleep]: the
    same for [take]; [arrived]: all that was ever put into the queue; [taken]:
    all that was taken out, in order. *)
Record Queue := mkQueue {
  queue_ : list T;
  put_ready : list T;
  put_asleep : list T;
  take_ready : nat;
  take_asleep : nat;
  arrived : list T;
  taken : list T
}.

(** The constructor of [BlockQueue]. *)
Definition new : Queue := mkQueue [] [] [] 0 0 [] [].

Definition full (s : Queue) : bool :=
  match capacity with Some m => m <=? zlen (queue_ s) | None => false end.
Definition empty (s : Queue) : bool := match queue_ s with [] => true | _ => false end.
Definition size (s : Queue) : Z := zlen (queue_ s).

(** [notEmpty_.notify_one()]. *)
Definition notify_notEmpty (s : Queue) : Queue :=
  match take_asleep s with
  | O => s
  | S n => mkQueue (queue_ s) (put_ready s) (put_asleep s) (S (take_ready s)) n (arrived s) (taken s)
  end.

(** [notFull_.notify_one()] wakes one of the waiting threads, the [i]-th. *)
Definition notify_notFull (i : nat) (s : Queue) : Queue :=
  match put_asleep s !! i with
  | None => s
  | Some x => mkQueue (queue_ s) (put_ready s ++ [x]) (list_delete i (put_asleep s)) (take_ready s)
                (take_asleep s) (arrived s) (taken s)
  end.

(** The critical section of [put(x)], until it waits or returns. *)
Definition put (x : T) (s : Queue) : result Queue :=
  if full s then
    Ok (mkQueue (queue_ s) (put_ready s) (put_asleep s ++ [x]) (take_ready s) (take_asleep s)
          (arrived s) (taken s))
  else
    _ ← assert_ (negb (full s));
    Ok (notify_notEmpty (mkQueue (queue_ s ++ [x]) (put_ready s) (put_asleep s) (take_ready s)
          (take_asleep s) (arrived s ++ [x]) (taken s))).

(** The critical section of [take()], or [get()]; [i]: whom [notFull_] wakes. *)
Definition take (i : nat) (s : Queue) : result Queue :=
  if empty s then
    Ok (mkQueue (queue_ s) (put_ready s) (put_asleep s) (take_ready s) (S (take_asleep s))
          (arrived s) (taken s))
  else
    _ ← assert_ (negb (empty s));
    match queue_ s with
    | [] => Err UndefinedBehaviour
    | front :: rest =>
        let s := mkQueue rest (put_ready s) (put_asleep s) (take_ready s) (take_asleep s)
          (arrived s) (taken s ++ [front]) in
        Ok (match capacity with Some _ => notify_notFull i s | None => s end)
    end.

(** [BlockQueue::drain]. *)
Definition drain (s : Queue) : result Queue :=
  let t := mkQueue [] (put_ready s) (put_asleep s) (take_ready s) (take_asleep s) (arrived s)
    (taken s ++ queue_ s) in
  _ ← assert_ (empty t); Ok t.

Definition set_put_ready (l : list T) (s : Queue) : Queue :=
  mkQueue (queue_ s) l (put_asleep s) (take_ready s) (take_asleep s) (arrived s) (taken s).
Definition set_take (n m : nat) (s : Queue) : Queue :=
  mkQueue (queue_ s) (put_ready s) (put_asleep s) n m (arrived s) (taken s).
Definition set_put (l k : list T) (s : Queue) : Queue :=
  mkQueue (queue_ s) l k (take_ready s) (take_asleep s) (arrived s) (taken s).

(** A thread calls [put] or [take], a thread that is ready runs its section, a
    thread wakes spuriously, a [BlockQueue] is drained. *)
Inductive step : relation Queue :=
| step_call_put x s : step s (set_put_ready (put_ready s ++ [x]) s)
| step_call_take s : step s (set_take (S (take_ready s)) (take_asleep s) s)
| step_put l1 x l2 s s' : put_ready s = l1 ++ x :: l2 ->
    put x (set_put_ready (l1 ++ l2) s) = Ok s' -> step s s'
| step_take n i s s' : take_ready s = S n -> (put_asleep s = [] \/ i < length (put_asleep s))%nat ->
    take i (set_take n (take_asleep s) s) = Ok s' -> step s s'
| step_wake_put l1 x l2 s : put_asleep s = l1 ++ x :: l2 ->
    step s (set_put (put_ready s ++ [x]) (l1 ++ l2) s)
| step_wake_take n s : take_asleep s = S n -> step s (set_take (S (take_ready s)) n s)
| step_drain s s' : capacity = None -> drain s = Ok s' -> step s s'.

(** ** The invariant *)

Definition room (s : Queue) : Z :=
  match capacity with Some m => m - zlen (queue_ s) | None => 0 end.

(** While takers sleep, there is a ready taker for every element; while putters
    sleep, there is a ready one for every free place. *)
Record Inv (s : Queue) : Prop := {
  inv_fifo : arrived s = taken s ++ queue_ s;
  inv_room : 0 <= room s;
  inv_take : (0 < take_asleep s -> length (queue_ s) <= take_ready s)%nat;
  inv_put : put_asleep s <> [] -> room s <= zlen (put_ready s) /\ capacity <> None
}.

Lemma queue_notify_notEmpty_inv s :
  arrived s = taken s ++ queue_ s -> 0 <= room s ->
  ((0 < take_asleep s -> length (queue_ s) <= S (take_ready s))%nat) ->
  (put_asleep s <> [] -> room s <= zlen (put_ready s) /\ capacity <> None) ->
  Inv (notify_notEmpty s).
Proof.
  intros Hf Hr Ht Hp. unfold notify_notEmpty. destruct (take_asleep s) as [|n] eqn:En.
  - split; try done. lia.
  - split; cbn; try done. lia.
Qed.

Lemma put_section_inv l1 x l2 s s' :
  Inv s -> put_ready s = l1 ++ x :: l2 -> put x (set_put_ready (l1 ++ l2) s) = Ok s' -> Inv s'.
Proof.
  intros [Hf Hr Ht Hp] El Hs. unfold put in Hs. destruct (full _) eqn:Ef.
  - inv_ok. subst s'. unfold full in Ef. cbn in Ef. destruct capacity as [m|] eqn:Ec; [|done].
    zprop. split; cbn; try done. intros _. unfold room. cbn. split; [|by rewrite Ec].
    pose proof (zlen_nonneg (l1 ++ l2)). rewrite Ec. lia.
  - inv_ok. subst s'. unfold full in Ef. cbn in Ef.
    apply queue_notify_notEmpty_inv; cbn.
    + by rewrite Hf, app_assoc.
    + unfold room in *. cbn. destruct capacity as [m|]; [|lia]. zprop. rewrite zlen_app.
      change (zlen [x]) with 1. lia.
    + rewrite length_app. cbn. lia.
    + intros Hne. destruct (Hp Hne) as [Hle Hc]. split; [|done]. unfold room in *. cbn.
      destruct capacity as [m|]; [|done]. rewrite zlen_app, El in *. rewrite zlen_app, zlen_cons in Hle.
      rewrite zlen_app. change (zlen [x]) with 1. lia.
Qed.

Lemma take_section_inv n i s s' :
  Inv s -> take_ready s = S n -> (put_asleep s = [] \/ i < length (put_asleep s))%nat ->
  take i (set_take n (take_asleep s) s) = Ok s' -> Inv s'.
Proof.
  intros [Hf Hr Ht Hp] En Hi Hs. unfold take, empty in Hs. cbn [queue_ set_take] in Hs.
  destruct (queue_ s) as [|x q] eqn:Eq.
  - inv_ok. subst s'. unfold room in *. rewrite Eq in *.
    split; unfold room; cbn; rewrite ?Eq; try done; lia.
  - cbn in Hs. inv_ok.
    assert (room s = match capacity with Some m => m - (1 + zlen q) | None => 0 end) as Er.
    { unfold room. rewrite Eq. by rewrite zlen_cons. }
    set (s1 := mkQueue q _ _ _ _ _ _) in Hs.
    assert (arrived s = (taken s ++ [x]) ++ q) as Hf1 by (by rewrite <- app_assoc).
    assert (0 <= room s1) as Hr1 by (unfold room; cbn; rewrite Er in Hr; destruct capacity; lia).
    assert ((0 < take_asleep s -> length q <= n)%nat) as Ht1 by (cbn in Ht; lia).
    assert (Inv s1 \/ put_asleep s <> []) as Hcase.
    { destruct (put_asleep s) as [|y l] eqn:Ep; [left|by right]. split; cbn; try done. }
    destruct capacity as [m|] eqn:Ec.
    + subst s'. unfold notify_notFull. cbn [put_asleep s1 set_take].
      destruct (put_asleep s !! i) as [y|] eqn:Ey.
      * split; cbn; try done. intros _.
        destruct Hp as [Hle _]; [by intros Hz; rewrite Hz in Ey|]. split; [|by rewrite Ec].
        unfold room. cbn. rewrite Ec, zlen_app. change (zlen [y]) with 1. lia.
      * destruct Hcase as [?|Hne]; [done|]. apply lookup_ge_None in Ey. destruct Hi; [done|lia].
    + subst s'. destruct Hcase as [?|Hne]; [done|]. destruct (Hp Hne) as [_ Hc]. done.
Qed.

Lemma queue_step_inv s s' : Inv s -> step s s' -> Inv s'.
Proof.
  intros Hs Hst. pose proof Hs as [Hf Hr Ht Hp].
  destruct Hst as [x s|s|l1 x l2 s s' E1 E2|n i s s' E1 E2 E3|l1 x l2 s E|n s E|s s' E1 E2].
  - split; cbn; try done. intros Hne. destruct (Hp Hne). split; [|done]. rewrite zlen_app.
    change (zlen [x]) with 1. unfold room in *. cbn. lia.
  - split; cbn; try done. lia.
  - by apply (put_section_inv l1 x l2 s).
  - by apply (take_section_inv n i s).
  - split; cbn; try done. intros _. destruct Hp as [Hle Hc]; [rewrite E; by destruct l1|].
    split; [|done]. rewrite zlen_app. change (zlen [x]) with 1. unfold room in *. cbn. lia.
  - split; cbn; try done. rewrite E in Ht. lia.
  - unfold drain in E2. cbn in E2. inv_ok. subst s'. split; cbn; try done.
    + by rewrite app_nil_r.
    + unfold room. by rewrite E1.
    + lia.
    + intros Hne. by destruct (Hp Hne) as [_ Hc].
Qed.

Lemma queue_steps_inv s s' : Inv s -> rtc step s s' -> Inv s'.
Proof. intros Hi Hs. exact (rtc_invariant step Inv s s' queue_step_inv Hs Hi). Qed.

(** When no thread can run, waiting takers mean that the queue is empty. *)
Lemma takers_wait s : Inv s -> take_ready s = 0%nat -> (0 < take_asleep s)%nat -> queue_ s = [].
Proof.
  intros [_ _ Ht _] E Hl. specialize (Ht Hl). rewrite E in Ht. by destruct (queue_ s); [|cbn in Ht; lia].
Qed.

End Queue.

(** The operations of [BlockQueue], which has no capacity. *)
Definition unbounded_put {T} : T -> Queue -> result Queue := put (T := T) None.
Definition unbounded_take {T} (s : Queue) : result Queue := take (T := T) None 0 s.

Arguments Queue T : clear implicits.

Lemma new_queue_inv {T} : Inv None (new (T := T)).
Proof. split; cbn; try done. Qed.

(** ** Properties *)

(** [C31] [BlockQueue].  Whatever the threads do: the elements come out in the order in
    which they went in, each once; [put] never waits, and appends its element; [take]
    returns the front unless the queue is empty, when it waits; and no wakeup is lost:
    when no taker can run, waiting takers mean that the queue is empty. *)
Theorem block_queue_fifo_no_deadlock {T} (s : Queue T) :
  rtc (step None) new s ->
  arrived s = taken s ++ queue_ s /\ put_asleep s = [] /\
  (forall x, exists s', unbounded_put x s = Ok s' /\ queue_ s' = queue_ s ++ [x]) /\
  (exists s', unbounded_take s = Ok s' /\
     match queue_ s with
     | [] => queue_ s' = [] /\ taken s' = taken s /\ take_asleep s' = S (take_asleep s)
     | x :: rest => queue_ s' = rest /\ taken s' = taken s ++ [x] /\ take_asleep s' = take_asleep s
     end) /\
  (take_ready s = 0%nat -> (0 < take_asleep s)%nat -> queue_ s = []).
Proof.
  intros Hs. pose proof (queue_steps_inv None new s new_queue_inv Hs) as Hi. pose proof Hi as [Hf Hr Ht Hp].
  split_and!; [done| | | |by apply (takers_wait None)].
  - destruct (put_asleep s) eqn:E; [done|]. by destruct Hp as [_ Hc].
  - intros x. unfold unbounded_put, put. cbn [full negb assert_]. rewrite bind_ok. eexists. split; [done|].
    unfold notify_notEmpty. cbn. by destruct (take_asleep s).
  - unfold unbounded_take, take, empty. destruct (queue_ s) as [|x rest] eqn:E; eexists; by split_and!.
Qed.

(** Two takers, of whom one waits and one was woken for the element. *)
Definition served : Queue Z := mkQueue [1] [] [] 1 1 [1] [].

Lemma block_queue_fifo_no_deadlock_witness :
  rtc (step None) new served /\ arrived served = taken served ++ queue_ served.
Proof.
  assert (rtc (step None) new served) as Hs.
  { eapply rtc_l; [apply step_call_take|]. eapply rtc_l; [by apply (step_take _ 0 0); [|left|]|].
    eapply rtc_l; [apply step_call_take|]. eapply rtc_l; [by apply (step_take _ 0 0); [|left|]|].
    eapply rtc_l; [apply (step_call_put _ 1)|]. apply rtc_once. by apply (step_put _ [] 1 []). }
  split; [exact Hs|]. apply (block_queue_fifo_no_deadlock served Hs).
Defined.

(** The member functions of [BoundedBlockingQueue], from any state that keeps the
    invariant: first in, first out, within the capacity; when no thread can run, waiting
    takers mean that the queue is empty and waiting putters that it is full, so that
    with room for one element they never wait for each other. *)
Lemma bounded_queue_sections {T} m (s0 s : Queue T) :
  Inv (Some m) s0 -> rtc (step (Some m)) s0 s ->
  arrived s = taken s ++ queue_ s /\ zlen (queue_ s) <= m /\
  (take_ready s = 0%nat -> put_ready s = [] ->
     ((0 < take_asleep s)%nat -> queue_ s = []) /\
     (put_asleep s <> [] -> zlen (queue_ s) = m) /\
     ((0 < take_asleep s)%nat -> put_asleep s <> [] -> m = 0)).
Proof.
  intros Hi0 Hs. pose proof (queue_steps_inv _ _ _ Hi0 Hs) as Hi. pose proof Hi as [Hf Hr Ht Hp].
  unfold room in *. split_and!; [done|lia|]. intros E1 E2.
  assert (put_asleep s <> [] -> zlen (queue_ s) = m) as Hfull.
  { intros Hne. destruct (Hp Hne) as [Hle _]. rewrite E2 in Hle. change (zlen (@nil T)) with 0 in Hle. lia. }
  split_and!; [by apply (takers_wait (Some m))|done|]. intros Hl Hne. rewrite <- (Hfull Hne).
  by rewrite (takers_wait _ _ Hi).
Qed.

End BlockQueue.

(** * [dws::CountDownLatch] *)

Module CountDownLatch.

(** [ready], [asleep]: the threads in [wait] that are about to check, and that
    wait on [condition_]; [passed]: the counts with which [wait] returned. *)
Record CountDownLatch := mkLatch {
  count_ : Z;
  ready : nat;
  asleep : nat;
  passed : list Z
}.

Definition new (count : Z) : CountDownLatch := mkLatch count 0 0 [].

(** The critical section of [wait], until it waits or returns. *)
Definition wait (s : CountDownLatch) : CountDownLatch :=
  if 0 <? count_ s then mkLatch (count_ s) (ready s) (S (asleep s)) (passed s)
  else mkLatch (count_ s) (ready s) (asleep s) (passed s ++ [count_ s]).

Definition countDown (s : CountDownLatch) : result CountDownLatch :=
  _ ← no_overflow 32 [count_ s - 1];
  let c := count_ s - 1 in
  Ok (if c =? 0 then mkLatch c (ready s + asleep s) 0 (passed s)
      else mkLatch c (ready s) (asleep s) (passed s)).

Definition getCount (s : CountDownLatch) : Z := count_ s.

Inductive step : relation CountDownLatch :=
| step_call s : step s (mkLatch (count_ s) (S (ready s)) (asleep s) (passed s))
| step_wait n s : ready s = S n ->
    step s (wait (mkLatch (count_ s) n (asleep s) (passed s)))
| step_count s s' : countDown s = Ok s' -> step s s'
| step_wake n s : asleep s = S n -> step s (mkLatch (count_ s) (S (ready s)) n (passed s)).

(** The latch.  No call of [wait] returns while the count is positive, and
    none sleeps once it is not: the notification of the last [countDown] reaches
    every waiting thread. *)
Theorem latch_no_lost_wakeup c s :
  rtc step (new c) s ->
  Forall (fun n => n <= 0) (passed s) /\ (count_ s <= 0 -> asleep s = 0%nat).
Proof.
  intros Hs. set (Inv := fun s : CountDownLatch => Forall (fun n => n <= 0) (passed s) /\
    (count_ s <= 0 -> asleep s = 0%nat)).
  apply (rtc_invariant step Inv (new c) s); [|done|split; [constructor|done]].
  clear. intros s s' [Hp Ha] Hst. destruct Hst as [s|n s E|s s' E|n s E]; unfold Inv; cbn.
  - done.
  - unfold wait. cbn. zcase (0 <? count_ s); cbn; [split; [done|lia]|].
    split; [|done]. apply Forall_app. split; [done|]. by repeat constructor.
  - unfold countDown in E. inv_ok. zcase (count_ s - 1 =? 0); subst s'; cbn; [done|].
    split; [done|]. intros. apply Ha. lia.
  - split; [done|]. intros Hc. rewrite (Ha Hc) in E. done.
Qed.

Lemma latch_no_lost_wakeup_witness :
  rtc step (new 1) (mkLatch 0 1 0 []) /\ asleep (mkLatch 0 1 0 []) = 0%nat.
Proof.
  assert (rtc step (new 1) (mkLatch 0 1 0 [])) as Hs.
  { eapply rtc_l; [apply step_call|]. eapply rtc_l; [by apply (step_wait 0)|].
    apply rtc_once. by apply step_count. }
  split; [exact Hs|]. apply (latch_no_lost_wakeup 1 _ Hs). reflexivity.
Defined.

End CountDownLatch.
