(* ===== verification/Thread.v ===== *)
(** * [dws::Thread], [dws::CurrentThread]: Thread.h, Thread.cc, CurrentThread.h

    Starting a thread, step by step: the object that [start] hands to the new thread,
    the semaphore, and who deletes the object.  And exhaustive exploration of small
    transition systems, which EventLoopThread.v uses too. *)

From S2P Require Import Prelude Text Timestamp.

(** ** Exploring a finite system *)

Module Explore.

Section Explore.
Context {S : Type} (next : S -> list (result S)).

(** One step of some thread that does not fault. *)
Definition moves (s t : S) : Prop := Ok t ∈ next s.

(** Every maximal execution ends in a fault. *)
Inductive Doomed (s : S) : Prop :=
| doomed : next s <> [] -> (forall t, moves s t -> Doomed t) -> Doomed s.

Fixpoint check_doomed (fuel : nat) (s : S) : bool :=
  match fuel with
  | O => false
  | Datatypes.S f =>
      match next s with
      | [] => false
      | rs => forallb (fun r => match r with Ok t => check_doomed f t | Err _ => true end) rs
      end
  end.

Lemma check_doomed_sound fuel s : check_doomed fuel s = true -> Doomed s.
Proof.
  revert s. induction fuel as [|f IH]; intros s H; [done|]. cbn [check_doomed] in H.
  destruct (next s) as [|r rs] eqn:E; [done|]. constructor; [by rewrite E|].
  intros t Ht. unfold moves in Ht. rewrite E in Ht. rewrite forallb_forall in H.
  apply IH. apply (H (Ok t)). by apply list_elem_of_In.
Qed.

(** A property of all states that are reached without a fault, by walking through
    the finitely many executions. *)
Fixpoint check_all (good : S -> bool) (fuel : nat) (s : S) : bool :=
  match fuel with
  | O => false
  | Datatypes.S f =>
      good s &&
      forallb (fun r => match r with Ok t => check_all good f t | Err _ => true end) (next s)
  end.

Lemma check_all_sound good fuel s t : check_all good fuel s = true -> rtc moves s t -> good t = true.
Proof.
  intros H Hs. revert fuel H. induction Hs as [s|s u t Hm _ IH]; intros [|f] H; try done; cbn [check_all] in H;
    apply andb_prop in H as [Hg Hf]; [done|].
  apply (IH f). rewrite forallb_forall in Hf. apply (Hf (Ok u)). by apply list_elem_of_In.
Qed.

(** A list of states that is closed under the steps that do not fault. *)
Context `{EqDecision S}.

#[global] Instance moves_dec s t : Decision (moves s t).
Proof. unfold moves. apply _. Defined.

Definition saturated (l : list S) : bool :=
  forallb (fun s => forallb (fun r => match r with Ok t => bool_decide (t ∈ l) | Err _ => true end) (next s)) l.

Lemma saturated_sound l s t : saturated l = true -> s ∈ l -> rtc moves s t -> t ∈ l.
Proof.
  intros Hc Hs Ht. unfold saturated in Hc. rewrite forallb_forall in Hc.
  apply (rtc_invariant moves (fun s => s ∈ l) s t); [|done|done].
  intros u v Hu Huv. apply list_elem_of_In in Hu. apply Hc in Hu. rewrite forallb_forall in Hu.
  apply list_elem_of_In in Huv. apply Hu in Huv. by apply bool_decide_eq_true in Huv.
Qed.

(** An execution given by its states. *)
Fixpoint check_path (s : S) (l : list S) : bool :=
  match l with
  | [] => true
  | t :: l => bool_decide (moves s t) && check_path t l
  end.
Fixpoint end_of (s : S) (l : list S) : S :=
  match l with [] => s | t :: l => end_of t l end.

Lemma check_path_sound l s : check_path s l = true -> rtc moves s (end_of s l).
Proof.
  revert s. induction l as [|t l IH]; intros s H; [apply rtc_refl|]. cbn in H.
  apply andb_prop in H as [H1 H2]. apply bool_decide_eq_true in H1. eapply rtc_l; [exact H1|by apply IH].
Qed.

(** The states that are reached in a few rounds. *)
Fixpoint collect (fuel : nat) (seen todo : list S) : list S :=
  match fuel with
  | O => seen
  | Datatypes.S f =>
      match todo with
      | [] => seen
      | s :: todo =>
          if bool_decide (s ∈ seen) then collect f seen todo
          else collect f (s :: seen)
                 (omap (fun r => match r with Ok t => Some t | Err _ => None end) (next s) ++ todo)
      end
  end.

End Explore.
End Explore.

(** ** [CurrentThread] *)

Module CurrentThread.

(** The thread-local variables. *)
Record locals := mkLocals {
  t_cachedTid : Z;
  t_tidString : list byte;
  t_tidStringLength : Z;
  t_threadName : list byte
}.
Definition initial : locals := mkLocals 0 [] 6 (bytes_of "unknown").

(** [gettid] is the kernel's thread id. *)
Definition cacheTid (gettid : Z) (l : locals) : locals :=
  if t_cachedTid l =? 0 then
    let text := Text.decimal_sp 5 gettid ++ [Byte.x20] in
    mkLocals gettid (Text.snprintf 32 text) (zlen text) (t_threadName l)
  else l.
Definition tid (gettid : Z) (l : locals) : Z * locals :=
  let l := if t_cachedTid l =? 0 then cacheTid gettid l else l in (t_cachedTid l, l).

(** [ThreadNameInitializer], for the first thread, and [afterFork], for the one
    thread of a child process, which inherits the parent's variables. *)
Definition start_main (gettid : Z) (l : locals) : locals :=
  snd (tid gettid (mkLocals (t_cachedTid l) (t_tidString l) (t_tidStringLength l) (bytes_of "main"))).
Definition afterFork (gettid : Z) (l : locals) : locals :=
  snd (tid gettid (mkLocals 0 (t_tidString l) (t_tidStringLength l) (bytes_of "main"))).

(** [isMainThread]: compares the thread with itself. *)
Definition isMainThread (gettid : Z) (l : locals) : bool := fst (tid gettid l) =? gettid.

(** The [timespec] that [sleepUsec] passes to nanosleep(2). *)
Definition sleepUsec (usec : Z) : Z * Z :=
  (Z.quot usec Timestamp.kMicroSecondsPerSecond,
   wraps 32 (Z.rem usec Timestamp.kMicroSecondsPerSecond)).

(** The child of a fork has its own thread id, whatever was cached before. *)
Lemma after_fork_fresh gettid l :
  fst (tid gettid (afterFork gettid l)) = gettid /\ t_threadName (afterFork gettid l) = bytes_of "main".
Proof.
  unfold afterFork, tid, cacheTid. cbn. split; [|done]. by destruct (gettid =? 0).
Qed.

(** Every thread takes itself for the main thread. *)
Lemma isMainThread_always gettid l : 0 < gettid -> t_cachedTid l = 0 \/ t_cachedTid l = gettid ->
  isMainThread gettid l = true.
Proof.
  intros Hg [Hl|Hl]; unfold isMainThread, tid, cacheTid; rewrite Hl.
  - cbn. apply Z.eqb_refl.
  - zcase (gettid =? 0); [lia|]. cbn. rewrite Hl. apply Z.eqb_refl.
Qed.

(** The microseconds arrive as nanoseconds: below a second the sleep is a thousandth
    of what was asked for. *)
Lemma sleepUsec_short usec : 0 <= usec < 1000000 -> sleepUsec usec = (0, usec).
Proof.
  intros Hu. unfold sleepUsec, Timestamp.kMicroSecondsPerSecond.
  rewrite Z.quot_small, Z.rem_small, wraps_small by lia. done.
Qed.

End CurrentThread.

(** ** [Thread] *)

Module Thread.

(** [setDefaultName], given the count of threads created before. *)
Definition setDefaultName (numCreated : Z) (name : list byte) : list byte * Z :=
  let num := numCreated + 1 in
  (match name with
   | [] => Text.snprintf 32 (bytes_of "Thread" ++ Text.decimal num)
   | _ => name
   end, num).

(** Where [start] is, and where [startThread] and [runInThread] are in the new
    thread. *)
Inductive owner_pc := Idle | Allocated | SemWait | Woken | Leaving | Started | Joined.
Inductive child_pc := Absent | Begin | TidStored | Posted | SemCleared | Named | Ran | Exited.

(** [data]: whether the [ThreadData] exists; [tid_known]: [tid_ > 0]; [sem]: the
    semaphore's value. *)
Record Thread := mkThread {
  started_ : bool;
  joined_ : bool;
  tid_known : bool;
  sem : Z;
  data : bool;
  owner : owner_pc;
  child : child_pc
}.
#[global] Instance owner_pc_eqdec : EqDecision owner_pc.
Proof. solve_decision. Defined.
#[global] Instance child_pc_eqdec : EqDecision child_pc.
Proof. solve_decision. Defined.
#[global] Instance thread_eqdec : EqDecision Thread.
Proof. solve_decision. Defined.

Definition new : Thread := mkThread false false false 0 false Idle Absent.

Definition set_owner (p : owner_pc) (s : Thread) : Thread :=
  mkThread (started_ s) (joined_ s) (tid_known s) (sem s) (data s) p (child s).
Definition set_child (p : child_pc) (s : Thread) : Thread :=
  mkThread (started_ s) (joined_ s) (tid_known s) (sem s) (data s) (owner s) p.
Definition set_data (b : bool) (s : Thread) : Thread :=
  mkThread (started_ s) (joined_ s) (tid_known s) (sem s) b (owner s) (child s).
Definition set_sem (n : Z) (s : Thread) : Thread :=
  mkThread (started_ s) (joined_ s) (tid_known s) n (data s) (owner s) (child s).

(** The thread that calls [start], then [join]. *)
Definition start_step (s : Thread) : list (result Thread) :=
  match owner s with
  | Idle =>       (* assert, started_, make_unique *)
      [_ ← assert_ (negb (started_ s));
       Ok (mkThread true (joined_ s) (tid_known s) (sem s) true Allocated (child s))]
  | Allocated =>  (* the std::thread gets data.get() *)
      [Ok (set_owner SemWait (set_child Begin s))]
  | SemWait => if 0 <? sem s then [Ok (set_owner Woken (set_sem (sem s - 1) s))] else []
  | Woken => [_ ← assert_ (tid_known s); Ok (set_owner Leaving s)]
  | Leaving =>    (* the destructor of [data] deletes the object *)
      [_ ← defined_ (data s); Ok (set_owner Started (set_data false s))]
  | Started =>    (* join *)
      if bool_decide (child s = Exited) then
        [_ ← assert_ (started_ s); _ ← assert_ (negb (joined_ s));
         Ok (mkThread (started_ s) true (tid_known s) (sem s) (data s) Joined (child s))]
      else []
  | Joined => []
  end.

(** The new thread: every step but the last uses a member of the object. *)
Definition child_step (s : Thread) : list (result Thread) :=
  match child s with
  | Absent | Exited => []
  | Begin =>      (* *tid_ = CurrentThread::tid() *)
      [_ ← defined_ (data s);
       Ok (mkThread (started_ s) (joined_ s) true (sem s) (data s) (owner s) TidStored)]
  | TidStored =>  (* sem_post(sem_) *)
      [_ ← defined_ (data s); Ok (set_child Posted (set_sem (sem s + 1) s))]
  | Posted =>     (* sem_ = nullptr *)
      [_ ← defined_ (data s); Ok (set_child SemCleared s)]
  | SemCleared => (* name_ *)
      [_ ← defined_ (data s); Ok (set_child Named s)]
  | Named =>      (* func_() *)
      [_ ← defined_ (data s); Ok (set_child Ran s)]
  | Ran =>        (* delete data *)
      [_ ← defined_ (data s); Ok (set_child Exited (set_data false s))]
  end.

Definition next (s : Thread) : list (result Thread) := start_step s ++ child_step s.

(** The destructor detaches a thread that was not joined. *)
Definition detaches (s : Thread) : bool := started_ s && negb (joined_ s).

(** ** Properties *)

(** The object handed to a new thread is deleted twice: by the [unique_ptr] of
    [start] and by [startThread].  Whatever the scheduling, every execution in which
    both threads go on uses the object after its deletion or deletes it a second
    time; in particular no execution gets to the point where [start] has returned and
    the new thread has finished. *)
Theorem thread_start_double_delete :
  Explore.Doomed next new /\
  forall s, rtc (Explore.moves next) new s -> ~ (owner s = Started /\ child s = Exited).
Proof.
  split.
  - apply (Explore.check_doomed_sound next 20). vm_compute. reflexivity.
  - intros s Hs [E1 E2].
    set (good t := negb (bool_decide (owner t = Started) && bool_decide (child t = Exited))).
    assert (good s = true) as H.
    { apply (Explore.check_all_sound next good 20 new s); [vm_compute; reflexivity|done]. }
    unfold good in H. by rewrite E1, E2 in H.
Qed.

End Thread.
