(* ===== verification/ThreadPool.v ===== *)
(** * [dws::ThreadPool]: ThreadPool.h, ThreadPool.cc

    A queue of tasks between callers of [run] and worker threads, as a monitor in
    the style of BlockQueue.v: critical sections are steps, and threads are
    counted by what they are about to do.  Around it the threads themselves, each
    with the steps of its [Thread::start] (Thread.v), from which a worker enters
    [runInThread] and into which it returns. *)

From S2P Require Import Prelude Thread.

Module ThreadPool.

Section Pool.
Context {Task : Type}.

(** [threads_]: how many threads there are.  Callers of [run]: about to check ([put_ready]), or waiting on [notFull_]
    ([put_asleep]), with their task.  Workers: at the head of their loop
    ([at_loop]), about to check in [take] ([ready]), waiting on [notEmpty_]
    ([asleep]), running a task ([busy]), at the end of [runInThread] ([done]).  [submitted]: the
    tasks that entered the queue; [taken]: those that left it; [inline]: those
    that [run] ran itself; [refused]: those it gave up after [stop]. *)
Record ThreadPool := mkPool {
  maxQueueSize_ : Z;
  running_ : bool;
  threads_ : nat;
  queue_ : list Task;
  put_ready : list Task;
  put_asleep : list Task;
  at_loop : nat;
  ready : nat;
  asleep : nat;
  busy : list Task;
  done : nat;
  submitted : list Task;
  taken : list Task;
  inline : list Task;
  refused : list Task
}.

Definition set_run (q pr pa sub rf : list Task) (s : ThreadPool) : ThreadPool :=
  mkPool (maxQueueSize_ s) (running_ s) (threads_ s) q pr pa (at_loop s) (ready s) (asleep s)
    (busy s) (done s) sub (taken s) (inline s) rf.
Definition set_workers (l r a : nat) (b : list Task) (d : nat) (s : ThreadPool) : ThreadPool :=
  mkPool (maxQueueSize_ s) (running_ s) (threads_ s) (queue_ s) (put_ready s) (put_asleep s) l r a b
    d (submitted s) (taken s) (inline s) (refused s).
Definition set_take (q tk : list Task) (s : ThreadPool) : ThreadPool :=
  mkPool (maxQueueSize_ s) (running_ s) (threads_ s) q (put_ready s) (put_asleep s) (at_loop s)
    (ready s) (asleep s) (busy s) (done s) (submitted s) tk (inline s) (refused s).
Definition add_inline (x : Task) (s : ThreadPool) : ThreadPool :=
  mkPool (maxQueueSize_ s) (running_ s) (threads_ s) (queue_ s) (put_ready s) (put_asleep s)
    (at_loop s) (ready s) (asleep s) (busy s) (done s) (submitted s) (taken s) (inline s ++ [x])
    (refused s).

(** The constructor and [setMaxQueueSize]. *)
Definition new : ThreadPool := mkPool 0 false 0 [] [] [] 0 0 0 [] 0 [] [] [] [].
Definition setMaxQueueSize (maxSize : Z) (s : ThreadPool) : ThreadPool :=
  mkPool maxSize (running_ s) (threads_ s) (queue_ s) (put_ready s) (put_asleep s) (at_loop s)
    (ready s) (asleep s) (busy s) (done s) (submitted s) (taken s) (inline s) (refused s).
Definition set_threads (running : bool) (n : nat) (s : ThreadPool) : ThreadPool :=
  mkPool (maxQueueSize_ s) running n (queue_ s) (put_ready s) (put_asleep s) (at_loop s)
    (ready s) (asleep s) (busy s) (done s) (submitted s) (taken s) (inline s) (refused s).

(** What [mutex_.try_lock()] answers to the thread that holds the mutex.  The C++
    standard leaves it undefined; [pthread_mutex_trylock], which implements it on the
    library's platforms, fails with [EBUSY], so [false]. *)
Context (try_lock_held : result bool).

Definition isFull (s : ThreadPool) : result bool :=
  locked ← try_lock_held;
  _ ← assert_ (negb locked);
  Ok (maxQueueSize_ s <=? zlen (queue_ s)).

(** [notEmpty_.notify_one()], [notFull_.notify_one()], waking the [i]-th. *)
Definition notify_notEmpty (s : ThreadPool) : ThreadPool :=
  match asleep s with
  | O => s
  | S n => set_workers (at_loop s) (S (ready s)) n (busy s) (done s) s
  end.
Definition notify_notFull (i : nat) (s : ThreadPool) : ThreadPool :=
  match put_asleep s !! i with
  | None => s
  | Some x => set_run (queue_ s) (put_ready s ++ [x]) (list_delete i (put_asleep s)) (submitted s)
                (refused s) s
  end.

(** [run(x)]: without threads the task runs at once; else the critical section,
    until it waits or returns. *)
Definition run (x : Task) (s : ThreadPool) : result ThreadPool :=
  if bool_decide (threads_ s = 0%nat) then Ok (add_inline x s)
  else
    full ← isFull s;
    if full && running_ s then
      Ok (set_run (queue_ s) (put_ready s) (put_asleep s ++ [x]) (submitted s) (refused s) s)
    else if negb (running_ s) then
      Ok (set_run (queue_ s) (put_ready s) (put_asleep s) (submitted s) (refused s ++ [x]) s)
    else
      full ← isFull s;
      _ ← assert_ (negb full);
      Ok (notify_notEmpty
            (set_run (queue_ s ++ [x]) (put_ready s) (put_asleep s) (submitted s ++ [x]) (refused s) s)).

(** The critical section of [take()] of a worker that is ready; without a task
    the worker goes back to its loop. *)
Definition take (i : nat) (s : ThreadPool) : ThreadPool :=
  if bool_decide (queue_ s = []) && running_ s then
    set_workers (at_loop s) (ready s) (S (asleep s)) (busy s) (done s) s
  else
    match queue_ s with
    | [] => set_workers (S (at_loop s)) (ready s) (asleep s) (busy s) (done s) s
    | front :: rest =>
        let s := set_take rest (taken s ++ [front]) s in
        let s := set_workers (at_loop s) (ready s) (asleep s) (front :: busy s) (done s) s in
        if 0 <? maxQueueSize_ s then notify_notFull i s else s
    end.

(** [while (running_)] of [runInThread]. *)
Definition loop_test (s : ThreadPool) : ThreadPool :=
  if running_ s then set_workers (at_loop s) (S (ready s)) (asleep s) (busy s) (done s) s
  else set_workers (at_loop s) (ready s) (asleep s) (busy s) (S (done s)) s.

(** The critical section of [stop]. *)
Definition stop (s : ThreadPool) : ThreadPool :=
  mkPool (maxQueueSize_ s) false (threads_ s) (queue_ s) (put_ready s ++ put_asleep s) []
    (at_loop s) (ready s + asleep s) 0 (busy s) (done s) (submitted s) (taken s) (inline s) (refused s).

Inductive worker_step : relation ThreadPool :=
| step_loop n s : at_loop s = S n ->
    worker_step s (loop_test (set_workers n (ready s) (asleep s) (busy s) (done s) s))
| step_take n i s : ready s = S n -> (put_asleep s = [] \/ i < length (put_asleep s))%nat ->
    worker_step s (take i (set_workers (at_loop s) n (asleep s) (busy s) (done s) s))
| step_finish l1 x l2 s : busy s = l1 ++ x :: l2 ->
    worker_step s (set_workers (S (at_loop s)) (ready s) (asleep s) (l1 ++ l2) (done s) s).

Inductive step : relation ThreadPool :=
| step_call x s : step s (set_run (queue_ s) (put_ready s ++ [x]) (put_asleep s) (submitted s) (refused s) s)
| step_run l1 x l2 s s' : put_ready s = l1 ++ x :: l2 ->
    run x (set_run (queue_ s) (l1 ++ l2) (put_asleep s) (submitted s) (refused s) s) = Ok s' -> step s s'
| step_worker s s' : worker_step s s' -> step s s'
| step_wake_run l1 x l2 s : put_asleep s = l1 ++ x :: l2 ->
    step s (set_run (queue_ s) (put_ready s ++ [x]) (l1 ++ l2) (submitted s) (refused s) s)
| step_wake_worker n s : asleep s = S n ->
    step s (set_workers (at_loop s) (S (ready s)) n (busy s) (done s) s)
| step_stop s : step s (stop s).

(** ** The invariant *)

(** While workers sleep there is a ready one for every task of the queue; while
    callers sleep there is a ready one for every free place. *)
Record Inv (s : ThreadPool) : Prop := {
  inv_fifo : submitted s = taken s ++ queue_ s;
  inv_room : zlen (queue_ s) <= maxQueueSize_ s;
  inv_take : (0 < asleep s -> length (queue_ s) <= ready s)%nat;
  inv_put : put_asleep s <> [] ->
    threads_ s <> 0%nat /\ maxQueueSize_ s - zlen (queue_ s) <= zlen (put_ready s);
  inv_running : running_ s = true -> done s = 0%nat;
  inv_stopped : running_ s = false -> asleep s = 0%nat /\ put_asleep s = []
}.

(** The workers in [runInThread]. *)
Definition inside (s : ThreadPool) : nat :=
  (at_loop s + ready s + asleep s + length (busy s) + done s)%nat.

Context (Hlock : try_lock_held = Ok false).

Lemma isFull_ok s : isFull s = Ok (maxQueueSize_ s <=? zlen (queue_ s)).
Proof using Hlock. unfold isFull. by rewrite Hlock. Qed.

Ltac pool := split; cbn; try done; try lia; try congruence.

Lemma pool_notify_notEmpty_inv s :
  submitted s = taken s ++ queue_ s -> zlen (queue_ s) <= maxQueueSize_ s ->
  (0 < asleep s -> length (queue_ s) <= S (ready s))%nat ->
  (put_asleep s <> [] ->
    threads_ s <> 0%nat /\ maxQueueSize_ s - zlen (queue_ s) <= zlen (put_ready s)) ->
  (running_ s = true -> done s = 0%nat) -> running_ s = true ->
  Inv (notify_notEmpty s).
Proof.
  intros Hf Hr Ht Hp Hd Hst. unfold notify_notEmpty.
  destruct (asleep s) as [|n] eqn:En; pool.
Qed.

Lemma run_inv l1 x l2 s s' :
  Inv s -> put_ready s = l1 ++ x :: l2 ->
  run x (set_run (queue_ s) (l1 ++ l2) (put_asleep s) (submitted s) (refused s) s) = Ok s' -> Inv s'.
Proof.
  intros [Hf Hr Ht Hp Hd Hst] El Hrun. unfold run in Hrun. rewrite isFull_ok, !bind_ok in Hrun.
  cbn [threads_ set_run maxQueueSize_ queue_ running_ put_ready put_asleep submitted refused] in Hrun.
  assert (zlen (put_ready s) = 1 + zlen (l1 ++ l2)) as Hlen.
  { rewrite El, !zlen_app, zlen_cons. lia. }
  pose proof (zlen_nonneg (l1 ++ l2)).
  case_bool_decide as Hth.
  { inv_ok. subst s'. pool. intros Hne. by destruct (Hp Hne). }
  zcase (maxQueueSize_ s <=? zlen (queue_ s)); destruct (running_ s) eqn:Er; cbn in Hrun; inv_ok; subst s'.
  - pool.
  - destruct (Hst eq_refl) as [Ea Ep]. pool.
  - apply pool_notify_notEmpty_inv; cbn; try done.
    + by rewrite Hf, app_assoc.
    + rewrite zlen_app. change (zlen [x]) with 1. lia.
    + rewrite length_app. cbn. lia.
    + intros Hne. destruct (Hp Hne). split; [done|]. rewrite (zlen_app (queue_ s)).
      change (zlen [x]) with 1. lia.
    + auto.
  - destruct (Hst eq_refl) as [Ea Ep]. pool.
Qed.

Lemma take_inv n i s :
  Inv s -> ready s = S n -> (put_asleep s = [] \/ i < length (put_asleep s))%nat ->
  Inv (take i (set_workers (at_loop s) n (asleep s) (busy s) (done s) s)).
Proof.
  intros [Hf Hr Ht Hp Hd Hst] En Hi. unfold take. cbn [queue_ set_workers running_].
  destruct (queue_ s) as [|x q] eqn:Eq.
  - rewrite bool_decide_true by done. destruct (running_ s) eqn:Er; cbn.
    + pool; rewrite ?Eq; cbn; try done; try lia; congruence.
    + destruct (Hst eq_refl). pool; rewrite ?Eq; cbn; try done; lia.
  - rewrite bool_decide_false by done. cbn. rewrite zlen_cons in *. pose proof (zlen_nonneg q).
    cbn in Ht. zcase (0 <? maxQueueSize_ s); [|lia].
    assert (submitted s = (taken s ++ [x]) ++ q) as Hf1 by (by rewrite <- app_assoc).
    unfold notify_notFull. cbn. destruct (put_asleep s !! i) as [y|] eqn:Ey; cbn.
    + assert (put_asleep s <> []) as Hne by (by intros Hz; rewrite Hz in Ey).
      destruct (Hp Hne). pool.
      * intros _. split; [done|]. rewrite zlen_app. change (zlen [y]) with 1. lia.
      * intros Er. by destruct (Hst Er).
    + assert (put_asleep s = []) as Ez.
      { destruct Hi as [|Hi]; [done|]. apply lookup_ge_None in Ey. lia. }
      pool.
Qed.

Lemma worker_inv s s' : Inv s -> worker_step s s' -> Inv s'.
Proof.
  intros Hs Hst. destruct Hst as [n s E|n i s E1 E2|l1 x l2 s E].
  - destruct Hs as [Hf Hr Ht Hp Hd Hs]. unfold loop_test. cbn.
    destruct (running_ s) eqn:Er; pool; by rewrite Er.
  - by apply take_inv.
  - destruct Hs as [Hf Hr Ht Hp Hd Hs]. pool.
Qed.

Lemma pool_step_inv s s' : Inv s -> step s s' -> Inv s'.
Proof.
  intros Hs Hst. pose proof Hs as [Hf Hr Ht Hp Hd Hst'].
  destruct Hst as [x s|l1 x l2 s s' E1 E2|s s' E|l1 x l2 s E|n s E|s].
  - pool. intros Hne. destruct (Hp Hne). split; [done|]. rewrite zlen_app.
    change (zlen [x]) with 1. lia.
  - by apply (run_inv l1 x l2 s).
  - by apply (worker_inv s).
  - pool.
    + intros _. destruct Hp as [? Hle]; [rewrite E; by destruct l1|]. split; [done|].
      rewrite zlen_app. change (zlen [x]) with 1. lia.
    + intros Er. destruct (Hst' Er) as [_ Ep]. rewrite Ep in E. by destruct l1.
  - pool. intros Er. destruct (Hst' Er) as [Ea _]. rewrite Ea in E. done.
  - pool.
Qed.

(** How many workers there are inside does not change. *)
Lemma worker_inside s s' : worker_step s s' -> inside s' = inside s.
Proof.
  unfold inside. destruct 1 as [n s E|n i s E1 E2|l1 x l2 s E].
  - unfold loop_test. cbn. destruct (running_ s); cbn; lia.
  - unfold take, notify_notFull. cbn.
    destruct (queue_ s), (running_ s), (0 <? maxQueueSize_ s); cbn; try lia;
      destruct (put_asleep s !! i); cbn; lia.
  - cbn. rewrite E, !length_app. cbn. lia.
Qed.

Lemma worker_config s s' : worker_step s s' ->
  maxQueueSize_ s' = maxQueueSize_ s /\ threads_ s' = threads_ s /\ running_ s' = running_ s.
Proof.
  destruct 1 as [n s E|n i s E1 E2|l1 x l2 s E]; [| |done].
  - unfold loop_test. cbn. by destruct (running_ s) eqn:Er.
  - unfold take, notify_notFull. cbn. destruct (queue_ s) eqn:Eq; cbn.
    + by destruct (running_ s) eqn:Er.
    + repeat case_match; done.
Qed.

Lemma run_config x s s' : run x s = Ok s' ->
  maxQueueSize_ s' = maxQueueSize_ s /\ threads_ s' = threads_ s /\ inside s' = inside s.
Proof using Hlock.
  unfold run, notify_notEmpty, inside. rewrite isFull_ok, !bind_ok. intros E.
  repeat case_match; inv_ok; subst s'; cbn; split_and!; try done; cbn in *; lia.
Qed.

Lemma step_config s s' : step s s' ->
  maxQueueSize_ s' = maxQueueSize_ s /\ threads_ s' = threads_ s /\ inside s' = inside s.
Proof using Hlock.
  destruct 1 as [x s|l1 x l2 s s' E1 E2|s s' E|l1 x l2 s E|n s E|s]; try done.
  - by apply run_config in E2.
  - destruct (worker_config _ _ E) as (? & ? & ?). by rewrite (worker_inside _ _ E).
  - unfold inside. cbn. split_and!; (done || lia).
  - unfold inside. cbn. split_and!; (done || lia).
Qed.

(** What the workers still have to do once the pool is stopped. *)
Definition work (s : ThreadPool) : nat := at_loop s + 3 * ready s + 2 * length (busy s).

Lemma worker_work s s' : asleep s = 0%nat -> running_ s = false -> worker_step s s' ->
  (work s' < work s)%nat /\ asleep s' = 0%nat.
Proof.
  intros Ha Hr Hst. destruct Hst as [n s E|n i s E1 E2|l1 x l2 s E]; unfold work.
  - unfold loop_test. cbn. rewrite Hr. cbn. split; [lia|done].
  - unfold take, notify_notFull. cbn. rewrite Hr, andb_false_r.
    destruct (queue_ s); cbn; [split; [lia|done]|].
    repeat case_match; cbn; (split; [lia|done]).
  - cbn. rewrite E, !length_app. cbn. split; [lia|done].
Qed.

(** A pool of the default size: nothing ever enters its queue. *)
Record Starved (s0 s : ThreadPool) : Prop := {
  starved_size : maxQueueSize_ s = 0;
  starved_threads : threads_ s <> 0%nat;
  starved_queue : queue_ s = [];
  starved_submitted : submitted s = submitted s0;
  starved_inline : inline s = inline s0;
  starved_refused : running_ s = true -> running_ s0 = true /\ refused s = refused s0
}.

Lemma step_starved s0 s s' : Starved s0 s -> step s s' -> Starved s0 s'.
Proof using Hlock.
  intros [Em Et Eq Es Ei Er] Hst.
  destruct Hst as [x s|l1 x l2 s s' E1 E2|s s' E|l1 x l2 s E|n s E|s]; try (by split).
  - unfold run in E2. rewrite isFull_ok, !bind_ok in E2. cbn in E2.
    rewrite bool_decide_false, Em, Eq in E2 by done.
    change (0 <=? zlen (@nil Task)) with true in E2.
    destruct (running_ s) eqn:Ern; cbn in E2; inv_ok; subst s'; split; cbn; try done; auto; congruence.
  - destruct E as [n s E|n i s E1 E2|l1 x l2 s E]; [| |by split].
    + unfold loop_test. cbn. destruct (running_ s) eqn:Ern; split; cbn; auto; congruence.
    + unfold take. cbn. rewrite Eq. destruct (running_ s) eqn:Ern; cbn; split; cbn; auto; congruence.
Qed.

End Pool.
Arguments ThreadPool Task : clear implicits.

(** ** The threads *)

(** Where a thread's function is: [func_], that is [runInThread], not called, running,
    returned. *)
Inductive place_of := NotCalled | Inside | Back.
#[global] Instance place_eqdec : EqDecision place_of.
Proof. solve_decision. Defined.

Record Hand := mkHand { thread : Thread.Thread; place : place_of }.
#[global] Instance hand_eqdec : EqDecision Hand.
Proof. solve_decision. Defined.

Definition new_hand : Hand := mkHand Thread.new NotCalled.

(** The steps of a thread but for the call of [runInThread]: [Thread::start] in the thread
    that starts the pool, [join] once the pool is stopped, and what the new thread does
    before and after. *)
Definition thread_steps (running : bool) (h : Hand) : list (result Thread.Thread) :=
  (if running && bool_decide (Thread.owner (thread h) = Thread.Started) then []
   else Thread.start_step (thread h)) ++
  (if bool_decide (Thread.child (thread h) = Thread.Named) then [] else Thread.child_step (thread h)).

(** About to call [func_], which is a member of the object that [start] handed over; and
    in it. *)
Definition calling (h : Hand) : bool :=
  bool_decide (Thread.child (thread h) = Thread.Named) && bool_decide (place h = NotCalled).
Definition called (h : Hand) : bool :=
  bool_decide (Thread.child (thread h) = Thread.Named) && bool_decide (place h = Inside).

Definition enter_function (h : Hand) : Hand := mkHand (thread h) Inside.
Definition leave_function (h : Hand) : Hand := mkHand (Thread.set_child Thread.Ran (thread h)) Back.

(** A thread on its own. *)
Definition hand_next (h : Hand) : list (result Hand) :=
  map (fun r => t ← r; Ok (mkHand t (place h))) (thread_steps false h) ++
  (if calling h then [_ ← defined_ (Thread.data (thread h)); Ok (enter_function h)] else []) ++
  (if called h then [Ok (leave_function h)] else []).

(** All states that a thread is in. *)
Definition hands : list Hand := Explore.collect hand_next 500 [] [new_hand].

(** What remains of it until it cannot go on. *)
Definition rank (h : Hand) : nat :=
  match Thread.owner (thread h) with
  | Thread.Idle => 6 | Thread.Allocated => 5 | Thread.SemWait => 4 | Thread.Woken => 3
  | Thread.Leaving => 2 | Thread.Started => 1 | Thread.Joined => 0
  end +
  match Thread.child (thread h) with
  | Thread.Absent => 7 | Thread.Begin => 6 | Thread.TidStored => 5 | Thread.Posted => 4
  | Thread.SemCleared => 3 | Thread.Named => 2 | Thread.Ran => 1 | Thread.Exited => 0
  end +
  match place h with NotCalled => 2 | Inside => 0 | Back => 0 end.

(** It is at a fault: it uses or deletes the object after its deletion. *)
Definition faults (running : bool) (h : Hand) : bool :=
  existsb (fun r => negb (is_ok r)) (thread_steps running h) ||
  calling h && negb (Thread.data (thread h)).

(** What the exploration shows. *)
Definition hand_ok (h : Hand) : bool :=
  forallb (fun r => match r with Ok t => (rank (mkHand t (place h)) <? rank h)%nat | Err _ => true end)
    (thread_steps false h) &&
  negb (bool_decide (Thread.owner (thread h) = Thread.Joined)) &&
  (called h || calling h || faults false h || existsb is_ok (thread_steps false h)) &&
  (negb (bool_decide (place h = Inside)) || bool_decide (Thread.child (thread h) = Thread.Named)).

Lemma hands_closed : Explore.saturated hand_next hands = true /\ forallb hand_ok hands = true.
Proof. split; vm_compute; reflexivity. Qed.

Lemma hand_fine h : h ∈ hands -> hand_ok h = true.
Proof. intros Hh. pose proof (proj2 hands_closed) as Hf. rewrite forallb_forall in Hf. by apply list_elem_of_In, Hf in Hh. Qed.

Lemma hand_closed h h' : h ∈ hands -> Ok h' ∈ hand_next h -> h' ∈ hands.
Proof.
  intros Hh Hm. apply (Explore.saturated_sound hand_next hands h h' (proj1 hands_closed) Hh).
  by apply rtc_once.
Qed.

Lemma new_hand_listed : new_hand ∈ hands.
Proof. apply (bool_decide_eq_true_1 _). vm_compute. reflexivity. Qed.

#[local] Opaque hands.

Lemma thread_steps_any running h r : r ∈ thread_steps running h -> r ∈ thread_steps false h.
Proof.
  unfold thread_steps. rewrite !elem_of_app. cbn [andb]. intros [Hr|Hr]; [left|by right].
  destruct (_ && _); [by apply elem_of_nil in Hr|done].
Qed.

(** ** The pool with its threads *)

Section Staff.
Context {Task : Type} (try_lock_held : result bool).

(** [hire]: the threads that the loop of [start] has still to make. *)
Record Staff := mkStaff { pool : ThreadPool Task; hire : nat; crew : list Hand }.

Definition with_pool (p : ThreadPool Task) (s : Staff) : Staff := mkStaff p (hire s) (crew s).

(** [start], up to its loop. *)
Definition start (numThreads : nat) (p : ThreadPool Task) : result Staff :=
  _ ← assert_ (bool_decide (threads_ p = 0%nat));
  Ok (mkStaff (set_threads true (threads_ p) p) numThreads []).

Definition count_loop (f : nat -> nat) (p : ThreadPool Task) : ThreadPool Task :=
  set_workers (f (at_loop p)) (ready p) (asleep p) (busy p) (done p) p.
Definition count_done (n : nat) (p : ThreadPool Task) : ThreadPool Task :=
  set_workers (at_loop p) (ready p) (asleep p) (busy p) n p.

(** What the threads do on their own, as long as none is at a fault. *)
Inductive crew_step : relation Staff :=
| crew_work s p : worker_step (pool s) p -> crew_step s (with_pool p s)
| crew_hire n s : hire s = S n -> Forall (fun h => Thread.owner (thread h) = Thread.Started) (crew s) ->
    crew_step s (mkStaff (set_threads (running_ (pool s)) (S (threads_ (pool s))) (pool s)) n (crew s ++ [new_hand]))
| crew_thread l1 h l2 t s : crew s = l1 ++ h :: l2 -> Ok t ∈ thread_steps (running_ (pool s)) h ->
    crew_step s (mkStaff (pool s) (hire s) (l1 ++ mkHand t (place h) :: l2))
| crew_call l1 h l2 s : crew s = l1 ++ h :: l2 -> calling h = true -> Thread.data (thread h) = true ->
    crew_step s (mkStaff (count_loop S (pool s)) (hire s) (l1 ++ enter_function h :: l2))
| crew_return n l1 h l2 s : crew s = l1 ++ h :: l2 -> called h = true -> done (pool s) = S n ->
    crew_step s (mkStaff (count_done n (pool s)) (hire s) (l1 ++ leave_function h :: l2)).

(** And the callers of [run] and [stop]. *)
Inductive staff_step : relation Staff :=
| staff_pool s p : step try_lock_held (pool s) p -> staff_step s (with_pool p s)
| staff_crew s s' : crew_step s s' -> staff_step s s'.

(** ** Its invariant *)

Definition at_work (h : Hand) : bool := bool_decide (place h = Inside).

Record StaffInv (m : Z) (s : Staff) : Prop := {
  staff_inv : Inv (pool s);
  staff_size : maxQueueSize_ (pool s) = m;
  staff_hands : Forall (fun h => h ∈ hands) (crew s);
  staff_inside : inside (pool s) = length (List.filter at_work (crew s));
  staff_threads : threads_ (pool s) = length (crew s)
}.

Lemma filter_replaced l1 h h' l2 :
  (length (List.filter at_work (l1 ++ h' :: l2)) + (if at_work h then 1 else 0) =
   length (List.filter at_work (l1 ++ h :: l2)) + (if at_work h' then 1 else 0))%nat.
Proof.
  rewrite !List.filter_app, !length_app. cbn. destruct (at_work h), (at_work h'); cbn; lia.
Qed.

Lemma calling_place h : calling h = true -> place h = NotCalled.
Proof. unfold calling. rewrite andb_true_iff, !bool_decide_eq_true. by intros [_ ->]. Qed.
Lemma called_place h : called h = true -> place h = Inside.
Proof. unfold called. rewrite andb_true_iff, !bool_decide_eq_true. by intros [_ ->]. Qed.

(** The moves of the system are moves of one thread. *)
Lemma thread_step_next running h t : Ok t ∈ thread_steps running h -> Ok (mkHand t (place h)) ∈ hand_next h.
Proof.
  intros Ht. apply thread_steps_any in Ht. unfold hand_next. apply elem_of_app. left.
  apply list_elem_of_In, in_map_iff. exists (Ok t). split; [done|]. by apply list_elem_of_In.
Qed.
Lemma call_next h : calling h = true -> Thread.data (thread h) = true -> Ok (enter_function h) ∈ hand_next h.
Proof. intros Hc Hd. unfold hand_next. rewrite Hc, Hd, !elem_of_app. right. left. by left. Qed.
Lemma return_next h : called h = true -> Ok (leave_function h) ∈ hand_next h.
Proof. intros Hc. unfold hand_next. rewrite Hc, !elem_of_app. right. right. by left. Qed.

Lemma replaced_hands l1 h l2 h' : Forall (fun h => h ∈ hands) (l1 ++ h :: l2) -> Ok h' ∈ hand_next h ->
  Forall (fun h => h ∈ hands) (l1 ++ h' :: l2).
Proof.
  intros Hf Hm. apply Forall_app in Hf as [H1 Hf]. apply Forall_cons in Hf as [H2 H3].
  apply Forall_app. split; [done|]. constructor; [by eapply hand_closed|done].
Qed.

Lemma enter_inv (p : ThreadPool Task) : Inv p -> Inv (count_loop S p).
Proof. intros [Hf Hr Ht Hp Hd Hst]. by split. Qed.

Lemma return_inv n (p : ThreadPool Task) : Inv p -> done p = S n -> Inv (count_done n p).
Proof. intros [Hf Hr Ht Hp Hd Hst] E. split; try done. cbn. intros Er. rewrite Hd in E; done. Qed.

Lemma hire_inv n (p : ThreadPool Task) : Inv p -> (threads_ p <= n)%nat -> Inv (set_threads (running_ p) n p).
Proof.
  intros [Hf Hr Ht Hp Hd Hst] Hn. split; try done. cbn. intros Hne. destruct (Hp Hne). split; [lia|done].
Qed.

Lemma staff_crew_inv m s s' : StaffInv m s -> crew_step s s' -> StaffInv m s'.
Proof.
  intros [Hi Hm Hh Hin Ht] Hst. destruct Hst as [s p Hw|n s Hn Hall|l1 h l2 t s Ec Hs|l1 h l2 s Ec Hc Hd|n l1 h l2 s Ec Hc Hd].
  - destruct (worker_config _ _ Hw) as (E1 & E2 & _). split; cbn; [by eapply worker_inv|congruence|done| |congruence].
    by rewrite (worker_inside _ _ Hw).
  - split; cbn.
    + apply hire_inv; [done|lia].
    + done.
    + apply Forall_app. split; [done|]. constructor; [apply new_hand_listed|done].
    + rewrite List.filter_app, length_app. cbn. rewrite Nat.add_0_r. exact Hin.
    + rewrite length_app. cbn. lia.
  - pose proof (filter_replaced l1 h (mkHand t (place h)) l2) as Hf. rewrite Ec in *.
    split; cbn; try done.
    + eapply replaced_hands; [exact Hh|]. by eapply thread_step_next.
    + rewrite Hin. unfold at_work at 2 4 in Hf. cbn in Hf. lia.
    + rewrite Ht, !length_app. done.
  - pose proof (filter_replaced l1 h (enter_function h) l2) as Hf. rewrite Ec in *.
    assert (at_work h = false) as Ew by (unfold at_work; by rewrite (calling_place _ Hc)).
    change (at_work (enter_function h)) with true in Hf. rewrite Ew in Hf. split; cbn; try done.
    + by apply enter_inv.
    + eapply replaced_hands; [exact Hh|]. by apply call_next.
    + unfold inside in *. cbn. lia.
    + rewrite Ht, !length_app. done.
  - pose proof (filter_replaced l1 h (leave_function h) l2) as Hf. rewrite Ec in *.
    assert (at_work h = true) as Ew by (unfold at_work; by rewrite (called_place _ Hc)).
    change (at_work (leave_function h)) with false in Hf. rewrite Ew in Hf. split; cbn; try done.
    + by apply return_inv.
    + eapply replaced_hands; [exact Hh|]. by apply return_next.
    + unfold inside in *. cbn. lia.
    + rewrite Ht, !length_app. done.
Qed.

Lemma staff_step_inv m s s' : try_lock_held = Ok false -> StaffInv m s -> staff_step s s' -> StaffInv m s'.
Proof.
  intros Hlock Hi Hst. destruct Hst as [s p Hp|s s' Hc]; [|by eapply staff_crew_inv].
  destruct Hi as [Hi Hm Hh Hin Ht]. destruct (step_config _ Hlock _ _ Hp) as (E1 & E2 & E3).
  split; cbn; [by eapply pool_step_inv|congruence..].
Qed.

(** A pool that is configured, then started. *)
Lemma started_inv m n s0 : 0 <= m -> start n (setMaxQueueSize m new) = Ok s0 -> StaffInv m s0.
Proof. intros Hm E. unfold start in E. inv_ok. subst s0. split; try done; by split. Qed.

Lemma staff_reachable m n s0 s : try_lock_held = Ok false -> 0 <= m ->
  start n (setMaxQueueSize m new) = Ok s0 -> rtc staff_step s0 s -> StaffInv m s.
Proof.
  intros Hlock Hm E Hs. apply (rtc_invariant staff_step (StaffInv m) s0 s); [|done|by eapply started_inv].
  intros x y. by apply staff_step_inv.
Qed.

(** ** Stopping *)

Definition remaining (s : Staff) : nat := work (pool s) + list_sum (map rank (crew s)) + 16 * hire s.

Lemma rank_replaced l1 h h' l2 : (rank h' < rank h)%nat ->
  (list_sum (map rank (l1 ++ h' :: l2)) < list_sum (map rank (l1 ++ h :: l2)))%nat.
Proof. intros Hr. rewrite !map_app, !list_sum_app. cbn [map]. cbn -[rank]. lia. Qed.

Lemma listed l1 h l2 (s : Staff) m : StaffInv m s -> crew s = l1 ++ h :: l2 -> hand_ok h = true.
Proof.
  intros Hi E. apply hand_fine. pose proof (staff_hands _ _ Hi) as Hf. rewrite E in Hf.
  apply Forall_app in Hf as [_ Hf]. by apply Forall_cons in Hf as [? _].
Qed.

Lemma crew_running s s' : crew_step s s' -> running_ (pool s') = running_ (pool s).
Proof. destruct 1 as [s p Hw| | | |]; try done. apply (worker_config _ _ Hw). Qed.

Lemma crew_remaining m s s' : StaffInv m s -> running_ (pool s) = false -> crew_step s s' ->
  (remaining s' < remaining s)%nat.
Proof.
  intros Hi Hr Hst. pose proof (staff_inv _ _ Hi) as Hp. destruct (inv_stopped _ Hp Hr) as [Ha _].
  unfold remaining. destruct Hst as [s p Hw|n s Hn Hall|l1 h l2 t s Ec Hs|l1 h l2 s Ec Hc Hd|n l1 h l2 s Ec Hc Hd]; cbn [pool crew hire with_pool].
  - destruct (worker_work _ _ Ha Hr Hw). lia.
  - rewrite map_app, list_sum_app. change (list_sum (map rank [new_hand])) with 15%nat. unfold work. cbn. lia.
  - pose proof (listed _ _ _ _ _ Hi Ec) as Hok. unfold hand_ok in Hok. rewrite !andb_true_iff, forallb_forall in Hok.
    apply thread_steps_any, list_elem_of_In in Hs. destruct Hok as [[[Hrank _] _] _]. specialize (Hrank _ Hs).
    cbn beta iota in Hrank. apply Nat.ltb_lt in Hrank. rewrite Ec. pose proof (rank_replaced l1 h _ l2 Hrank). lia.
  - assert (rank h = 2 + rank (enter_function h))%nat as Hrank.
    { unfold rank. rewrite (calling_place _ Hc). cbn. lia. }
    pose proof (rank_replaced l1 h (enter_function h) l2 ltac:(lia)) as Hlt. rewrite Ec.
    rewrite !map_app, !list_sum_app in *. cbn [map] in *. cbn -[rank] in *. unfold work. cbn. lia.
  - assert (rank (leave_function h) < rank h)%nat as Hrank.
    { unfold called in Hc. rewrite andb_true_iff, !bool_decide_eq_true in Hc. destruct Hc as [Hn Hpl].
      unfold rank, leave_function. cbn. rewrite Hn, Hpl. lia. }
    pose proof (rank_replaced l1 h _ l2 Hrank) as Hlt. rewrite Ec. unfold work. cbn. lia.
Qed.

Lemma crew_terminates m s : StaffInv m s -> running_ (pool s) = false -> Acc (flip crew_step) s.
Proof.
  remember (remaining s) as k eqn:Ek. revert s Ek.
  induction k as [k IH] using lt_wf_ind. intros s -> Hi Hr. constructor. intros s' Hst.
  apply (IH (remaining s')) with (s := s'); [by eapply crew_remaining|done|by eapply staff_crew_inv|].
  by rewrite (crew_running _ _ Hst).
Qed.

Lemma crew_steps_inv m s s' : StaffInv m s -> running_ (pool s) = false -> rtc crew_step s s' ->
  StaffInv m s' /\ running_ (pool s') = false.
Proof.
  intros Hi Hr Hs. induction Hs as [s|s s1 s' Hst _ IH]; [done|].
  apply IH; [by eapply staff_crew_inv|]. by rewrite (crew_running _ _ Hst).
Qed.

Lemma filter_nil_place l h : length (List.filter at_work l) = 0%nat -> h ∈ l -> called h = false.
Proof.
  intros Hl Hh. destruct (called h) eqn:E; [|done]. apply called_place in E.
  assert (h ∈ List.filter at_work l) as Hin.
  { apply list_elem_of_In, filter_In. split; [by apply list_elem_of_In|]. unfold at_work. by rewrite E. }
  destruct (List.filter at_work l); [by apply elem_of_nil in Hin|done].
Qed.

Lemma filter_some l n : length (List.filter at_work l) = S n -> exists h, h ∈ l /\ place h = Inside.
Proof.
  intros E. destruct (List.filter at_work l) as [|h k] eqn:Ef; [done|].
  assert (In h (List.filter at_work l)) as Hin by (rewrite Ef; by left).
  apply filter_In in Hin as [Hin Hw]. exists h. split; [by apply list_elem_of_In|]. by apply bool_decide_eq_true in Hw.
Qed.

(** When nothing can go on, nobody is in [runInThread] and every thread is at a fault. *)
Lemma crew_stuck m s : StaffInv m s -> running_ (pool s) = false -> (forall t, ~ crew_step s t) ->
  inside (pool s) = 0%nat /\ Forall (fun h => faults false h = true) (crew s).
Proof.
  intros Hi Hr Hend. pose proof (staff_inv _ _ Hi) as Hp. destruct (inv_stopped _ Hp Hr) as [Ha Hpa].
  assert (forall p, ~ worker_step (pool s) p) as Hw by (intros p Hw; exact (Hend _ (crew_work _ _ Hw))).
  assert (inside (pool s) = done (pool s)) as Hin.
  { unfold inside. rewrite Ha.
    destruct (at_loop (pool s)) eqn:El; [|by destruct (Hw _ (step_loop _ _ El))].
    destruct (ready (pool s)) eqn:Er; [|by destruct (Hw _ (step_take _ 0 _ Er (or_introl Hpa)))].
    destruct (busy (pool s)) eqn:Eb; [done|by destruct (Hw _ (step_finish [] _ _ _ Eb))]. }
  assert (inside (pool s) = 0%nat) as H0.
  { destruct (inside (pool s)) as [|n] eqn:E; [done|]. rewrite (staff_inside _ _ Hi) in E.
    destruct (filter_some _ _ E) as (h & Hh & Hpl). apply list_elem_of_split in Hh as (l1 & l2 & Ec).
    pose proof (listed _ _ _ _ _ Hi Ec) as Hok. unfold hand_ok in Hok. rewrite !andb_true_iff, Hpl in Hok.
    destruct Hok as [_ Hc]. rewrite (bool_decide_true (Inside = Inside)) in Hc by done. cbn [negb orb] in Hc.
    assert (called h = true) as Hcd by (unfold called; by rewrite Hc, Hpl, bool_decide_true).
    destruct (Hend _ (crew_return n l1 h l2 s Ec Hcd ltac:(congruence))). }
  split; [done|]. apply Forall_forall. intros h Hh.
  rewrite (staff_inside _ _ Hi) in H0. pose proof (filter_nil_place _ h H0 Hh) as Hnc.
  apply list_elem_of_split in Hh as (l1 & l2 & Ec).
  pose proof (listed _ _ _ _ _ Hi Ec) as Hok. unfold hand_ok in Hok. rewrite !andb_true_iff, !orb_true_iff, Hnc in Hok.
  destruct Hok as [[_ Hok] _]. destruct Hok as [[[|Hcall]|]|Hok]; [done| |done|].
  - unfold faults. destruct (Thread.data (thread h)) eqn:Ed; [by destruct (Hend _ (crew_call _ _ _ _ Ec Hcall Ed))|].
    by rewrite Hcall, orb_true_r.
  - apply existsb_exists in Hok as ([t|f] & Ht & Hr'); [|done]. apply list_elem_of_In in Ht.
    rewrite <- Hr in Ht. destruct (Hend _ (crew_thread _ _ _ _ _ Ec Ht)).
Qed.

End Staff.
Arguments Staff Task : clear implicits.

(** ** Properties *)

(** [C22] The pool while it runs, whatever callers, workers and starting threads do, as
    long as no thread is at a fault (see [thread_pool_stop_terminates]) and provided
    [try_lock] fails for the thread that holds the mutex: the tasks leave the queue in
    the order in which they entered it, each once; the queue never exceeds the maximal
    size; and no wakeup is lost.  When no caller and no worker in [runInThread] can run
    although the pool is not stopped and has a worker there, every task that was
    submitted has been taken and, if the maximal size is positive, no caller waits in
    [run].  With the default size, zero, callers do wait for ever:
    [thread_pool_default_blocks]. *)
Theorem thread_pool_fifo_no_deadlock {Task} try_lock_held m n (s0 s : Staff Task) :
  try_lock_held = Ok false -> 0 <= m -> start n (setMaxQueueSize m new) = Ok s0 ->
  rtc (staff_step try_lock_held) s0 s ->
  let p := pool s in
  submitted p = taken p ++ queue_ p /\ zlen (queue_ p) <= m /\
  (running_ p = true -> (0 < inside p)%nat ->
     at_loop p = 0%nat -> ready p = 0%nat -> busy p = [] -> put_ready p = [] ->
     taken p = submitted p /\ (0 < m -> put_asleep p = [])).
Proof.
  intros Hlock Hm E Hs p. destruct (staff_reachable _ m n s0 s Hlock Hm E Hs) as [[Hf Hr Ht Hp Hd _] Em _ _ _].
  fold p in Hf, Hr, Ht, Hp, Hd, Em. rewrite Em in *.
  split_and!; [done|done|]. intros Hrun Hin El Er Eb Ep. specialize (Hd Hrun).
  unfold inside in Hin. rewrite El, Er, Eb, Hd in *. cbn in Hin.
  assert (queue_ p = []) as Eq by (destruct (queue_ p); [done|cbn in Ht; lia]).
  split; [by rewrite Hf, Eq, app_nil_r|]. intros Hpos.
  destruct (put_asleep p) as [|x l] eqn:Ea; [done|]. destruct Hp as [_ Hle]; [done|].
  rewrite Eq, Ep in Hle. change (zlen (@nil Task)) with 0 in Hle. lia.
Qed.


(** A pool whose maximal size was never set, so is zero, is full from the
    start: once it has a thread no task is submitted or run any more, and as long as the
    pool runs no call of [run] returns. *)
Theorem thread_pool_default_blocks {Task} try_lock_held (s0 s : ThreadPool Task) :
  try_lock_held = Ok false -> maxQueueSize_ s0 = 0 -> threads_ s0 <> 0%nat -> queue_ s0 = [] ->
  rtc (step try_lock_held) s0 s ->
  queue_ s = [] /\ submitted s = submitted s0 /\ inline s = inline s0 /\
  (running_ s = true -> refused s = refused s0).
Proof.
  intros Hlock Em0 Et0 Eq0 Hs. assert (Starved s0 s0) as Hi by by split.
  destruct (rtc_invariant (step try_lock_held) (Starved s0) s0 s (step_starved _ Hlock s0) Hs Hi) as [Em Et Eq Es Ei Er].
  split_and!; [done..|]. intros Hrun. by apply Er.
Qed.

(** Where [try_lock] is undefined for the owner of the mutex, as the standard has it, no
    call of [run] in a pool with threads has a defined behaviour. *)
Lemma run_undefined {Task} f x (p : ThreadPool Task) : threads_ p <> 0%nat ->
  run (Err f) x p = Err f.
Proof. intros Ht. unfold run. by rewrite bool_decide_false. Qed.

(** ** Concrete runs *)

Definition held_elsewhere : result bool := Ok false.

(** One thread, alone. *)
Fixpoint thread_path (running : bool) (pl : place_of) (t : Thread.Thread) (l : list Thread.Thread) : bool :=
  match l with
  | [] => true
  | u :: l => bool_decide (Ok u ∈ thread_steps running (mkHand t pl)) && thread_path running pl u l
  end.

Lemma thread_path_sound {Task} (p : ThreadPool Task) n pl l : forall t,
  thread_path (running_ p) pl t l = true ->
  rtc crew_step (mkStaff p n [mkHand t pl]) (mkStaff p n [mkHand (Explore.end_of t l) pl]).
Proof.
  induction l as [|u l IH]; intros t Hl; [done|]. cbn [thread_path Explore.end_of] in *.
  apply andb_prop in Hl as [H1 H2]. apply bool_decide_eq_true in H1. eapply rtc_l; [|by apply IH].
  by apply (crew_thread [] (mkHand t pl) [] u (mkStaff p n [mkHand t pl])).
Qed.

(** A pool of size 4 with one thread, that is in [runInThread] when [start] returns. *)
Definition opened : Staff Z := mkStaff (mkPool 4 true 0 [] [] [] 0 0 0 [] 0 [] [] [] []) 1 [].
Definition in_start (o : Thread.owner_pc) (c : Thread.child_pc) (n : Z) : Thread.Thread :=
  Thread.mkThread true false true n (negb (bool_decide (o = Thread.Started))) o c.
Definition with_thread (p : ThreadPool Z) : Staff Z :=
  mkStaff p 0 [mkHand (in_start Thread.Started Thread.Named 0) Inside].
Definition manned : Staff Z := with_thread (mkPool 4 true 1 [] [] [] 1 0 0 [] 0 [] [] [] []).

Lemma opened_manned : rtc crew_step opened manned.
Proof.
  eapply rtc_l; [apply (crew_hire 0 opened); [done|constructor]|].
  etrans; [apply (thread_path_sound _ 0 NotCalled
    [Thread.mkThread true false false 0 true Thread.Allocated Thread.Absent;
     Thread.mkThread true false false 0 true Thread.SemWait Thread.Begin;
     in_start Thread.SemWait Thread.TidStored 0; in_start Thread.SemWait Thread.Posted 1;
     in_start Thread.SemWait Thread.SemCleared 1; in_start Thread.SemWait Thread.Named 1]);
    vm_compute; reflexivity|].
  eapply rtc_l; [apply (crew_call [] (mkHand (in_start Thread.SemWait Thread.Named 1) NotCalled) []); reflexivity|].
  apply (thread_path_sound _ 0 Inside
    [in_start Thread.Woken Thread.Named 0; in_start Thread.Leaving Thread.Named 0;
     in_start Thread.Started Thread.Named 0]).
  vm_compute. reflexivity.
Qed.

Lemma staff_pools (p q : ThreadPool Z) : rtc (step held_elsewhere) p q ->
  rtc (staff_step held_elsewhere) (with_thread p) (with_thread q).
Proof.
  induction 1 as [p|p q r Hst _ IH]; [done|]. eapply rtc_l; [|exact IH].
  exact (staff_pool held_elsewhere (with_thread p) q Hst).
Qed.

(** Two tasks for one worker: the first is running, the second was submitted. *)
Definition working : ThreadPool Z := mkPool 4 true 1 [2] [] [] 0 0 0 [1] 0 [1; 2] [1] [] [].

Lemma working_reachable : rtc (staff_step held_elsewhere) opened (with_thread working).
Proof.
  etrans; [eapply rtc_subrel; [intros x y; apply staff_crew|exact opened_manned]|]. apply staff_pools.
  apply rtc_l with (mkPool 4 true 1 [] [1] [] 1 0 0 [] 0 [] [] [] []); [exact (step_call _ 1 _)|].
  apply rtc_l with (mkPool 4 true 1 [1] [] [] 1 0 0 [] 0 [1] [] [] []);
    [refine (step_run _ [] 1 [] _ _ _ _); reflexivity|].
  apply rtc_l with (mkPool 4 true 1 [1] [2] [] 1 0 0 [] 0 [1] [] [] []); [exact (step_call _ 2 _)|].
  apply rtc_l with (mkPool 4 true 1 [1; 2] [] [] 1 0 0 [] 0 [1; 2] [] [] []);
    [refine (step_run _ [] 2 [] _ _ _ _); reflexivity|].
  apply rtc_l with (mkPool 4 true 1 [1; 2] [] [] 0 1 0 [] 0 [1; 2] [] [] []);
    [apply step_worker; refine (step_loop 0 _ _); reflexivity|].
  apply rtc_once. apply step_worker. refine (step_take 0 0 _ _ _); [reflexivity|left; reflexivity].
Qed.

Lemma thread_pool_fifo_no_deadlock_witness :
  start 1 (setMaxQueueSize 4 new) = Ok opened /\ submitted working = taken working ++ queue_ working.
Proof.
  split; [reflexivity|].
  apply (thread_pool_fifo_no_deadlock held_elsewhere 4 1 opened (with_thread working));
    [reflexivity|lia|reflexivity|exact working_reachable].
Defined.

(** The second task of [working] is dropped when the pool stops: the worker
    finishes its first task and sees [running_] false. *)
Definition stopped : Staff Z := with_thread (stop working).


Lemma thread_pool_default_blocks_witness :
  let s : ThreadPool Z := mkPool 0 true 1 [] [] [7] 1 0 0 [] 0 [] [] [] [] in
  submitted s = [] /\ inline s = [].
Proof.
  intros s.
  destruct (thread_pool_default_blocks held_elsewhere (mkPool 0 true 1 [] [] [] 1 0 0 [] 0 [] [] [] []) s)
    as (_ & E1 & E2 & _); [reflexivity|reflexivity|discriminate|reflexivity| |exact (conj E1 E2)].
  apply rtc_l with (mkPool 0 true 1 [] [7] [] 1 0 0 [] 0 [] [] [] []); [exact (step_call _ 7 _)|].
  apply rtc_once. refine (step_run _ [] 7 [] _ _ _ _); reflexivity.
Defined.

End ThreadPool.
