(* ===== verification/LogStream.v ===== *)
(** * [dws::LogStream]: LogStream.h, LogStream.cc

    The fixed buffer, the conversions of integers and pointers, the insertion
    operators, [Fmt], and the two formatters of quantities. *)

From Stdlib Require Import SpecFloat.
From S2P Require Import Prelude Text Printf Timestamp.

(** ** [detail::FixedBuffer<SIZE>] *)

Module FixedBuffer.

Definition kSmallBuffer : Z := 4000.
Definition kLargeBuffer : Z := 4000 * 1000.

Section Fixed.
Context (SIZE : Z).

(** [cur_]: the offset of the pointer in [data_]. *)
Record FixedBuffer := mkFixed { data_ : list byte; cur_ : Z }.

Definition new : FixedBuffer := mkFixed (zreplicate SIZE Byte.x00) 0.

Definition avail (b : FixedBuffer) : Z := wraps 32 (SIZE - cur_ b).
Definition length (b : FixedBuffer) : Z := wraps 32 (cur_ b).

(** Store [text] from offset [i] on: defined inside [data_]. *)
Definition store (i : Z) (text : list byte) (b : FixedBuffer) : result FixedBuffer :=
  _ ← defined_ ((0 <=? i) && (i + zlen text <=? SIZE));
  Ok (mkFixed (zwrite i text (data_ b)) (cur_ b)).

Definition add (len : Z) (b : FixedBuffer) : FixedBuffer := mkFixed (data_ b) (cur_ b + len).

(** [append(buf, len)] where [buf] holds the [len] bytes. *)
Definition append (buf : list byte) (b : FixedBuffer) : result FixedBuffer :=
  if zlen buf <? wrapu 64 (avail b) then
    b ← store (cur_ b) buf b;
    Ok (add (zlen buf) b)
  else Ok b.

Definition reset (b : FixedBuffer) : FixedBuffer := mkFixed (data_ b) 0.
Definition bzero (b : FixedBuffer) : FixedBuffer := mkFixed (zreplicate SIZE Byte.x00) (cur_ b).
Definition debugString (b : FixedBuffer) : result FixedBuffer := store (cur_ b) [Byte.x00] b.

(** The [length()] bytes of [data()]; [toStringPiece] denotes the same. *)
Definition toString (b : FixedBuffer) : list byte := ztake (length b) (data_ b).

(** The cursor never reaches the end: there is always room for a terminator. *)
Definition wf (b : FixedBuffer) : Prop := zlen (data_ b) = SIZE /\ 0 <= cur_ b < SIZE.

Hypothesis size_ok : 0 < SIZE < 2 ^ 31.

Lemma new_wf : wf new.
Proof. unfold wf, new. cbn. rewrite zlen_zreplicate. lia. Qed.

Lemma avail_eq b : wf b -> avail b = SIZE - cur_ b.
Proof. intros [_ Hc]. unfold avail. apply wraps_small; lia. Qed.

Lemma length_eq b : wf b -> length b = cur_ b.
Proof. intros [_ Hc]. unfold length. apply wraps_small; lia. Qed.

Lemma store_ok i text b : wf b -> 0 <= i -> i + zlen text <= SIZE ->
  store i text b = Ok (mkFixed (zwrite i text (data_ b)) (cur_ b)).
Proof. intros Hb Hi Ht. unfold store. step_assert. done. Qed.

(** Writing at the cursor and moving it appends to the contents; what was written
    beyond the new cursor does not show. *)
Lemma store_add text extra b : wf b -> zlen text + zlen extra <= SIZE - cur_ b ->
  zlen text < SIZE - cur_ b ->
  exists b', store (cur_ b) (text ++ extra) b = Ok b' /\ wf (add (zlen text) b') /\
    toString (add (zlen text) b') = toString b ++ text.
Proof.
  intros Hb Hs Ht. pose proof Hb as [Hd Hc]. pose proof (zlen_nonneg text). pose proof (zlen_nonneg extra).
  eexists. split; [apply store_ok; [done|lia|rewrite zlen_app; lia]|].
  assert (wf (add (zlen text) (mkFixed (zwrite (cur_ b) (text ++ extra) (data_ b)) (cur_ b)))) as Hw.
  { split; cbn; [|lia]. rewrite zlen_zwrite; rewrite ?zlen_app; lia. }
  split; [done|]. unfold toString. rewrite !length_eq by done. cbn.
  unfold zwrite. rewrite app_assoc, app_assoc, ztake_app_le by (rewrite !zlen_app, zlen_ztake; lia).
  rewrite ztake_app_le by (rewrite !zlen_app, zlen_ztake; lia).
  apply ztake_all. rewrite zlen_app, zlen_ztake. lia.
Qed.

Lemma append_spec buf b : wf b ->
  exists b', append buf b = Ok b' /\ wf b' /\
    toString b' = toString b ++ if zlen buf <? SIZE - cur_ b then buf else [].
Proof.
  intros Hb. unfold append. rewrite avail_eq by done. pose proof Hb as [Hd Hc].
  rewrite wrapu_small by lia. zcase (zlen buf <? SIZE - cur_ b).
  - destruct (store_add buf [] b Hb) as (b' & E1 & Hw & E2); [rewrite zlen_nil; lia|done|].
    rewrite app_nil_r in E1. rewrite E1, bind_ok. by eexists.
  - exists b. by rewrite app_nil_r.
Qed.

Lemma reset_wf b : wf b -> wf (reset b).
Proof. intros [? ?]. split; cbn; [done|lia]. Qed.

Lemma toString_reset b : wf b -> toString (reset b) = [].
Proof. intros Hb. unfold toString. rewrite length_eq by by apply reset_wf. done. Qed.

Lemma zlen_toString b : wf b -> zlen (toString b) = cur_ b.
Proof. intros Hb. unfold toString. rewrite length_eq by done. destruct Hb. rewrite zlen_ztake. lia. Qed.

Lemma debugString_ok b : wf b -> is_ok (debugString b) = true.
Proof.
  intros Hb. destruct Hb as [Hd Hc] eqn:E. unfold debugString. rewrite store_ok; [done..|lia|].
  change (zlen [Byte.x00]) with 1. lia.
Qed.

End Fixed.
End FixedBuffer.

(** ** Conversions of integers *)

Module Convert.

Definition digits : list byte := bytes_of "9876543210123456789".
Definition digitsHex : list byte := bytes_of "0123456789ABCDEF".

(** [zero[lsd]] with [zero = digits + 9], and [digitsHex[lsd]]: defined inside the
    arrays. *)
Definition zero_at (lsd : Z) : result byte :=
  _ ← defined_ (0 <=? 9 + lsd);
  match digits !! Z.to_nat (9 + lsd) with Some c => Ok c | None => Err UndefinedBehaviour end.
Definition digitsHex_at (lsd : Z) : result byte :=
  _ ← defined_ (0 <=? lsd);
  match digitsHex !! Z.to_nat lsd with Some c => Ok c | None => Err UndefinedBehaviour end.

(** The [do]-[while] loop of [convert], with C++'s truncating [%] and [/], and that
    of [convertHex]: the characters in the order in which they are written. *)
Fixpoint convert_loop (fuel : nat) (i : Z) : result (list byte) :=
  match fuel with
  | O => Err UndefinedBehaviour
  | S f =>
      c ← zero_at (Z.rem i 10);
      let i := Z.quot i 10 in
      if i =? 0 then Ok [c] else l ← convert_loop f i; Ok (c :: l)
  end.
Fixpoint convertHex_loop (fuel : nat) (i : Z) : result (list byte) :=
  match fuel with
  | O => Err UndefinedBehaviour
  | S f =>
      c ← digitsHex_at (wraps 32 (Z.rem i 16));
      let i := Z.quot i 16 in
      if i =? 0 then Ok [c] else l ← convertHex_loop f i; Ok (c :: l)
  end.

(** Each turn of a loop removes a digit. *)
Definition convert_fuel (value : Z) : nat := S (Z.to_nat (Z.log2 (Z.abs value))).

(** The characters before the terminator. *)
Definition convert (value : Z) : result (list byte) :=
  l ← convert_loop (convert_fuel value) value;
  Ok (rev (if value <? 0 then l ++ [Byte.x2d] else l)).
Definition convertHex (value : Z) : result (list byte) :=
  l ← convertHex_loop (convert_fuel value) value;
  Ok (rev l).

(** *** [convert] is [%d] *)

Lemma zero_at_digit d : 0 <= d < 10 -> zero_at d = Ok (Text.digit d) /\ zero_at (- d) = Ok (Text.digit d).
Proof.
  intros Hd. assert (d = 0 \/ d = 1 \/ d = 2 \/ d = 3 \/ d = 4 \/ d = 5 \/ d = 6 \/ d = 7 \/ d = 8 \/ d = 9)
    as Hc by lia.
  repeat destruct Hc as [->|Hc]; try subst d; split; vm_compute; reflexivity.
Qed.

Lemma rem_quot_sign i : i < 0 -> Z.rem i 10 = - (- i mod 10) /\ Z.quot i 10 = - (- i / 10).
Proof. intros Hi. rewrite <- Z.rem_mod_nonneg, <- Z.quot_div_nonneg by lia.
  rewrite Z.rem_opp_l, Z.quot_opp_l by lia. lia. Qed.

Lemma convert_loop_spec fuel i : Z.abs i < 10 ^ Z.of_nat fuel -> (0 < fuel)%nat ->
  convert_loop fuel i = Ok (rev (Text.udec fuel (Z.abs i))).
Proof.
  revert i. induction fuel as [|f IH]; intros i Hi Hf; [lia|].
  rewrite Nat2Z.inj_succ, Z.pow_succ_r in Hi by lia. cbn [convert_loop Text.udec].
  assert (zero_at (Z.rem i 10) = Ok (Text.digit (Z.abs i mod 10)) /\
          Z.abs (Z.quot i 10) = Z.abs i / 10 /\ (Z.quot i 10 =? 0) = (Z.abs i <? 10)) as (E1 & E2 & E3).
  { pose proof (Z.mod_pos_bound (Z.abs i) 10 ltac:(lia)) as Hm.
    destruct (zero_at_digit _ Hm) as [P1 P2].
    destruct (decide (0 <= i)).
    - rewrite Z.abs_eq in * by lia. rewrite Z.rem_mod_nonneg, Z.quot_div_nonneg by lia.
      split_and!; [done|div_lia|]. zcase (i <? 10); [apply Z.eqb_eq|apply Z.eqb_neq]; div_lia.
    - destruct (rem_quot_sign i) as [-> ->]; [lia|]. rewrite Z.abs_neq in * by lia.
      split_and!; [done|div_lia|]. zcase (- i <? 10); [apply Z.eqb_eq|apply Z.eqb_neq]; div_lia. }
  rewrite E1, bind_ok, E3. zcase (Z.abs i <? 10).
  - rewrite Z.mod_small by lia. done.
  - destruct f as [|f]; [change (10 ^ Z.of_nat 0) with 1 in Hi; lia|].
    rewrite IH, bind_ok; [|rewrite E2; apply Z.div_lt_upper_bound; lia|lia].
    by rewrite E2, rev_app_distr.
Qed.

Lemma abs_fuel value : Z.abs value < 10 ^ Z.of_nat (convert_fuel value).
Proof. apply (Text.dec_fuel_enough (Z.abs value)). lia. Qed.

Lemma convert_eq value : convert value = Ok (Text.decimal value).
Proof.
  unfold convert. rewrite convert_loop_spec, bind_ok; [|apply abs_fuel|unfold convert_fuel; lia].
  unfold Text.decimal. change (convert_fuel value) with (Text.dec_fuel (Z.abs value)).
  zcase (value <? 0).
  - rewrite rev_app_distr, rev_involutive, Z.abs_neq by lia. done.
  - rewrite rev_involutive, Z.abs_eq by lia. done.
Qed.

(** *** [convertHex] can be read back *)

Definition hex_digit (b : byte) : Z :=
  let v := byte_val b in if v <? 65 then v - 48 else v - 55.
Fixpoint hex_value (acc : Z) (l : list byte) : Z :=
  match l with [] => acc | b :: l' => hex_value (16 * acc + hex_digit b) l' end.

Lemma hex_value_app acc l k : hex_value acc (l ++ k) = hex_value (hex_value acc l) k.
Proof. revert acc. induction l; intros; simpl; auto. Qed.

Lemma digitsHex_at_ok d : 0 <= d < 16 -> exists c, digitsHex_at d = Ok c /\ hex_digit c = d.
Proof.
  intros Hd.
  assert (d = 0 \/ d = 1 \/ d = 2 \/ d = 3 \/ d = 4 \/ d = 5 \/ d = 6 \/ d = 7 \/ d = 8 \/ d = 9 \/
    d = 10 \/ d = 11 \/ d = 12 \/ d = 13 \/ d = 14 \/ d = 15) as Hc by lia.
  repeat destruct Hc as [->|Hc]; try subst d; eexists; split; vm_compute; reflexivity.
Qed.

Lemma convertHex_loop_spec fuel i : 0 <= i < 16 ^ Z.of_nat fuel -> (0 < fuel)%nat ->
  exists l, convertHex_loop fuel i = Ok l /\ hex_value 0 (rev l) = i /\
    forall k, (0 < k)%nat -> i < 16 ^ Z.of_nat k -> (length l <= k)%nat.
Proof.
  revert i. induction fuel as [|f IH]; intros i Hi Hf; [lia|].
  rewrite Nat2Z.inj_succ, Z.pow_succ_r in Hi by lia. cbn [convertHex_loop].
  rewrite Z.rem_mod_nonneg, Z.quot_div_nonneg by lia.
  pose proof (Z.mod_pos_bound i 16 ltac:(lia)) as Hm. rewrite wraps_small by lia.
  destruct (digitsHex_at_ok _ Hm) as (c & -> & Hc). rewrite bind_ok.
  zcase (i / 16 =? 0).
  - exists [c]. split_and!; [done| |cbn; lia]. cbn. rewrite Hc. div_lia.
  - destruct f as [|f]; [change (16 ^ Z.of_nat 0) with 1 in Hi; div_lia|].
    destruct (IH (i / 16)) as (l & -> & Hv & Hk); [|lia|].
    { split; [div_lia|apply Z.div_lt_upper_bound; lia]. }
    exists (c :: l). split_and!; [done| |].
    + cbn [rev]. rewrite hex_value_app, Hv. cbn. rewrite Hc. div_lia.
    + intros k Hk0 Hik. destruct k as [|k]; [lia|]. cbn. apply le_n_S.
      rewrite Nat2Z.inj_succ, Z.pow_succ_r in Hik by lia.
      destruct k as [|k]; [change (16 ^ Z.of_nat 0) with 1 in Hik; div_lia|].
      apply Hk; [lia|]. apply Z.div_lt_upper_bound; lia.
Qed.

Lemma convertHex_spec value : 0 <= value ->
  exists l, convertHex value = Ok l /\ hex_value 0 l = value /\
    forall k, (0 < k)%nat -> value < 16 ^ Z.of_nat k -> zlen l <= Z.of_nat k.
Proof.
  intros Hv. unfold convertHex.
  destruct (convertHex_loop_spec (convert_fuel value) value) as (l & -> & E & Hk).
  - split; [done|]. pose proof (abs_fuel value). rewrite Z.abs_eq in * by lia.
    eapply Z.lt_le_trans; [done|]. apply Z.pow_le_mono_l. lia.
  - unfold convert_fuel. lia.
  - rewrite bind_ok. eexists. split_and!; [done|done|]. intros k ? ?. unfold zlen.
    rewrite length_rev. specialize (Hk k). lia.
Qed.

End Convert.

(** ** [LogStream], [Fmt] *)

Module LogStream.
Import Timestamp (double).
Import FixedBuffer.

Definition kMaxNumericSize : Z := 48.

(** What an [operator<<] is given.  A [float] goes in as its [double]; a character
    pointer, a string, a [StringPiece] and another buffer as the bytes they stand
    for. *)
Inductive item :=
| Bool (v : bool)
| Int16 (v : Z) | UInt16 (v : Z)
| Int32 (v : Z) | UInt32 (v : Z)
| Int64 (v : Z) | UInt64 (v : Z)
| Pointer (p : Z)
| Double (v : spec_float) | LongDouble (v : spec_float)
| Char (v : byte)
| CString (str : option (list byte))
| Str (v : list byte) | Piece (v : list byte).

(** The values of the argument types. *)
Definition item_ok (x : item) : Prop :=
  match x with
  | Int16 v => in_s 16 v = true | UInt16 v => in_u 16 v = true
  | Int32 v => in_s 32 v = true | UInt32 v => in_u 32 v = true
  | Int64 v => in_s 64 v = true | UInt64 v => in_u 64 v = true
  | Pointer p => in_u 64 p = true
  | Double v => valid_binary 53 1024 v = true
  | LongDouble v => valid_binary 64 16384 v = true
  | _ => True
  end.

Definition Buffer : Type := FixedBuffer.
Definition SIZE : Z := kSmallBuffer.

(** [text] and a terminator at the cursor, which then moves behind [text]. *)
Definition write_number (text : list byte) (b : Buffer) : result Buffer :=
  b ← store SIZE (cur_ b) (text ++ [Byte.x00]) b;
  Ok (add (zlen text) b).

Definition formatInteger (v : Z) (b : Buffer) : result Buffer :=
  if kMaxNumericSize <=? avail SIZE b then
    text ← Convert.convert v; write_number text b
  else Ok b.

Definition formatPointer (v : Z) (b : Buffer) : result Buffer :=
  if kMaxNumericSize <=? avail SIZE b then
    hex ← Convert.convertHex v; write_number (bytes_of "0x" ++ hex) b
  else Ok b.

(** [snprintf] with the room [kMaxNumericSize]; it returns the length of the whole
    text. *)
Definition formatDouble (v : spec_float) (b : Buffer) : result Buffer :=
  if kMaxNumericSize <=? avail SIZE b then
    let text := Printf.format_g 12 v in
    b ← store SIZE (cur_ b) (Text.snprintf kMaxNumericSize text ++ [Byte.x00]) b;
    Ok (add (zlen text) b)
  else Ok b.

(** [operator<<]. *)
Definition insert (x : item) (b : Buffer) : result Buffer :=
  match x with
  | Bool v => append SIZE (if v then bytes_of "true" else bytes_of "false") b
  | Int16 v | UInt16 v | Int32 v | UInt32 v | Int64 v | UInt64 v => formatInteger v b
  | Pointer p => formatPointer p b
  | Double v | LongDouble v => formatDouble v b
  | Char v => append SIZE [v] b
  | CString (Some str) => append SIZE str b
  | CString None => append SIZE (bytes_of "(null)") b
  | Str v | Piece v => append SIZE v b
  end.

Fixpoint insert_all (l : list item) (b : Buffer) : result Buffer :=
  match l with
  | [] => Ok b
  | x :: l => b ← insert x b; insert_all l b
  end.

Definition resetBuffer (b : Buffer) : Buffer := reset b.

(** [Fmt]: [snprintf] into 32 bytes; [text] is what the format produces. *)
Definition Fmt (text : list byte) : result (list byte) :=
  _ ← assert_ (zlen text <? 32); Ok text.
Definition insert_Fmt (f : list byte) (b : Buffer) : result Buffer := append SIZE f b.

(** ** Quantities *)

Definition double_of (s : Z) : double := Timestamp.of_int s.
Definition div (n d : double) : double := SFdiv Timestamp.prec Timestamp.emax n d.
Definition mul (n d : double) : double := SFmul Timestamp.prec Timestamp.emax n d.

Definition formatSI (s : Z) : list byte :=
  let n := double_of s in
  let f p d unit := Text.snprintf 64 (Printf.format_f p (div n (double_of d)) ++ bytes_of unit) in
  if s <? 1000 then Text.snprintf 64 (Text.decimal s)
  else if s <? 9995 then f 2 (10 ^ 3) "k"%string
  else if s <? 99950 then f 1 (10 ^ 3) "k"%string
  else if s <? 999500 then f 0 (10 ^ 3) "k"%string
  else if s <? 9995000 then f 2 (10 ^ 6) "M"%string
  else if s <? 99950000 then f 1 (10 ^ 6) "M"%string
  else if s <? 999500000 then f 0 (10 ^ 6) "M"%string
  else if s <? 9995000000 then f 2 (10 ^ 9) "G"%string
  else if s <? 99950000000 then f 1 (10 ^ 9) "G"%string
  else if s <? 999500000000 then f 0 (10 ^ 9) "G"%string
  else if s <? 9995000000000 then f 2 (10 ^ 12) "T"%string
  else if s <? 99950000000000 then f 1 (10 ^ 12) "T"%string
  else if s <? 999500000000000 then f 0 (10 ^ 12) "T"%string
  else if s <? 9995000000000000 then f 2 (10 ^ 15) "P"%string
  else if s <? 99950000000000000 then f 1 (10 ^ 15) "P"%string
  else if s <? 999500000000000000 then f 0 (10 ^ 15) "P"%string
  else f 2 (10 ^ 18) "E"%string.

(** The [double] nearest to a decimal literal. *)
Definition literal (num den : Z) : double := div (double_of num) (double_of den).

Definition formatIEC (s : Z) : list byte :=
  let n := double_of s in
  let Ki := double_of 1024 in
  let Mi := mul Ki (double_of 1024) in
  let Gi := mul Mi (double_of 1024) in
  let Ti := mul Gi (double_of 1024) in
  let Pi := mul Ti (double_of 1024) in
  let Ei := mul Pi (double_of 1024) in
  let below d num den := SFltb n (mul d (literal num den)) in
  let f p d unit := Text.snprintf 64 (Printf.format_f p (div n d) ++ bytes_of unit) in
  if SFltb n Ki then Text.snprintf 64 (Text.decimal s)
  else if below Ki 9995 1000 then f 2 Ki "Ki"%string
  else if below Ki 9995 100 then f 1 Ki "Ki"%string
  else if below Ki 10235 10 then f 0 Ki "Ki"%string
  else if below Mi 9995 1000 then f 2 Mi "Mi"%string
  else if below Mi 9995 100 then f 1 Mi "Mi"%string
  else if below Mi 10235 10 then f 0 Mi "Mi"%string
  else if below Gi 9995 1000 then f 2 Gi "Gi"%string
  else if below Gi 9995 100 then f 1 Gi "Gi"%string
  else if below Gi 10235 10 then f 0 Gi "Gi"%string
  else if below Ti 9995 1000 then f 2 Ti "Ti"%string
  else if below Ti 9995 100 then f 1 Ti "Ti"%string
  else if below Ti 10235 10 then f 0 Ti "Ti"%string
  else if below Pi 9995 1000 then f 2 Pi "Pi"%string
  else if below Pi 9995 100 then f 1 Pi "Pi"%string
  else if below Pi 10235 10 then f 0 Pi "Pi"%string
  else if below Ei 9995 1000 then f 2 Ei "Ei"%string
  else f 1 Ei "Ei"%string.

(** ** The text of an item *)

(** What an item should add. *)
Definition hex_text (p : Z) : list byte :=
  match Convert.convertHex p with Ok l => bytes_of "0x" ++ l | Err _ => [] end.
Definition item_text (x : item) : list byte :=
  match x with
  | Bool v => if v then bytes_of "true" else bytes_of "false"
  | Int16 v | UInt16 v | Int32 v | UInt32 v | Int64 v | UInt64 v => Text.decimal v
  | Pointer p => hex_text p
  | Double v | LongDouble v => Printf.format_g 12 v
  | Char v => [v]
  | CString (Some str) => str
  | CString None => bytes_of "(null)"
  | Str v | Piece v => v
  end.

(** When it fits: a number asks for [kMaxNumericSize], a text for one byte more
    than its length. *)
Definition is_number (x : item) : bool :=
  match x with
  | Int16 _ | UInt16 _ | Int32 _ | UInt32 _ | Int64 _ | UInt64 _ | Pointer _ | Double _
  | LongDouble _ => true
  | _ => false
  end.
Definition fits (x : item) (b : Buffer) : bool :=
  if is_number x then kMaxNumericSize <=? SIZE - cur_ b
  else zlen (item_text x) <? SIZE - cur_ b.

Lemma zlen_decimal v : in_s 64 v = true \/ in_u 64 v = true -> zlen (Text.decimal v) <= 21.
Proof.
  intros Hv. assert (Z.abs v < 10 ^ 20) as Ha.
  { destruct Hv as [Hv|Hv]; [apply in_s_iff in Hv; lia|]. unfold in_u in Hv. zprop. lia. }
  unfold Text.decimal. zcase (v <? 0).
  - pose proof (Text.length_udec (Text.dec_fuel (- v)) (- v) 20). rewrite zlen_cons. unfold zlen. lia.
  - pose proof (Text.length_udec (Text.dec_fuel v) v 20). unfold zlen. lia.
Qed.

(** The mantissa of a floating-point value has [digits2_pos] bits. *)
Lemma log2_digits m : Z.log2 (Z.pos m) < Z.pos (digits2_pos m).
Proof.
  assert (Z.pos m < 2 ^ Z.pos (digits2_pos m)) as H.
  { induction m as [m IH|m IH|]; cbn [digits2_pos]; [| |done];
      rewrite Pos2Z.inj_succ, Z.pow_succ_r by lia; lia. }
  apply Z.log2_lt_pow2; lia.
Qed.

Lemma zlen_format_g prec emax v : 0 < prec <= 64 -> 0 < emax <= 16384 ->
  valid_binary prec emax v = true -> zlen (Printf.format_g 12 v) <= 21.
Proof.
  intros Hp He Hv. destruct v as [s|s| |s m e]; [by destruct s|by destruct s|done|].
  cbn in Hv. unfold bounded, canonical_mantissa, fexp, emin in Hv. zprop.
  cbn [Printf.format_g].
  enough (zlen (Printf.general 12 (Printf.numerator m e) (Printf.denominator e)) <= 20).
  { destruct s; cbn [Printf.signed]; rewrite ?zlen_cons; lia. }
  unfold Printf.numerator, Printf.denominator.
  transitivity (12 + 3 + Z.max 3 (Z.of_nat 5)); [|lia]. apply Printf.zlen_general; [lia| | |lia|].
  - apply Z.mul_pos_pos; [lia|]. apply Z.pow_pos_nonneg; lia.
  - apply Z.pow_pos_nonneg; lia.
  - unfold Printf.scale_fuel. rewrite Z.log2_mul_pow2, Z.log2_pow2 by lia.
    pose proof (log2_digits m). pose proof (Z.log2_nonneg (Z.pos m)).
    rewrite Nat2Z.inj_succ, Z2Nat.id by lia. change (10 ^ Z.of_nat 5) with 100000. lia.
Qed.

Lemma zlen_number x : item_ok x -> is_number x = true -> zlen (item_text x) <= 21.
Proof.
  assert (forall v, in_s 16 v = true \/ in_s 32 v = true -> in_s 64 v = true) as Hs.
  { intros v Hv. apply in_s_iff. rewrite !in_s_iff in Hv. lia. }
  assert (forall v, in_u 16 v = true \/ in_u 32 v = true -> in_u 64 v = true) as Hu.
  { intros v Hv. unfold in_u in *. apply andb_true_intro.
    destruct Hv as [Hv|Hv]; zprop; split; [apply Z.leb_le|apply Z.ltb_lt|apply Z.leb_le|apply Z.ltb_lt]; lia. }
  intros Hx Hn. destruct x; try discriminate; cbn in Hx |- *;
    try (apply zlen_decimal; auto; fail); try (eapply zlen_format_g; [..|exact Hx]; lia).
  unfold hex_text. unfold in_u in Hx. zprop.
  destruct (Convert.convertHex_spec p) as (l & -> & _ & Hl); [done|].
  rewrite zlen_app. change (zlen (bytes_of "0x")) with 2.
  assert (zlen l <= Z.of_nat 16) by (apply Hl; [lia|done]). lia.
Qed.

Lemma write_number_spec text b : wf SIZE b -> zlen text <= 21 -> kMaxNumericSize <= SIZE - cur_ b ->
  exists b', write_number text b = Ok b' /\ wf SIZE b' /\ toString b' = toString b ++ text.
Proof.
  intros Hb Ht Hk. unfold kMaxNumericSize in Hk. unfold write_number.
  destruct (store_add SIZE ltac:(done) text [Byte.x00] b Hb) as (b' & -> & Hw & E);
    [change (zlen [Byte.x00]) with 1; lia|lia|].
  by eexists.
Qed.

(** Every insertion returns; the item is appended whole or not at all. *)
Lemma insert_spec x b : item_ok x -> wf SIZE b ->
  exists b', insert x b = Ok b' /\ wf SIZE b' /\
    toString b' = toString b ++ if fits x b then item_text x else [].
Proof.
  intros Hx Hb. assert (0 < SIZE < 2 ^ 31) as Hsz by done.
  pose proof (append_spec SIZE Hsz) as Ha. pose proof (zlen_number x Hx) as Hn.
  unfold fits. destruct (is_number x) eqn:En.
  - specialize (Hn eq_refl).
    assert (forall r, insert x b = (if kMaxNumericSize <=? avail SIZE b then r else Ok b) ->
      (kMaxNumericSize <= SIZE - cur_ b -> r = write_number (item_text x) b) ->
      exists b', insert x b = Ok b' /\ wf SIZE b' /\
        toString b' = toString b ++ if kMaxNumericSize <=? SIZE - cur_ b then item_text x else []) as Hr.
    { intros r -> Hr. rewrite avail_eq by done. zcase (kMaxNumericSize <=? SIZE - cur_ b).
      - rewrite Hr by done. by apply write_number_spec.
      - exists b. by rewrite app_nil_r. }
    destruct x; try discriminate; (eapply Hr; [reflexivity|]); intros Hk;
      try (rewrite Convert.convert_eq; reflexivity).
    + cbn [item_text]. unfold hex_text. destruct (Convert.convertHex_spec p) as (l & -> & _); [|done].
      cbn in Hx. unfold in_u in Hx. zprop. done.
    + cbn in *. unfold write_number, Text.snprintf. rewrite ztake_all; [done|].
      unfold kMaxNumericSize. lia.
    + cbn in *. unfold write_number, Text.snprintf. rewrite ztake_all; [done|].
      unfold kMaxNumericSize. lia.
  - destruct x as [| | | | | | | | | | |[]| |]; try discriminate; by apply Ha.
Qed.

Definition texts (l : list item) : list byte := concat (map item_text l).

Lemma insert_all_spec l b :
  Forall item_ok l -> wf SIZE b ->
  exists b' kept, insert_all l b = Ok b' /\ wf SIZE b' /\ kept `sublist_of` l /\
    toString b' = toString b ++ texts kept /\
    (cur_ b + zlen (texts l) + kMaxNumericSize <= SIZE -> kept = l).
Proof.
  intros Hl. revert b. induction Hl as [|x l Hx _ IH]; intros b Hb.
  - exists b, []. split_and!; [done|done|constructor|by rewrite app_nil_r|done].
  - destruct (insert_spec x b Hx Hb) as (b1 & E1 & Hb1 & T1).
    destruct (IH b1 Hb1) as (b' & kept & E & Hb' & Hsub & T & Hall).
    exists b'. cbn [insert_all]. rewrite E1, bind_ok.
    assert (cur_ b1 = cur_ b + zlen (if fits x b then item_text x else [])) as Ec.
    { apply (f_equal zlen) in T1. rewrite zlen_app in T1. rewrite !(zlen_toString SIZE ltac:(done)) in T1 by done. lia. }
    rewrite T, T1, <- app_assoc. destruct (fits x b) eqn:Ef.
    + exists (x :: kept). split_and!; [done|done|by constructor|done|].
      unfold texts. cbn. rewrite zlen_app. intros Hsum. f_equal. apply Hall. unfold texts. lia.
    + exists kept. split_and!; [done|done|by constructor|done|].
      unfold texts. cbn. rewrite zlen_app. intros Hsum. exfalso.
      pose proof (zlen_nonneg (item_text x)). pose proof (zlen_nonneg (concat (map item_text l))).
      unfold fits, kMaxNumericSize in *. case_match; zprop; lia.
Qed.

Lemma log_stream_items l b : Forall item_ok l -> wf SIZE b -> cur_ b + zlen (texts l) + kMaxNumericSize <= SIZE ->
  exists b', insert_all l b = Ok b' /\ toString b' = toString b ++ texts l.
Proof.
  intros Hl Hb Hfit. destruct (insert_all_spec l b Hl Hb) as (b' & kept & E & _ & _ & T & Hall).
  exists b'. by rewrite T, Hall.
Qed.

(** ** Properties *)

(** Numbers.  The digit loops of the log stream, which use the truncating
    remainder and read a mirrored table of digits for negative values, write exactly
    what [%d] prints, the most negative values included; a pointer's hexadecimal
    text has at most sixteen digits and reads back as the pointer. *)
Theorem log_numbers_printed v p :
  in_u 64 p = true ->
  Convert.convert v = Ok (Text.decimal v) /\ Text.decimal_value (Text.decimal v) = v /\
  exists l, Convert.convertHex p = Ok l /\ Convert.hex_value 0 l = p /\ zlen l <= 16.
Proof.
  intros Hp. unfold in_u in Hp. zprop. split_and!; [apply Convert.convert_eq|apply Text.decimal_value_decimal|].
  destruct (Convert.convertHex_spec p) as (l & E & Hv & Hl); [done|].
  exists l. split_and!; [done|done|]. by apply (Hl 16%nat); [lia|].
Qed.

Lemma log_numbers_printed_witness :
  Convert.convert (- 2 ^ 63) = Ok (bytes_of "-9223372036854775808") /\
  exists l, Convert.convertHex (2 ^ 48 - 17) = Ok l /\ Convert.hex_value 0 l = 2 ^ 48 - 17 /\ zlen l <= 16.
Proof. exact (let '(conj E (conj _ H)) := log_numbers_printed (- 2 ^ 63) (2 ^ 48 - 17) eq_refl in conj E H). Defined.

(** [C30] The log stream.  Whatever is inserted, in any number and of any length, no
    insertion writes outside the buffer; the buffer then holds the texts of some of
    the items, each complete and in order, and of all of them when they leave room
    for one more number. *)
Theorem log_stream_whole_items l b :
  Forall item_ok l -> wf SIZE b ->
  exists b' kept, insert_all l b = Ok b' /\ wf SIZE b' /\ kept `sublist_of` l /\
    toString b' = toString b ++ texts kept /\
    (cur_ b + zlen (texts l) + kMaxNumericSize <= SIZE -> kept = l).
Proof. apply insert_all_spec. Qed.



Definition greeting : list item :=
  [Str (bytes_of "pi"); Char Byte.x3d; Double (literal 314159 100000); Bool true; Int64 (- 7)].

Lemma log_stream_whole_items_witness :
  exists b' kept, insert_all greeting (new SIZE) = Ok b' /\
    toString b' = toString (new SIZE) ++ texts kept /\ kept = greeting.
Proof.
  destruct (log_stream_whole_items greeting (new SIZE)) as (b' & kept & E & _ & _ & T & Hall).
  - repeat constructor.
  - apply new_wf. done.
  - exists b', kept. split; [exact E|]. split; [exact T|]. apply Hall. vm_compute. discriminate.
Defined.

(** The comment on [formatSI] promises at most five characters; the rounding of the
    [double] gives six. *)
Lemma formatSI_too_wide : formatSI 99949999999999999 = bytes_of "100.0P".
Proof. vm_compute. reflexivity. Qed.

End LogStream.
