(* ===== verification/AsyncLogging.v ===== *)
(** * [dws::AsyncLogging]: AsyncLogging.h, AsyncLogging.cc

    Any number of threads append log lines to the front buffers; the thread of
    [threadFunc] takes the full buffers over and writes them.  Critical sections
    are steps.  [SIZE] is the size of a buffer, [kLargeBuffer] in the source.  The
    thread is followed while it is in [threadFunc]; Thread.v has what [Thread::start]
    does to it before and after. *)

From S2P Require Import Prelude Text LogStream.
Import FixedBuffer (FixedBuffer, toString, wf).

Module AsyncLogging.

Section Async.
Context (SIZE : Z).

(** Where the writing thread is: not started; started, before [latch_.countDown()];
    about to test [running_]; in [wait_for]; out of the critical section with
    buffers to write; returned. *)
Inductive pc := NotStarted | Starting | Testing | Waiting | Writing | Returned.

(** What happened to the contents of a buffer: written to the file, or dropped; or
    a notice of the thread's own was written. *)
Inductive chunk :=
| Written (data : list byte)
| Dropped (data : list byte)
| Notice (text : list byte).

(** A null [unique_ptr] is [None].  [history]: what the thread did with its buffers;
    [flushed]: how much of it when the file was last flushed; [appended]: the lines
    passed to [append]. *)
Record AsyncLogging := mkAsync {
  running_ : bool;
  at_ : pc;
  currentBuffer_ : option FixedBuffer;
  nextBuffer_ : option FixedBuffer;
  buffers_ : list (option FixedBuffer);
  newBuffer1 : option FixedBuffer;
  newBuffer2 : option FixedBuffer;
  buffersToWrite : list (option FixedBuffer);
  history : list chunk;
  flushed : list chunk;
  appended : list (list byte)
}.

Definition new : AsyncLogging :=
  mkAsync false NotStarted (Some (FixedBuffer.bzero SIZE (FixedBuffer.new SIZE)))
    (Some (FixedBuffer.bzero SIZE (FixedBuffer.new SIZE))) [] None None [] [] [] [].

Definition deref (b : option FixedBuffer) : result FixedBuffer :=
  match b with Some b => Ok b | None => Err UndefinedBehaviour end.

(** The front buffers, and the writing thread's part. *)
Definition set_front (cur next : option FixedBuffer) (bs : list (option FixedBuffer))
    (lines : list (list byte)) (s : AsyncLogging) : AsyncLogging :=
  mkAsync (running_ s) (at_ s) cur next bs (newBuffer1 s) (newBuffer2 s) (buffersToWrite s)
    (history s) (flushed s) lines.
Definition set_thread (p : pc) (b1 b2 : option FixedBuffer) (bs : list (option FixedBuffer))
    (h fl : list chunk) (s : AsyncLogging) : AsyncLogging :=
  mkAsync (running_ s) p (currentBuffer_ s) (nextBuffer_ s) (buffers_ s) b1 b2 bs h fl (appended s).
Definition set_at (p : pc) (s : AsyncLogging) : AsyncLogging :=
  set_thread p (newBuffer1 s) (newBuffer2 s) (buffersToWrite s) (history s) (flushed s) s.
Definition set_running (b : bool) (p : pc) (s : AsyncLogging) : AsyncLogging :=
  mkAsync b p (currentBuffer_ s) (nextBuffer_ s) (buffers_ s) (newBuffer1 s) (newBuffer2 s)
    (buffersToWrite s) (history s) (flushed s) (appended s).

(** [append(logline, len)] for a line of [len] bytes. *)
Definition append (logline : list byte) (s : AsyncLogging) : result AsyncLogging :=
  let lines := appended s ++ [logline] in
  cur ← deref (currentBuffer_ s);
  if zlen logline <? FixedBuffer.avail SIZE cur then
    cur ← FixedBuffer.append SIZE logline cur;
    Ok (set_front (Some cur) (nextBuffer_ s) (buffers_ s) lines s)
  else
    let bs := buffers_ s ++ [Some cur] in
    let cur := match nextBuffer_ s with Some b => b | None => FixedBuffer.new SIZE end in
    cur ← FixedBuffer.append SIZE logline cur;
    Ok (set_front (Some cur) None bs lines s).

(** [start] up to [thread_.start()], and [stop] up to [join]. *)
Definition start (s : AsyncLogging) : AsyncLogging := set_running true Starting s.
Definition stop (s : AsyncLogging) : AsyncLogging := set_running false (at_ s) s.

(** [threadFunc] before its loop. *)
Definition enter (s : AsyncLogging) : result AsyncLogging :=
  _ ← assert_ (running_ s);
  let b := FixedBuffer.bzero SIZE (FixedBuffer.new SIZE) in
  Ok (set_thread Testing (Some b) (Some b) [] (history s) (flushed s) s).

Definition is_empty (b : option FixedBuffer) : bool :=
  match b with Some b => FixedBuffer.length b =? 0 | None => false end.
Definition no_buffers (l : list (option FixedBuffer)) : bool := match l with [] => true | _ => false end.

(** The critical section after the wait. *)
Definition take_over (s : AsyncLogging) : AsyncLogging :=
  let bs := buffers_ s ++ [currentBuffer_ s] in
  let cur := newBuffer1 s in
  let '(next, b2) := match nextBuffer_ s with
                     | Some b => (Some b, newBuffer2 s)
                     | None => (newBuffer2 s, None)
                     end in
  set_thread Writing None b2 bs (history s) (flushed s)
    (set_front cur next (buffersToWrite s) (appended s) s).

(** The test of the loop, its assertions, and the critical section up to the wait. *)
Definition test (s : AsyncLogging) : result AsyncLogging :=
  if running_ s then
    _ ← assert_ (is_empty (newBuffer1 s));
    _ ← assert_ (is_empty (newBuffer2 s));
    _ ← assert_ (no_buffers (buffersToWrite s));
    if no_buffers (buffers_ s) then Ok (set_at Waiting s) else Ok (take_over s)
  else
    Ok (set_thread Returned (newBuffer1 s) (newBuffer2 s) (buffersToWrite s) (history s) (history s) s).

(** The contents that [output.append] is given. *)
Fixpoint write_all (l : list (option FixedBuffer)) : result (list chunk) :=
  match l with
  | [] => Ok []
  | b :: l => b ← deref b; h ← write_all l; Ok (Written (toString b) :: h)
  end.
Fixpoint drop_all (l : list (option FixedBuffer)) : list chunk :=
  match l with
  | [] => []
  | Some b :: l => Dropped (toString b) :: drop_all l
  | None :: l => drop_all l
  end.

Definition dropped_notice (stamp : list byte) (n : Z) : list byte :=
  Text.snprintf 256 (bytes_of "Dropped log messages at " ++ stamp ++ bytes_of ", " ++
    Text.decimal (n - 2) ++ bytes_of " larger buffers" ++ [Byte.x0a]).

(** [back], [pop_back], [reset]: a buffer to use again. *)
Definition recycle (b : option FixedBuffer) (bs : list (option FixedBuffer))
  : result (option FixedBuffer * list (option FixedBuffer)) :=
  match b with
  | Some _ => Ok (b, bs)
  | None =>
      _ ← assert_ (negb (no_buffers bs));
      match last bs with
      | None => Err UndefinedBehaviour
      | Some back =>
          back ← deref back;
          Ok (Some (FixedBuffer.reset back), removelast bs)
      end
  end.

(** The rest of the loop's body; [stamp] is the time in the notice. *)
Definition write (stamp : list byte) (s : AsyncLogging) : result AsyncLogging :=
  let bs := buffersToWrite s in
  _ ← assert_ (negb (no_buffers bs));
  let '(pre, bs, post) :=
    if 25 <? zlen bs then ([Notice (dropped_notice stamp (zlen bs))], ztake 2 bs, drop_all (zdrop 2 bs))
    else ([], bs, []) in
  h ← write_all bs;
  let bs := if 2 <? zlen bs then ztake 2 bs else bs in
  '(b1, bs) ← recycle (newBuffer1 s) bs;
  '(b2, bs) ← recycle (newBuffer2 s) bs;
  let h := history s ++ pre ++ h ++ post in
  Ok (set_thread Testing b1 b2 [] h h s).

(** The next step of the writing thread; from [wait_for] it goes on when it is
    notified, at the timeout, or spuriously. *)
Definition thread_step (stamp : list byte) (s : AsyncLogging) : result AsyncLogging :=
  match at_ s with
  | Starting => enter s
  | Testing => test s
  | Waiting => Ok (take_over s)
  | Writing => write stamp s
  | NotStarted | Returned => Ok s
  end.

(** [append] is called by any thread, [start] once, [stop] after [start] returned:
    once the writing thread has counted the latch down. *)
Inductive step : AsyncLogging -> AsyncLogging -> Prop :=
| step_append l s s' : zlen l < 2 ^ 31 -> append l s = Ok s' -> step s s'
| step_start s : at_ s = NotStarted -> step s (start s)
| step_stop s : at_ s <> NotStarted -> at_ s <> Starting -> step s (stop s)
| step_thread stamp s s' : thread_step stamp s = Ok s' -> step s s'.

(** ** What becomes of the lines *)

Definition contents (b : option FixedBuffer) : list byte :=
  match b with Some b => toString b | None => [] end.
Definition all_contents (l : list (option FixedBuffer)) : list byte := concat (map contents l).

(** The lines that are not yet dealt with. *)
Definition pending (s : AsyncLogging) : list byte :=
  all_contents (buffersToWrite s) ++ all_contents (buffers_ s) ++ contents (currentBuffer_ s).

(** The file, and the lines that went into [history]. *)
Fixpoint file (h : list chunk) : list byte :=
  match h with
  | [] => []
  | Written d :: h | Notice d :: h => d ++ file h
  | Dropped _ :: h => file h
  end.
Fixpoint handled (h : list chunk) : list byte :=
  match h with
  | [] => []
  | Written d :: h | Dropped d :: h => d ++ handled h
  | Notice _ :: h => handled h
  end.

(** A line of [SIZE] bytes or more does not fit into a buffer. *)
Definition accepted (l : list (list byte)) : list byte :=
  concat (base.filter (fun x => zlen x < SIZE) l).

#[local] Arguments accepted _ : simpl never.
#[local] Arguments pending _ : simpl never.
#[local] Arguments all_contents _ : simpl never.

(** ** The invariant *)

Hypothesis size_ok : 0 < SIZE < 2 ^ 31.

Definition good (b : option FixedBuffer) : Prop := exists f, b = Some f /\ wf SIZE f.
Definition blank (b : option FixedBuffer) : Prop :=
  exists f, b = Some f /\ wf SIZE f /\ FixedBuffer.cur_ f = 0.

(** The writing thread's buffers: both blank at the test and in the wait; out of the
    critical section the first is gone, and as many buffers to write as are needed
    to replace what is gone. *)
Definition thread_ok (s : AsyncLogging) : Prop :=
  match at_ s with
  | NotStarted => running_ s = false /\ buffersToWrite s = []
  | Starting => running_ s = true /\ buffersToWrite s = []
  | Testing | Waiting => blank (newBuffer1 s) /\ blank (newBuffer2 s) /\ buffersToWrite s = []
  | Writing => newBuffer1 s = None /\ Forall good (buffersToWrite s) /\
      1 <= zlen (buffersToWrite s) /\
      (blank (newBuffer2 s) \/ newBuffer2 s = None /\ 2 <= zlen (buffersToWrite s))
  | Returned => running_ s = false /\ buffersToWrite s = []
  end.

Record Inv (s : AsyncLogging) : Prop := {
  inv_current : good (currentBuffer_ s);
  inv_next : blank (nextBuffer_ s) \/ nextBuffer_ s = None /\ buffers_ s <> [];
  inv_buffers : Forall good (buffers_ s);
  inv_thread : thread_ok s;
  inv_lines : accepted (appended s) = handled (history s) ++ pending s;
  inv_flushed : flushed s = history s
}.

Lemma blank_good b : blank b -> good b.
Proof. intros (f & -> & Hf & _). by exists f. Qed.

Lemma blank_contents b : blank b -> contents b = [].
Proof. intros (f & -> & Hf & E). cbn. unfold toString. rewrite (FixedBuffer.length_eq SIZE size_ok) by done. by rewrite E. Qed.

Lemma blank_empty b : blank b -> is_empty b = true.
Proof. intros (f & -> & Hf & E). cbn. rewrite (FixedBuffer.length_eq SIZE size_ok) by done. by rewrite E. Qed.

Lemma fresh_blank : blank (Some (FixedBuffer.bzero SIZE (FixedBuffer.new SIZE))).
Proof. eexists. split_and!; [done| |done]. by apply FixedBuffer.new_wf. Qed.

Lemma reset_blank f : wf SIZE f -> blank (Some (FixedBuffer.reset f)).
Proof. intros Hf. eexists. split_and!; [done| |done]. by apply FixedBuffer.reset_wf. Qed.

Lemma all_contents_app l k : all_contents (l ++ k) = all_contents l ++ all_contents k.
Proof. unfold all_contents. by rewrite map_app, concat_app. Qed.

Lemma all_contents_one b : all_contents [b] = contents b.
Proof. apply app_nil_r. Qed.

Lemma file_app h k : file (h ++ k) = file h ++ file k.
Proof. induction h as [|[]]; cbn; rewrite ?IHh, ?app_assoc; done. Qed.

Lemma handled_app h k : handled (h ++ k) = handled h ++ handled k.
Proof. induction h as [|[]]; cbn; rewrite ?IHh, ?app_assoc; done. Qed.

Lemma accepted_snoc l x : accepted (l ++ [x]) = accepted l ++ if zlen x <? SIZE then x else [].
Proof.
  unfold accepted. rewrite filter_app, concat_app. f_equal. cbn.
  zcase (zlen x <? SIZE); [rewrite decide_True|rewrite decide_False]; cbn; rewrite ?app_nil_r; done || lia.
Qed.

Lemma write_all_spec l : Forall good l ->
  exists h, write_all l = Ok h /\ handled h = all_contents l /\ file h = all_contents l.
Proof.
  induction 1 as [|b l (f & -> & _) _ (h & E & Hh & Hf)]; [by exists []|].
  cbn. rewrite E, bind_ok. eexists. split; [done|]. cbn. by rewrite Hh, Hf.
Qed.

Lemma drop_all_spec l : Forall good l -> handled (drop_all l) = all_contents l /\ file (drop_all l) = [].
Proof. induction 1 as [|b l (f & -> & _) _ [IH1 IH2]]; [done|]. cbn. by rewrite IH1, IH2. Qed.

Lemma recycle_spec b l : Forall good l -> blank b \/ b = None /\ 1 <= zlen l ->
  exists b' l', recycle b l = Ok (b', l') /\ blank b' /\ Forall good l' /\ zlen l - 1 <= zlen l' /\
    (blank b -> zlen l' = zlen l).
Proof.
  intros Hl [Hb|[-> Hn]].
  - destruct Hb as (f & -> & Hf & E). exists (Some f), l. cbn. split_and!; try done; [by exists f|lia].
  - destruct (exists_last (l := l)) as (k & x & ->); [by intros ->|].
    apply Forall_app in Hl as [Hk Hx]. inversion Hx as [|? ? (f & -> & Hf) _]; subst.
    unfold recycle. rewrite last_snoc, removelast_last. unfold no_buffers.
    destruct (k ++ [Some f]) eqn:Ek; [by destruct k|]. rewrite <- Ek. cbn [negb assert_].
    rewrite bind_ok. cbn [deref]. rewrite bind_ok. eexists _, _. split; [done|].
    split; [by apply reset_blank|]. split; [done|]. rewrite zlen_app. change (zlen [Some f]) with 1.
    split; [lia|]. by intros (? & ? & _).
Qed.

Lemma async_append_ok l s : zlen l < 2 ^ 31 -> Inv s -> exists s', append l s = Ok s' /\ Inv s'.
Proof.
  intros Hl [Hc Hn Hb Ht Hlog Hf]. destruct Hc as (f & Ec & Hwf). unfold append. rewrite Ec. cbn [deref].
  rewrite bind_ok, (FixedBuffer.avail_eq SIZE size_ok) by done. zcase (zlen l <? SIZE - FixedBuffer.cur_ f).
  - destruct (FixedBuffer.append_spec SIZE size_ok l f Hwf) as (f' & -> & Hwf' & E').
    rewrite bind_ok. eexists. split; [done|]. split; cbn; try done; [by exists f'|].
    rewrite accepted_snoc, Hlog, <- app_assoc. unfold pending. cbn. rewrite Ec, E'. cbn.
    destruct Hwf. rewrite !(proj2 (Z.ltb_lt _ _)) by lia. by rewrite !app_assoc.
  - set (g := match nextBuffer_ s with Some b => b | None => FixedBuffer.new SIZE end).
    assert (blank (Some g)) as Hg.
    { unfold g. destruct Hn as [(n & -> & ? & ?)|[-> _]]; [by exists n|]. exists (FixedBuffer.new SIZE).
      split_and!; [done|by apply FixedBuffer.new_wf|done]. }
    pose proof (blank_contents _ Hg) as Eg. destruct Hg as (g' & [= <-] & Hwg & E0).
    destruct (FixedBuffer.append_spec SIZE size_ok l g Hwg) as (g'' & -> & Hwg' & E').
    rewrite bind_ok. eexists. split; [done|].
    split; cbn; try done; [by exists g''|right; split; [done|by destruct (buffers_ s)]| |].
    + apply Forall_app. split; [done|]. repeat constructor. by exists f.
    + rewrite accepted_snoc, Hlog, <- app_assoc. unfold pending. cbn.
      rewrite Ec, E', all_contents_app. cbn [contents] in *. rewrite Eg, E0, Z.sub_0_r.
      by rewrite all_contents_one, <- !app_assoc.
Qed.

Lemma take_over_inv s : Inv s -> blank (newBuffer1 s) -> blank (newBuffer2 s) -> buffersToWrite s = [] ->
  Inv (take_over s).
Proof.
  intros [Hc Hn Hb Ht Hlog Hf] H1 H2 Hw. unfold take_over.
  assert (Forall good (buffers_ s ++ [currentBuffer_ s])) as Hg.
  { apply Forall_app. split; [done|]. by repeat constructor. }
  assert (1 <= zlen (buffers_ s ++ [currentBuffer_ s])) as H3.
  { rewrite zlen_app. change (zlen [currentBuffer_ s]) with 1. pose proof (zlen_nonneg (buffers_ s)). lia. }
  assert (accepted (appended s) = handled (history s) ++ all_contents (buffers_ s ++ [currentBuffer_ s]) ++
            all_contents (buffersToWrite s) ++ contents (newBuffer1 s)) as Hl.
  { rewrite Hlog, Hw, (blank_contents _ H1), all_contents_app. unfold pending, all_contents.
    rewrite Hw. cbn. by rewrite !app_nil_r. }
  rewrite Hw in Hl.
  destruct Hn as [Hn|[Hn Hne]].
  - assert (exists f, nextBuffer_ s = Some f) as [f Ef] by (destruct Hn as (f & ? & _); by exists f).
    rewrite Ef. split; cbn [set_thread set_front currentBuffer_ nextBuffer_ buffers_ appended history
      flushed]; rewrite ?Hw; [by apply blank_good|left; by rewrite <- Ef|done| |exact Hl|done].
    unfold thread_ok. cbn. by auto.
  - rewrite Hn. split; cbn [set_thread set_front currentBuffer_ nextBuffer_ buffers_ appended history
      flushed]; rewrite ?Hw; [by apply blank_good|by left|done| |exact Hl|done].
    unfold thread_ok. cbn. split_and!; [done|done|done|]. right. split; [done|].
    rewrite zlen_app. change (zlen [currentBuffer_ s]) with 1.
    destruct (buffers_ s) as [|x l]; [done|]. rewrite zlen_cons. pose proof (zlen_nonneg l). lia.
Qed.

Lemma Forall_ztake n (l : list (option FixedBuffer)) : Forall good l -> Forall good (ztake n l).
Proof. apply Forall_take. Qed.

Lemma no_buffers_false (l : list (option FixedBuffer)) : 1 <= zlen l -> no_buffers l = false.
Proof. by destruct l. Qed.

(** The buffers that are written, and those that are dropped after them. *)
Lemma select_spec stamp bs : Forall good bs -> 1 <= zlen bs ->
  exists pre kept post h,
    (if 25 <? zlen bs then ([Notice (dropped_notice stamp (zlen bs))], ztake 2 bs, drop_all (zdrop 2 bs))
     else ([], bs, [])) = (pre, kept, post) /\
    write_all kept = Ok h /\ Forall good kept /\
    handled (pre ++ h ++ post) = all_contents bs /\
    (zlen bs <= 25 -> pre = [] /\ post = [] /\ file h = all_contents bs) /\
    Z.min 2 (zlen bs) <= zlen kept.
Proof.
  intros Hg Hn. zcase (25 <? zlen bs).
  - destruct (write_all_spec (ztake 2 bs)) as (h & Eh & Hh & Hf); [by apply Forall_ztake|].
    destruct (drop_all_spec (zdrop 2 bs)) as [Hd _]; [by apply Forall_drop|].
    eexists _, _, _, h. split; [done|]. split_and!; [done|by apply Forall_ztake| |lia|].
    + rewrite !handled_app, Hh, Hd. cbn. by rewrite <- all_contents_app, ztake_zdrop.
    + rewrite zlen_ztake. lia.
  - destruct (write_all_spec bs Hg) as (h & Eh & Hh & Hf).
    exists [], bs, [], h. split; [done|]. rewrite !app_nil_r. split_and!; try done. lia.
Qed.

Lemma async_write_ok stamp s : Inv s -> at_ s = Writing ->
  exists s' h, write stamp s = Ok s' /\ Inv s' /\ at_ s' = Testing /\
    history s' = history s ++ h /\ handled h = all_contents (buffersToWrite s) /\
    (zlen (buffersToWrite s) <= 25 -> file h = all_contents (buffersToWrite s)) /\
    appended s' = appended s /\ running_ s' = running_ s.
Proof.
  intros [Hc Hn Hb Ht Hlog Hf] Ea. unfold thread_ok in Ht. rewrite Ea in Ht.
  destruct Ht as (E1 & Hg & Hlen & H2). unfold write.
  rewrite no_buffers_false by done. cbn [negb assert_]. rewrite bind_ok.
  destruct (select_spec stamp (buffersToWrite s) Hg Hlen) as (pre & kept & post & h & -> & -> & Hk & Hh & Hfile & Hmin).
  rewrite bind_ok, E1. set (two := if 2 <? zlen kept then _ else _).
  assert (Forall good two /\ Z.min 2 (zlen (buffersToWrite s)) <= zlen two) as [Ht2 Hm2].
  { unfold two. zcase (2 <? zlen kept); split; [by apply Forall_ztake| |done|lia]. rewrite zlen_ztake. lia. }
  destruct (recycle_spec None two Ht2) as (b1 & l1 & -> & Hb1 & Hl1 & Hz1 & _); [right; split; [done|lia]|].
  rewrite bind_ok. destruct (recycle_spec (newBuffer2 s) l1 Hl1) as (b2 & l2 & -> & Hb2 & _).
  { destruct H2 as [?|[? ?]]; [by left|right; split; [done|lia]]. }
  rewrite bind_ok. eexists _, (pre ++ h ++ post). split; [done|]. split_and!; try done.
  - split; cbn [set_thread currentBuffer_ nextBuffer_ buffers_ appended history flushed];
      [done|done|done| | |done].
    + unfold thread_ok. cbn. done.
    + unfold pending in *. cbn. rewrite handled_app, Hh, Hlog, <- app_assoc. done.
  - intros Hle. destruct (Hfile Hle) as (-> & -> & Hf'). by rewrite app_nil_r.
Qed.

Lemma thread_step_ok stamp s : Inv s -> exists s', thread_step stamp s = Ok s' /\ Inv s'.
Proof.
  intros Hi. pose proof Hi as [Hc Hn Hb Ht Hlog Hf]. unfold thread_ok in Ht. unfold thread_step.
  destruct (at_ s) eqn:Ea.
  - by exists s.
  - destruct Ht as [Hr Hw]. unfold enter. rewrite Hr. cbn [assert_]. rewrite bind_ok. eexists. split; [done|].
    split; cbn; try done; [|by rewrite Hlog; unfold pending; cbn; rewrite Hw].
    unfold thread_ok. cbn. pose proof fresh_blank. auto.
  - destruct Ht as (H1 & H2 & Hw). unfold test. rewrite (blank_empty _ H1), (blank_empty _ H2), Hw.
    cbn [no_buffers assert_]. destruct (running_ s) eqn:Er.
    + rewrite !bind_ok. destruct (no_buffers (buffers_ s)).
      * eexists. split; [done|]. split; try done; unfold thread_ok; cbn; auto.
      * eexists. split; [done|]. by apply take_over_inv.
    + eexists. split; [done|].
      split; cbn [set_thread currentBuffer_ nextBuffer_ buffers_ appended history flushed]; try done.
      by rewrite Hlog; unfold pending; cbn; rewrite Hw.
  - destruct Ht as (H1 & H2 & Hw). eexists. split; [done|]. by apply take_over_inv.
  - destruct (async_write_ok stamp s Hi Ea) as (s' & h & E & Hi' & _). by exists s'.
  - by exists s.
Qed.

Lemma async_step_inv s s' : Inv s -> step s s' -> Inv s'.
Proof.
  intros Hi Hst. destruct Hst as [l s s' Hl E|s Ea|s E1 E2|stamp s s' E].
  - destruct (async_append_ok l s Hl Hi) as (s1 & E1 & Hi1). congruence.
  - destruct Hi as [Hc Hn Hb Ht Hlog Hf]. split; try done. unfold thread_ok in *. cbn.
    rewrite Ea in Ht. by destruct Ht.
  - destruct Hi as [Hc Hn Hb Ht Hlog Hf]. split; try done. unfold thread_ok in *. cbn.
    destruct (at_ s); try done. by destruct Ht.
  - destruct (thread_step_ok stamp s Hi) as (s1 & E1 & Hi1). congruence.
Qed.

Lemma async_new_inv : Inv new.
Proof.
  pose proof fresh_blank as Hb. split; [by apply blank_good|by left|done|done| |done].
  unfold pending. by rewrite (blank_contents (currentBuffer_ new)).
Qed.

Lemma async_reachable_inv s : rtc step new s -> Inv s.
Proof. intros Hs. apply (rtc_invariant step Inv new s async_step_inv Hs async_new_inv). Qed.

(** Three steps of the writing thread deal with all that was pending. *)
Fixpoint thread_steps (stamp : list byte) (n : nat) (s : AsyncLogging) : result AsyncLogging :=
  match n with
  | O => Ok s
  | S n => s ← thread_step stamp s; thread_steps stamp n s
  end.

Lemma take_over_fields s :
  buffersToWrite (take_over s) = buffers_ s ++ [currentBuffer_ s] /\ history (take_over s) = history s /\
  appended (take_over s) = appended s /\ running_ (take_over s) = running_ s /\ at_ (take_over s) = Writing.
Proof. unfold take_over. by destruct (nextBuffer_ s). Qed.

Lemma round_writes stamp s : Inv s -> at_ s = Testing -> running_ s = true ->
  exists n s' h, (n <= 3)%nat /\ thread_steps stamp n s = Ok s' /\ Inv s' /\ at_ s' = Testing /\
    appended s' = appended s /\ history s' = history s ++ h /\ handled h = pending s /\
    (zlen (buffers_ s) < 25 -> file h = pending s).
Proof.
  intros Hi Ea Er.
  assert (exists n, (n <= 2)%nat /\ thread_steps stamp n s = Ok (take_over s) /\ Inv (take_over s)) as (n & Hn & En & Hi1).
  { pose proof (inv_thread _ Hi) as Ht. unfold thread_ok in Ht. rewrite Ea in Ht. destruct Ht as (H1 & H2 & Hw).
    assert (test s = Ok (if no_buffers (buffers_ s) then set_at Waiting s else take_over s)) as Et.
    { unfold test. rewrite Er, (blank_empty _ H1), (blank_empty _ H2), Hw. cbn [no_buffers assert_].
      rewrite !bind_ok. by destruct (no_buffers (buffers_ s)). }
    assert (thread_step stamp s = test s) as Es by (unfold thread_step; by rewrite Ea).
    pose proof (take_over_inv s Hi H1 H2 Hw).
    destruct (no_buffers (buffers_ s)) eqn:Eb; [exists 2%nat|exists 1%nat]; (split; [lia|]);
      cbn [thread_steps]; rewrite Es, Et, bind_ok; split; done. }
  destruct (take_over_fields s) as (E1 & E2 & E3 & E4 & E5).
  destruct (async_write_ok stamp (take_over s) Hi1 E5) as (s' & h & E & Hi' & Ea' & Eh & Hh & Hf & Eapp & _).
  assert (pending s = all_contents (buffers_ s ++ [currentBuffer_ s])) as Ep.
  { pose proof (inv_thread _ Hi) as Ht. unfold thread_ok in Ht. rewrite Ea in Ht. destruct Ht as (_ & _ & Hw).
    unfold pending. by rewrite Hw, all_contents_app, all_contents_one. }
  exists (n + 1)%nat, s', h. rewrite E1 in *. split_and!; try (done || congruence).
  - lia.
  - assert (forall k t u, thread_steps stamp k t = Ok u -> thread_steps stamp (k + 1) t = thread_step stamp u) as Hk.
    { induction k as [|k IH]; intros t u; cbn.
      - intros [= ->]. by destruct (thread_step stamp u).
      - destruct (thread_step stamp t) as [v|]; [|done]. rewrite !bind_ok. apply IH. }
    rewrite (Hk n s (take_over s) En). unfold thread_step. by rewrite E5.
  - intros Hlt. rewrite Ep. apply Hf. rewrite zlen_app. change (zlen [currentBuffer_ s]) with 1. lia.
Qed.

(** Once the thread has returned, the file stays as it is. *)
Lemma returned_stays s s' : at_ s = Returned -> rtc step s s' -> at_ s' = Returned /\ history s' = history s.
Proof.
  intros Ea Hs. induction Hs as [s|s t s' Hst _ IH]; [done|].
  assert (at_ t = Returned /\ history t = history s) as [E1 E2].
  { destruct Hst as [l s t Hl E|s E|s E1 E2|stamp s t E]; [|by rewrite E in Ea|done|].
    - unfold append in E. inv_ok. case_match; inv_ok; by subst t.
    - unfold thread_step in E. rewrite Ea in E. inv_ok. by subst t. }
  destruct (IH E1) as [-> ->]. done.
Qed.

End Async.
Arguments append SIZE logline s : assert.

(** ** Properties *)

(** [C17] No line is lost or reordered while the logger runs, whatever the threads do:
    the accepted lines are, in order, those the writing thread has dealt with
    followed by those in its buffers; no assertion fails and no null buffer is used,
    so the writing thread and every call of [append] go on; and all that the thread
    dealt with has been flushed. *)
Theorem async_lines_in_order SIZE (s : AsyncLogging) :
  0 < SIZE < 2 ^ 31 -> rtc (step SIZE) (new SIZE) s ->
  accepted SIZE (appended s) = handled (history s) ++ pending s /\ flushed s = history s /\
  (forall stamp, is_ok (thread_step SIZE stamp s) = true) /\
  (forall l, zlen l < 2 ^ 31 -> is_ok (append SIZE l s) = true).
Proof.
  intros Hsz Hs. pose proof (async_reachable_inv SIZE Hsz s Hs) as Hi. destruct (id Hi) as [_ _ _ _ Hl Hf].
  split_and!; [done|done| |].
  - intros stamp. by destruct (thread_step_ok SIZE Hsz stamp s Hi) as (? & -> & _).
  - intros l Hlen. by destruct (async_append_ok SIZE Hsz l s Hlen Hi) as (? & -> & _).
Qed.

(** Every accepted line reaches the file: from the head of its loop the running
    thread needs at most three steps, the timeout of its wait included, after which
    all lines appended so far are dealt with and flushed.  They are all written if
    fewer than 25 buffers were full; otherwise the thread says in the file how many
    it drops. *)
Theorem async_lines_flushed SIZE stamp (s : AsyncLogging) :
  0 < SIZE < 2 ^ 31 -> rtc (step SIZE) (new SIZE) s -> at_ s = Testing -> running_ s = true ->
  exists n s', (n <= 3)%nat /\ thread_steps SIZE stamp n s = Ok s' /\ at_ s' = Testing /\
    handled (flushed s') = accepted SIZE (appended s) /\
    (zlen (buffers_ s) < 25 -> file (flushed s') = file (history s) ++ pending s).
Proof.
  intros Hsz Hs Ea Er. pose proof (async_reachable_inv SIZE Hsz s Hs) as Hi.
  destruct (round_writes SIZE Hsz stamp s Hi Ea Er) as (n & s' & h & Hn & E & Hi' & Ea' & Eapp & Eh & Hh & Hf).
  exists n, s'. rewrite (inv_flushed _ _ Hi'), Eh, handled_app, file_app, Hh, (inv_lines _ _ Hi).
  split_and!; try done. intros Hlt. by rewrite Hf.
Qed.

(** [stop] does not wait for what is buffered: the thread leaves its loop as soon
    as it sees [running_] false.  A line appended while the logger runs, with [stop]
    called before the thread's next round, never reaches the file, whatever happens
    afterwards. *)
Theorem async_stop_loses_lines SIZE l :
  0 < zlen l -> zlen l < SIZE -> SIZE < 2 ^ 31 ->
  exists s, rtc (step SIZE) (new SIZE) s /\ appended s = [l] /\ accepted SIZE (appended s) = l /\
    at_ s = Returned /\ forall s', rtc (step SIZE) s s' -> file (history s') = [].
Proof.
  intros Hl Hl' Hsz. assert (0 < SIZE < 2 ^ 31) as Hs by lia.
  set (s1 := start (new SIZE)). destruct (enter SIZE s1) as [s2|] eqn:E2; [|done].
  assert (rtc (step SIZE) (new SIZE) s2) as R2.
  { eapply rtc_l; [by apply step_start|]. apply rtc_once. by apply (step_thread _ []). }
  pose proof (async_reachable_inv SIZE Hs s2 R2) as I2.
  destruct (async_append_ok SIZE Hs l s2) as (s3 & E3 & I3); [lia|done|].
  assert (appended s3 = [l] /\ at_ s3 = Testing /\ history s3 = [] /\ running_ s3 = true) as (A1 & A2 & A3 & _).
  { injection E2 as <-. unfold append in E3. inv_ok. case_match; inv_ok; by subst s3. }
  set (s4 := stop s3).
  assert (rtc (step SIZE) (new SIZE) s4) as R4.
  { eapply rtc_r; [eapply rtc_r; [exact R2|eapply step_append; [|exact E3]; lia]|].
    apply step_stop; by rewrite A2. }
  set (s5 := set_thread Returned (newBuffer1 s4) (newBuffer2 s4) (buffersToWrite s4) (history s4) (history s4) s4).
  exists s5. split.
  { eapply rtc_r; [exact R4|]. apply (step_thread _ []). unfold thread_step.
    replace (at_ s4) with Testing by (by rewrite <- A2). done. }
  split_and!; [done| |done|].
  - replace (appended s5) with [l] by (by rewrite <- A1). unfold accepted. cbn.
    rewrite decide_True by done. cbn. apply app_nil_r.
  - intros s' Hr. destruct (returned_stays SIZE s5 s' eq_refl Hr) as [_ ->]. cbn. by rewrite A3.
Qed.

(** Buffers of eight bytes: the second line does not fit behind the first. *)
Definition value {A} (d : A) (r : result A) : A := match r with Ok a => a | Err _ => d end.
Definition logging0 : AsyncLogging :=
  let s := start (new 8) in
  let s := value s (enter 8 s) in
  let s := value s (append 8 (bytes_of "abc") s) in
  value s (append 8 (bytes_of "defgh") s).

Lemma logging0_reachable : rtc (step 8) (new 8) logging0.
Proof.
  eapply rtc_l; [by apply step_start|].
  eapply rtc_l; [apply (step_thread 8 []); reflexivity|].
  eapply rtc_l; [apply (step_append 8 (bytes_of "abc")); [done|]; reflexivity|].
  apply rtc_once. apply (step_append 8 (bytes_of "defgh")); done.
Qed.

Lemma async_lines_in_order_witness :
  rtc (step 8) (new 8) logging0 /\
  accepted 8 (appended logging0) = handled (history logging0) ++ pending logging0.
Proof.
  split; [exact logging0_reachable|]. apply (async_lines_in_order 8 logging0 ltac:(done) logging0_reachable).
Defined.

Lemma async_lines_flushed_witness :
  exists n s', (n <= 3)%nat /\ thread_steps 8 [] n logging0 = Ok s' /\
    handled (flushed s') = bytes_of "abcdefgh".
Proof.
  destruct (async_lines_flushed 8 [] logging0 ltac:(done) logging0_reachable eq_refl eq_refl)
    as (n & s' & Hn & E & _ & Hf & _).
  exists n, s'. split; [exact Hn|]. split; [exact E|]. rewrite Hf. vm_compute. reflexivity.
Defined.

Lemma async_stop_loses_lines_witness :
  exists s, rtc (step 8) (new 8) s /\ appended s = [bytes_of "abc"] /\ at_ s = Returned /\
    file (history s) = [].
Proof.
  destruct (async_stop_loses_lines 8 (bytes_of "abc")) as (s & Hs & E & _ & Ea & Hf); [done|done|done|].
  exists s. split; [exact Hs|]. split; [exact E|]. split; [exact Ea|]. apply Hf. apply rtc_refl.
Defined.

End AsyncLogging.
