(* ===== verification/FileUtil.v ===== *)
(** * [dws::FileUtil]: FileUtil.h, FileUtil.cc

    Reading a small file and appending to a file.  What the system calls and the
    stream functions answer is a parameter. *)

From S2P Require Import Prelude.

Module FileUtil.

Definition EISDIR : Z := 21.

(** ** [ReadSmallFile] *)

Definition kBufferSize : Z := 64 * 1024.

(** [fstat]: what the code looks at. *)
Inductive stat_answer :=
| StatError (errno : Z)
| Stat (regular directory : bool) (size mtime ctime : Z).

(** [read], [pread]: the bytes, none at the end of the file. *)
Inductive read_answer :=
| ReadError (errno : Z)
| ReadBytes (data : list byte).

Section Read.
(** The answer to the [k]-th read, at offset [off] of the file, of at most [n] bytes. *)
Context (read : nat -> Z -> Z -> read_answer) (fstat : stat_answer).

Record ReadSmallFile := mkRead { fd_ : Z; err_ : Z; buf_ : list byte }.

(** [open] gives a descriptor, or -1 and [errno]. *)
Definition new_reader (fd errno : Z) : ReadSmallFile :=
  mkRead fd (if fd <? 0 then errno else 0) [Byte.x00].

(** What [readToString] stores through its pointers. *)
Record outputs := mkOutputs {
  content : list byte;
  fileSize : option Z;
  modifyTime : option Z;
  createTime : option Z
}.

(** The loop, after [calls] reads; the descriptor's offset is what was read. *)
Fixpoint read_loop (fuel calls : nat) (maxSize : Z) (text : list byte) (err : Z)
  : result (list byte * Z) :=
  match fuel with
  | O => Err Aborted
  | S f =>
      if zlen text <? wrapu 64 maxSize then
        let toRead := Z.min (wrapu 64 (wrapu 64 maxSize - zlen text)) kBufferSize in
        match read calls (zlen text) toRead with
        | ReadBytes [] => Ok (text, err)
        | ReadBytes data =>
            _ ← defined_ (zlen data <=? toRead);
            read_loop f (S calls) maxSize (text ++ data) err
        | ReadError errno => Ok (text, errno)
        end
      else Ok (text, err)
  end.

(** Each turn adds a byte at least. *)
Definition read_fuel (maxSize : Z) : nat := S (Z.to_nat (wrapu 64 maxSize)).

(** [readToString]; [want] says which of the three pointers are given.  [reserve]
    throws when it is asked for more than a string can hold. *)
Definition readToString (maxSize : Z) (want : bool * bool * bool) (old : outputs) (r : ReadSmallFile)
  : result (Z * outputs) :=
  let '(wantSize, wantModify, wantCreate) := want in
  let err := err_ r in
  if 0 <=? fd_ r then
    let o := mkOutputs [] (fileSize old) (modifyTime old) (createTime old) in
    '(err, o) ←
      (if wantSize then
         match fstat with
         | Stat regular directory size mtime ctime =>
             _ ← (if regular then
                    if Z.min maxSize size <? 0 then Err (Exception "length_error") else Ok tt
                  else Ok tt);
             Ok (if negb regular && directory then EISDIR else err,
                 mkOutputs [] (if regular then Some size else fileSize o)
                   (if wantModify then Some mtime else modifyTime o)
                   (if wantCreate then Some ctime else createTime o))
         | StatError errno => Ok (errno, o)
         end
       else Ok (err, o));
    '(text, err) ← read_loop (read_fuel maxSize) 0 maxSize [] err;
    Ok (err, mkOutputs text (fileSize o) (modifyTime o) (createTime o))
  else Ok (err, old).

(** [readFile], whose destructor closes the descriptor. *)
Definition readFile (fd errno maxSize : Z) (want : bool * bool * bool) (old : outputs) : result (Z * outputs) :=
  readToString maxSize want old (new_reader fd errno).

(** [readToBuffer]: [buf_] and its terminator, and the size. *)
Definition readToBuffer (r : ReadSmallFile) : result (Z * option Z * ReadSmallFile) :=
  if 0 <=? fd_ r then
    match read 0 0 (kBufferSize - 1) with
    | ReadBytes data =>
        _ ← defined_ (zlen data <=? kBufferSize - 1);
        Ok (err_ r, Some (wraps 32 (zlen data)), mkRead (fd_ r) (err_ r) (data ++ [Byte.x00]))
    | ReadError errno => Ok (errno, None, r)
    end
  else Ok (err_ r, None, r).

(** ** Reading a file that does not change *)

(** [read] gives bytes of [F] from its offset on: at most [n], and none only at the
    end. *)
Definition reads_from (F : list byte) : Prop :=
  forall k off n, 0 < n -> 0 <= off <= zlen F ->
    exists d, read k off n = ReadBytes d /\ d = ztake (zlen d) (zdrop off F) /\
      zlen d <= Z.min n (zlen F - off) /\ (off < zlen F -> 0 < zlen d).

Lemma read_loop_spec F fuel k maxSize text :
  0 <= maxSize < 2 ^ 64 -> text = ztake (zlen text) F -> zlen text <= maxSize ->
  reads_from F -> maxSize - zlen text < Z.of_nat fuel ->
  read_loop fuel k maxSize text 0 = Ok (ztake maxSize F, 0).
Proof.
  intros Hm Ht Hle Hr. revert k text Ht Hle. induction fuel as [|f IH]; intros k text Ht Hle Hf.
  - pose proof (zlen_nonneg text). lia.
  - cbn [read_loop]. rewrite !(wrapu_small 64 maxSize) by lia. pose proof (zlen_nonneg text) as Ht0.
    assert (zlen text <= zlen F) as HtF.
    { apply (f_equal zlen) in Ht. rewrite zlen_ztake in Ht. pose proof (zlen_nonneg F). lia. }
    zcase (zlen text <? maxSize).
    + rewrite wrapu_small by lia. set (n := Z.min (maxSize - zlen text) kBufferSize).
      assert (0 < n) as Hn by (unfold n, kBufferSize; lia).
      destruct (Hr k (zlen text) n Hn) as (d & -> & Ed & Hd & Hp); [lia|].
      destruct d as [|b d'] eqn:Edd.
      * assert (zlen F <= zlen text) by (destruct (decide (zlen text < zlen F)) as [Hlt|]; [by apply Hp in Hlt|lia]).
        do 2 f_equal. rewrite Ht, !ztake_all by lia. done.
      * rewrite <- Edd in *. step_assert.
        assert (text ++ d = ztake (zlen (text ++ d)) F) as Htd.
        { rewrite zlen_app. rewrite Ht at 1. rewrite Ed at 1. unfold ztake, zdrop, zlen in *.
          rewrite take_take_drop. f_equal. lia. }
        assert (1 <= zlen d) by (rewrite Edd, zlen_cons; pose proof (zlen_nonneg d'); lia).
        subst n. apply IH; [done|rewrite zlen_app; lia|rewrite zlen_app; lia].
    + rewrite Ht at 1. by replace (zlen text) with maxSize by lia.
Qed.

Lemma readToString_spec F maxSize want old fd size mtime ctime :
  reads_from F -> 0 <= maxSize < 2 ^ 31 -> 0 <= fd -> fstat = Stat true false size mtime ctime -> 0 <= size ->
  exists o, readToString maxSize want old (new_reader fd 0) = Ok (0, o) /\ content o = ztake maxSize F /\
    (want.1.1 = true -> fileSize o = Some size).
Proof.
  intros Hr Hm Hfd Hs Hsize. destruct want as [[w1 w2] w3]. unfold readToString, new_reader. cbn [fd_ err_].
  zcase (fd <? 0); [lia|]. zcase (0 <=? fd); [|lia]. rewrite Hs.
  assert (read_loop (read_fuel maxSize) 0 maxSize [] 0 = Ok (ztake maxSize F, 0)) as Hloop.
  { apply (read_loop_spec F); [lia|done|rewrite zlen_nil; lia|done|].
    unfold read_fuel. rewrite zlen_nil, wrapu_small by lia. lia. }
  destruct w1; cbn [negb andb].
  - zcase (Z.min maxSize size <? 0); [lia|]. rewrite !bind_ok, Hloop, bind_ok. by eexists.
  - rewrite bind_ok, Hloop, bind_ok. by eexists.
Qed.

End Read.

(** ** [AppendFile] *)

Section Append.
(** How many of [n] bytes the [k]-th [fwrite_unlocked] takes. *)
Context (fwrite : nat -> Z -> Z).

(** [written]: what the stream took; [flushed]: how much of it when it was last
    flushed; [writes]: how many calls were made. *)
Record AppendFile := mkAppend {
  filename : list byte;
  written : list byte;
  flushed : list byte;
  writtenBytes_ : Z;
  writes : nat
}.

(** [opened]: whether [fopen] succeeds, which the constructor asserts. *)
Definition new_file (name : list byte) (opened : bool) : result AppendFile :=
  _ ← assert_ opened; Ok (mkAppend name [] [] 0 0).

Definition fwrite_data (logline : list byte) (f : AppendFile) : Z * AppendFile :=
  let n := fwrite (writes f) (zlen logline) in
  (n, mkAppend (filename f) (written f ++ ztake n logline) (flushed f) (writtenBytes_ f) (S (writes f))).

(** The loop of [append]: it goes on only after a complete write. *)
Fixpoint append_loop (fuel : nat) (logline : list byte) (done : Z) (f : AppendFile)
  : result (Z * AppendFile) :=
  match fuel with
  | O => Err Aborted
  | S k =>
      if done =? zlen logline then Ok (done, f)
      else
        let remain := zlen logline - done in
        let '(n, f) := fwrite_data (zdrop done logline) f in
        if n =? remain then append_loop k logline (done + n) f else Ok (done, f)
  end.

Definition append (logline : list byte) (f : AppendFile) : result AppendFile :=
  '(n, f) ← append_loop 2 logline 0 f;
  Ok (mkAppend (filename f) (written f) (flushed f) (wraps 64 (writtenBytes_ f + n)) (writes f)).

Definition flush (f : AppendFile) : AppendFile :=
  mkAppend (filename f) (written f) (written f) (writtenBytes_ f) (writes f).

(** Two turns are enough; a short write is not counted, and the rest is given up. *)
Lemma file_append_spec logline f :
  let n := fwrite (writes f) (zlen logline) in
  append logline f = Ok
    (if zlen logline =? 0 then mkAppend (filename f) (written f) (flushed f) (wraps 64 (writtenBytes_ f + 0)) (writes f)
     else mkAppend (filename f) (written f ++ ztake n logline) (flushed f)
            (wraps 64 (writtenBytes_ f + if n =? zlen logline then n else 0)) (S (writes f))).
Proof.
  intros n. unfold append. cbn [append_loop]. rewrite (Z.eqb_sym 0), Z.sub_0_r. unfold fwrite_data.
  rewrite zdrop_nonpos by lia. fold n.
  zcase (zlen logline =? 0); [done|]. zcase (n =? zlen logline); [|done].
  rewrite Z.add_0_l, E0, Z.eqb_refl. done.
Qed.

(** What the stream takes of texts that are appended one after another, from its [k]-th
    write on: the beginning of each that [fwrite_unlocked] accepts. *)
Fixpoint took (k : nat) (l : list (list byte)) : list byte :=
  match l with
  | [] => []
  | x :: l => if zlen x =? 0 then took k l else ztake (fwrite k (zlen x)) x ++ took (S k) l
  end.

(** The writes that the texts make: none for an empty one. *)
Definition used (l : list (list byte)) : nat := length (List.filter (fun x => negb (zlen x =? 0)) l).

Lemma used_snoc l x : used (l ++ [x]) = if zlen x =? 0 then used l else S (used l).
Proof. unfold used. rewrite List.filter_app, length_app. cbn. destruct (zlen x =? 0); cbn; lia. Qed.

Lemma took_snoc l x : forall k,
  took k (l ++ [x]) = took k l ++ if zlen x =? 0 then [] else ztake (fwrite (k + used l) (zlen x)) x.
Proof.
  induction l as [|y l IH]; intros k; cbn [app took].
  - rewrite Nat.add_0_r. destruct (zlen x =? 0); [done|]. by rewrite app_nil_r.
  - unfold used. cbn [List.filter]. destruct (zlen y =? 0); cbn [negb]; [by rewrite IH|].
    cbn [length]. rewrite IH, <- app_assoc. unfold used. do 3 f_equal.
    destruct (zlen x =? 0); [done|]. do 2 f_equal. lia.
Qed.

Lemma took_complete l : (forall k n, fwrite k n = n) -> forall k, took k l = concat l.
Proof.
  intros Hf. induction l as [|x l IH]; intros k; cbn; [done|]. zcase (zlen x =? 0).
  - rewrite IH. destruct x as [|b x]; [done|]. rewrite zlen_cons in *. pose proof (zlen_nonneg x). lia.
  - by rewrite IH, Hf, ztake_all by lia.
Qed.

End Append.

(** ** Properties *)

(** Reading a small file.  The loop of [readToString] ends, however the reads
    are cut up, and the content is the file's up to the maximal size; the size that
    [fstat] tells is stored when it is asked for. *)
Theorem read_small_file read fstat F maxSize want old fd size mtime ctime :
  reads_from read F -> 0 <= maxSize < 2 ^ 31 -> 0 <= fd ->
  fstat = Stat true false size mtime ctime -> 0 <= size ->
  exists o, readToString read fstat maxSize want old (new_reader fd 0) = Ok (0, o) /\
    content o = ztake maxSize F /\ (want.1.1 = true -> fileSize o = Some size).
Proof. apply readToString_spec. Qed.

Lemma ztake_zlen {A} m (l : list A) : ztake (zlen (ztake m l)) l = ztake m l.
Proof.
  rewrite zlen_ztake. destruct (decide (m <= zlen l)).
  - unfold ztake. f_equal. pose proof (zlen_nonneg l). lia.
  - rewrite !ztake_all; [done|lia|]. pose proof (zlen_nonneg l). lia.
Qed.

(** Reads of two bytes at most. *)
Definition read2 (F : list byte) (k : nat) (off n : Z) : read_answer :=
  ReadBytes (ztake (Z.min 2 n) (zdrop off F)).

Lemma read2_reads F : reads_from (read2 F) F.
Proof.
  intros k off n Hn Hoff. eexists. split; [done|]. split; [by rewrite ztake_zlen|].
  rewrite zlen_ztake, zlen_zdrop. lia.
Qed.

Lemma read_small_file_witness :
  exists o, readToString (read2 (bytes_of "hello world")) (Stat true false 11 0 0) 5 (true, false, false)
      (mkOutputs [] None None None) (new_reader 3 0) = Ok (0, o) /\ content o = bytes_of "hello".
Proof.
  destruct (read_small_file (read2 (bytes_of "hello world")) (Stat true false 11 0 0) (bytes_of "hello world")
    5 (true, false, false) (mkOutputs [] None None None) 3 11 0 0) as (o & E & Hc & _);
    [apply read2_reads|lia|lia|reflexivity|lia|].
  exists o. split; [exact E|]. rewrite Hc. vm_compute. reflexivity.
Defined.

End FileUtil.
