(* ===== verification/LogFile.v ===== *)
(** * [dws::LogFile]: LogFile.h, LogFile.cc

    A log that starts a new file when the current one is too large and when the day
    changes.  The clock, the host's name, the process id, the local time, whether
    [fopen] succeeds and what [fwrite] takes are parameters. *)

From S2P Require Import Prelude Text Timestamp FileUtil.
Import Timestamp (tm, tm_year, tm_mon, tm_mday, tm_hour, tm_min, tm_sec).

Module LogFile.

Definition kRollPerSeconds_ : Z := 60 * 60 * 24.

Section Log.
(** [time(nullptr)]: the [k]-th reading.  [fopen]: whether the [i]-th file can be opened;
    [fwrite]: how many of [n] bytes its [k]-th write takes. *)
Context (time : nat -> Z) (localtime_r : Z -> tm) (hostname : list byte) (pid : Z)
  (fopen : nat -> bool) (fwrite : nat -> nat -> Z -> Z).

(** [file_] is the current file; [closed]: the files that were closed, oldest first;
    [reads]: how often the clock was read; [asked]: the time that the last call of
    [rollFile] read. *)
Record LogFile := mkLog {
  basename_ : list byte;
  rollSize_ : Z;
  flushInterval_ : Z;
  checkEveryN_ : Z;
  count_ : Z;
  startOfPeriod_ : Z;
  lastRoll_ : Z;
  lastFlush_ : Z;
  file_ : option FileUtil.AppendFile;
  closed : list FileUtil.AppendFile;
  reads : nat;
  asked : Z
}.

Definition set_times (c p r f : Z) (s : LogFile) : LogFile :=
  mkLog (basename_ s) (rollSize_ s) (flushInterval_ s) (checkEveryN_ s) c p r f (file_ s) (closed s)
    (reads s) (asked s).
Definition set_file (f : option FileUtil.AppendFile) (cl : list FileUtil.AppendFile) (s : LogFile) : LogFile :=
  mkLog (basename_ s) (rollSize_ s) (flushInterval_ s) (checkEveryN_ s) (count_ s) (startOfPeriod_ s)
    (lastRoll_ s) (lastFlush_ s) f cl (reads s) (asked s).
Definition set_clock (n : nat) (a : Z) (s : LogFile) : LogFile :=
  mkLog (basename_ s) (rollSize_ s) (flushInterval_ s) (checkEveryN_ s) (count_ s) (startOfPeriod_ s)
    (lastRoll_ s) (lastFlush_ s) (file_ s) (closed s) n a.

(** [getLogFileName] at the time [now]; [strftime] with ".%Y%m%d-%H%M%S.". *)
Definition getLogFileName (basename : list byte) (now : Z) : list byte :=
  let t := localtime_r now in
  basename ++
  bytes_of "." ++ Text.decimal (tm_year t + 1900) ++ Text.decimal0 2 (tm_mon t + 1) ++
  Text.decimal0 2 (tm_mday t) ++ bytes_of "-" ++ Text.decimal0 2 (tm_hour t) ++
  Text.decimal0 2 (tm_min t) ++ Text.decimal0 2 (tm_sec t) ++ bytes_of "." ++
  hostname ++ Text.snprintf 32 (bytes_of "." ++ Text.decimal pid) ++ bytes_of ".log".

Definition start_of_period (now : Z) : Z := Z.quot now kRollPerSeconds_ * kRollPerSeconds_.

(** The files, oldest first. *)
Definition files (s : LogFile) : list FileUtil.AppendFile :=
  closed s ++ match file_ s with Some f => [f] | None => [] end.

(** [file_.reset(new AppendFile(name))]: opens the new file, then closes the old one. *)
Definition rollFile (s : LogFile) : result (bool * LogFile) :=
  let now := time (reads s) in
  let name := getLogFileName (basename_ s) now in
  let start := start_of_period now in
  let s := set_clock (S (reads s)) now s in
  if lastRoll_ s <? now then
    f ← FileUtil.new_file name (fopen (length (files s)));
    let cl := match file_ s with Some old => closed s ++ [FileUtil.flush old] | None => closed s end in
    Ok (true, set_file (Some f) cl (set_times (count_ s) start now now s))
  else Ok (false, s).

(** The constructor. *)
Definition new (basename : list byte) (rollSize flushInterval checkEveryN : Z) : result LogFile :=
  _ ← assert_ (bool_decide (Byte.x2f ∉ basename));
  '(_, s) ← rollFile (mkLog basename rollSize flushInterval checkEveryN 0 0 0 0 None [] 0 0);
  Ok s.

(** [file_->...]: dereferences the pointer. *)
Definition file (s : LogFile) : result FileUtil.AppendFile :=
  match file_ s with Some f => Ok f | None => Err UndefinedBehaviour end.

Definition flush (s : LogFile) : result LogFile :=
  f ← file s; Ok (set_file (Some (FileUtil.flush f)) (closed s) s).

Definition append_unlocked (logline : list byte) (s : LogFile) : result LogFile :=
  f ← file s;
  f ← FileUtil.append (fwrite (length (closed s))) logline f;
  let s := set_file (Some f) (closed s) s in
  if rollSize_ s <? FileUtil.writtenBytes_ f then
    '(_, s) ← rollFile s; Ok s
  else
    _ ← no_overflow 32 [count_ s + 1];
    let s := set_times (count_ s + 1) (startOfPeriod_ s) (lastRoll_ s) (lastFlush_ s) s in
    if checkEveryN_ s <=? count_ s then
      let s := set_times 0 (startOfPeriod_ s) (lastRoll_ s) (lastFlush_ s) s in
      let now := time (reads s) in
      let s := set_clock (S (reads s)) (asked s) s in
      let thisPeriod := start_of_period now in
      if negb (thisPeriod =? startOfPeriod_ s) then
        '(_, s) ← rollFile s; Ok s
      else if flushInterval_ s <? now - lastFlush_ s then
        flush (set_times (count_ s) (startOfPeriod_ s) (lastRoll_ s) now s)
      else Ok s
    else Ok s.

(** [append], and the two other public operations; the mutex makes each atomic. *)
Definition append (logline : list byte) (s : LogFile) : result LogFile := append_unlocked logline s.

Inductive op := Append (logline : list byte) | Flush | Roll.

Definition run_op (o : op) (s : LogFile) : result LogFile :=
  match o with
  | Append l => append l s
  | Flush => flush s
  | Roll => '(_, s) ← rollFile s; Ok s
  end.

Fixpoint run_ops (l : list op) (s : LogFile) : result LogFile :=
  match l with
  | [] => Ok s
  | o :: l => s ← run_op o s; run_ops l s
  end.

(** ** The invariant *)

Fixpoint lines (l : list op) : list (list byte) :=
  match l with
  | [] => []
  | Append x :: l => x :: lines l
  | _ :: l => lines l
  end.

(** Every write is complete. *)
Definition writes_complete : Prop := forall i k n, fwrite i k n = n.

(** What the files have taken, when each was given the texts of one of [parts]. *)
Definition stored (parts : list (list (list byte))) : list (list byte) :=
  imap (fun i part => FileUtil.took (fwrite i) 0 part) parts.

Lemma stored_snoc parts part :
  stored (parts ++ [part]) = stored parts ++ [FileUtil.took (fwrite (length parts)) 0 part].
Proof. unfold stored. rewrite imap_app. cbn. by rewrite Nat.add_0_r. Qed.

Lemma stored_length parts : length (stored parts) = length parts.
Proof. apply length_imap. Qed.

Lemma stored_complete parts : writes_complete -> stored parts = map (@concat byte) parts.
Proof.
  intros Hw. apply list_eq. intros i. unfold stored. rewrite list_lookup_imap.
  change (map (@concat byte) parts) with (@concat byte <$> parts). rewrite list_lookup_fmap.
  destruct (parts !! i); cbn; [|done]. f_equal. by apply FileUtil.took_complete.
Qed.

(** [total]: the lines appended in all.  The files have taken what the writes accepted of
    them in order, each line in one file. *)
Record Base (total : list (list byte)) (s : LogFile) : Prop := {
  base_file : exists f pc pf, file_ s = Some f /\ total = concat pc ++ pf /\
    map FileUtil.written (closed s) = stored pc /\
    FileUtil.written f = FileUtil.took (fwrite (length (closed s))) 0 pf /\
    FileUtil.writes f = FileUtil.used pf /\
    (writes_complete -> zlen (concat total) < 2 ^ 62 -> FileUtil.writtenBytes_ f = zlen (FileUtil.written f));
  base_closed : Forall (fun f => FileUtil.flushed f = FileUtil.written f) (closed s);
  base_config : 0 <= rollSize_ s /\ 0 < checkEveryN_ s < 2 ^ 31 /\ 0 <= count_ s < checkEveryN_ s;
  base_period : startOfPeriod_ s = start_of_period (lastRoll_ s)
}.

(** What the current file counts is within [rollSize_], unless its last roll was refused
    because less than a second had passed since it was opened. *)
Definition sized (s : LogFile) : Prop := exists f, file_ s = Some f /\
  (FileUtil.writtenBytes_ f <= rollSize_ s \/ asked s <= lastRoll_ s).

(** The code returns a value with [Q], or the assertion that [fopen] succeeded fails. *)
Definition opens {A} (r : result A) (Q : A -> Prop) : Prop :=
  match r with Ok a => Q a | Err e => e = AssertFailure /\ exists i, fopen i = false end.

Lemma opens_bind {A B} (r : result A) (k : A -> result B) (Q : A -> Prop) R :
  opens r Q -> (forall a, Q a -> opens (k a) R) -> opens (r ≫= k) R.
Proof. destruct r; cbn; auto. Qed.

Lemma opens_impl {A} (r : result A) (Q R : A -> Prop) : opens r Q -> (forall a, Q a -> R a) -> opens r R.
Proof. destruct r; cbn; auto. Qed.

Lemma closed_length (l : list FileUtil.AppendFile) parts : map FileUtil.written l = stored parts -> length l = length parts.
Proof. intros E. apply (f_equal length) in E. by rewrite length_map, stored_length in E. Qed.

Lemma base_stored total s : Base total s -> exists parts,
  concat parts = total /\ map FileUtil.written (files s) = stored parts.
Proof.
  intros [(f & pc & pf & Ef & Ht & Hc & Hf & _) _ _ _]. exists (pc ++ [pf]). split.
  - by rewrite Ht, concat_app; cbn; rewrite app_nil_r.
  - unfold files. rewrite Ef, map_app, stored_snoc, Hc. cbn. by rewrite Hf, (closed_length _ _ Hc).
Qed.

(** One append to the current file. *)
Lemma append_taken total x s f pc pf : file_ s = Some f -> total = concat pc ++ pf ->
  FileUtil.written f = FileUtil.took (fwrite (length (closed s))) 0 pf -> FileUtil.writes f = FileUtil.used pf ->
  (writes_complete -> zlen (concat total) < 2 ^ 62 -> FileUtil.writtenBytes_ f = zlen (FileUtil.written f)) ->
  exists f', FileUtil.append (fwrite (length (closed s))) x f = Ok f' /\
    FileUtil.written f' = FileUtil.took (fwrite (length (closed s))) 0 (pf ++ [x]) /\
    FileUtil.writes f' = FileUtil.used (pf ++ [x]) /\
    (writes_complete -> zlen (concat (total ++ [x])) < 2 ^ 62 ->
       FileUtil.writtenBytes_ f' = zlen (FileUtil.written f')).
Proof.
  intros Ef Ht Hf Hu Hw. rewrite FileUtil.file_append_spec, FileUtil.took_snoc, FileUtil.used_snoc, Hu.
  eexists. split; [done|]. pose proof (zlen_nonneg (FileUtil.written f)). pose proof (zlen_nonneg x).
  assert (writes_complete -> zlen (concat (total ++ [x])) < 2 ^ 62 -> 
    zlen (concat total) < 2 ^ 62 /\ zlen (FileUtil.written f) + zlen x < 2 ^ 62) as Hb.
  { intros Hc Hz. rewrite concat_app, zlen_app in Hz. cbn in Hz. rewrite app_nil_r in Hz. split; [lia|].
    rewrite Hf, FileUtil.took_complete by (intros; apply Hc). rewrite Ht, concat_app, zlen_app in Hz.
    pose proof (zlen_nonneg (concat (concat pc))). lia. }
  zcase (zlen x =? 0); cbn; rewrite ?app_nil_r, ?Hf; split_and!; try done; intros Hc Hz;
    destruct (Hb Hc Hz) as [H1 H2]; specialize (Hw Hc H1); rewrite Hw, <- Hf.
  - rewrite wraps_small; lia.
  - rewrite Hc, Z.eqb_refl, ztake_all by lia. rewrite zlen_app, wraps_small; lia.
Qed.

Lemma rollFile_ok total s : Base total s ->
  opens (rollFile s) (fun '(b, s') => b = bool_decide (lastRoll_ s < time (reads s)) /\ Base total s' /\ sized s').
Proof.
  intros [(f & pc & pf & Ef & Ht & Hc & Hf & Hu & Hw) Hcl (Hr & Hn & Hk) Hp]. unfold rollFile.
  cbn [lastRoll_ set_clock file_ closed files]. zcase (lastRoll_ s <? time (reads s)).
  - unfold FileUtil.new_file. destruct (fopen _) eqn:Eo; [|by split; [|eexists]]. cbn [assert_]. rewrite !bind_ok, Ef.
    cbn. split; [by rewrite bool_decide_true|]. split.
    + split; cbn; try done; [|by apply Forall_app; split; [|repeat constructor]].
      eexists _, (pc ++ [pf]), []. split_and!; try done.
      * by rewrite concat_app, Ht, !app_nil_r; cbn; rewrite app_nil_r.
      * rewrite map_app, stored_snoc, Hc. cbn. by rewrite Hf, (closed_length _ _ Hc).
    + eexists. split; [done|]. by left.
  - cbn. split; [by rewrite bool_decide_false by lia|]. split.
    + split; cbn; try done. by exists f, pc, pf.
    + exists f. split; [done|]. right. cbn. lia.
Qed.

Lemma flush_ok total s : Base total s -> exists s', flush s = Ok s' /\ Base total s' /\ (sized s -> sized s').
Proof.
  intros [(f & pc & pf & Ef & Hrest) Hcl Hr Hp]. unfold flush, file. rewrite Ef, bind_ok.
  eexists. split; [done|]. split.
  - split; cbn; try done. by eexists _, pc, pf.
  - intros (g & Eg & Hg). eexists. split; [done|]. cbn. congruence.
Qed.

(** One append: the line goes to the current file; then the file is closed because it
    is too large, or, every [checkEveryN_] lines, because the day changed, or it is
    flushed because the last flush is too old. *)
Lemma log_append_ok total x s : Base total s ->
  opens (append x s) (fun s' => Base (total ++ [x]) s' /\ sized s').
Proof.
  intros [(f & pc & pf & Ef & Ht & Hc & Hf & Hu & Hw) Hcl (Hr & Hn & Hk) Hp].
  destruct (append_taken total x s f pc pf Ef Ht Hf Hu Hw) as (f' & Eapp & Hf' & Hu' & Hw').
  unfold append, append_unlocked, file. rewrite Ef, bind_ok, Eapp, bind_ok.
  set (s1 := set_file (Some f') (closed s) s).
  assert (Base (total ++ [x]) s1) as Hbase.
  { split; cbn; try done. exists f', pc, (pf ++ [x]). split_and!; try done. by rewrite Ht, app_assoc. }
  assert (forall t, Base (total ++ [x]) t ->
    opens ('(_, t) ← rollFile t; Ok t) (fun s' => Base (total ++ [x]) s' /\ sized s')) as Hroll.
  { intros t Hb. eapply opens_bind; [by apply rollFile_ok|]. intros [b t'] (_ & ? & ?). by split. }
  zcase (rollSize_ s1 <? FileUtil.writtenBytes_ f'); [by apply Hroll|].
  cbn [count_ set_file s1]. rewrite no_overflow_ok by (repeat constructor; lia). rewrite bind_ok.
  cbn [checkEveryN_ set_times count_ startOfPeriod_ lastRoll_ lastFlush_ set_file].
  zcase (checkEveryN_ s1 <=? count_ s + 1).
  - set (s2 := set_clock (S (reads s)) (asked s) (set_times 0 (startOfPeriod_ s) (lastRoll_ s) (lastFlush_ s) s1)).
    assert (Base (total ++ [x]) s2) as Hbase2 by (destruct Hbase; split; cbn in *; try done; lia).
    assert (sized s2) as Hsz2 by (exists f'; split; [done|left; done]).
    match goal with |- context [set_clock _ _ ?t] => change (set_clock _ _ t) with s2 end.
    cbn [startOfPeriod_ s2 set_clock set_times]. case_match; [by apply Hroll|].
    case_match.
    + set (s3 := set_times _ _ _ _ _). assert (Base (total ++ [x]) s3) as Hbase3.
      { destruct Hbase2; split; cbn in *; try done; lia. }
      destruct (flush_ok _ s3 Hbase3) as (s' & -> & Hb & Hsz). split; [done|]. by apply Hsz.
    + done.
  - cbn. split.
    + destruct Hbase; split; cbn in *; try done; lia.
    + exists f'. split; [done|]. left. cbn in *. lia.
Qed.

(** The constructor opens the first file, since the clock is past 0. *)
Lemma log_new_ok basename rollSize flushInterval checkEveryN :
  0 < time 0 -> Byte.x2f ∉ basename -> 0 <= rollSize -> 0 < checkEveryN < 2 ^ 31 ->
  opens (new basename rollSize flushInterval checkEveryN)
    (fun s => Base [] s /\ sized s /\ exists f, files s = [f] /\ FileUtil.flushed f = FileUtil.written f).
Proof.
  intros Hpos Hb Hr Hn. unfold new. rewrite assert_decide, bind_ok by done. unfold rollFile.
  cbn [lastRoll_ set_clock reads]. zcase (0 <? time 0); [|lia]. unfold FileUtil.new_file.
  destruct (fopen _) eqn:Eo; [|by split; [|eexists]]. cbn. split; [|split].
  - split; cbn; try done; [|lia]. by eexists _, [], [].
  - eexists. split; [done|]. by left.
  - by eexists.
Qed.

Lemma lines_app l k : lines (l ++ k) = lines l ++ lines k.
Proof. induction l as [|[] l IH]; cbn; by rewrite ?IH. Qed.

Lemma run_ops_ok l total s : Base total s -> sized s ->
  opens (run_ops l s) (fun s' => Base (total ++ lines l) s' /\ sized s').
Proof.
  revert total s. induction l as [|o l IH]; intros total s Hb Hs; cbn [run_ops lines].
  - by rewrite app_nil_r.
  - destruct o as [x| |]; cbn [run_op lines] in *.
    + replace (total ++ x :: lines l) with ((total ++ [x]) ++ lines l) by (by rewrite <- app_assoc).
      eapply opens_bind; [by apply log_append_ok|]. intros s1 [Hb1 Hs1]. by apply IH.
    + destruct (flush_ok total s Hb) as (s1 & -> & Hb1 & Hs1). rewrite bind_ok. apply IH; auto.
    + apply opens_bind with (Q := fun s1 => Base total s1 /\ sized s1).
      * eapply opens_bind; [by apply rollFile_ok|]. intros [b s1] (_ & ? & ?). by split.
      * intros s1 [Hb1 Hs1]. by apply IH.
Qed.

(** The day changed: the check that comes every [checkEveryN_] lines rolls. *)
Lemma append_next_day total x s f : Base total s -> file_ s = Some f ->
  checkEveryN_ s <= count_ s + 1 -> fopen (length (files s)) = true ->
  (forall f', FileUtil.append (fwrite (length (closed s))) x f = Ok f' -> FileUtil.writtenBytes_ f' <= rollSize_ s) ->
  start_of_period (time (reads s)) <> startOfPeriod_ s -> lastRoll_ s < time (S (reads s)) ->
  exists s' g g', append x s = Ok s' /\ closed s' = closed s ++ [g] /\
    FileUtil.append (fwrite (length (closed s))) x f = Ok (FileUtil.mkAppend (FileUtil.filename g)
      (FileUtil.written g) (FileUtil.flushed f) (FileUtil.writtenBytes_ g) (FileUtil.writes g)) /\
    FileUtil.flushed g = FileUtil.written g /\ file_ s' = Some g' /\ FileUtil.written g' = [] /\
    startOfPeriod_ s' = start_of_period (lastRoll_ s').
Proof.
  intros Hb Ef Hn Ho Hz Hday Hlate. pose proof Hb as [(f0 & pc & pf & Ef0 & Ht & Hc & Hf & Hu & Hw) Hcl (Hr & HN & Hk) Hp].
  assert (f0 = f) as -> by congruence.
  destruct (append_taken total x s f pc pf Ef Ht Hf Hu Hw) as (f' & Eapp & _). specialize (Hz f' Eapp).
  assert (FileUtil.flushed f' = FileUtil.flushed f) as Hfl.
  { rewrite FileUtil.file_append_spec in Eapp. injection Eapp as <-. by destruct (zlen x =? 0). }
  unfold append, append_unlocked, file. rewrite Ef, bind_ok, Eapp, bind_ok.
  cbn [rollSize_ set_file]. zcase (rollSize_ s <? FileUtil.writtenBytes_ f'); [lia|].
  cbn [count_ set_file]. rewrite no_overflow_ok by (repeat constructor; lia). rewrite bind_ok.
  cbn [checkEveryN_ set_times count_ startOfPeriod_ lastRoll_ lastFlush_ set_file reads set_clock asked].
  zcase (checkEveryN_ s <=? count_ s + 1); [|lia].
  assert ((start_of_period (time (reads s)) =? startOfPeriod_ s) = false) as -> by (by apply Z.eqb_neq).
  cbn [negb]. unfold rollFile. cbn [lastRoll_ set_clock set_times set_file reads].
  zcase (lastRoll_ s <? time (S (reads s))); [|lia]. unfold FileUtil.new_file.
  match goal with |- context [fopen (length (files ?t))] =>
    assert (length (files t) = length (files s)) as -> by (unfold files; cbn; rewrite Ef, !length_app; done) end.
  rewrite Ho. cbn [assert_]. rewrite !bind_ok.
  eexists _, (FileUtil.flush f'), _. split; [done|]. split_and!; try done. cbn. rewrite <- Hfl. by destruct f'.
Qed.

End Log.

(** ** Properties *)


(** The log rolls at midnight.  When the check that comes every [checkEveryN]
    lines reads a time of another day than that of the current file, the line still
    goes to that file, which is closed, and a new, empty file is opened. *)
Theorem log_file_rolls time localtime_r hostname pid fopen fwrite basename rollSize flushInterval checkEveryN l
    s0 s x f :
  0 < time 0%nat -> Byte.x2f ∉ basename -> 0 <= rollSize -> 0 < checkEveryN < 2 ^ 31 ->
  new time localtime_r hostname pid fopen basename rollSize flushInterval checkEveryN = Ok s0 ->
  run_ops time localtime_r hostname pid fopen fwrite l s0 = Ok s ->
  file_ s = Some f -> checkEveryN_ s <= count_ s + 1 -> fopen (length (files s)) = true ->
  (forall f', FileUtil.append (fwrite (length (closed s))) x f = Ok f' -> FileUtil.writtenBytes_ f' <= rollSize_ s) ->
  start_of_period (time (reads s)) <> startOfPeriod_ s -> lastRoll_ s < time (S (reads s)) ->
  exists s' g g', append time localtime_r hostname pid fopen fwrite x s = Ok s' /\ closed s' = closed s ++ [g] /\
    FileUtil.append (fwrite (length (closed s))) x f = Ok (FileUtil.mkAppend (FileUtil.filename g)
      (FileUtil.written g) (FileUtil.flushed f) (FileUtil.writtenBytes_ g) (FileUtil.writes g)) /\
    FileUtil.flushed g = FileUtil.written g /\ file_ s' = Some g' /\ FileUtil.written g' = [] /\
    startOfPeriod_ s' = start_of_period (lastRoll_ s').
Proof.
  intros Hpos Hb Hr Hn E0 E Ef Hc Ho Hx Hd Hlate.
  pose proof (log_new_ok time localtime_r hostname pid fopen fwrite basename rollSize flushInterval checkEveryN Hpos Hb Hr Hn)
    as Hnew. rewrite E0 in Hnew. destruct Hnew as (B0 & S0 & _).
  pose proof (run_ops_ok time localtime_r hostname pid fopen fwrite l [] s0 B0 S0) as Hrun. rewrite E in Hrun.
  by eapply append_next_day; [apply Hrun|..].
Qed.

(** A clock that is read every five seconds, shortly before midnight; files that can be
    opened, in all of which the third write takes one byte. *)
Definition time0 (k : nat) : Z := 86390 + 5 * Z.of_nat k.
Definition tm0 (t : Z) : tm := Timestamp.mkTm 70 0 (1 + t / 86400) (t / 3600 mod 24) (t / 60 mod 60) (t mod 60).
Definition fopen0 (i : nat) : bool := true.
Definition fwrite0 (i k : nat) (n : Z) : Z := n.
Definition fwrite1 (i k : nat) (n : Z) : Z := match k with 2%nat => 1 | _ => n end.
Definition host0 : list byte := bytes_of "host".

Lemma log_base0_ok : Byte.x2f ∉ bytes_of "log".
Proof. vm_compute. intros H. repeat (inversion H as [|? ? ? H']; subst; clear H; rename H' into H). Qed.

Definition ops0 : list op :=
  [Append (bytes_of "ab"); Flush; Append (bytes_of "cd"); Append (bytes_of "ef"); Append (bytes_of "gh")].

Definition log_value (r : result LogFile) : LogFile :=
  match r with Ok s => s | Err _ => mkLog [] 0 0 0 0 0 0 0 None [] 0 0 end.


Definition log0 : LogFile := log_value (new time0 tm0 host0 42 fopen0 (bytes_of "log") 100 3 1).
Definition log1 : LogFile := log_value (run_ops time0 tm0 host0 42 fopen0 fwrite0 [Append (bytes_of "a")] log0).

Lemma log_file_rolls_witness :
  exists s' g g', append time0 tm0 host0 42 fopen0 fwrite0 (bytes_of "b") log1 = Ok s' /\
    closed s' = closed log1 ++ [g] /\ file_ s' = Some g' /\ FileUtil.written g' = [].
Proof.
  destruct (log_file_rolls time0 tm0 host0 42 fopen0 fwrite0 (bytes_of "log") 100 3 1 [Append (bytes_of "a")]
    log0 log1 (bytes_of "b") (FileUtil.mkAppend (getLogFileName tm0 host0 42 (bytes_of "log") 86390)
      (bytes_of "a") (bytes_of "a") 1 1)) as (s' & g & g' & E & Ec & _ & _ & Ef & Eg' & _).
  - vm_compute. reflexivity.
  - exact log_base0_ok.
  - lia.
  - lia.
  - vm_compute. reflexivity.
  - vm_compute. reflexivity.
  - vm_compute. reflexivity.
  - vm_compute. discriminate.
  - reflexivity.
  - intros f'. vm_compute. intros [= <-]. discriminate.
  - vm_compute. discriminate.
  - vm_compute. reflexivity.
  - exists s', g, g'. split; [exact E|]. split; [exact Ec|]. split; [exact Ef|exact Eg'].
Defined.

End LogFile.
