(* ===== verification/LogPipeline.v ===== *)
(** * From the threads to the files: AsyncLogging.cc with its LogFile

    AsyncLogging.v has the threads and the buffers, and records what the writing
    thread does with them; LogFile.v has the files.  Here they run as one system: the
    thread of [threadFunc] owns a [LogFile] and gives it every buffer it writes.  Runs
    begin when that thread is in [threadFunc] and end with it: the fault that
    [Thread::start] prepares for a thread (Thread.v) strikes before or after. *)

From S2P Require Import Prelude LogStream Timestamp AsyncLogging FileUtil LogFile.
Import AsyncLogging (chunk, Written, Dropped, Notice).

Module LogPipeline.

Section Pipeline.
Context (SIZE : Z) (time : nat -> Z) (localtime_r : Z -> Timestamp.tm) (hostname : list byte) (pid : Z)
  (fopen : nat -> bool) (fwrite : nat -> nat -> Z -> Z) (basename : list byte) (rollSize : Z).

(** [output]: the local of [threadFunc]. *)
Record System := mkSystem { front : AsyncLogging.AsyncLogging; output : option LogFile.LogFile }.

Definition new : System := mkSystem (AsyncLogging.new SIZE) None.

(** The texts that [output.append] is given. *)
Definition texts (h : list chunk) : list (list byte) :=
  omap (fun c => match c with Written d | Notice d => Some d | Dropped _ => None end) h.

(** [LogFile output(basename_, rollSize_, false)]. *)
Definition open_output : result LogFile.LogFile :=
  LogFile.new time localtime_r hostname pid fopen basename rollSize 3 1024.
Definition run_output (l : list LogFile.op) (o : option LogFile.LogFile) : result (option LogFile.LogFile) :=
  match o with
  | Some o => o ← LogFile.run_ops time localtime_r hostname pid fopen fwrite l o; Ok (Some o)
  | None => Err UndefinedBehaviour
  end.

(** A step of the writing thread with what it does to its file: it opens it, writes the
    buffers it took over, or flushes it and returns. *)
Definition thread_step (stamp : list byte) (s : System) : result System :=
  a ← AsyncLogging.thread_step SIZE stamp (front s);
  let fresh := texts (drop (length (AsyncLogging.history (front s))) (AsyncLogging.history a)) in
  match AsyncLogging.at_ (front s) with
  | AsyncLogging.Starting => o ← open_output; Ok (mkSystem a (Some o))
  | AsyncLogging.Writing =>
      o ← run_output (map LogFile.Append fresh ++ [LogFile.Flush]) (output s); Ok (mkSystem a o)
  | AsyncLogging.Testing =>
      if AsyncLogging.running_ (front s) then Ok (mkSystem a (output s))
      else o ← run_output [LogFile.Flush] (output s); Ok (mkSystem a o)
  | _ => Ok (mkSystem a (output s))
  end.

(** The other threads only see the front. *)
Inductive step : System -> System -> Prop :=
| step_append l s a : zlen l < 2 ^ 31 -> AsyncLogging.append SIZE l (front s) = Ok a ->
    step s (mkSystem a (output s))
| step_start s : AsyncLogging.at_ (front s) = AsyncLogging.NotStarted ->
    step s (mkSystem (AsyncLogging.start (front s)) (output s))
| step_stop s : AsyncLogging.at_ (front s) <> AsyncLogging.NotStarted ->
    AsyncLogging.at_ (front s) <> AsyncLogging.Starting ->
    step s (mkSystem (AsyncLogging.stop (front s)) (output s))
| step_thread stamp s s' : thread_step stamp s = Ok s' -> step s s'.

(** ** The file is the history *)

Context (Hsize : 0 < SIZE < 2 ^ 31) (Hclock : 0 < time 0%nat).
Context (Hbase : Byte.x2f ∉ basename) (Hroll : 0 <= rollSize).
Abbreviation opens := (LogFile.opens fopen).
Abbreviation Base := (LogFile.Base fwrite).

Lemma texts_app h k : texts (h ++ k) = texts h ++ texts k.
Proof. apply omap_app. Qed.

Lemma texts_file h : concat (texts h) = AsyncLogging.file h.
Proof. induction h as [|[] h IH]; cbn; by rewrite <- ?IH. Qed.

Lemma lines_appends l : LogFile.lines (map LogFile.Append l) = l.
Proof. induction l as [|x l IH]; cbn; [done|]. by rewrite IH. Qed.

(** What the files have taken, oldest first. *)
Definition on_disk (o : LogFile.LogFile) : list byte := concat (map FileUtil.written (LogFile.files o)).

(** Everything in the files is flushed. *)
Definition settled (o : LogFile.LogFile) : Prop :=
  Forall (fun f => FileUtil.flushed f = FileUtil.written f) (LogFile.files o).

Definition has_output (p : AsyncLogging.pc) : Prop := p <> AsyncLogging.NotStarted /\ p <> AsyncLogging.Starting.

(** The files have taken what the history says. *)
Definition holds (h : list chunk) (o : LogFile.LogFile) : Prop :=
  Base (texts h) o /\ LogFile.sized o /\ settled o.
Definition output_ok (s : System) : Prop :=
  match AsyncLogging.at_ (front s) with
  | AsyncLogging.NotStarted | AsyncLogging.Starting => AsyncLogging.history (front s) = []
  | _ => exists o, output s = Some o /\ holds (AsyncLogging.history (front s)) o
  end.
Definition Inv (s : System) : Prop := AsyncLogging.Inv SIZE (front s) /\ output_ok s.

(** A flush settles. *)
Lemma flush_settled total o : Base total o -> LogFile.sized o ->
  exists o', LogFile.flush o = Ok o' /\ Base total o' /\ LogFile.sized o' /\ settled o'.
Proof.
  intros Hb Hs. destruct (LogFile.flush_ok fwrite total o Hb) as (o' & E & Hb' & Hs').
  exists o'. split_and!; [done|done|by apply Hs'|].
  unfold LogFile.flush in E. inv_ok. subst o'. pose proof (LogFile.base_closed _ _ _ Hb).
  apply Forall_app. split; [done|]. by apply Forall_singleton.
Qed.

Lemma run_ops_snoc l o x : LogFile.run_ops time localtime_r hostname pid fopen fwrite (l ++ [x]) o =
  (o ← LogFile.run_ops time localtime_r hostname pid fopen fwrite l o; LogFile.run_op time localtime_r hostname pid fopen fwrite x o).
Proof.
  revert o. induction l as [|y l IH]; intros o; cbn.
  - by destruct (LogFile.run_op _ _ _ _ _ _ x o).
  - rewrite bind_assoc. apply bind_ext. intros a _. apply IH.
Qed.

Lemma appends_settled h l o : holds h o ->
  opens (run_output (map LogFile.Append l ++ [LogFile.Flush]) (Some o)) (fun o' => exists o1, o' = Some o1 /\
    Base (texts h ++ l) o1 /\ LogFile.sized o1 /\ settled o1).
Proof.
  intros (Hb & Hs & _). cbn [run_output]. rewrite run_ops_snoc, bind_assoc.
  eapply LogFile.opens_bind; [by apply (LogFile.run_ops_ok time localtime_r hostname pid fopen fwrite (map LogFile.Append l))|].
  intros o1 [Hb1 Hs1]. rewrite lines_appends in Hb1.
  destruct (flush_settled _ _ Hb1 Hs1) as (o2 & E & Hb2). cbn [LogFile.run_op]. rewrite E, bind_ok. cbn. by exists o2.
Qed.

Lemma open_ok : opens open_output (holds []).
Proof.
  eapply LogFile.opens_impl; [by apply LogFile.log_new_ok|]. intros o (Hb & Hs & f & Ef & Hf).
  split_and!; [done|done|]. unfold settled. rewrite Ef. by apply Forall_singleton.
Qed.

(** What a step of the writing thread does to the place it is at and to the history. *)
Definition moves (a a' : AsyncLogging.AsyncLogging) : Prop :=
  match AsyncLogging.at_ a with
  | AsyncLogging.Starting =>
      AsyncLogging.at_ a' = AsyncLogging.Testing /\ AsyncLogging.history a' = AsyncLogging.history a
  | AsyncLogging.Testing => has_output (AsyncLogging.at_ a') /\ AsyncLogging.history a' = AsyncLogging.history a
  | AsyncLogging.Waiting => has_output (AsyncLogging.at_ a') /\ AsyncLogging.history a' = AsyncLogging.history a
  | AsyncLogging.Writing =>
      has_output (AsyncLogging.at_ a') /\ exists h, AsyncLogging.history a' = AsyncLogging.history a ++ h
  | AsyncLogging.NotStarted | AsyncLogging.Returned => a' = a
  end.

Lemma take_over_moves a :
  has_output (AsyncLogging.at_ (AsyncLogging.take_over a)) /\
  AsyncLogging.history (AsyncLogging.take_over a) = AsyncLogging.history a.
Proof. unfold AsyncLogging.take_over. by destruct (AsyncLogging.nextBuffer_ a). Qed.

Lemma thread_moves stamp a a' : AsyncLogging.thread_step SIZE stamp a = Ok a' -> moves a a'.
Proof.
  unfold AsyncLogging.thread_step, moves. destruct (AsyncLogging.at_ a); intros E.
  - by simplify_eq.
  - unfold AsyncLogging.enter in E. inv_ok. by subst a'.
  - unfold AsyncLogging.test in E. destruct (AsyncLogging.running_ a); inv_ok; [|by subst a'].
    destruct (AsyncLogging.no_buffers (AsyncLogging.buffers_ a)); inv_ok; subst a'; [done|apply take_over_moves].
  - inv_ok. subst a'. apply take_over_moves.
  - unfold AsyncLogging.write in E. inv_ok. destruct (if _ <? _ then _ else _) as [[pre bs] post].
    apply bind_ok_inv in E as (h & _ & E). apply bind_ok_inv in E as ([b1 bs1] & _ & E).
    apply bind_ok_inv in E as ([b2 bs2] & _ & E). injection E as <-. by split; [|eexists].
  - by simplify_eq.
Qed.

Lemma moves_out a a' : moves a a' ->
  has_output (AsyncLogging.at_ a') \/
  (AsyncLogging.at_ a = AsyncLogging.NotStarted \/ AsyncLogging.at_ a = AsyncLogging.Starting) /\ a' = a.
Proof.
  unfold moves. destruct (AsyncLogging.at_ a) eqn:E; [auto|intros [-> _]; by left|naive_solver..|].
  intros ->. left. by rewrite E.
Qed.

Lemma output_ok_at s : has_output (AsyncLogging.at_ (front s)) -> output_ok s <->
  exists o, output s = Some o /\ holds (AsyncLogging.history (front s)) o.
Proof. unfold output_ok. intros [H1 H2]. by destruct (AsyncLogging.at_ (front s)). Qed.

(** A step of the thread succeeds and the files keep up with the history, unless a file
    cannot be opened. *)
Lemma thread_output stamp s a : Inv s -> AsyncLogging.thread_step SIZE stamp (front s) = Ok a ->
  opens (thread_step stamp s) (fun s' => front s' = a /\ output_ok s').
Proof.
  intros [Hi Ho] E. pose proof (thread_moves stamp _ _ E) as Hm. unfold thread_step. rewrite E, bind_ok.
  unfold moves in Hm. unfold output_ok in Ho. destruct (AsyncLogging.at_ (front s)) eqn:Ea.
  - subst a. split; [done|]. unfold output_ok. cbn. by rewrite Ea.
  - destruct Hm as [Ha Hh]. eapply LogFile.opens_bind; [apply open_ok|]. intros o Hb. split; [done|].
    unfold output_ok. cbn. rewrite Ha, Hh, Ho. by exists o.
  - destruct Hm as [Ha Hh]. destruct Ho as (o & Eo & Hb). destruct (AsyncLogging.running_ (front s)).
    + split; [done|]. apply output_ok_at; [done|]. cbn. rewrite Hh. by exists o.
    + rewrite Eo. change [LogFile.Flush] with (map LogFile.Append [] ++ [LogFile.Flush]).
      eapply LogFile.opens_bind; [exact (appends_settled _ [] _ Hb)|]. intros o' (o1 & -> & Hb').
      rewrite app_nil_r in Hb'. split; [done|]. apply output_ok_at; [done|]. cbn. rewrite Hh. by exists o1.
  - destruct Hm as [Ha Hh]. destruct Ho as (o & Eo & Hb).
    split; [done|]. apply output_ok_at; [done|]. cbn. rewrite Hh. by exists o.
  - destruct Hm as (Ha & h & Hh). destruct Ho as (o & Eo & Hb). rewrite Hh, drop_app_length, Eo.
    eapply LogFile.opens_bind; [exact (appends_settled _ (texts h) _ Hb)|]. intros o' (o1 & -> & Hb').
    split; [done|]. apply output_ok_at; [done|]. cbn. exists o1. split; [done|].
    unfold holds. by rewrite Hh, texts_app.
  - subst a. split; [done|]. unfold output_ok. cbn. by rewrite Ea.
Qed.

(** The other threads change neither what is written nor where the thread is. *)
Lemma append_keeps l a a' : AsyncLogging.append SIZE l a = Ok a' ->
  AsyncLogging.at_ a' = AsyncLogging.at_ a /\ AsyncLogging.history a' = AsyncLogging.history a.
Proof. unfold AsyncLogging.append. intros E. inv_ok. case_match; inv_ok; by subst a'. Qed.

Lemma output_ok_keep s a : AsyncLogging.at_ a = AsyncLogging.at_ (front s) ->
  AsyncLogging.history a = AsyncLogging.history (front s) -> output_ok s -> output_ok (mkSystem a (output s)).
Proof. unfold output_ok. cbn. by intros -> ->. Qed.

Lemma thread_step_front stamp s s' : thread_step stamp s = Ok s' ->
  AsyncLogging.thread_step SIZE stamp (front s) = Ok (front s').
Proof.
  unfold thread_step. intros E. apply bind_ok_inv in E as (a & -> & E).
  destruct (AsyncLogging.at_ (front s)); [| |destruct (AsyncLogging.running_ (front s))| | |]; inv_ok; by subst s'.
Qed.

Lemma step_front s s' : step s s' -> AsyncLogging.step SIZE (front s) (front s').
Proof.
  intros [l t a Hl E|t E|t E1 E2|stamp t t' E]; [by eapply AsyncLogging.step_append|by apply AsyncLogging.step_start|
    by apply AsyncLogging.step_stop|by eapply AsyncLogging.step_thread, thread_step_front].
Qed.

Lemma step_inv s s' : Inv s -> step s s' -> Inv s'.
Proof.
  intros [Hi Ho] Hst. pose proof (AsyncLogging.async_step_inv SIZE Hsize _ _ Hi (step_front _ _ Hst)) as Hi'.
  split; [done|]. destruct Hst as [l s a Hl E|s E|s E1 E2|stamp s s' E].
  - destruct (append_keeps _ _ _ E). by apply output_ok_keep.
  - unfold output_ok in *. cbn. by rewrite E in Ho.
  - by apply output_ok_keep.
  - pose proof (thread_output stamp s (front s') (conj Hi Ho) (thread_step_front _ _ _ E)) as Hs.
    rewrite E in Hs. apply Hs.
Qed.

Lemma pipeline_new_inv : Inv new.
Proof. split; [by apply AsyncLogging.async_new_inv|done]. Qed.

Lemma reachable_inv s : rtc step new s -> Inv s.
Proof. intros Hs. apply (rtc_invariant step Inv new s step_inv Hs pipeline_new_inv). Qed.

Lemma settled_flushed o : settled o ->
  map FileUtil.flushed (LogFile.files o) = map FileUtil.written (LogFile.files o).
Proof. unfold settled. induction 1 as [|f l Hf _ IH]; cbn; by f_equal. Qed.

(** What the invariant says of the files; [on_disk] when the writes are complete. *)
Lemma output_files s : Inv s -> has_output (AsyncLogging.at_ (front s)) ->
  exists o parts, output s = Some o /\ concat parts = texts (AsyncLogging.history (front s)) /\
    map FileUtil.written (LogFile.files o) = LogFile.stored fwrite parts /\
    map FileUtil.flushed (LogFile.files o) = map FileUtil.written (LogFile.files o) /\
    (LogFile.writes_complete fwrite -> on_disk o = AsyncLogging.file (AsyncLogging.history (front s))).
Proof.
  intros [_ Ho] Ha. destruct (proj1 (output_ok_at s Ha) Ho) as (o & Eo & Hb & _ & Hset).
  destruct (LogFile.base_stored _ _ _ Hb) as (parts & Ep & Em).
  exists o, parts. split_and!; [done..|by apply settled_flushed|].
  intros Hw. unfold on_disk. by rewrite Em, LogFile.stored_complete, concat_map_concat, Ep, texts_file.
Qed.

(** ** Rounds of the writing thread *)

Fixpoint thread_steps (stamp : list byte) (n : nat) (s : System) : result System :=
  match n with
  | O => Ok s
  | S n => s ← thread_step stamp s; thread_steps stamp n s
  end.

Lemma moves_history a a' : moves a a' -> exists h, AsyncLogging.history a' = AsyncLogging.history a ++ h.
Proof.
  unfold moves. destruct (AsyncLogging.at_ a).
  1, 6: intros ->; exists []; by rewrite app_nil_r.
  1-3: intros [_ ->]; exists []; by rewrite app_nil_r.
  by intros [_ ?].
Qed.

Lemma steps_history stamp n : forall a a', AsyncLogging.thread_steps SIZE stamp n a = Ok a' ->
  exists h, AsyncLogging.history a' = AsyncLogging.history a ++ h.
Proof.
  induction n as [|n IH]; intros a a' E; cbn in E.
  - inv_ok. subst a'. exists []. by rewrite app_nil_r.
  - apply bind_ok_inv in E as (b & Eb & E). destruct (moves_history _ _ (thread_moves _ _ _ Eb)) as [h Hh].
    destruct (IH _ _ E) as [k Hk]. exists (h ++ k). by rewrite Hk, Hh, app_assoc.
Qed.

(** As the threads step, the files keep up. *)
Lemma thread_steps_output stamp n : forall s a, Inv s ->
  AsyncLogging.thread_steps SIZE stamp n (front s) = Ok a ->
  opens (thread_steps stamp n s) (fun s' => front s' = a /\ Inv s').
Proof.
  induction n as [|n IH]; intros s a Hi E; cbn in E.
  - inv_ok. subst a. done.
  - apply bind_ok_inv in E as (b & Eb & E). cbn [thread_steps].
    pose proof (thread_output stamp s b Hi Eb) as Hs.
    destruct (thread_step stamp s) as [t|e] eqn:Et; [|exact Hs]. destruct Hs as [Ef Ho].
    assert (Inv t) as Ht by (by eapply step_inv, step_thread).
    rewrite bind_ok. subst b. by apply IH.
Qed.

End Pipeline.

(** Nothing but the lines: no buffer was dropped. *)
Definition all_written (h : list chunk) : bool :=
  forallb (fun c => match c with Written _ => true | _ => false end) h.

Lemma all_written_file h : all_written h = true -> AsyncLogging.file h = AsyncLogging.handled h.
Proof. induction h as [|[] h IH]; cbn; [done|intros E; by rewrite IH|done..]. Qed.

(** ** Properties *)

(** [C23] The log files hold the lines.  Whatever the threads that log do and whenever the
    writing thread, once it is in [threadFunc], runs, from the time it has opened its first
    file: the files, in the order in which they were opened, have of each buffer that the
    thread has taken over what its [fwrite_unlocked] accepts, each buffer in one file, and
    all of it was flushed.  If the writes are complete and no buffer was dropped, that is
    the accepted lines in order, up to those still in the buffers.  The thread's next step
    does not fail, unless it opens a file and cannot.  (The clock past 1970-01-01, a base name
    without a slash.) *)
Theorem log_files_hold_lines SIZE time localtime_r hostname pid fopen fwrite basename rollSize s :
  0 < SIZE < 2 ^ 31 -> 0 < time 0%nat -> Byte.x2f ∉ basename -> 0 <= rollSize ->
  rtc (step SIZE time localtime_r hostname pid fopen fwrite basename rollSize) (new SIZE) s ->
  has_output (AsyncLogging.at_ (front s)) ->
  exists o parts, output s = Some o /\ concat parts = texts (AsyncLogging.history (front s)) /\
    map FileUtil.written (LogFile.files o) = LogFile.stored fwrite parts /\
    map FileUtil.flushed (LogFile.files o) = map FileUtil.written (LogFile.files o) /\
    (LogFile.writes_complete fwrite -> all_written (AsyncLogging.history (front s)) = true ->
     on_disk o ++ AsyncLogging.pending (front s) =
       AsyncLogging.accepted SIZE (AsyncLogging.appended (front s))) /\
    forall stamp, match thread_step SIZE time localtime_r hostname pid fopen fwrite basename rollSize stamp s with
      | Ok s' => AsyncLogging.thread_step SIZE stamp (front s) = Ok (front s')
      | Err e => e = AssertFailure /\ exists i, fopen i = false
      end.
Proof.
  intros Hs Hc Hb Hr Hreach Ha.
  assert (Inv SIZE fwrite s) as Hi by (by eapply reachable_inv).
  destruct (output_files SIZE fwrite s Hi Ha) as (o & parts & Eo & Ep & Em & Hfl & Hfull).
  exists o, parts. split_and!; [done..| |].
  - intros Hw Hall. rewrite Hfull, all_written_file by done.
    symmetry. apply (AsyncLogging.inv_lines SIZE _ (proj1 Hi)).
  - intros stamp. destruct (AsyncLogging.thread_step_ok SIZE Hs stamp (front s) (proj1 Hi)) as (a & E & _).
    pose proof (thread_output SIZE time localtime_r hostname pid fopen fwrite basename rollSize Hc Hb Hr stamp s a Hi E)
      as Hst. unfold LogFile.opens in Hst. destruct (thread_step _ _ _ _ _ _ _ _ _ _ _) as [s'|e]; [|done].
    destruct Hst as [-> _]. done.
Qed.


(** Buffers of eight bytes: the second line does not fit behind the first. *)
Definition value {A} (d : A) (r : result A) : A := match r with Ok a => a | Err _ => d end.
Definition stepped (s : System) : System :=
  value s (thread_step 8 LogFile.time0 LogFile.tm0 LogFile.host0 42 LogFile.fopen0 LogFile.fwrite0 (bytes_of "log") 100 [] s).
Definition logged (x : string) (s : System) : System :=
  mkSystem (value (front s) (AsyncLogging.append 8 (bytes_of x) (front s))) (output s).
Definition system0 : System :=
  logged "defgh" (logged "abc" (stepped (mkSystem (AsyncLogging.start (front (new 8))) None))).
Definition system1 : System := logged "ij" (stepped (stepped system0)).

Definition step0 := step 8 LogFile.time0 LogFile.tm0 LogFile.host0 42 LogFile.fopen0 LogFile.fwrite0 (bytes_of "log") 100.

Lemma system0_reachable : rtc step0 (new 8) system0.
Proof.
  eapply rtc_l; [by apply step_start|].
  eapply rtc_l; [apply (step_thread _ _ _ _ _ _ _ _ _ []); vm_compute; reflexivity|].
  eapply rtc_l; [apply (step_append _ _ _ _ _ _ _ _ _ (bytes_of "abc")); [done|]; vm_compute; reflexivity|].
  apply rtc_once. apply (step_append _ _ _ _ _ _ _ _ _ (bytes_of "defgh")); [done|]. vm_compute. reflexivity.
Qed.

Lemma system1_reachable : rtc step0 (new 8) system1.
Proof.
  etransitivity; [exact system0_reachable|].
  eapply rtc_l; [apply (step_thread _ _ _ _ _ _ _ _ _ []); vm_compute; reflexivity|].
  eapply rtc_l; [apply (step_thread _ _ _ _ _ _ _ _ _ []); vm_compute; reflexivity|].
  apply rtc_once. apply (step_append _ _ _ _ _ _ _ _ _ (bytes_of "ij")); [done|]. vm_compute. reflexivity.
Qed.

Lemma log_files_hold_lines_witness :
  exists o, output system1 = Some o /\ on_disk o ++ bytes_of "ij" = bytes_of "abcdefghij".
Proof.
  destruct (log_files_hold_lines 8 LogFile.time0 LogFile.tm0 LogFile.host0 42 LogFile.fopen0 LogFile.fwrite0
    (bytes_of "log") 100 system1) as (o & _ & Eo & _ & _ & _ & Ed & _).
  - lia.
  - vm_compute. reflexivity.
  - exact LogFile.log_base0_ok.
  - lia.
  - exact system1_reachable.
  - vm_compute. split; discriminate.
  - exists o. split; [exact Eo|]. apply Ed; [intros i k n; reflexivity|]. vm_compute. reflexivity.
Defined.


End LogPipeline.
