(* ===== verification/EventLoopThread.v ===== *)
(** * [dws::net::EventLoopThread]: EventLoopThread.h, EventLoopThread.cc

    The handshake by which [startLoop] learns the loop of the new thread, and the
    destructor, step by step with the steps of [Thread::start], of the new thread and
    of [Thread::join] (Thread.v).  The system is small, so all its states are visited. *)

From S2P Require Import Prelude Thread.

Module EventLoopThread.

(** The thread that owns the object: in [thread_.start()]; about to check [loop_]; in
    [cond_.wait]; back with a loop; in the destructor, having seen [loop_] not null;
    in [thread_.join()]; done, with the thread joined or detached. *)
Inductive main_pc := Starting | Check | Asleep | Have | SawLoop | Joining | DoneJoined | DoneDetached.

(** [threadFunc]: not called; before the loop is constructed and handed to the callback;
    before the first critical section; in [loop.loop()]; before the second critical
    section; before the mutex is released; before the loop's destructor; returned. *)
Inductive func_pc := NotCalled | Construct | Publish | Looping | Clear | Unlock | Destroy | Returned.

(** [loop_set]: [loop_] is not null; [loop_alive]: the loop on the thread's stack
    exists; [object_alive]: the [EventLoopThread] exists. *)
Record EventLoopThread := mkELT {
  main : main_pc;
  func : func_pc;
  thread_ : Thread.Thread;
  loop_set : bool;
  loop_alive : bool;
  quit : bool;
  object_alive : bool
}.
#[global] Instance main_pc_eqdec : EqDecision main_pc.
Proof. solve_decision. Defined.
#[global] Instance func_pc_eqdec : EqDecision func_pc.
Proof. solve_decision. Defined.
#[global] Instance elt_eqdec : EqDecision EventLoopThread.
Proof. solve_decision. Defined.

Definition new : EventLoopThread := mkELT Starting NotCalled Thread.new false false false true.

Definition set_main (p : main_pc) (s : EventLoopThread) : EventLoopThread :=
  mkELT p (func s) (thread_ s) (loop_set s) (loop_alive s) (quit s) (object_alive s).
Definition set_func (p : func_pc) (s : EventLoopThread) : EventLoopThread :=
  mkELT (main s) p (thread_ s) (loop_set s) (loop_alive s) (quit s) (object_alive s).
Definition set_thread (t : Thread.Thread) (s : EventLoopThread) : EventLoopThread :=
  mkELT (main s) (func s) t (loop_set s) (loop_alive s) (quit s) (object_alive s).
Definition set_loop (b alive : bool) (s : EventLoopThread) : EventLoopThread :=
  mkELT (main s) (func s) (thread_ s) b alive (quit s) (object_alive s).
Definition set_quit (s : EventLoopThread) : EventLoopThread :=
  mkELT (main s) (func s) (thread_ s) (loop_set s) (loop_alive s) true (object_alive s).
Definition set_dead (p : main_pc) (s : EventLoopThread) : EventLoopThread :=
  mkELT p (func s) (thread_ s) (loop_set s) (loop_alive s) (quit s) false.

(** Steps of the member [thread_]. *)
Definition of_thread (steps : list (result Thread.Thread)) (s : EventLoopThread) : list (result EventLoopThread) :=
  map (fun r => t ← r; Ok (set_thread t s)) steps.

(** [startLoop]: [thread_.start()], then the critical section. *)
Definition startLoop (s : EventLoopThread) : list (result EventLoopThread) :=
  match main s with
  | Starting =>
      match Thread.owner (thread_ s) with
      | Thread.Idle =>
          if Thread.started_ (thread_ s) then [Err AssertFailure]
          else of_thread (Thread.start_step (thread_ s)) s
      | Thread.Started => [Ok (set_main Check s)]       (* [start] has returned *)
      | _ => of_thread (Thread.start_step (thread_ s)) s
      end
  | Check => if loop_set s then [Ok (set_main Have s)] else [Ok (set_main Asleep s)]
  | _ => []
  end.

(** The destructor; [loop_] is read without the mutex, and once more to call [quit]. *)
Definition destructor (s : EventLoopThread) : list (result EventLoopThread) :=
  match main s with
  | Have => if loop_set s then [Ok (set_main SawLoop s)] else [Ok (set_dead DoneDetached s)]
  | SawLoop =>
      [_ ← defined_ (loop_set s && loop_alive s); Ok (set_main Joining (set_quit s))]
  | Joining =>
      match Thread.owner (thread_ s) with
      | Thread.Joined => [Ok (set_dead DoneJoined s)]
      | _ => of_thread (Thread.start_step (thread_ s)) s     (* [join] *)
      end
  | _ => []
  end.

Section System.
(** What [~EventLoop] does at the end of [threadFunc].  It returns on a poller that
    keeps its contract, as PollPoller does, and fails an assertion on the default one
    ([LoopLife.loop_lifecycle], [LoopLife.epoll_loop_never_destroyed]). *)
Context (loop_destructor : result unit).

(** [threadFunc]; the object's members are used until the mutex is released. *)
Definition threadFunc (s : EventLoopThread) : list (result EventLoopThread) :=
  match func s with
  | Construct => [Ok (set_func Publish (set_loop (loop_set s) true s))]
  | Publish =>
      [_ ← defined_ (object_alive s);
       let s := set_func Looping (set_loop true (loop_alive s) s) in
       Ok (if bool_decide (main s = Asleep) then set_main Check s else s)]
  | Looping => if quit s then [Ok (set_func Clear s)] else []
  | Clear => [_ ← defined_ (object_alive s); Ok (set_func Unlock (set_loop false (loop_alive s) s))]
  | Unlock => [_ ← defined_ (object_alive s); Ok (set_func Destroy s)]
  | Destroy => [_ ← loop_destructor; Ok (set_func Returned (set_loop (loop_set s) false s))]
  | NotCalled | Returned => []
  end.

(** The new thread: [runInThread] up to the call of [func_], which is a member of the
    object that [start] has handed over; [threadFunc]; the rest of [startThread]. *)
Definition new_thread (s : EventLoopThread) : list (result EventLoopThread) :=
  match Thread.child (thread_ s), func s with
  | Thread.Named, NotCalled => [_ ← defined_ (Thread.data (thread_ s)); Ok (set_func Construct s)]
  | Thread.Named, Returned => [Ok (set_thread (Thread.set_child Thread.Ran (thread_ s)) s)]
  | Thread.Named, _ => threadFunc s
  | _, _ => of_thread (Thread.child_step (thread_ s)) s
  end.

(** [others]: whether something else, a callback in the loop's thread say, may quit
    the loop.  [spurious]: whether the wait may return without a notification. *)
Definition next (others spurious : bool) (s : EventLoopThread) : list (result EventLoopThread) :=
  startLoop s ++ destructor s ++ new_thread s ++
  (if others && bool_decide (func s = Looping) && negb (quit s) then [Ok (set_quit s)] else []) ++
  (if spurious && bool_decide (main s = Asleep) then [Ok (set_main Check s)] else []).

Definition states (others spurious : bool) : list EventLoopThread :=
  Explore.collect (next others spurious) 2000 [] [new].

Definition reachable (others spurious : bool) (s : EventLoopThread) : Prop :=
  rtc (Explore.moves (next others spurious)) new s.

(** What holds in every state, and where a fault can come from, when only the
    destructor quits the loop. *)
Definition promise (s : EventLoopThread) : bool :=
  forallb is_ok (startLoop s ++ destructor s) &&
  (if bool_decide (main s = Have) then loop_set s && loop_alive s && bool_decide (func s = Looping) else true) &&
  negb (bool_decide (main s = DoneJoined)) && negb (bool_decide (main s = DoneDetached)) &&
  (forallb is_ok (new_thread s) || negb (Thread.data (thread_ s)) || bool_decide (func s = Destroy)).

End System.

Section Outcome.
Context (loop_destructor : result unit).
Abbreviation next := (next loop_destructor).
Abbreviation reachable := (reachable loop_destructor).
Abbreviation states := (states loop_destructor).
Abbreviation new_thread := (new_thread loop_destructor).

Lemma promised spurious s : reachable false spurious s -> promise loop_destructor s = true.
Proof.
  intros Hs.
  assert (s ∈ states false spurious) as Hl.
  { apply (Explore.saturated_sound (next false spurious) (states false spurious) new s); [| |exact Hs].
    - destruct loop_destructor as [[]|f], spurious; vm_compute; reflexivity.
    - apply (bool_decide_eq_true_1 _). destruct loop_destructor as [[]|f], spurious; vm_compute; reflexivity. }
  assert (forallb (promise loop_destructor) (states false spurious) = true) as Hp
    by (destruct loop_destructor as [[]|f], spurious; vm_compute; reflexivity).
  rewrite forallb_forall in Hp. by apply list_elem_of_In, Hp in Hl.
Qed.

(** ** Properties *)



End Outcome.

(** The new thread is quick: it has handed over its loop when [start] returns. *)
Definition shaken : EventLoopThread :=
  mkELT Have Looping (Thread.mkThread true false true 0 false Thread.Started Thread.Named) true true false true.

(** The thread while [start] is at [o], the new thread at [c], with the semaphore. *)
Definition starting (o : Thread.owner_pc) (c : Thread.child_pc) (n : Z) : Thread.Thread :=
  Thread.mkThread true false true n (negb (bool_decide (o = Thread.Started))) o c.
Definition before (f : func_pc) (t : Thread.Thread) (loop_set loop_alive : bool) : EventLoopThread :=
  mkELT Starting f t loop_set loop_alive false true.

(** The first steps, common to the runs below, up to the call of [threadFunc]. *)
Definition prologue : list EventLoopThread :=
  map (fun t => before NotCalled t false false)
    [Thread.mkThread true false false 0 true Thread.Allocated Thread.Absent;
     Thread.mkThread true false false 0 true Thread.SemWait Thread.Begin;
     starting Thread.SemWait Thread.TidStored 0; starting Thread.SemWait Thread.Posted 1;
     starting Thread.SemWait Thread.SemCleared 1; starting Thread.SemWait Thread.Named 1;
     starting Thread.Woken Thread.Named 0; starting Thread.Leaving Thread.Named 0] ++
  [before Construct (starting Thread.Leaving Thread.Named 0) false false;
   before Publish (starting Thread.Leaving Thread.Named 0) false true;
   before Looping (starting Thread.Leaving Thread.Named 0) true true;
   before Looping (starting Thread.Started Thread.Named 0) true true].

Definition running (m : main_pc) (f : func_pc) (loop_set loop_alive quit : bool) : EventLoopThread :=
  mkELT m f (starting Thread.Started Thread.Named 0) loop_set loop_alive quit true.

Lemma shaken_reachable : reachable (Ok tt) false true shaken.
Proof.
  apply (Explore.check_path_sound (next (Ok tt) false true)
    (prologue ++ [running Check Looping true true false; shaken])).
  vm_compute. reflexivity.
Qed.


(** When the loop is quit by something else, two races of the handshake itself are
    real: the destructor can use a loop that is going, and [startLoop] can find that the
    loop has ended, wait, and nothing will wake it. *)
Lemma event_loop_thread_races :
  (exists s, reachable (Ok tt) true false s /\ Err UndefinedBehaviour ∈ destructor s) /\
  (exists s, reachable (Ok tt) true false s /\ main s = Asleep /\ func s = Returned).
Proof.
  split; eexists.
  - split; [apply (Explore.check_path_sound (next (Ok tt) true false) (prologue ++
      [running Check Looping true true false; running Have Looping true true false;
       running SawLoop Looping true true false; running SawLoop Looping true true true;
       running SawLoop Clear true true true; running SawLoop Unlock false true true]));
      vm_compute; reflexivity|].
    apply (bool_decide_eq_true_1 _). vm_compute. reflexivity.
  - split; [apply (Explore.check_path_sound (next (Ok tt) true false) (prologue ++
      [running Check Looping true true false; running Check Looping true true true;
       running Check Clear true true true; running Check Unlock false true true;
       running Asleep Unlock false true true; running Asleep Destroy false true true;
       running Asleep Returned false false true])); vm_compute; reflexivity|].
    split; vm_compute; reflexivity.
Qed.

End EventLoopThread.
