(* ===== verification/StackTrace.v ===== *)
(** * [dws::CurrentThread::stackTrace] and [dws::Exception]: CurrentThread.cc, Exception.h, Exception.cc

    The text made of the frames that backtrace(3) found, with the demangling of
    each frame's symbol, and the exception that carries it. *)

From S2P Require Import Prelude.

Module StackTrace.

(** The loop over the characters: where the last parenthesis and the last plus
    are, [i] being the position of the first character of [l]. *)
Fixpoint scan (i : nat) (l : list byte) (left_par plus : option nat) : option nat * option nat :=
  match l with
  | [] => (left_par, plus)
  | b :: l =>
      if bool_decide (b = Byte.x28) then scan (S i) l (Some i) plus
      else if bool_decide (b = Byte.x2b) then scan (S i) l left_par (Some i)
      else scan (S i) l left_par plus
  end.

Section Trace.
(** [abi::__cxa_demangle]; nothing when the status is not zero. *)
Context (demangle_name : list byte -> option (list byte)).

(** The symbol: what follows the parenthesis, the plus being a terminator for the
    moment. *)
Definition symbol (line : list byte) (left_par plus : nat) : list byte :=
  if Nat.ltb left_par plus then take (plus - (left_par + 1)) (drop (left_par + 1) line)
  else drop (left_par + 1) line.

Definition frame_text (demangle : bool) (line : list byte) : list byte :=
  let mangled := line ++ [Byte.x0a] in
  if demangle then
    match scan 0 line None None with
    | (Some left_par, Some plus) =>
        match demangle_name (symbol line left_par plus) with
        | Some name => take (left_par + 1) line ++ name ++ drop plus line ++ [Byte.x0a]
        | None => mangled
        end
    | _ => mangled
    end
  else mangled.

(** [strings]: what backtrace_symbols(3) gave, the first for this function. *)
Definition stackTrace (demangle : bool) (strings : option (list (list byte))) : list byte :=
  match strings with
  | Some strings => concat (map (frame_text demangle) (tail strings))
  | None => []
  end.
End Trace.

(** [dws::Exception]. *)
Record Exception := mkException { message_ : list byte; stack_ : list byte }.
Definition new (demangle_name : list byte -> option (list byte)) (msg : list byte)
    (strings : option (list (list byte))) : Exception :=
  mkException msg (stackTrace demangle_name false strings).
Definition what (e : Exception) : list byte := message_ e.

(** ** Lemmas *)

Lemma scan_none l : Byte.x28 ∉ l -> Byte.x2b ∉ l -> forall i p q, scan i l p q = (p, q).
Proof.
  induction l as [|b l IH]; intros H1 H2 i p q; [done|]. apply not_elem_of_cons in H1 as [? H1].
  apply not_elem_of_cons in H2 as [? H2]. cbn [scan].
  rewrite !bool_decide_eq_false_2 by congruence. by apply IH.
Qed.

Lemma scan_app l k i p q : scan i (l ++ k) p q =
  let '(p', q') := scan i l p q in scan (i + length l) k p' q'.
Proof.
  revert i p q. induction l as [|b l IH]; intros i p q; cbn; [by rewrite Nat.add_0_r|].
  repeat case_bool_decide; rewrite IH; by rewrite <- plus_n_Sm.
Qed.

(** A frame [object(symbol+offset) [address]]: only the symbol is replaced. *)
Lemma frame_demangled demangle_name object sym rest name :
  Byte.x28 ∉ sym -> Byte.x2b ∉ sym -> Byte.x28 ∉ rest -> Byte.x2b ∉ rest -> demangle_name sym = Some name ->
  frame_text demangle_name true (object ++ [Byte.x28] ++ sym ++ [Byte.x2b] ++ rest) =
    object ++ [Byte.x28] ++ name ++ [Byte.x2b] ++ rest ++ [Byte.x0a].
Proof.
  intros H1 H2 H3 H4 Hn. unfold frame_text.
  assert (exists p q, scan 0 (object ++ [Byte.x28] ++ sym ++ [Byte.x2b] ++ rest) None None =
    (Some (length object), Some (length object + 1 + length sym)%nat) /\ (p, q) = scan 0 object None None)
    as (p & q & -> & _).
  { destruct (scan 0 object None None) as [p q] eqn:E. exists p, q. split; [|done].
    rewrite scan_app, E. cbn [app scan]. rewrite bool_decide_eq_true_2 by done.
    rewrite scan_app, scan_none by done. cbn [app scan]. rewrite bool_decide_eq_false_2, bool_decide_eq_true_2 by done.
    rewrite scan_none by done. do 2 f_equal. cbn. lia. }
  unfold symbol. rewrite (proj2 (Nat.ltb_lt _ _)) by lia.
  replace (length object + 1)%nat with (length (object ++ [Byte.x28])) by (rewrite length_app; cbn; lia).
  rewrite (app_assoc object), drop_app_length.
  replace (_ + length sym - _)%nat with (length sym) by lia. rewrite take_app_length, Hn.
  rewrite take_app_length, drop_app_ge by lia.
  replace (_ + length sym - _)%nat with (length sym) by lia. rewrite drop_app_length.
  by rewrite <- !app_assoc.
Qed.

(** Without demangling every frame but the first is a line as it is. *)
Lemma stack_lines demangle_name first lines :
  stackTrace demangle_name false (Some (first :: lines)) = concat (map (fun l => l ++ [Byte.x0a]) lines).
Proof. reflexivity. Qed.

End StackTrace.
