(* ===== verification/WeakCallback.v ===== *)
(** * [dws::WeakCallback]: WeakCallback.h

    A callback bound to an object through a [weak_ptr]: it runs on the object if
    the object still exists, and keeps it alive meanwhile. *)

From S2P Require Import Prelude.

Module WeakCallback.

(** The objects that exist, by address, with their strong references; [log]: what
    happened, in order. *)
Inductive event := Called (obj : Z) | Used (obj : Z) | Destroyed (obj : Z).
Record world := mkWorld { strong : gmap Z Z; log : list event }.

Definition note (e : event) (w : world) : world := mkWorld (strong w) (log w ++ [e]).

(** [weak_ptr::lock]. *)
Definition lock (obj : Z) (w : world) : option world :=
  n ← strong w !! obj; Some (mkWorld (<[obj := n + 1]> (strong w)) (log w)).

(** The end of a [shared_ptr]: the last one destroys the object. *)
Definition release (obj : Z) (w : world) : result world :=
  match strong w !! obj with
  | None => Err UndefinedBehaviour
  | Some n =>
      if n =? 1 then Ok (note (Destroyed obj) (mkWorld (delete obj (strong w)) (log w)))
      else Ok (mkWorld (<[obj := n - 1]> (strong w)) (log w))
  end.

(** What the function does: it uses the object through the raw pointer, drops
    references that others hold, and takes new ones. *)
Inductive action := Use | Drop (obj : Z) | Share.

Definition act (self : Z) (a : action) (w : world) : result world :=
  match a with
  | Use => _ ← defined_ (bool_decide (is_Some (strong w !! self))); Ok (note (Used self) w)
  | Drop obj => release obj w
  | Share =>
      match strong w !! self with
      | Some n => Ok (mkWorld (<[self := n + 1]> (strong w)) (log w))
      | None => Err (Exception "bad_weak_ptr")
      end
  end.
Fixpoint run (self : Z) (l : list action) (w : world) : result world :=
  match l with [] => Ok w | a :: l => w ← act self a w; run self l w end.

(** The object and the function; [makeWeakCallback] binds a member function. *)
Record WeakCallback := mkCallback { object_ : Z; function_ : list action }.
Definition makeWeakCallback (object : Z) (function : list action) : WeakCallback := mkCallback object function.

(** [operator()]. *)
Definition invoke (c : WeakCallback) (w : world) : result world :=
  match lock (object_ c) w with
  | Some w =>
      w ← run (object_ c) (function_ c) (note (Called (object_ c)) w);
      release (object_ c) w
  | None => Ok w
  end.

(** ** Properties *)

(** The references to [self] that a function drops must be there; [k]: how many
    others it can drop yet. *)
Fixpoint drops_ok (self : Z) (k : Z) (l : list action) : Prop :=
  match l with
  | [] => True
  | Drop obj :: l => obj = self /\ 0 < k /\ drops_ok self (k - 1) l
  | Share :: l => drops_ok self (k + 1) l
  | Use :: l => drops_ok self k l
  end.
Fixpoint left_over (k : Z) (l : list action) : Z :=
  match l with
  | [] => k
  | Drop _ :: l => left_over (k - 1) l
  | Share :: l => left_over (k + 1) l
  | Use :: l => left_over k l
  end.

Lemma run_alive self l k w : strong w !! self = Some (k + 1) -> 0 <= k -> drops_ok self k l ->
  exists w' u, run self l w = Ok w' /\ strong w' !! self = Some (left_over k l + 1) /\
    0 <= left_over k l /\ log w' = log w ++ u /\ Destroyed self ∉ u.
Proof.
  revert k w. induction l as [|[|obj|] l IH]; intros k w Hs Hk Hd; cbn [run act drops_ok left_over] in *.
  - exists w, []. rewrite app_nil_r. split_and!; [done..|]. apply not_elem_of_nil.
  - rewrite Hs. unfold defined_. rewrite bool_decide_eq_true_2, !bind_ok by eauto.
    destruct (IH k (note (Used self) w) Hs Hk Hd) as (w' & u & E & H1 & H2 & H3 & H4).
    exists w', (Used self :: u). split_and!; [done..| |].
    + rewrite H3. cbn. by rewrite <- app_assoc.
    + by apply not_elem_of_cons.
  - destruct Hd as (-> & Hk' & Hd). unfold release. rewrite Hs. zcase (k + 1 =? 1); [lia|]. rewrite bind_ok.
    apply (IH (k - 1) (mkWorld (<[self := k + 1 - 1]> (strong w)) (log w))); [cbn; rewrite lookup_insert_eq; f_equal; lia|lia|done].
  - rewrite Hs, bind_ok. apply (IH (k + 1) (mkWorld (<[self := k + 1 + 1]> (strong w)) (log w))); [cbn; by rewrite lookup_insert_eq|lia|done].
Qed.

(** A weak callback and its object.  After the object's end the call does
    nothing.  While the object lives, the function runs on it once, and even if it
    drops every other reference on the way the object is not destroyed before the
    function returns; it is destroyed right then if no reference is left. *)
Theorem weak_callback_safe c w k :
  (strong w !! object_ c = None -> invoke c w = Ok w) /\
  (strong w !! object_ c = Some k -> 0 < k -> drops_ok (object_ c) k (function_ c) ->
   exists w' u, invoke c w = Ok w' /\ Destroyed (object_ c) ∉ u /\
     log w' = log w ++ [Called (object_ c)] ++ u ++
              (if left_over k (function_ c) =? 0 then [Destroyed (object_ c)] else []) /\
     strong w' !! object_ c =
       (if left_over k (function_ c) =? 0 then None else Some (left_over k (function_ c)))).
Proof.
  unfold invoke, lock. split; [by intros ->|]. intros Hs Hk Hd. rewrite Hs. cbn [mbind option_bind].
  set (w1 := note _ _).
  destruct (run_alive (object_ c) (function_ c) k w1) as (w' & u & -> & H1 & H2 & H3 & H4); [|lia|done|].
  { cbn. by rewrite lookup_insert_eq. }
  rewrite bind_ok. unfold release. rewrite H1. cbn [w1 note log] in H3.
  zcase (left_over k (function_ c) =? 0).
  - rewrite E. cbn [Z.eqb Z.add]. eexists _, u. split_and!; [done|done| |apply lookup_delete_eq].
    cbn. by rewrite H3, <- !app_assoc.
  - zcase (left_over k (function_ c) + 1 =? 1); [lia|]. eexists _, u. split_and!; [done|done| |].
    + cbn. by rewrite app_nil_r, H3, <- app_assoc.
    + cbn. rewrite lookup_insert_eq. f_equal. lia.
Qed.

(** One owner, dropped in the middle of the function. *)
Lemma weak_callback_safe_witness :
  let c := makeWeakCallback 7 [Use; Drop 7; Use] in let w := mkWorld {[ 7 := 1 ]} [] in
  exists w' u, invoke c w = Ok w' /\ Destroyed 7 ∉ u /\ log w' = [Called 7] ++ u ++ [Destroyed 7].
Proof.
  intros c w. destruct (weak_callback_safe c w 1) as [_ H].
  destruct (H ltac:(reflexivity) ltac:(lia)) as (w' & u & H1 & H2 & H3 & _).
  - cbn. lia.
  - exists w', u. split_and!; [exact H1|exact H2|exact H3].
Defined.

End WeakCallback.
