(* ===== verification/ProcessInfo.v ===== *)
(** * [dws::ProcessInfo]: ProcessInfo.h, ProcessInfo.cc

    What the process asks about itself, given the answers of the system calls and
    the files under /proc; the parsing and the lists made of them. *)

From Stdlib Require Import SpecFloat.
From stdpp Require Import sorting.
From S2P Require Import Prelude Text Timestamp FileUtil.

Module ProcessInfo.
Import FileUtil (readFile, mkOutputs, content, read_answer, stat_answer, StatError, reads_from).

(** ** [atoi] and [std::string::find] *)

Definition is_digit (b : byte) : bool := (48 <=? byte_val b) && (byte_val b <=? 57).
Definition is_space (b : byte) : bool := (byte_val b =? 32) || ((9 <=? byte_val b) && (byte_val b <=? 13)).

Fixpoint skip_spaces (l : list byte) : list byte :=
  match l with b :: l' => if is_space b then skip_spaces l' else l | [] => [] end.
Fixpoint leading_digits (l : list byte) : list byte :=
  match l with b :: l' => if is_digit b then b :: leading_digits l' else [] | [] => [] end.

(** A value that is no [int] is undefined behaviour. *)
Definition atoi (l : list byte) : result Z :=
  let v := match skip_spaces l with
           | [] => 0
           | b :: l' =>
               if bool_decide (b = Byte.x2d) then - Text.digits_value 0 (leading_digits l')
               else if bool_decide (b = Byte.x2b) then Text.digits_value 0 (leading_digits l')
               else Text.digits_value 0 (leading_digits (b :: l'))
           end in
  _ ← defined_ (in_s 32 v); Ok v.

Fixpoint starts (pat l : list byte) : bool :=
  match pat, l with
  | [], _ => true
  | a :: pat, b :: l => bool_decide (a = b) && starts pat l
  | _ :: _, [] => false
  end.
(** The position of the first occurrence. *)
Fixpoint find (pat l : list byte) : option nat :=
  if starts pat l then Some 0%nat
  else match l with [] => None | _ :: l => S <$> find pat l end.

(** ** Names, numbers, files *)

Definition pidString (pid : Z) : list byte := Text.snprintf 32 (Text.decimal pid).

(** [getpwuid_r] found an entry. *)
Definition username (pw_name : option (list byte)) : list byte := default (bytes_of "unknownuser") pw_name.

(** [gethostname] filled the buffer of 256 characters, or failed. *)
Definition hostname (answer : option (list byte)) : list byte :=
  match answer with Some name => ztake 255 name | None => bytes_of "unknownhost" end.

(** [readlink] fills at most 1024 characters. *)
Definition exePath (answer : option (list byte)) : list byte :=
  match answer with Some target => ztake 1024 target | None => [] end.

Section Proc.
(** A file under /proc: what reading it answers, the descriptor of [open] and
    [errno]. *)
Context (fs : list byte -> (nat -> Z -> Z -> read_answer) * (Z * Z)).

Definition procFile (path : list byte) : result (list byte) :=
  let '(read, (fd, errno)) := fs path in
  '(_, o) ← readFile read (StatError 0) fd errno 65536 (false, false, false) (mkOutputs [] None None None);
  Ok (content o).

Definition procStatus : result (list byte) := procFile (bytes_of "/proc/self/status").
Definition procStat : result (list byte) := procFile (bytes_of "/proc/self/stat").
Definition threadStat (tid : Z) : result (list byte) :=
  procFile (Text.snprintf 64 (bytes_of "/proc/self/task/" ++ Text.decimal tid ++ bytes_of "/stat")).

Definition numThreads : result Z :=
  status ← procStatus;
  match find (bytes_of "Threads:") status with
  | Some pos => atoi (drop (pos + 8) status)
  | None => Ok 0
  end.
End Proc.

(** ** Directories *)

(** [isdigit(d->d_name[0])]. *)
Definition starts_with_digit (name : list byte) : bool :=
  match name with b :: _ => is_digit b | [] => false end.

(** [scandir] gives every entry to the filter, in the directory's order; the
    filters keep none.  [None]: the directory cannot be read. *)
Definition scanDir {S} (filter : list byte -> S -> result S) (names : option (list (list byte))) (s : S) : result S :=
  match names with
  | None => Ok s
  | Some names => foldl (fun r n => s ← r; filter n s) (Ok s) names
  end.

Definition fdDirFilter (name : list byte) (t_numOpenedFiles : Z) : result Z :=
  if starts_with_digit name
  then _ ← no_overflow 32 [t_numOpenedFiles + 1]; Ok (t_numOpenedFiles + 1) else Ok t_numOpenedFiles.
Definition taskDirFilter (name : list byte) (t_pids : list Z) : result (list Z) :=
  if starts_with_digit name then pid ← atoi name; Ok (t_pids ++ [pid]) else Ok t_pids.

Definition openedFiles (names : option (list (list byte))) : result Z := scanDir fdDirFilter names 0.

(** [getrlimit] gave the soft limit, or failed. *)
Definition maxOpenFiles (rlim_cur : option Z) (names : option (list (list byte))) : result Z :=
  match rlim_cur with Some cur => Ok (wraps 32 cur) | None => openedFiles names end.

Definition threads (names : option (list (list byte))) : result (list Z) :=
  result ← scanDir taskDirFilter names []; Ok (merge_sort Z.le result).

(** ** [CpuTime] *)

Record CpuTime := mkCpuTime { userSeconds : Timestamp.double; systemSeconds : Timestamp.double }.
Definition zero_time : CpuTime := mkCpuTime (S754_zero false) (S754_zero false).
Definition total (t : CpuTime) : Timestamp.double :=
  SFadd Timestamp.prec Timestamp.emax (userSeconds t) (systemSeconds t).

(** [times]: the ticks of user and system time, or a failure. *)
Definition cpuTime (g_clockTicks : Z) (tms : option (Z * Z)) : CpuTime :=
  match tms with
  | Some (utime, stime) =>
      let hz := Timestamp.of_int g_clockTicks in
      let seconds t := SFdiv Timestamp.prec Timestamp.emax (Timestamp.of_int t) hz in
      mkCpuTime (seconds utime) (seconds stime)
  | None => zero_time
  end.

(** ** Lemmas *)

Lemma digit_is_digit d : 0 <= d < 10 -> is_digit (Text.digit d) = true.
Proof. intros Hd. unfold is_digit. rewrite Text.digit_val by done. zbool; lia. Qed.

Lemma udec_digits f n : 0 <= n -> Forall (fun b => is_digit b = true) (Text.udec f n).
Proof.
  revert n. induction f as [|f IH]; intros n Hn; cbn [Text.udec]; [constructor|].
  zcase (n <? 10).
  - constructor; [apply digit_is_digit; lia|constructor].
  - apply Forall_app. split; [apply IH, Z.div_pos; lia|]. constructor; [|constructor].
    apply digit_is_digit, Z.mod_pos_bound. lia.
Qed.

Definition not_digit_first (l : list byte) : Prop := starts_with_digit l = false.

Lemma leading_digits_app x l : Forall (fun b => is_digit b = true) x -> not_digit_first l ->
  leading_digits (x ++ l) = x.
Proof.
  intros Hx Hl. induction Hx as [|b x Hb _ IH]; cbn.
  - destruct l as [|b l]; [done|]. cbn in Hl. cbn. by rewrite Hl.
  - by rewrite Hb, IH.
Qed.

Lemma digit_cases b : is_digit b = true -> b <> Byte.x2d /\ b <> Byte.x2b /\ is_space b = false.
Proof. destruct b; cbn; intros H; try discriminate H; done. Qed.

(** A number in decimal after spaces, whatever comes next. *)
Lemma atoi_decimal ws n rest : Forall (fun b => is_space b = true) ws -> 0 <= n < 2 ^ 31 ->
  not_digit_first rest -> atoi (ws ++ Text.decimal n ++ rest) = Ok n.
Proof.
  intros Hws Hn Hr. unfold atoi.
  assert (skip_spaces (ws ++ Text.decimal n ++ rest) = Text.decimal n ++ rest) as ->.
  { unfold Text.decimal. zcase (n <? 0); [lia|].
    destruct (Text.udec_head_digit (Text.dec_fuel n) n) as (d & l & -> & Hd); [unfold Text.dec_fuel; lia|lia|].
    induction Hws as [|b ws Hb _ IH]; cbn; [|by rewrite Hb].
    by rewrite (proj2 (proj2 (digit_cases _ (digit_is_digit d Hd)))). }
  assert (Text.digits_value 0 (leading_digits (Text.decimal n ++ rest)) = n) as Hv.
  { unfold Text.decimal. zcase (n <? 0); [lia|]. rewrite leading_digits_app; [|apply udec_digits; lia|done].
    apply Text.udec_dec_fuel. lia. }
  assert (exists b l, Text.decimal n ++ rest = b :: l /\ is_digit b = true) as (b & l & E & Hb).
  { unfold Text.decimal. zcase (n <? 0); [lia|].
    destruct (Text.udec_head_digit (Text.dec_fuel n) n) as (d & l & -> & Hd); [unfold Text.dec_fuel; lia|lia|].
    eexists _, _. split; [done|]. by apply digit_is_digit. }
  rewrite E in *. destruct (digit_cases b Hb) as (H1 & H2 & _).
  rewrite !bool_decide_eq_false_2, Hv by done. unfold defined_. by rewrite (proj2 (in_s_iff 32 n)) by lia.
Qed.

Lemma procFile_spec fs path F : reads_from (fst (fs path)) F -> 0 <= fst (snd (fs path)) -> zlen F <= 65536 ->
  procFile fs path = Ok F.
Proof.
  intros Hr Hfd HF. unfold procFile. destruct (fs path) as [read [fd errno]]. cbn [fst snd] in *.
  unfold readFile, FileUtil.readToString, FileUtil.new_reader. cbn [FileUtil.err_ FileUtil.fd_].
  rewrite (proj2 (Z.leb_le 0 fd)), (proj2 (Z.ltb_ge fd 0)), bind_ok by lia.
  rewrite (FileUtil.read_loop_spec read F _ 0 65536 []); [|lia|done|rewrite zlen_nil; lia|done|].
  - rewrite !bind_ok. cbn. by rewrite ztake_all.
  - unfold FileUtil.read_fuel. rewrite zlen_nil, wrapu_small by lia. lia.
Qed.

(** Directory entries: a process or thread number, or another name. *)
Definition entry_name (e : Z + list byte) : list byte :=
  match e with inl pid => Text.decimal pid | inr name => name end.
Definition entry_ok (e : Z + list byte) : Prop :=
  match e with inl pid => 0 <= pid < 2 ^ 31 | inr name => starts_with_digit name = false end.
Definition numbers (es : list (Z + list byte)) : list Z :=
  omap (fun e => match e with inl pid => Some pid | inr _ => None end) es.

Lemma decimal_starts pid : 0 <= pid -> starts_with_digit (Text.decimal pid) = true.
Proof.
  intros Hp. unfold Text.decimal. zcase (pid <? 0); [lia|].
  destruct (Text.udec_head_digit (Text.dec_fuel pid) pid) as (d & l & -> & Hd); [unfold Text.dec_fuel; lia|lia|].
  by apply digit_is_digit.
Qed.

Lemma fold_filter {S} (f : list byte -> S -> result S) names (s s' : S) (r : result S) :
  r = Ok s -> foldl (fun r n => s ← r; f n s) (Ok s) names = Ok s' ->
  foldl (fun r n => s ← r; f n s) r names = Ok s'.
Proof. by intros ->. Qed.

Lemma task_scan es acc : Forall entry_ok es ->
  scanDir taskDirFilter (Some (map entry_name es)) acc = Ok (acc ++ numbers es).
Proof.
  cbn [scanDir]. intros He. revert acc. induction He as [|e es He _ IH]; intros acc; [by rewrite app_nil_r|].
  cbn [map foldl]. unfold numbers. destruct e as [pid|name]; cbn [entry_name entry_ok omap list_omap] in *.
  - apply (fold_filter _ _ (acc ++ [pid])); [|rewrite IH; by rewrite <- app_assoc].
    unfold taskDirFilter. rewrite bind_ok, decimal_starts by lia.
    pose proof (atoi_decimal [] pid [] ltac:(constructor) He eq_refl) as Ha. rewrite app_nil_r in Ha.
    cbn [app] in Ha. by rewrite Ha.
  - eapply fold_filter; [|apply IH]. unfold taskDirFilter. by rewrite bind_ok, He.
Qed.

Lemma fd_scan es k : Forall entry_ok es -> 0 <= k -> k + zlen (numbers es) < 2 ^ 31 ->
  scanDir fdDirFilter (Some (map entry_name es)) k = Ok (k + zlen (numbers es)).
Proof.
  cbn [scanDir]. intros He. revert k. induction He as [|e es He _ IH]; intros k Hk Hn; [by rewrite Z.add_0_r|].
  destruct e as [pid|name]; cbn [map foldl entry_name entry_ok] in *.
  - change (numbers (inl pid :: es)) with (pid :: numbers es) in *. rewrite zlen_cons in *.
    pose proof (zlen_nonneg (numbers es)).
    apply (fold_filter _ _ (k + 1)); [|rewrite IH; [f_equal; lia|lia|lia]].
    unfold fdDirFilter. rewrite bind_ok, decimal_starts, no_overflow_ok; [done| |lia].
    constructor; [lia|constructor].
  - change (numbers (inr name :: es)) with (numbers es) in *.
    apply (fold_filter _ _ k); [|by apply IH]. unfold fdDirFilter. by rewrite bind_ok, He.
Qed.

(** ** Properties *)

(** The thread count.  When the status file, of at most 64 KiB, is read without
    an error and its first "Threads:" is followed by white space and a number,
    [numThreads] is that number, however the kernel cuts the reads. *)
Theorem num_threads_read fs F pos ws n rest :
  let path := bytes_of "/proc/self/status" in
  reads_from (fst (fs path)) F -> 0 <= fst (snd (fs path)) -> zlen F <= 65536 ->
  find (bytes_of "Threads:") F = Some pos -> drop (pos + 8) F = ws ++ Text.decimal n ++ rest ->
  Forall (fun b => is_space b = true) ws -> 0 <= n < 2 ^ 31 -> starts_with_digit rest = false ->
  numThreads fs = Ok n.
Proof.
  intros path Hr Hfd HF Hpos Hd Hws Hn Hrest. unfold numThreads, procStatus.
  rewrite (procFile_spec fs _ F) by done. rewrite bind_ok, Hpos, Hd. by apply atoi_decimal.
Qed.

(** The lists made of /proc.  When the entries of a directory are numbers and
    names that do not start with a digit, in any order, [threads] is the sorted
    list of the numbers and [openedFiles] how many there are. *)
Theorem process_lists es : Forall entry_ok es -> zlen (numbers es) < 2 ^ 31 ->
  (exists l, threads (Some (map entry_name es)) = Ok l /\ Sorted Z.le l /\ l ≡ₚ numbers es) /\
  openedFiles (Some (map entry_name es)) = Ok (zlen (numbers es)).
Proof.
  intros He Hn. split.
  - exists (merge_sort Z.le (numbers es)). split_and!.
    + unfold threads. by rewrite task_scan.
    + apply (Sorted_merge_sort Z.le).
    + apply merge_sort_Permutation.
  - unfold openedFiles. by rewrite fd_scan by (done || lia).
Qed.

Definition status0 : list byte :=
  bytes_of "Name: dws" ++ [Byte.x0a] ++ bytes_of "Threads:" ++ [Byte.x09] ++ bytes_of "42" ++ [Byte.x0a].
Definition fs0 (path : list byte) : (nat -> Z -> Z -> read_answer) * (Z * Z) := (FileUtil.read2 status0, (3, 0)).

Lemma num_threads_read_witness : numThreads fs0 = Ok 42.
Proof.
  apply (num_threads_read fs0 status0 10 [Byte.x09] 42 [Byte.x0a]).
  - apply FileUtil.read2_reads.
  - cbn. lia.
  - vm_compute. discriminate.
  - vm_compute. reflexivity.
  - vm_compute. reflexivity.
  - repeat constructor.
  - lia.
  - reflexivity.
Defined.

Lemma process_lists_witness :
  threads (Some [bytes_of "."; bytes_of "31"; bytes_of ".."; bytes_of "7"]) = Ok [7; 31] /\
  openedFiles (Some [bytes_of "."; bytes_of "31"; bytes_of ".."; bytes_of "7"]) = Ok 2.
Proof.
  destruct (process_lists [inr (bytes_of "."); inl 31; inr (bytes_of ".."); inl 7]) as [(l & E & _) E2].
  - repeat constructor; cbn; lia.
  - vm_compute. reflexivity.
  - split; [|exact E2]. vm_compute. reflexivity.
Defined.

End ProcessInfo.
