(* ===== verification/Acceptor.v ===== *)
(** * [dws::net::Acceptor]: Acceptor.h, Acceptor.cc

    The listening socket, its channel, and the spare descriptor that is given up for
    a moment when the process has no descriptor left.  System calls' answers come
    with the operation that makes the calls. *)

From S2P Require Import Prelude Channel Service Poller PollPoller EventLoop LoopLife LoopService Sockets.

Module Acceptor.
Import Sockets (accept_answer, Accepted, AcceptError, EMFILE).

(** What becomes of descriptors: obtained, closed, handed to the callback. *)
Inductive fd_event := Opened (fd : Z) | Closed (fd : Z) | Handed (fd : Z).

Section Acceptor.
Context {W : Type} `{Channel.Host W}.

(** [acceptSocket_]: its descriptor; [acceptChannel_]: the channel's address. *)
Record Acceptor := mkAcceptor {
  acceptSocket_ : Z;
  acceptChannel_ : Z;
  hasCallback : bool;      (* newConnectionCallback_ is set *)
  listening_ : bool;
  idleFd_ : Z;
  inLoop : bool;
  trace : list fd_event;
  world : W
}.

Definition set_fds (idle : Z) (l : list fd_event) (s : Acceptor) : Acceptor :=
  mkAcceptor (acceptSocket_ s) (acceptChannel_ s) (hasCallback s) (listening_ s) idle (inLoop s) l (world s).
Definition set_world (b : bool) (w : W) (s : Acceptor) : Acceptor :=
  mkAcceptor (acceptSocket_ s) (acceptChannel_ s) (hasCallback s) b (idleFd_ s) (inLoop s) (trace s) w.
Definition setNewConnectionCallback (s : Acceptor) : Acceptor :=
  mkAcceptor (acceptSocket_ s) (acceptChannel_ s) true (listening_ s) (idleFd_ s) (inLoop s) (trace s) (world s).

Definition assertInLoopThread (s : Acceptor) : result unit :=
  if inLoop s then Ok tt else Err Aborted.

(** close(2), which fails harmlessly on a negative number; and a descriptor that a
    call returned, if it is one. *)
Definition close (fd : Z) (l : list fd_event) : list fd_event := if 0 <=? fd then l ++ [Closed fd] else l.
Definition opened (fd : Z) (l : list fd_event) : list fd_event := if 0 <=? fd then l ++ [Opened fd] else l.

(** The constructor, with the answers of socket(2), open(2) and bind(2).  The channel
    is at [c], in the loop [loop]. *)
Definition new (loop c on_read socket idle bind : Z) (w : W) : result Acceptor :=
  sockfd ← Sockets.createNonblockingOrDie socket;
  let ch := Channel.new loop sockfd in
  _ ← assert_ (0 <=? idle);
  _ ← Sockets.bindOrDie bind;
  Ok (mkAcceptor sockfd c false false idle true [Opened sockfd; Opened idle]
        (Channel.put_chan c (Channel.setReadCallback (Some on_read) ch) w)).

Definition listen (ret : Z) (s : Acceptor) : result Acceptor :=
  _ ← assertInLoopThread s;
  let s := set_world true (world s) s in
  _ ← Sockets.listenOrDie ret;
  w ← Channel.enableReading (acceptChannel_ s) (world s);
  Ok (set_world true w s).

(** [answer]: accept4(2) through [Socket::accept]; [raw]: the second accept(2);
    [reopened]: the spare descriptor again. *)
Definition handleRead (answer : accept_answer) (raw reopened : Z) (s : Acceptor) : result Acceptor :=
  _ ← assertInLoopThread s;
  answer ← Sockets.accept answer;
  match answer with
  | Accepted connfd _ =>
      let l := opened connfd (trace s) in
      Ok (set_fds (idleFd_ s) (if hasCallback s then l ++ [Handed connfd] else close connfd l) s)
  | AcceptError err =>
      if err =? EMFILE then
        let l := close (idleFd_ s) (trace s) in
        let idle := raw in
        let l := close idle (opened raw l) in
        Ok (set_fds reopened (opened reopened l) s)
      else Ok s
  end.

(** The destructor, then those of [acceptChannel_] and [acceptSocket_]. *)
Definition destroy (s : Acceptor) : result (list fd_event * W) :=
  w ← Channel.disableAll (acceptChannel_ s) (world s);
  w ← Channel.remove (acceptChannel_ s) w;
  let l := close (idleFd_ s) (trace s) in
  w ← Channel.destroy (acceptChannel_ s) w;
  Ok (close (acceptSocket_ s) l, w).

(** ** Descriptors *)

(** The descriptors that are in the acceptor's care. *)
Definition holds_step (S : gset Z) (e : fd_event) : gset Z :=
  match e with Opened fd => S ∪ {[fd]} | Closed fd | Handed fd => S ∖ {[fd]} end.
Definition holds (l : list fd_event) : gset Z := fold_left holds_step l ∅.

(** What it should hold: the listening socket and the spare descriptor. *)
Definition own (s : Acceptor) : gset Z := {[acceptSocket_ s]} ∪ (if 0 <=? idleFd_ s then {[idleFd_ s]} else ∅).

(** The calls of one event.  The kernel gives out descriptors that are not in use;
    the spare one is closed before the second accept(2) and the third call. *)
Record event := mkEvent { ev_answer : accept_answer; ev_raw : Z; ev_reopened : Z }.

Definition kernel_ok (e : event) (s : Acceptor) : Prop :=
  match ev_answer e with
  | Accepted connfd _ => 0 <= connfd /\ connfd ∉ own s
  | AcceptError _ => ev_raw e <> acceptSocket_ s /\ ev_reopened e <> acceptSocket_ s
  end.

Definition run_event (e : event) (s : Acceptor) : result Acceptor :=
  handleRead (ev_answer e) (ev_raw e) (ev_reopened e) s.

(** Events, each with descriptors that are free at that time. *)
Inductive run : Acceptor -> list event -> Acceptor -> Prop :=
| run_nil s : run s [] s
| run_cons s e s1 l s' : kernel_ok e s -> run_event e s = Ok s1 -> run s1 l s' -> run s (e :: l) s'.

(** How the connections of some events end. *)
Definition connections (l : list event) : list Z :=
  omap (fun e => match ev_answer e with Accepted fd _ => Some fd | AcceptError _ => None end) l.
Definition handed (l : list fd_event) : list Z :=
  omap (fun e => match e with Handed fd => Some fd | _ => None end) l.

Definition Inv (s : Acceptor) : Prop :=
  holds (trace s) = own s /\ 0 <= acceptSocket_ s /\ acceptSocket_ s <> idleFd_ s /\ inLoop s = true.

Lemma holds_snoc l e : holds (l ++ [e]) = holds_step (holds l) e.
Proof. unfold holds. by rewrite fold_left_app. Qed.

Lemma holds_close fd l : holds (close fd l) = if 0 <=? fd then holds l ∖ {[fd]} else holds l.
Proof. unfold close. case_match; [by rewrite holds_snoc|done]. Qed.

Lemma holds_opened fd l : holds (opened fd l) = if 0 <=? fd then holds l ∪ {[fd]} else holds l.
Proof. unfold opened. case_match; [by rewrite holds_snoc|done]. Qed.

Lemma handed_app l k : handed (l ++ k) = handed l ++ handed k.
Proof. apply omap_app. Qed.

Lemma handed_close fd l : handed (close fd l) = handed l.
Proof. unfold close. case_match; [|done]. rewrite handed_app. apply app_nil_r. Qed.
Lemma handed_opened fd l : handed (opened fd l) = handed l.
Proof. unfold opened. case_match; [|done]. rewrite handed_app. apply app_nil_r. Qed.

(** The socket, the channel and the loop are the same. *)
Definition same_place (s s' : Acceptor) : Prop :=
  acceptSocket_ s' = acceptSocket_ s /\ acceptChannel_ s' = acceptChannel_ s /\ world s' = world s.

Lemma event_inv e s s' : Inv s -> kernel_ok e s -> run_event e s = Ok s' ->
  Inv s' /\ hasCallback s' = hasCallback s /\ same_place s s' /\
  handed (trace s') = handed (trace s) ++ (if hasCallback s then connections [e] else []).
Proof.
  intros (Hh & H0 & Hne & Hl) Hk Hr. destruct e as [answer raw reopened]. unfold run_event, handleRead in Hr.
  unfold assertInLoopThread in Hr. cbn [ev_answer ev_raw ev_reopened] in *. rewrite Hl, bind_ok in Hr.
  destruct answer as [connfd addr|err]; cbn [Sockets.accept] in Hr.
  - rewrite bind_ok in Hr. inv_ok. subst s'. destruct Hk as [Hc Hfree]. cbn in Hfree.
    assert (holds (opened connfd (trace s)) = own s ∪ {[connfd]}) as Ho.
    { rewrite holds_opened, Hh. zcase (0 <=? connfd); [done|lia]. }
    split; [|split; [done|split; [done|]]].
    + split; [|done]. cbn [trace set_fds]. change (own (set_fds _ _ s)) with (own s).
      destruct (hasCallback s); [rewrite holds_snoc; cbn [holds_step]|rewrite holds_close; zcase (0 <=? connfd); [|lia]];
        rewrite Ho; clear -Hfree; set_solver.
    + cbn [trace set_fds]. destruct (hasCallback s); [by rewrite handed_app, handed_opened|].
      by rewrite handed_close, handed_opened, app_nil_r.
  - destruct (Sockets.expected_accept_error err); [|done]. rewrite bind_ok in Hr.
    assert ((if hasCallback s then connections [mkEvent (AcceptError err) raw reopened] else []) = []) as ->
      by by destruct (hasCallback s).
    rewrite app_nil_r. zcase (err =? EMFILE); inv_ok; subst s'; [|done].
    destruct Hk as [Hk1 Hk2]. cbn in Hk1, Hk2.
    split; [|cbn [trace set_fds hasCallback acceptSocket_]; by rewrite handed_opened, handed_close, handed_opened, handed_close].
    split; [|cbn; by auto]. cbn [trace set_fds]. rewrite holds_opened, holds_close, holds_opened, holds_close, Hh.
    unfold own. cbn.
    zcase (0 <=? idleFd_ s); zcase (0 <=? raw); zcase (0 <=? reopened); clear -Hk1 Hk2 Hne; set_solver.
Qed.

Lemma ops_inv s l s' : run s l s' -> Inv s ->
  Inv s' /\ hasCallback s' = hasCallback s /\ same_place s s' /\
  handed (trace s') = handed (trace s) ++ (if hasCallback s then connections l else []).
Proof.
  induction 1 as [s|s e s1 l s' Hk E _ IH]; intros Hi.
  - split_and!; [done|done|done|]. destruct (hasCallback s); by rewrite app_nil_r.
  - destruct (event_inv e s s1 Hi Hk E) as (Hi1 & Ec & (P1 & P2 & P3) & Eh).
    destruct (IH Hi1) as (Hi' & Ec' & (P4 & P5 & P6) & Eh').
    split_and!; [done|congruence|by split_and!; congruence|]. rewrite Eh', Eh, Ec, <- app_assoc. f_equal.
    destruct (hasCallback s); [|done]. symmetry. exact (omap_app _ [e] l).
Qed.

End Acceptor.
Arguments Acceptor W : clear implicits.

(** ** In a loop *)

Section Laws.
Context {W : Type} `{Channel.HostLaws W} {SV : Service.Service W}.
Implicit Types s : Acceptor W.

(** The channel is at its place and in nobody's hands. *)
Definition placed (loop : Z) s : Prop := exists ch,
  Channel.chan_of (world s) (acceptChannel_ s) = Some ch /\ Channel.fd_ ch = acceptSocket_ s /\
  Channel.loop_ ch = loop /\ Channel.eventHandling_ ch = false.

(** The constructor. *)
Lemma new_run loop c on_read socket idle bind (w : W) s :
  Service.idle loop w -> Channel.chan_of w c = None -> socket <> idle ->
  new loop c on_read socket idle bind w = Ok s ->
  Inv s /\ hasCallback s = false /\ trace s = [Opened socket; Opened idle] /\
  acceptSocket_ s = socket /\ acceptChannel_ s = c /\
  Channel.chan_of (world s) c = Some (Channel.setReadCallback (Some on_read) (Channel.new loop socket)) /\
  Service.idle loop (world s) /\ Service.registry (world s) = Service.registry w /\
  forall n, Service.room n w -> Service.room n (world s).
Proof using H0.
  intros Ht Hc Hne E. unfold new, Sockets.createNonblockingOrDie in E. zcase (socket <? 0); [done|].
  rewrite bind_ok in E. inv_ok. zprop. subst s. cbn [world acceptSocket_ acceptChannel_ hasCallback trace].
  destruct (Service.idle_make loop c (Channel.setReadCallback (Some on_read) (Channel.new loop socket)) w Ht Hc)
    as (? & ? & ?).
  split_and!; try done; [|apply Channel.chan_put_eq]. unfold Inv, own. cbn. zcase (0 <=? idle); [|lia].
  split_and!; try done. unfold holds. cbn. set_solver.
Qed.

Lemma listen_run loop s :
  Inv s -> placed loop s -> Service.idle loop (world s) -> Service.room 1 (world s) ->
  (forall ch, Channel.chan_of (world s) (acceptChannel_ s) = Some ch -> Channel.index_ ch = -1) ->
  Service.registry (world s) !! acceptSocket_ s = None ->
  exists w, listen 0 s = Ok (set_world true w s) /\ placed loop (set_world true w s) /\
    Service.idle loop w /\ Service.registry w = <[acceptSocket_ s := acceptChannel_ s]> (Service.registry (world s)).
Proof using H0.
  intros (_ & Hpos & _ & Hl) (ch & Ec & Ef & El & Eh) Ht Hroom Hx Hr.
  destruct (Service.idle_register loop Channel.EnableReading (acceptChannel_ s) ch (world s) 0)
    as (w & E & Ht' & Er & _); [done|done|done|done|by apply Hx|by rewrite Ef|by rewrite Ef|].
  destruct (Channel.request_events _ _ _ _ _ Ec E) as (ch' & Ec' & Es).
  exists w. unfold listen, assertInLoopThread. rewrite Hl, bind_ok. cbn zeta. cbn [Sockets.listenOrDie]. 
  change (Channel.enableReading (acceptChannel_ s) (world s) = Ok w) in E.
  unfold Sockets.listenOrDie. cbn [Z.ltb Z.compare]. rewrite bind_ok.
  cbn [acceptChannel_ world set_world]. rewrite E, bind_ok. split_and!; [done| |done|by rewrite Er, Ef].
  exists ch'. split_and!; [done|..].
  - exact (eq_trans (f_equal Channel.fd_ Es) Ef).
  - exact (eq_trans (f_equal Channel.loop_ Es) El).
  - exact (eq_trans (f_equal Channel.eventHandling_ Es) Eh).
Qed.

(** The channel of an acceptor that listens. *)
Definition listens (c socket on_read : Z) (w : W) : Prop := exists ch,
  Channel.chan_of w c = Some ch /\ Channel.fd_ ch = socket /\ Channel.isReading ch = true /\
  Channel.addedToLoop_ ch = true /\ Channel.readCallback_ ch = Some on_read.

Lemma listen_listens ret s s1 ch : listen ret s = Ok s1 ->
  Channel.chan_of (world s) (acceptChannel_ s) = Some ch -> Channel.events_ ch = Channel.kNoneEvent ->
  forall on_read, Channel.readCallback_ ch = Some on_read ->
  listens (acceptChannel_ s) (Channel.fd_ ch) on_read (world s1).
Proof using H0.
  intros E Ec Ev on_read Hcb. unfold listen in E. inv_ok. subst s1.
  destruct (Channel.request_events Channel.EnableReading _ _ _ _ Ec E2) as (ch' & Ec' & Es). exists ch'.
  assert (Channel.events_ ch' = Channel.interest_bits (true, false)) as Ev'.
  { rewrite (f_equal Channel.events_ Es : Channel.events_ ch' = Channel.request_bits Channel.EnableReading _). by rewrite Ev. }
  split_and!; [done|exact (f_equal Channel.fd_ Es)|by rewrite (Channel.interest_isReading _ _ Ev')|
    exact (f_equal Channel.addedToLoop_ Es)|].
  rewrite <- Hcb. exact (f_equal Channel.readCallback_ Es).
Qed.

Lemma others_listens c socket on_read d w w' : Channel.others d w w' -> c <> d ->
  listens c socket on_read w -> listens c socket on_read w'.
Proof using.
  intros Ho Hne (ch & Ec & Hf & Hr & Ha & Hcb). specialize (Ho _ Hne). rewrite Ec in Ho.
  destruct (Channel.chan_of w' c) as [ch'|] eqn:Ec'; [|done]. apply (inj Some) in Ho. exists ch'.
  split_and!; [done|rewrite <- Hf; exact (f_equal Channel.fd_ Ho)| |rewrite <- Ha; exact (f_equal Channel.addedToLoop_ Ho)|
    rewrite <- Hcb; exact (f_equal Channel.readCallback_ Ho)].
  rewrite <- Hr. unfold Channel.isReading. by rewrite (f_equal Channel.events_ Ho : Channel.events_ ch' = _).
Qed.

Lemma acceptor_destroyed loop s R :
  Inv s -> placed loop s -> Service.idle loop (world s) ->
  Service.registry (world s) = <[acceptSocket_ s := acceptChannel_ s]> R -> R !! acceptSocket_ s = None ->
  exists t w, destroy s = Ok (t, w) /\ holds t = ∅ /\ Service.idle loop w /\ Service.registry w = R.
Proof using H0.
  intros (Hh & Hpos & Hne & _) (ch & Ec & Ef & El & Eh) Ht Er HR.
  destruct (Service.idle_take_off loop (acceptChannel_ s) ch (world s)) as (w1 & w2 & E1 & E2 & Ht2 & Er2 & _);
    [done..|by rewrite Er, Ef, lookup_insert_eq|].
  destruct (Service.taken_off _ _ _ _ _ Ec E1 E2) as (ch2 & Ec2 & Es).
  pose proof (f_equal Channel.fd_ Es) as Ef2. cbn in Ef2.
  assert (Service.registry w2 = R) as Er2' by (by rewrite Er2, Er, Ef, delete_insert_id).
  destruct (Service.idle_unmake loop (acceptChannel_ s) ch2 w2) as (w3 & E3 & Ht3 & Er3 & _).
  { done. } { done. } { exact (eq_trans (f_equal Channel.loop_ Es) El). }
  { exact (eq_trans (f_equal Channel.eventHandling_ Es) Eh). } { exact (f_equal Channel.addedToLoop_ Es). }
  { by rewrite Er2', Ef2, Ef. }
  eexists _, w3. unfold destroy. rewrite E1, bind_ok, E2, bind_ok. cbn zeta. rewrite E3, bind_ok.
  split_and!; [done| |done|congruence]. rewrite !holds_close, Hh. zcase (0 <=? acceptSocket_ s); [|lia].
  unfold own. zcase (0 <=? idleFd_ s); clear; set_solver.
Qed.
End Laws.

(** On poll(2), a channel that was never registered cannot be disabled and removed. *)
Lemma disable_unheard_aborts c ch fd (w : EventLoop.EventLoop PollPoller.PollPoller)
    (k : EventLoop.EventLoop PollPoller.PollPoller -> result (list fd_event * EventLoop.EventLoop PollPoller.PollPoller)) :
  LoopLife.idle (LoopService.calm w) -> Service.room 1 w -> Channel.chan_of w c = Some ch ->
  Channel.loop_ ch = EventLoop.this_ w ->
  Channel.fd_ ch = fd -> Channel.index_ ch = -1 -> 0 <= fd -> Service.registry w !! fd = None ->
  (w ← Channel.disableAll c w; w ← Channel.remove c w; k w) = Err AssertFailure.
Proof.
  intros [Ht _ Hi] Hroom Hc Hl Hf Hx Hpos Hfree. change (EventLoop.isInLoopThread w = true) in Ht.
  change (Poller.inv (EventLoop.poller_ w) (EventLoop.channels w)) in Hi.
  pose proof (LoopLife.inv_put _ _ c ch (LoopLife.disabled ch) Hi Hc eq_refl eq_refl) as Hi1.
  destruct (PollPoller.poll_poller_parks_late _ _ c (LoopLife.disabled ch) Hi1) as (p' & idx & Hu & _ & Hrem).
  { unfold PollPoller.has_room. change (zlen (PollPoller.pollfds_ (EventLoop.poller_ w)) + 1 < 2 ^ 31) in Hroom. cbn. lia. }
  { apply lookup_insert_eq. } { done. } { cbn. by rewrite Hf. } { cbn. by rewrite Hf. } { done. }
  rewrite insert_insert_eq in Hu. set (ch1 := Channel.set_index idx _) in *.
  set (w1 := EventLoop.with_chans p' (<[c := ch1]> (EventLoop.channels w)) w).
  assert (Channel.disableAll c w = Ok w1) as ->.
  { unfold Channel.disableAll. rewrite <- (LoopLife.put_same w c ch) at 1 by done.
    rewrite LoopLife.change_put, LoopLife.loop_update_put by done.
    change (Channel.set_addedToLoop _ _) with (LoopLife.disabled ch). cbn [Poller.updateChannel PollPoller.poll_poller].
    by rewrite Hu. }
  rewrite bind_ok. assert (EventLoop.channels w1 !! c = Some ch1) as Hc1 by apply lookup_insert_eq.
  unfold Channel.remove, Channel.deref. cbn [Channel.chan_of EventLoop.loop_host]. rewrite Hc1, bind_ok.
  rewrite assert_true, bind_ok by done. unfold Channel.modify, Channel.deref.
  cbn [Channel.chan_of EventLoop.loop_host]. rewrite Hc1, !bind_ok.
  cbn [Channel.loop_removeChannel EventLoop.loop_host]. unfold EventLoop.removeChannel, EventLoop.assertInLoopThread.
  set (ch2 := Channel.set_addedToLoop false ch1).
  set (w2 := Channel.put_chan c ch2 w1).
  assert (EventLoop.channels w2 !! c = Some ch2) as Hc2 by apply lookup_insert_eq.
  rewrite (Poller.deref_ok _ _ _ Hc2), bind_ok, (assert_true (Channel.loop_ ch2 =? _)), bind_ok
    by (apply Z.eqb_eq; exact Hl).
  change (EventLoop.isInLoopThread w2) with (EventLoop.isInLoopThread w). rewrite Ht, Poller.in_loop, bind_ok.
  destruct (if EventLoop.eventHandling_ w2 then assert_ _ else Ok tt) as [u|f] eqn:E.
  2:{ destruct (EventLoop.eventHandling_ w2); [|done]. destruct (bool_decide _ || _); [done|].
      by injection E as <-. }
  rewrite bind_ok. change (EventLoop.poller_ w2) with p'. cbn [Poller.removeChannel PollPoller.poll_poller].
  by rewrite (Hrem _ ch2 Hc2).
Qed.

(** ** Properties *)

(** The acceptor loses no descriptor and no place in its loop.  Constructed in a
    loop that serves, it listens; then, however many connections arrive, and however
    often the process runs out of descriptors, it always holds exactly its listening
    socket and, if it could be reopened, the spare descriptor, and every accepted
    connection is handed to the callback, once and in order, or closed if there is
    none; its destructor runs to the end, leaves nothing open and the loop's registry
    as it was. *)
Theorem acceptor_keeps_descriptors {W} `{Channel.HostLaws W} {SV : Service.Service W}
    loop c on_read socket idle bind (w : W) s0 (cb : bool) :
  Service.idle loop w -> Service.room 1 w -> Channel.chan_of w c = None ->
  Service.registry w !! socket = None -> socket <> idle ->
  new loop c on_read socket idle bind w = Ok s0 ->
  exists s1, listen 0 (if cb then setNewConnectionCallback s0 else s0) = Ok s1 /\
    Service.registry (world s1) = <[socket := c]> (Service.registry w) /\
    forall l s, run s1 l s ->
      holds (trace s) = own s /\ handed (trace s) = (if cb then connections l else []) /\
      exists t w', destroy s = Ok (t, w') /\ holds t = ∅ /\ Service.registry w' = Service.registry w.
Proof.
  intros Ht Hroom Hc Hr Hne E.
  destruct (new_run _ _ _ _ _ _ _ _ Ht Hc Hne E) as (Hi & Hcb & Htr & Es & Ech & Ec & Ht0 & Er0 & Hroom0).
  set (s := if cb then setNewConnectionCallback s0 else s0).
  assert (Inv s /\ placed loop s /\ world s = world s0 /\ acceptSocket_ s = socket /\ acceptChannel_ s = c /\
    trace s = trace s0 /\ hasCallback s = cb) as (Hi' & Hp & Ew & Es' & Ech' & Etr' & Ecb').
  { assert (placed loop s0) by (eexists; rewrite Ech, Es; split_and!; [exact Ec|done..]).
    unfold s. by destruct cb. }
  destruct (listen_run loop s) as (w1 & E1 & Hp1 & Ht1 & Er1).
  { done. } { done. } { by rewrite Ew. } { rewrite Ew. by apply Hroom0. }
  { rewrite Ew, Ech', Ec. by intros ch [= <-]. } { by rewrite Ew, Er0, Es'. }
  rewrite Ew, Er0, Es', Ech' in Er1. exists (set_world true w1 s). split_and!; [done|done|].
  intros l s2 Hrun. destruct (ops_inv _ _ _ Hrun Hi') as (Hi2 & _ & (P1 & P2 & P3) & Eh).
  split_and!; [apply Hi2| |].
  - rewrite Eh. cbn [trace hasCallback set_world]. rewrite Etr', Ecb', Htr. by destruct cb.
  - destruct Hp1 as (ch & Hp1).
    destruct (acceptor_destroyed loop s2 (Service.registry w)) as (t & w' & ? & ? & ? & ?); [done|..].
    { exists ch. by rewrite P1, P2, P3. } { by rewrite P3. }
    { rewrite P1, P2, P3. cbn [world acceptSocket_ acceptChannel_ set_world]. by rewrite Er1, Es', Ech'. }
    { rewrite P1. cbn [acceptSocket_ set_world]. by rewrite Es'. }
    by exists t, w'.
Qed.

(** An acceptor that never listened.  Its channel was never registered, so that the
    destructor's [disableAll] registers it, without interest; a loop on poll(2) cannot
    take such a channel off, and the destruction ends the process. *)
Theorem acceptor_unheard_aborts loop c on_read socket idle bind
    (w : EventLoop.EventLoop PollPoller.PollPoller) s :
  Service.idle loop w -> Service.room 1 w -> Channel.chan_of w c = None ->
  Service.registry w !! socket = None -> socket <> idle -> new loop c on_read socket idle bind w = Ok s ->
  destroy s = Err AssertFailure.
Proof.
  intros Ht Hroom Hc Hr Hne E.
  destruct (new_run _ _ _ _ _ _ _ _ Ht Hc Hne E) as (Hi & _ & _ & Es & Ech & Ec & Ht0 & Er0 & Hroom0).
  specialize (Hroom0 _ Hroom). destruct Hi as (_ & Hpos & _). rewrite Es in Hpos.
  set (ch := Channel.setReadCallback _ _) in *. destruct Ht0 as [[Hid El] _].
  unfold destroy. rewrite Ech. apply (disable_unheard_aborts c ch socket); try done.
  by rewrite Er0.
Qed.

(** ** Witnesses *)

Abbreviation Loop := (EventLoop.EventLoop PollPoller.PollPoller).

Definition made0 : result (Acceptor Loop) := new 1 6 9 3 4 0 (LoopService.poll_loop 1).
Definition heard0 : result (Acceptor Loop) := s ← made0; listen 0 (setNewConnectionCallback s).

(** A connection, the process without descriptors, and another connection. *)
Definition events0 : list event :=
  [mkEvent (Accepted 7 []) 0 0; mkEvent (AcceptError EMFILE) 4 4; mkEvent (Accepted 8 []) 0 0].

Lemma acceptor_keeps_descriptors_witness :
  exists s1 s t w, heard0 = Ok s1 /\ run s1 events0 s /\ holds (trace s) = own s /\ handed (trace s) = [7; 8] /\
    destroy s = Ok (t, w) /\ holds t = ∅.
Proof.
  destruct made0 as [s0|] eqn:E0; [|discriminate E0].
  destruct (acceptor_keeps_descriptors 1 6 9 3 4 0 (LoopService.poll_loop 1) s0 true) as (s1 & E1 & _ & Hrun);
    [apply LoopService.poll_loop_idle|by apply LoopService.poll_loop_room|reflexivity|reflexivity|done|exact E0|].
  assert (exists s, run s1 events0 s) as [s Hs].
  { injection E0 as <-. vm_compute in E1. injection E1 as <-. eexists.
    eapply run_cons; [split; [done|apply (bool_decide_eq_true_1 _); vm_compute; reflexivity]|vm_compute; reflexivity|].
    eapply run_cons; [split; done|vm_compute; reflexivity|].
    eapply run_cons; [split; [done|apply (bool_decide_eq_true_1 _); vm_compute; reflexivity]|vm_compute; reflexivity|].
    apply run_nil. }
  destruct (Hrun _ _ Hs) as (Hh & He & t & w & Ed & Ht & _). exists s1, s, t, w.
  split_and!; [|exact Hs|exact Hh|exact He|exact Ed|exact Ht]. unfold heard0. by rewrite E0, bind_ok.
Defined.

Lemma acceptor_unheard_aborts_witness : (s ← made0; destroy s) = Err AssertFailure.
Proof.
  destruct made0 as [s0|] eqn:E0; [|discriminate E0]. rewrite bind_ok.
  apply (acceptor_unheard_aborts 1 6 9 3 4 0 (LoopService.poll_loop 1) s0);
    [apply LoopService.poll_loop_idle|by apply LoopService.poll_loop_room|reflexivity|reflexivity|done|exact E0].
Defined.

End Acceptor.
