(* ===== verification/AcceptingServer.v ===== *)
(** * A server with its acceptor: TcpServer.cc on Acceptor.cc and TcpConnection.cc

    ServerConnections.v is given the sockets that arrive.  Here they come from the
    acceptor that the server owns, whose channel is in the base loop, possibly beside
    connections; descriptors are followed from accept(2) to the connection that
    closes them. *)

From stdpp Require Import functions.
From S2P Require Import Prelude NetBuffer Channel Service Poller PollPoller EventLoop LoopService Sockets Connection TcpConnection OwnedConnection EventLoopThreadPool TcpServer ServerConnections Acceptor.
Import Connection (outcome, Done, OwnerFault, ConnectionFault, owner, callee, blameless, elsewhere, sound, unused,
  channel_of, state_of).

Module AcceptingServer.

(** ** What a step of a server leaves alone *)

Section Frame.
Context {K L : Type} `{Connection.ConnectionLaws K L}.
Implicit Types s : TcpServer.TcpServer K L.
Import TcpServer.

(** A step for the connection at [c]: nothing else in the loops changes, and no
    connection gets another number or socket. *)
Record handles (c : Z) s s' : Prop := {
  h_loops : forall l, elsewhere c (loops s l) (loops s' l);
  h_loop : loop_ s' = loop_ s;
  h_next : nextConnId_ s' = nextConnId_ s;
  h_conns : forall d k', conns s' !! d = Some k' ->
    exists k, conns s !! d = Some k /\ cid k' = cid k /\ csock k' = csock k
}.

#[local] Instance handles_preorder c : PreOrder (handles c).
Proof.
  split.
  - intros s. split; try done. intros d k Hk. by exists k.
  - intros s1 s2 s3 [A1 A2 A3 A4] [B1 B2 B3 B4]. split; [intros l; etrans; [apply A1|apply B1]|congruence..|].
    intros d k3 Hk. destruct (B4 _ _ Hk) as (k2 & Hk2 & ? & ?). destruct (A4 _ _ Hk2) as (k1 & ? & ? & ?).
    exists k1. split_and!; congruence.
Qed.

(** Steps that only queue, note or register. *)
Lemma handles_same c s s' : loops s' = loops s -> loop_ s' = loop_ s -> nextConnId_ s' = nextConnId_ s ->
  conns s' = conns s -> handles c s s'.
Proof.
  intros E1 E2 E3 E4. split; [intros l; by rewrite E1|done..|]. rewrite E4. intros d k Hk. by exists k.
Qed.

Lemma commit_handles c k n o x s : conns s !! c = Some k -> elsewhere c (loops s (cloop k)) x ->
  handles c s (commit c k n o x s).
Proof.
  intros Hk He. split; cbn; try done.
  - intros l. destruct (decide (l = cloop k)) as [->|Hne]; [by rewrite fn_lookup_insert|].
    by rewrite fn_lookup_insert_ne.
  - intros d k' Hd. apply lookup_insert_Some in Hd as [[<- <-]|[_ Hd]]; [by exists k|by exists k'].
Qed.

Lemma remove_handles cur c s s' : removeConnection cur c s = Done s' -> handles c s s'.
Proof.
  unfold removeConnection, removeConnectionInLoop. intros E. destruct (dead s); [done|].
  destruct (cur =? loop_ s); Connection.inv_done; cbn zeta in *; Connection.inv_done; subst s'; by apply handles_same.
Qed.

Lemma happens_handles c k n r s s' : conns s !! c = Some k ->
  (forall o x b, r = Ok (o, x, b) -> elsewhere c (loops s (cloop k)) x) ->
  happens c k n r s = Done s' -> handles c s s'.
Proof.
  intros Hk Hr E. unfold happens in E. Connection.inv_done. destruct a as [[o x] b]. cbn zeta in E.
  pose proof (commit_handles c k n o x s Hk (Hr _ _ _ E0)) as Hc.
  destruct b; [|Connection.inv_done; by subst]. etrans; [exact Hc|]. by eapply remove_handles.
Qed.

Lemma established_handles cur c s s' : 
  (forall k, conns s !! c = Some k -> sound (cobj k) (loops s (cloop k)) /\ channel_of (cobj k) = c) ->
  connectEstablished cur c s = Done s' -> handles c s s'.
Proof.
  unfold connectEstablished. intros Hs E. Connection.inv_done. destruct a2 as [o x]. Connection.inv_done. subst s'.
  unfold deref in E0. apply Connection.owner_done_inv in E0.
  destruct (conns s !! c) as [k|] eqn:Ek; [|done]. injection E0 as <-. destruct (Hs _ eq_refl) as [Hk Hc].
  case_bool_decide as Hst; [|done].
  destruct (Connection.established_spec _ _ _ _ _ Hk Hst E3) as (_ & _ & _ & _ & He). rewrite Hc in He.
  etrans; [exact (commit_handles c k (Connection.pending (cobj k)) o x s Ek He)|by apply handles_same].
Qed.

Lemma destroyed_handles cur c s s' :
  (forall k, conns s !! c = Some k -> sound (cobj k) (loops s (cloop k)) /\ channel_of (cobj k) = c) ->
  connectDestroyed cur c s = Done s' -> handles c s s'.
Proof.
  unfold connectDestroyed. intros Hs E. Connection.inv_done. destruct a3 as [o x]. Connection.inv_done. subst s'.
  unfold deref in E0. apply Connection.owner_done_inv in E0.
  destruct (conns s !! c) as [k|] eqn:Ek; [|done]. injection E0 as <-. destruct (Hs _ eq_refl) as [Hk Hc].
  destruct (Connection.destroyed_spec _ _ _ _ Hk E4) as (Ho & _ & He).
  pose proof (Connection.destruct_spec _ _ _ E5) as He'. rewrite Ho in He'. rewrite Hc in He, He'.
  etrans; [apply (commit_handles c k (Connection.pending (cobj k)) o a3 s Ek); etrans; [exact He|exact He']|].
  split; cbn; try done. intros d k' Hd. apply lookup_delete_Some in Hd as [Hne Hd]. exists k'.
  by rewrite lookup_insert_ne.
Qed.

(** The connections of a sound server. *)
Lemma inv_connection s c k : Inv s -> conns s !! c = Some k ->
  sound (cobj k) (loops s (cloop k)) /\ channel_of (cobj k) = c.
Proof. intros Hi Hk. by destruct (inv_phase _ Hi _ _ Hk) as [p []]. Qed.

(** Any step but accepting handles one connection. *)
Lemma step_handles o s s' : Inv s -> (forall c fd, o <> OpAccept c fd) -> o <> OpEnd ->
  run_op o s = Done s' -> s' = s \/ exists c, is_Some (conns s !! c) /\ handles c s s'.
Proof.
  intros Hi Hna Hne E. destruct o as [c fd|c a|l|]; cbn [run_op] in E; [by destruct (Hna c fd)| | |done].
  - unfold connection_act in E. destruct (conns s !! c) as [k|] eqn:Ek; [|Connection.inv_done; by left].
    right. exists c. split; [done|]. destruct (inv_connection _ _ _ Hi Ek) as [Hk Hc].
    eapply happens_handles; [done| |done]. intros o x b Er.
    apply Connection.act_spec in Er as (_ & _ & _ & _ & He); [|done]. by rewrite Hc in He.
  - unfold run_functor in E. destruct (pop l (queue s)) as [[t q]|] eqn:Hp; [|Connection.inv_done; by left].
    right. pose proof (fun c k Hk => inv_connection s c k Hi Hk) as Hsound.
    assert (forall c, handles c s (set_queue q s)) as Hq by (intros c; by apply handles_same).
    pose proof (pop_in _ _ _ _ Hp) as [Hin _]. pose proof (inv_queue _ Hi _ _ Hin) as Hpl.
    destruct t as [c|c|c|c id]; cbn zeta in E; cbn [placed] in Hpl.
    + destruct Hpl as (k & Hk & _). exists c. split; [by eexists|]. etrans; [apply Hq|].
      eapply established_handles; [|exact E]. apply Hsound.
    + destruct Hpl as (k & Hk & _). exists c. split; [by eexists|]. etrans; [apply Hq|].
      cbn [dead set_queue] in E. rewrite (inv_alive _ Hi) in E. unfold removeConnectionInLoop in E.
      Connection.inv_done. cbn zeta in E. Connection.inv_done. subst s'. by apply handles_same.
    + destruct Hpl as (k & Hk & _). exists c. split; [by eexists|]. etrans; [apply Hq|].
      eapply destroyed_handles; [|exact E]. apply Hsound.
    + unfold connection_functor in E. cbn [conns set_queue] in E.
      destruct (conns s !! c) as [k|] eqn:Ek; [|done]. destruct (cid k =? id); [|done].
      exists c. split; [done|]. etrans; [apply Hq|]. destruct (Hsound _ _ Ek) as [Hk Hc].
      eapply happens_handles; [done| |exact E]. intros o x b Er. cbn [loops set_queue].
      apply Connection.functor_spec in Er as (_ & _ & _ & _ & He); [|done]. by rewrite Hc in He.
Qed.

(** Accepting: the new connection has the next number and the socket. *)
Lemma accept_handles c fd s s' : unoccupied c s -> newConnection (loop_ s) c fd s = Done s' ->
  (forall l, elsewhere c (loops s l) (loops s' l)) /\ loop_ s' = loop_ s /\ nextConnId_ s' = nextConnId_ s + 1 /\
  forall d k', conns s' !! d = Some k' ->
    (d = c /\ cid k' = nextConnId_ s /\ csock k' = fd) \/
    (d <> c /\ exists k, conns s !! d = Some k /\ cid k' = cid k /\ csock k' = csock k).
Proof.
  intros [Hc Hu] E. unfold newConnection in E. Connection.inv_done. destruct a0 as [io p]. cbn zeta in E.
  Connection.inv_done. destruct a1 as [o x].
  destruct (Connection.construct_spec _ _ _ _ _ _ (Hu io) E3) as (Hs & Hst & Hch & _ & He).
  set (k := mkConn (conn_name s (nextConnId_ s)) io fd o (nextConnId_ s)) in *. cbn zeta in E.
  set (s1 := note _ _ _) in E.
  assert (forall l, elsewhere c (loops s l) (loops s1 l)) as Hl1.
  { intros l. cbn. destruct (decide (l = io)) as [->|Hne]; [by rewrite fn_lookup_insert|].
    by rewrite fn_lookup_insert_ne. }
  assert (handles c s1 s') as [B1 B2 B3 B4].
  { destruct (loop_ s =? io).
    - eapply established_handles; [|exact E]. intros k0 Hk0. cbn in Hk0. rewrite lookup_insert_eq in Hk0.
      injection Hk0 as <-. cbn. by rewrite fn_lookup_insert.
    - Connection.inv_done. subst s'. by apply handles_same. }
  split_and!; [intros l; etrans; [apply Hl1|apply B1]|done|done|].
  intros d k' Hd. destruct (B4 _ _ Hd) as (k1 & Hk1 & ? & ?). cbn in Hk1.
  apply lookup_insert_Some in Hk1 as [[<- <-]|[Hne Hk1]]; [left; by split_and!|right; by eauto].
Qed.

(** A loop that has changed without its connections having noticed. *)
Lemma inv_loops s s' : Inv s -> (forall l, loops s' l = loops s l) -> loop_ s' = loop_ s ->
  ipPort_ s' = ipPort_ s -> name_ s' = name_ s -> threadPool_ s' = threadPool_ s -> nextConnId_ s' = nextConnId_ s ->
  connections_ s' = connections_ s -> conns s' = conns s -> queue s' = queue s -> log s' = log s -> dead s' = dead s ->
  Inv s'.
Proof.
  destruct s, s'; cbn. intros [I1 I2 I3 I4 I5 I6 I7 I8 I9 I10 I11] Hl ? ? ? ? ? ? ? ? ? ?. subst.
  split; try done. intros c k Hk. destruct (I7 c k Hk) as [p []]. exists p. split; try done. cbn in *. by rewrite Hl.
Qed.

(** Without connections the loops do not matter. *)
Lemma unconnected_inv l x s : conns s = ∅ -> Inv s -> Inv (set_loop l x s).
Proof.
  intros Hc [I1 I2 I3 I4 I5 I6 I7 I8 I9 I10 I11]. split; try done. cbn. rewrite Hc. by intros c k.
Qed.

End Frame.

(** ** The server and its acceptor *)

Section System.
Import TcpConnection OwnedConnection.
Context {W : Type} `{Channel.HostLaws W} {SV : Service.Service W}.
Abbreviation Conn := (TcpConnection.TcpConnection W).
Context (kwrite : nat -> list byte -> write_answer) (kread : nat -> Z -> Buffer.readv_result).
Context (user : event -> Conn -> list user_op) (on_read on_write on_close on_error : Z).

#[local] Hint Extern 0 (Connection.Connection _ W) =>
  exact (connection kwrite kread user on_read on_write on_close on_error) : typeclass_instances.

(** [acceptor_]; its world is that of the base loop. *)
Record System := mkSystem { server : TcpServer.TcpServer Conn W; acceptor_ : Acceptor.Acceptor W }.

(** The constructor of the server with [listenAddr] in the loop [loop], [setThreadNum]
    and [start], which has the acceptor listen. *)
Definition start (startLoop : Z -> list byte -> Z) (loop : Z) (ipPort name : list byte) (ls : Z -> W) (n : Z)
    (cb : bool) (ca on_accept socket idle bind ret : Z) : result System :=
  a ← Acceptor.new loop ca on_accept socket idle bind (ls loop);
  let a := Acceptor.setNewConnectionCallback a in
  s ← TcpServer.setThreadNum n (TcpServer.new loop ipPort name ls);
  s ← TcpServer.start startLoop cb (Acceptor.listening_ a) s;
  a ← Acceptor.listen ret a;
  Ok (mkSystem (TcpServer.set_loop loop (Acceptor.world a) s) a).

(** The acceptor in the base loop as it is now. *)
Definition in_base (x : System) : Acceptor.Acceptor W :=
  Acceptor.set_world (Acceptor.listening_ (acceptor_ x))
    (TcpServer.loops (server x) (TcpServer.loop_ (server x))) (acceptor_ x).

(** [Acceptor::handleRead], whose callback is [newConnection]; [c] is the address of
    the connection if one is made.  What ends the process in accept(2) is not the
    server's fault. *)
Definition accept (e : Acceptor.event) (c : Z) (x : System) : outcome System :=
  a ← callee (Acceptor.run_event e (in_base x));
  let s := TcpServer.set_loop (TcpServer.loop_ (server x)) (Acceptor.world a) (server x) in
  s ← match drop (length (Acceptor.handed (Acceptor.trace (acceptor_ x)))) (Acceptor.handed (Acceptor.trace a)) with
      | [] => Done s
      | fd :: _ => TcpServer.newConnection (TcpServer.loop_ s) c fd s
      end;
  Done (mkSystem s a).

Inductive op := OpAccept (e : Acceptor.event) (c : Z) | OpServer (o : TcpServer.op Conn W).

Definition run_op (o : op) (x : System) : outcome System :=
  match o with
  | OpAccept e c => accept e c x
  | OpServer o => s ← TcpServer.run_op o (server x); Done (mkSystem s (acceptor_ x))
  end.

Fixpoint run_ops (os : list op) (x : System) : outcome System :=
  match os with
  | [] => Done x
  | o :: os => x ← run_op o x; run_ops os x
  end.

(** ** Descriptors *)

(** The kernel gives out descriptors that are not in use. *)
Definition unused_fd (fd : Z) (x : System) : Prop :=
  forall c k, TcpServer.conns (server x) !! c = Some k -> TcpServer.csock k <> fd.
Definition kernel_ok (e : Acceptor.event) (x : System) : Prop :=
  Acceptor.kernel_ok e (acceptor_ x) /\
  match Acceptor.ev_answer e with
  | Sockets.Accepted fd _ => unused_fd fd x
  | Sockets.AcceptError _ => unused_fd (Acceptor.ev_reopened e) x
  end.

(** The accepted descriptors, in order; each is the socket of the connection with its
    number, as long as that lives, and nobody else's. *)
Record owners (x : System) : Prop := {
  own_acceptor : Acceptor.holds (Acceptor.trace (acceptor_ x)) = Acceptor.own (acceptor_ x);
  own_count : TcpServer.nextConnId_ (server x) = 1 + zlen (Acceptor.handed (Acceptor.trace (acceptor_ x)));
  own_sockets : forall c k, TcpServer.conns (server x) !! c = Some k ->
    Acceptor.handed (Acceptor.trace (acceptor_ x)) !! Z.to_nat (TcpServer.cid k - 1) = Some (TcpServer.csock k) /\
    TcpServer.csock k ∉ Acceptor.own (acceptor_ x);
  own_apart : forall c d k h, TcpServer.conns (server x) !! c = Some k -> TcpServer.conns (server x) !! d = Some h ->
    TcpServer.csock k = TcpServer.csock h -> c = d
}.

Context (Hkw : write_contract kwrite) (Hkr : read_contract kread).

#[local] Hint Extern 0 (Connection.ConnectionLaws _ W) =>
  exact (connection_laws kwrite kread user on_read on_write on_close on_error Hkw Hkr) : typeclass_instances.

(** Connections are made at addresses that nobody uses, as long as the numbers last. *)
Definition allowed (o : op) (x : System) : Prop :=
  match o with
  | OpAccept e c => kernel_ok e x /\ TcpServer.nextConnId_ (server x) < 2 ^ 31 - 1 /\
      TcpServer.unoccupied c (server x)
  | OpServer (TcpServer.OpAccept _ _) | OpServer TcpServer.OpEnd => False
  | OpServer _ => True
  end.

Fixpoint allowed_all (os : list op) (x : System) : Prop :=
  match os with
  | [] => True
  | o :: os => allowed o x /\ match run_op o x with Done x' => allowed_all os x' | _ => True end
  end.

(** ** The invariant *)

(** The acceptor's channel is at [ca], its socket is [socket], its handler [on_accept]. *)
Record Inv (ca socket on_accept : Z) (x : System) : Prop := {
  sys_server : TcpServer.Inv (server x);
  sys_acceptor : Acceptor.Inv (acceptor_ x);
  sys_callback : Acceptor.hasCallback (acceptor_ x) = true;
  sys_channel : Acceptor.acceptChannel_ (acceptor_ x) = ca;
  sys_socket : Acceptor.acceptSocket_ (acceptor_ x) = socket;
  sys_listens : Acceptor.listens ca socket on_accept
    (TcpServer.loops (server x) (TcpServer.loop_ (server x)));
  sys_away : TcpServer.conns (server x) !! ca = None;
  sys_owners : owners x
}.

Lemma done_blameless {A} (m : outcome A) (P : A -> Prop) : blameless m P -> blameless m (fun a => m = Done a /\ P a).
Proof. by destruct m. Qed.

(** What the channel of the acceptor sees of a step for another connection. *)
Lemma listens_on ca socket on_accept c (w w' : W) : elsewhere c w w' -> ca <> c ->
  Acceptor.listens ca socket on_accept w -> Acceptor.listens ca socket on_accept w'.
Proof. apply Acceptor.others_listens. Qed.

Lemma server_op_ok ca socket on_accept o x : Inv ca socket on_accept x -> allowed (OpServer o) x ->
  blameless (run_op (OpServer o) x) (Inv ca socket on_accept).
Proof.
  intros [I1 I2 I3 I4 I5 I6 I7 [O1 O2 O3 O4]] Ho. cbn [run_op].
  assert ((forall c fd, o <> TcpServer.OpAccept c fd) /\ o <> TcpServer.OpEnd) as [Hna Hne].
  { by destruct o. }
  assert (TcpServer.allowed o (server x)) as Hok by (by destruct o).
  eapply Connection.blameless_bind; [by apply done_blameless, TcpServer.run_op_ok|].
  intros s [E Hi]. cbn [blameless].
  destruct (step_handles o _ _ I1 Hna Hne E) as [->|(c & [k0 Hk0] & [H1 H2 H3 H4])]; [by split|].
  assert (ca <> c) as Hc by congruence.
  split; cbn; try done.
  - rewrite H2. exact (listens_on _ _ _ c _ _ (H1 _) Hc I6).
  - destruct (TcpServer.conns s !! ca) as [k'|] eqn:Ek; [|done].
    destruct (H4 _ _ Ek) as (k & Hk & _). congruence.
  - split; cbn; [done|by rewrite H3| |].
    + intros d k' Hd. destruct (H4 _ _ Hd) as (k & Hk & -> & ->). by apply (O3 d).
    + intros d e k' h' Hd He Es. destruct (H4 _ _ Hd) as (k & Hk & _ & Ek), (H4 _ _ He) as (h & Hh & _ & Eh).
      apply (O4 d e k h); congruence.
Qed.

(** A descriptor that the acceptor holds is free when it is given out, and one that a
    connection holds is not the acceptor's. *)
Lemma event_own e x a : Acceptor.Inv (acceptor_ x) -> kernel_ok e x ->
  Acceptor.run_event e (in_base x) = Ok a ->
  forall fd, (exists c k, TcpServer.conns (server x) !! c = Some k /\ TcpServer.csock k = fd) ->
    fd ∉ Acceptor.own (acceptor_ x) -> fd ∉ Acceptor.own a.
Proof.
  intros (_ & _ & _ & Hl) [_ Hk] E fd (c & k & Hc & Hfd). destruct e as [answer raw reopened].
  unfold Acceptor.run_event, Acceptor.handleRead, Acceptor.assertInLoopThread in E.
  cbn [Acceptor.inLoop in_base Acceptor.set_world Acceptor.ev_answer Acceptor.ev_raw Acceptor.ev_reopened] in *.
  rewrite Hl, bind_ok in E. apply bind_ok_inv in E as (r & Er & E).
  destruct answer as [connfd addr|err]; cbn [Sockets.accept] in Er; [injection Er as <-; by injection E as <-|].
  destruct (Sockets.expected_accept_error err); [|done]. injection Er as <-. cbn iota beta in E.
  destruct (err =? Sockets.EMFILE); injection E as <-; [|exact id].
  unfold Acceptor.own. cbn. specialize (Hk c k Hc).
  destruct (0 <=? reopened); destruct (0 <=? Acceptor.idleFd_ _); clear -Hk Hfd; set_solver.
Qed.

(** What the new state of the acceptor does not change. *)
Lemma accepted_owners e x a : owners x -> Acceptor.Inv (acceptor_ x) -> kernel_ok e x ->
  Acceptor.run_event e (in_base x) = Ok a -> Acceptor.Inv a ->
  Acceptor.handed (Acceptor.trace a) = Acceptor.handed (Acceptor.trace (acceptor_ x)) ++ Acceptor.connections [e] ->
  forall c k, TcpServer.conns (server x) !! c = Some k ->
    Acceptor.handed (Acceptor.trace a) !! Z.to_nat (TcpServer.cid k - 1) = Some (TcpServer.csock k) /\
    TcpServer.csock k ∉ Acceptor.own a.
Proof.
  intros [_ _ O3 _] Ha Hk E _ Eh c k Hc. destruct (O3 _ _ Hc) as [Hnth Hfree]. split.
  - rewrite Eh. by apply lookup_app_l_Some.
  - by apply (event_own e x); [..|exists c, k|].
Qed.

Lemma accept_ok ca socket on_accept e c x : Inv ca socket on_accept x -> allowed (OpAccept e c) x ->
  blameless (run_op (OpAccept e c) x) (Inv ca socket on_accept).
Proof.
  intros [I1 I2 I3 I4 I5 I6 I7 I8] (Hk & Hn & Hun). pose proof I8 as [O1 O2 O3 O4]. cbn [run_op]. unfold accept.
  eapply Connection.blameless_bind; [apply Connection.blameless_callee; intros a E; exact E|]. intros a E.
  destruct (Acceptor.event_inv e (in_base x) a) as (Ha & Hcb & (P1 & P2 & P3) & Eh); [done|apply Hk|done|].
  cbn [in_base Acceptor.set_world Acceptor.trace Acceptor.hasCallback Acceptor.world Acceptor.acceptSocket_
    Acceptor.acceptChannel_] in Hcb, P1, P2, P3, Eh. rewrite I3 in Hcb, Eh.
  pose proof (accepted_owners e x a I8 I2 Hk E Ha Eh) as Hold.
  rewrite Eh, drop_app_length. cbn zeta. rewrite P3.
  set (s := TcpServer.set_loop _ _ (server x)).
  assert (forall l, TcpServer.loops s l = TcpServer.loops (server x) l) as Hloops.
  { intros l. cbn. destruct (decide (l = TcpServer.loop_ (server x))) as [->|Hne];
      [by rewrite fn_lookup_insert|by rewrite fn_lookup_insert_ne]. }
  assert (TcpServer.Inv s) as Hi by (by apply (inv_loops (server x))).
  assert (Acceptor.connections [e] = [] -> Inv ca socket on_accept (mkSystem s a)) as Hnone.
  { intros Hno. rewrite Hno, app_nil_r in Eh. split; cbn; try congruence.
    - rewrite fn_lookup_insert. done.
    - split; cbn; [apply Ha|by rewrite Eh|done|done]. }
  destruct (Acceptor.ev_answer e) as [fd addr|err] eqn:Ee; unfold Acceptor.connections in *; cbn in Eh, Hnone |- *;
    rewrite Ee in *; cbn in Eh, Hnone |- *; [|by apply Hnone].
  clear Hnone. destruct Hk as [Hk1 Hk2]. rewrite Ee in Hk2. unfold Acceptor.kernel_ok in Hk1. rewrite Ee in Hk1.
  assert (TcpServer.unoccupied c s) as Hun' by (destruct Hun as [U1 U2]; split; [done|]; intros l; by rewrite Hloops).
  eapply Connection.blameless_bind; [by apply done_blameless, (TcpServer.newConnection_ok s c fd Hi)|].
  intros s' [Es Hi']. cbn [blameless].
  destruct (accept_handles c fd s s' Hun' Es) as (B1 & B2 & B3 & B4).
  assert (ca <> c) as Hc.
  { intros ->. destruct I6 as (ch & Ech & _). destruct Hun as [_ Hu]. specialize (Hu (TcpServer.loop_ (server x))).
    cbn in Hu. congruence. }
  assert (Acceptor.own a = Acceptor.own (acceptor_ x)) as Eown.
  { unfold Acceptor.run_event, Acceptor.handleRead in E. rewrite Ee in E. apply bind_ok_inv in E as (u & _ & E).
    by injection E as <-. }
  split; cbn; try congruence.
  - rewrite B2. apply (listens_on _ _ _ c _ _ (B1 _) Hc). by rewrite Hloops.
  - destruct (TcpServer.conns s' !! ca) as [k'|] eqn:Ek; [|done].
    destruct (B4 _ _ Ek) as [[-> _]|(_ & k & Hk' & _)]; [done|]. cbn in Hk'. congruence.
  - assert (forall d k, TcpServer.conns (server x) !! d = Some k -> TcpServer.csock k <> fd) as Hfresh by exact Hk2.
    split; cbn.
    + apply Ha.
    + rewrite B3, Eh, zlen_app. cbn. rewrite O2. change (zlen [fd]) with 1. lia.
    + intros d k' Hd. destruct (B4 _ _ Hd) as [(-> & Eid & Esock)|(_ & k & Hk' & Eid & Esock)]; rewrite Eid, Esock.
      * cbn. rewrite O2, Eh. split; [|rewrite Eown; apply Hk1].
        rewrite list_lookup_middle; [done|]. unfold zlen. lia.
      * by apply (Hold d).
    + intros d d' k' h' Hd Hd' Esock.
      destruct (B4 _ _ Hd) as [(-> & _ & Ek)|(_ & k & Hk' & _ & Ek)], (B4 _ _ Hd') as [(-> & _ & Eh')|(_ & h & Hh' & _ & Eh')];
        cbn in *; [done| | |].
      * destruct (Hfresh _ _ Hh'). congruence.
      * destruct (Hfresh _ _ Hk'). congruence.
      * apply (O4 d d' k h); congruence.
Qed.

Lemma system_ops_ok ca socket on_accept os x : Inv ca socket on_accept x -> allowed_all os x ->
  blameless (run_ops os x) (Inv ca socket on_accept).
Proof.
  revert x. induction os as [|o os IH]; intros x Hi Ha; [done|]. destruct Ha as [Ho Ha]. cbn [run_ops].
  apply (Connection.blameless_bind _ _ (fun t => run_op o x = Done t /\ Inv ca socket on_accept t)).
  - apply done_blameless. destruct o; [by apply accept_ok|by apply server_op_ok].
  - intros t [E Ht]. rewrite E in Ha. by apply IH.
Qed.

(** Addresses that nobody uses stay so. *)
Definition vacant (d : Z) (x : System) : Prop := forall l, Channel.chan_of (TcpServer.loops (server x) l) d = None.

Lemma others_vacant c d (w w' : W) : elsewhere c w w' -> d <> c -> Channel.chan_of w d = None -> Channel.chan_of w' d = None.
Proof using. intros Ho Hne Hd. specialize (Ho d Hne). rewrite Hd in Ho. by destruct (Channel.chan_of w' d). Qed.

Lemma accept_vacant e c d x x' : accept e c x = Done x' -> TcpServer.unoccupied c (server x) -> d <> c ->
  vacant d x -> vacant d x'.
Proof.
  intros E [Hc Hu] Hne Hd. unfold accept in E. Connection.inv_done. cbn zeta in E1. subst x'.
  assert (Acceptor.world a = Acceptor.world (in_base x)) as Ew.
  { unfold Acceptor.run_event, Acceptor.handleRead in E0. inv_ok. destruct a2; [by inv_ok; subst a|].
    destruct (err =? Sockets.EMFILE); inv_ok; by subst a. }
  rewrite Ew in E1. cbn [Acceptor.world in_base Acceptor.set_world] in E1. set (s := TcpServer.set_loop _ _ (server x)) in E1.
  assert (forall l, TcpServer.loops s l = TcpServer.loops (server x) l) as Hloops.
  { intros l. cbn. destruct (decide (l = TcpServer.loop_ (server x))) as [->|Hl];
      [by rewrite fn_lookup_insert|by rewrite fn_lookup_insert_ne]. }
  intros l. cbn. destruct (drop _ _) as [|fd fds]; [Connection.inv_done; subst a0; by rewrite Hloops|].
  destruct (accept_handles c fd s a0) as (B1 & _); [split; [done|]; intros m; by rewrite Hloops|done|].
  eapply others_vacant; [apply B1|done|by rewrite Hloops].
Qed.

(** ** Starting *)

Lemma started_system startLoop loop ipPort name ls n cb ca on_accept socket idle bind a0 :
  zlen ipPort <= 51 -> 0 <= n < 2 ^ 31 ->
  Service.idle loop (ls loop) -> Service.room 1 (ls loop) -> Channel.chan_of (ls loop) ca = None ->
  Service.registry (ls loop) !! socket = None -> socket <> idle ->
  Acceptor.new loop ca on_accept socket idle bind (ls loop) = Ok a0 ->
  exists x, start startLoop loop ipPort name ls n cb ca on_accept socket idle bind 0 = Ok x /\
    Inv ca socket on_accept x.
Proof.
  intros Hip Hn Ht Hroom Hca Hreg Hne E.
  destruct (Acceptor.new_run _ _ _ _ _ _ _ _ Ht Hca Hne E)
    as (Hi & Hcb & Htr & Es & Ech & Ec & Ht0 & Er0 & Hroom0).
  set (a := Acceptor.setNewConnectionCallback a0).
  destruct (Acceptor.listen_run loop a) as (w1 & E1 & _).
  { done. } { eexists. change (Acceptor.world a) with (Acceptor.world a0).
    change (Acceptor.acceptChannel_ a) with (Acceptor.acceptChannel_ a0). rewrite Ech.
    split_and!; [exact Ec|by rewrite <- Es|done..]. } { done. } { by apply Hroom0. }
  { change (Acceptor.world a) with (Acceptor.world a0). change (Acceptor.acceptChannel_ a) with (Acceptor.acceptChannel_ a0).
    rewrite Ech, Ec. by intros ch [= <-]. }
  { change (Acceptor.world a) with (Acceptor.world a0). change (Acceptor.acceptSocket_ a) with (Acceptor.acceptSocket_ a0).
    by rewrite Er0, Es. }
  pose proof (Acceptor.listen_listens _ _ _ (Channel.setReadCallback (Some on_accept) (Channel.new loop socket)) E1) as Hl.
  change (Acceptor.world a) with (Acceptor.world a0) in Hl. change (Acceptor.acceptChannel_ a) with (Acceptor.acceptChannel_ a0) in Hl.
  rewrite Ech in Hl. specialize (Hl Ec eq_refl on_accept eq_refl). cbn [Acceptor.world Acceptor.set_world] in Hl.
  destruct (TcpServer.server_started_inv startLoop loop ipPort name ls n cb Hip Hn) as (s & E2 & Hs & Hcs & _ & Hloop & Hnext).
  assert (Acceptor.listening_ a = false) as Hlis.
  { unfold Acceptor.new in E. inv_ok. by subst a0. }
  exists (mkSystem (TcpServer.set_loop loop w1 s) (Acceptor.set_world true w1 a)). split.
  - unfold start. rewrite E, bind_ok. cbn zeta. fold a. rewrite Hlis.
    apply bind_ok_inv in E2 as (s1 & E3 & E4). by rewrite E3, bind_ok, E4, bind_ok, E1, bind_ok.
  - split; cbn; try done; [by apply unconnected_inv| | |].
    + rewrite Hloop, fn_lookup_insert. exact Hl.
    + by rewrite Hcs.
    + split; cbn; [apply Hi|by rewrite Hnext, Htr| |]; rewrite Hcs; [by intros c k|by intros c d k h].
Qed.

(** ** Properties *)

(** [C10] A server and its acceptor as one system.  Constructed in a loop that serves, the
    server starts, and in any run of connections arriving, the process running out of
    descriptors, events, calls, timers and functors, whatever the interleaving of the
    loops: it breaks no precondition; the acceptor's channel stays registered for
    reading in the base loop, beside connections there; the acceptor holds its
    listening socket and the spare descriptor and nothing else; every accepted
    descriptor became the socket of the connection with its number, and belongs to
    that connection alone as long as it lives; and the registry and the connections'
    users are served as in a server that is given its sockets. *)
Theorem server_accepts startLoop loop ipPort name ls n cb ca on_accept socket idle bind a0 :
  zlen ipPort <= 51 -> 0 <= n < 2 ^ 31 ->
  Service.idle loop (ls loop) -> Service.room 1 (ls loop) -> Channel.chan_of (ls loop) ca = None ->
  Service.registry (ls loop) !! socket = None -> socket <> idle ->
  Acceptor.new loop ca on_accept socket idle bind (ls loop) = Ok a0 ->
  exists x0, start startLoop loop ipPort name ls n cb ca on_accept socket idle bind 0 = Ok x0 /\
    forall os, allowed_all os x0 -> blameless (run_ops os x0) (fun x =>
      owners x /\
      Acceptor.listens ca socket on_accept (TcpServer.loops (server x) (TcpServer.loop_ (server x))) /\
      TcpServer.well_kept (server x) /\ TcpServer.ordered (server x) /\
      forall c k, TcpServer.conns (server x) !! c = Some k -> ServerConnections.served (server x) k).
Proof.
  intros Hip Hn Ht Hroom Hca Hreg Hne E.
  destruct (started_system startLoop loop ipPort name ls n cb ca on_accept socket idle bind a0) as (x0 & E0 & Hi);
    [done..|].
  exists x0. split; [done|]. intros os Ha. eapply Connection.blameless_mono; [|by eapply system_ops_ok].
  intros x [I1 _ _ _ _ I6 _ I8]. destruct (TcpServer.Inv_accurate _ I1) as (? & ? & Hcare).
  split_and!; [done..|]. intros c k. by apply (ServerConnections.sound_served kwrite kread user on_read on_write on_close
    on_error Hkw Hkr).
Qed.

End System.
Arguments OpAccept {W _ kwrite kread user on_read on_write on_close on_error} e c.
Arguments OpServer {W _ kwrite kread user on_read on_write on_close on_error} o.

(** ** Witness *)

(** A server without threads in a loop on poll(2): the connections are in the base loop,
    beside the acceptor.  The second time the process has run out of descriptors. *)
Abbreviation Loop := OwnedConnection.Loop.
Abbreviation one_poll := OwnedConnection.one_poll.
Abbreviation one_poll_laws := OwnedConnection.one_poll_laws.

Abbreviation system := (@System Loop).
Abbreviation system_op := (@op Loop _ OwnedConnection.kwrite2 TcpConnection.kread_hi OwnedConnection.answers 1 2 3 4).
Abbreviation run_system := (run_ops OwnedConnection.kwrite2 TcpConnection.kread_hi OwnedConnection.answers 1 2 3 4).
Abbreviation system_allowed := (allowed_all OwnedConnection.kwrite2 TcpConnection.kread_hi OwnedConnection.answers 1 2 3 4
  OwnedConnection.kwrite2_contract TcpConnection.kread_hi_contract).

Definition arrives (fd c : Z) : system_op :=
  OpAccept (Acceptor.mkEvent (Sockets.Accepted fd []) 0 0) c.
Definition exhausted (c : Z) : system_op :=
  OpAccept (Acceptor.mkEvent (Sockets.AcceptError Sockets.EMFILE) 4 4) c.
Definition event (c : Z) (a : OwnedConnection.action) : system_op :=
  OpServer (@TcpServer.OpConnection _ _ one_poll c a).
Definition turn (l : Z) : system_op := OpServer (@TcpServer.OpRun _ _ one_poll l).

Definition made1 : result (Acceptor.Acceptor Loop) := Acceptor.new 1 6 99 3 4 0 (LoopService.poll_loop 1).
Definition started1 : result system :=
  start TcpServer.startLoop0 1 (bytes_of "127.0.0.1:8000") (bytes_of "echo") LoopService.poll_loop 0 false
    6 99 3 4 0 0.
Definition system_ops : list system_op :=
  [arrives 7 5; exhausted 12; arrives 8 9; event 5 (OwnedConnection.Memory TcpConnection.mem1 ∅ TcpConnection.mem1_ok);
   event 5 OwnedConnection.ReadEvent; event 5 OwnedConnection.CloseEvent; turn 1].
Definition after1 : outcome system :=
  x ← owner started1; run_system system_ops x.

Definition server_event (o : system_op) : bool :=
  match o with OpServer (TcpServer.OpConnection _ _) | OpServer (TcpServer.OpRun _) => true | _ => false end.

Lemma server_events_allowed (os : list system_op) x : forallb server_event os = true -> system_allowed os x.
Proof.
  revert x. induction os as [|o os IH]; intros x Hos; [done|]. apply andb_true_iff in Hos as [Ho Hos].
  split; [destruct o as [|o]; [done|by destruct o]|]. destruct (run_op _ _ _ _ _ _ _ o x); [by apply IH|done..].
Qed.

(** The conditions of an arrival, but that nobody uses the address in a loop. *)
Definition arrival (o : system_op) (r : outcome system) : bool :=
  match o, r with
  | OpAccept e c, Done x =>
      let free fd := bool_decide (map_Forall (fun d k => TcpServer.csock k <> fd /\ d <> c) (TcpServer.conns (server x))) in
      (TcpServer.nextConnId_ (server x) <? 2 ^ 31 - 1) &&
      match Acceptor.ev_answer e with
      | Sockets.Accepted fd _ => free fd && bool_decide (0 <= fd /\ fd ∉ Acceptor.own (acceptor_ x))
      | Sockets.AcceptError _ => free (Acceptor.ev_reopened e) &&
          bool_decide (Acceptor.ev_raw e <> Acceptor.acceptSocket_ (acceptor_ x) /\
            Acceptor.ev_reopened e <> Acceptor.acceptSocket_ (acceptor_ x))
      end
  | _, _ => false
  end.

Lemma arrival_allowed e c (x : system) : arrival (OpAccept e c) (Done x) = true -> vacant c x ->
  system_allowed [OpAccept e c] x.
Proof.
  intros Ha Hv. apply andb_true_iff in Ha as [Hn Ha]. zprop.
  assert (forall fd (b : bool), bool_decide (map_Forall (fun d k => TcpServer.csock k <> fd /\ d <> c)
    (TcpServer.conns (server x))) && b = true ->
    unused_fd fd x /\ @TcpServer.unoccupied _ _ one_poll one_poll_laws c (server x) /\ b = true) as Hfree.
  { intros fd b [Hf ->]%andb_true_iff. apply bool_decide_eq_true in Hf. split_and!; [| |done].
    - intros d k Hk. by apply (Hf d k).
    - split; [|exact Hv]. destruct (TcpServer.conns (server x) !! c) as [k|] eqn:Ek; [|done]. by destruct (Hf _ _ Ek). }
  split; [|by destruct (run_op _ _ _ _ _ _ _ _ _)]. cbn [allowed]. unfold kernel_ok, Acceptor.kernel_ok.
  destruct (Acceptor.ev_answer e); apply Hfree in Ha as (? & ? & Hb);
    apply bool_decide_eq_true in Hb; (split; [by split|by split]).
Qed.

Lemma arrives_allowed e c os (x : system) : arrival (OpAccept e c) (Done x) = true -> vacant c x ->
  (forall x', run_system [OpAccept e c] x = Done x' -> (forall d, d <> c -> vacant d x -> vacant d x') ->
     system_allowed os x') ->
  system_allowed (OpAccept e c :: os) x.
Proof.
  intros Ha Hv Hos. destruct (arrival_allowed e c x Ha Hv) as [Ho _]. split; [done|].
  destruct (run_op _ _ _ _ _ _ _ _ x) as [x'| |] eqn:E; [|done..]. apply Hos; [cbn [run_ops]; by rewrite E|].
  intros d Hd. destruct Ho as (_ & _ & Hun). eapply accept_vacant; [exact E|exact Hun|exact Hd].
Qed.

Lemma run_system_app (os ps : list system_op) x : run_system (os ++ ps) x = (x ← run_system os x; run_system ps x).
Proof.
  revert x. induction os as [|o os IH]; intros x; [done|]. cbn [app run_ops].
  destruct (run_op _ _ _ _ _ _ _ o x); [apply IH|done..].
Qed.

Lemma system_ops_allowed x : started1 = Ok x -> system_allowed system_ops x.
Proof.
  intros E. assert (vacant 5 x /\ vacant 9 x /\ vacant 12 x) as (V5 & V9 & V12).
  { vm_compute in E. injection E as <-. split_and!; intros l; cbn; case_match; reflexivity. }
  apply arrives_allowed; [injection E as <-; vm_compute; reflexivity|exact V5|]. intros x1 E1 V1.
  apply arrives_allowed; [rewrite <- E1; injection E as <-; vm_compute; reflexivity|by apply V1|].
  intros x2 E2 V2.
  apply arrives_allowed; [|by apply V2; [|apply V1]|].
  { assert (run_system ([arrives 7 5] ++ [exhausted 12]) x = Done x2) as <- by 
      (rewrite run_system_app; change (run_system [arrives 7 5] x = Done x1) in E1; rewrite E1; exact E2).
    injection E as <-. vm_compute. reflexivity. }
  intros x3 _ _. by apply server_events_allowed.
Qed.

(** Two connections have arrived; the first has left. *)
Definition view (r : outcome system) : option (list Z * list (Z * Z)) :=
  match r with
  | Done x => Some (Acceptor.handed (Acceptor.trace (acceptor_ x)),
      map (fun p => (fst p, TcpServer.csock (snd p))) (map_to_list (TcpServer.conns (server x))))
  | _ => None
  end.

Lemma server_accepts_witness :
  view after1 = Some ([7; 8], [(9, 8)]) /\
  exists x, after1 = Done x /\ owners x /\
    Acceptor.listens 6 3 99 (TcpServer.loops (server x) (TcpServer.loop_ (server x))).
Proof.
  split; [vm_compute; reflexivity|]. destruct made1 as [a0|] eqn:E0; [|discriminate E0].
  destruct (server_accepts OwnedConnection.kwrite2 TcpConnection.kread_hi OwnedConnection.answers 1 2 3 4
    OwnedConnection.kwrite2_contract TcpConnection.kread_hi_contract TcpServer.startLoop0 1
    (bytes_of "127.0.0.1:8000") (bytes_of "echo") LoopService.poll_loop 0 false 6 99 3 4 0 a0) as (x0 & Ex & Hrun).
  - vm_compute. discriminate.
  - lia.
  - apply LoopService.poll_loop_idle.
  - by apply LoopService.poll_loop_room.
  - reflexivity.
  - reflexivity.
  - discriminate.
  - exact E0.
  - specialize (Hrun system_ops (system_ops_allowed x0 Ex)).
    assert (after1 = run_system system_ops x0) as Ea by (unfold after1, started1; rewrite Ex; reflexivity).
    assert (view after1 <> None) as Hv by (vm_compute; discriminate). rewrite Ea in Hv |- *.
    destruct (run_system system_ops x0) as [x| |]; [|by destruct Hv..].
    exists x. destruct Hrun as (Ho & Hl & _). split; [reflexivity|]. split; [exact Ho|exact Hl].
Defined.

End AcceptingServer.
