(* ===== verification/TcpClient.v ===== *)
(** * [dws::net::TcpClient]: TcpClient.h, TcpClient.cc

    A client's one connection, who holds it, and the functors it leaves behind in its
    loop.  A connection is anything that keeps the contract of Connection.v, as
    OwnedConnection.v proves of TcpConnection.v.  The connector is the sequence of
    calls it gets. *)

From S2P Require Import Prelude Text Channel Poller PollPoller EventLoop LoopService Connection TcpConnection OwnedConnection.

Module TcpClient.
Import Connection (StateE, kDisconnected, kConnecting, kConnected, kDisconnecting, outcome, Done,
  OwnerFault, ConnectionFault, owner, callee, state_of, channel_of, pending, sound, unused, up, turns).

Inductive connector_call := ConnectorStart | ConnectorStop | ConnectorRestart.

(** The close callback: [removeConnection] of the client, or the function that the
    client's destructor puts in its place.  Both hold the client's address. *)
Inductive close_callback := ClientRemove | DetachedRemove.

(** [users]: how many owners the connection has besides the client and the functors
    below: functors of its own, callers, the user. *)
Record Conn (K : Type) := mkConn { cname : list byte; cobj : K; closeCallback : close_callback; users : nat }.
Arguments mkConn {K} _ _ _ _.
Arguments cname {K} _.
Arguments cobj {K} _.
Arguments closeCallback {K} _.
Arguments users {K} _.

(** Functors of the client in the loop.  [DestroyRef]: [connectDestroyed] through a
    reference to a parameter of [removeConnection]; [DestroyOwned]: the same through a
    copy; [SetCallbackRef]: [setCloseCallback] through references to locals of the
    destructor. *)
Inductive task := DestroyRef | DestroyOwned (c : Z) | SetCallbackRef.

(** [loop_]: the address of the loop, [loop]: the loop.  [inLoop]: whether the caller is
    in its thread. *)
Record TcpClient (K L : Type) := mkClient {
  loop_ : Z;
  loop : L;
  name_ : list byte;
  retry_ : bool;
  connect_ : bool;
  nextConnId_ : Z;
  connection_ : option Z;
  conns : gmap Z (Conn K);
  connector_ : list connector_call;
  tasks : list task;
  inLoop : bool;
  alive : bool
}.
Arguments mkClient {K L} _ _ _ _ _ _ _ _ _ _ _ _.
Arguments loop_ {K L} _.
Arguments loop {K L} _.
Arguments name_ {K L} _.
Arguments retry_ {K L} _.
Arguments connect_ {K L} _.
Arguments nextConnId_ {K L} _.
Arguments connection_ {K L} _.
Arguments conns {K L} _.
Arguments connector_ {K L} _.
Arguments tasks {K L} _.
Arguments inLoop {K L} _.
Arguments alive {K L} _.

Section Client.
Context {K L : Type} `{Connection.Connection K L}.
Implicit Types s : TcpClient K L.

(** [shutdown] and [forceClose] of a connection, in its loop's thread or not. *)
Context (shutdown forceClose : bool -> Connection.Action).

Definition set_conns (cur : option Z) (h : gmap Z (Conn K)) s : TcpClient K L :=
  mkClient (loop_ s) (loop s) (name_ s) (retry_ s) (connect_ s) (nextConnId_ s) cur h (connector_ s) (tasks s)
    (inLoop s) (alive s).
Definition set_loop (l : L) s : TcpClient K L :=
  mkClient (loop_ s) l (name_ s) (retry_ s) (connect_ s) (nextConnId_ s) (connection_ s) (conns s) (connector_ s)
    (tasks s) (inLoop s) (alive s).
Definition set_tasks (ts : list task) s : TcpClient K L :=
  mkClient (loop_ s) (loop s) (name_ s) (retry_ s) (connect_ s) (nextConnId_ s) (connection_ s) (conns s)
    (connector_ s) ts (inLoop s) (alive s).
Definition set_connect (r b : bool) (l : list connector_call) s : TcpClient K L :=
  mkClient (loop_ s) (loop s) (name_ s) r b (nextConnId_ s) (connection_ s) (conns s) (connector_ s ++ l) (tasks s)
    (inLoop s) (alive s).
Definition set_next (n : Z) s : TcpClient K L :=
  mkClient (loop_ s) (loop s) (name_ s) (retry_ s) (connect_ s) n (connection_ s) (conns s) (connector_ s) (tasks s)
    (inLoop s) (alive s).
Definition set_dead s : TcpClient K L :=
  mkClient (loop_ s) (loop s) (name_ s) (retry_ s) (connect_ s) (nextConnId_ s) None (conns s) (connector_ s)
    (tasks s) (inLoop s) false.

Definition new (l : Z) (x : L) (name : list byte) : TcpClient K L :=
  mkClient l x name false true 1 None ∅ [] [] true true.

Definition assertInLoopThread s : outcome unit := owner (if inLoop s then Ok tt else Err Aborted).
Definition deref (c : Z) s : outcome (Conn K) :=
  owner match conns s !! c with Some k => Ok k | None => Err UndefinedBehaviour end.
Definition queueInLoop (t : task) s : TcpClient K L := set_tasks (tasks s ++ [t]) s.

Definition set_object (o : K) (k : Conn K) : Conn K := mkConn (cname k) o (closeCallback k) (users k).
Definition set_callback (cb : close_callback) (k : Conn K) : Conn K := mkConn (cname k) (cobj k) cb (users k).
Definition set_users (n : nat) (k : Conn K) : Conn K := mkConn (cname k) (cobj k) (closeCallback k) n.

(** The connection and the loop after an operation of the connection. *)
Definition commit (c : Z) (k : Conn K) (o : K) (l : L) s : TcpClient K L :=
  set_loop l (set_conns (connection_ s) (<[c := set_object o k]> (conns s)) s).

(** ** Ownership *)

Definition is_destroy (c : Z) (t : task) : bool := match t with DestroyOwned d => d =? c | _ => false end.

(** Whether somebody owns the connection. *)
Definition owned (c : Z) (k : Conn K) s : bool :=
  bool_decide (connection_ s = Some c) || existsb (is_destroy c) (tasks s) || (0 <? users k)%nat.

(** A reference is given up: with the last one the connection is destroyed. *)
Definition release (c : Z) s : outcome (TcpClient K L) :=
  k ← deref c s;
  if owned c k s then Done s
  else
    l ← owner (Connection.destruct (cobj k) (loop s));
    Done (set_loop l (set_conns (connection_ s) (delete c (conns s)) s)).

(** ** Operations *)

Definition enableRetry s : TcpClient K L := set_connect true (connect_ s) [] s.
Definition connect s : TcpClient K L := set_connect (retry_ s) true [ConnectorStart] s.
Definition stop s : TcpClient K L := set_connect (retry_ s) false [ConnectorStop] s.

(** [removeConnection]: the functor keeps a reference to the parameter. *)
Definition removeConnection (c : Z) s : outcome (TcpClient K L) :=
  _ ← assertInLoopThread s;
  _ ← owner (assert_ (bool_decide (connection_ s = Some c)));
  let s := queueInLoop DestroyRef (set_conns None (conns s) s) in
  Done (if retry_ s && connect_ s then set_connect (retry_ s) (connect_ s) [ConnectorRestart] s else s).

(** The close callback; both functions go through the client's address. *)
Definition closed (c : Z) (cb : close_callback) s : outcome (TcpClient K L) :=
  if alive s then
    match cb with
    | ClientRemove => removeConnection c s
    | DetachedRemove => Done (queueInLoop (DestroyOwned c) s)
    end
  else OwnerFault UndefinedBehaviour.

(** Something happens to a connection; what called it owns it until the end. *)
Definition happens (c : Z) (r : K -> L -> result (K * L * bool)) s : outcome (TcpClient K L) :=
  match conns s !! c with
  | Some k =>
      '(o, l, b) ← callee (r (cobj k) (loop s));
      let s := commit c k o l s in
      if b : bool then s ← closed c (closeCallback k) s; release c s else Done s
  | None => Done s
  end.
Definition connection_act (c : Z) (a : Connection.Action) : TcpClient K L -> outcome (TcpClient K L) :=
  happens c (Connection.act a).
Definition connection_functor (c : Z) : TcpClient K L -> outcome (TcpClient K L) :=
  happens c Connection.run_functor.

Definition disconnect (b : bool) s : outcome (TcpClient K L) :=
  let s := set_connect (retry_ s) false [] s in
  match connection_ s with
  | None => Done s
  | Some c => connection_act c (shutdown b) s
  end.

Definition conn_name (peer : list byte) s : list byte :=
  name_ s ++ Text.snprintf 32 (bytes_of ":" ++ peer ++ bytes_of "#" ++ Text.decimal (nextConnId_ s)).

(** [newConnection]: the connector has connected [sockfd] to [peer]; [c] is the address
    of the new connection. *)
Definition newConnection (c sockfd : Z) (peer : list byte) s : outcome (TcpClient K L) :=
  _ ← assertInLoopThread s;
  let connName := conn_name peer s in
  _ ← owner (no_overflow 32 [nextConnId_ s + 1]);
  let s := set_next (nextConnId_ s + 1) s in
  '(o, l) ← callee (Connection.construct c (loop_ s) sockfd (loop s));
  let old := connection_ s in
  let s := set_loop l (set_conns (Some c) (<[c := mkConn connName o ClientRemove 0]> (conns s)) s) in
  s ← match old with None => Done s | Some d => release d s end;
  k ← deref c s;
  '(o, l) ← callee (Connection.connectEstablished c (cobj k) (loop s));
  Done (commit c k o l s).

(** [~TcpClient]; [unique]: nobody else owns the connector.  In another thread than
    the loop's, the callback is set by a functor.  [forceClose] leaves functors that
    own the connection. *)
Definition destructor (unique : bool) s : outcome (TcpClient K L) :=
  match connection_ s with
  | Some c =>
      k ← deref c s;
      let s := if inLoop s then set_conns (connection_ s) (<[c := set_callback DetachedRemove k]> (conns s)) s
               else queueInLoop SetCallbackRef s in
      k ← deref c s;
      s ← (if unique then
             '(o, l, b) ← callee (Connection.act (forceClose (inLoop s)) (cobj k) (loop s));
             let s := commit c (set_users (users k + (pending o - pending (cobj k))) k) o l s in
             if b : bool then closed c (closeCallback k) s else Done s
           else Done s);
      release c (set_dead s)
  | None => Done (set_dead (set_connect (retry_ s) (connect_ s) [ConnectorStop] s))
  end.

(** The oldest functor: what the references denote is gone when the loop gets to it. *)
Definition run_task s : outcome (TcpClient K L) :=
  match tasks s with
  | [] => Done s
  | t :: ts =>
      let s := set_tasks ts s in
      match t with
      | DestroyRef | SetCallbackRef => OwnerFault UndefinedBehaviour
      | DestroyOwned c =>
          k ← deref c s;
          '(o, l) ← callee (Connection.connectDestroyed (cobj k) (loop s));
          release c (commit c k o l s)
      end
  end.

(** A new owner of the connection, and one fewer. *)
Definition hold (c : Z) s : outcome (TcpClient K L) :=
  match conns s !! c with
  | Some k => Done (set_conns (connection_ s) (<[c := set_users (S (users k)) k]> (conns s)) s)
  | None => Done s
  end.
Definition drop (c : Z) s : outcome (TcpClient K L) :=
  match conns s !! c with
  | Some k => release c (set_conns (connection_ s) (<[c := set_users (pred (users k)) k]> (conns s)) s)
  | None => Done s
  end.

Inductive op :=
| OpRetry
| OpConnect
| OpStop
| OpDisconnect (b : bool)
| OpNew (c sockfd : Z) (peer : list byte)
| OpConnection (c : Z) (a : Connection.Action)
| OpFunctor (c : Z)
| OpHold (c : Z)
| OpDrop (c : Z)
| OpRun.

Definition run_op (o : op) s : outcome (TcpClient K L) :=
  match o with
  | OpRetry => Done (enableRetry s)
  | OpConnect => Done (connect s)
  | OpStop => Done (stop s)
  | OpDisconnect b => disconnect b s
  | OpNew c sockfd peer => newConnection c sockfd peer s
  | OpConnection c a => connection_act c a s
  | OpFunctor c => connection_functor c s
  | OpHold c => hold c s
  | OpDrop c => drop c s
  | OpRun => run_task s
  end.

Fixpoint run_ops (l : list op) s : outcome (TcpClient K L) :=
  match l with
  | [] => Done s
  | o :: l => s ← run_op o s; run_ops l s
  end.

End Client.
Arguments op K L {_}.

(** ** Lemmas *)

Section Laws.
Context {K L : Type} `{Connection.ConnectionLaws K L}.
Context (shutdown : bool -> Connection.Action).
Implicit Types s : TcpClient K L.

(** The connector delivers a new connection only when there is none. *)
Definition allowed (o : op K L) s : Prop :=
  match o with
  | OpNew c _ _ => connection_ s = None /\ conns s !! c = None /\ unused c (loop s)
  | _ => True
  end.

(** The operations of a client that is used in its loop's thread. *)
Inductive run : TcpClient K L -> list (op K L) -> TcpClient K L -> Prop :=
| run_nil s : run s [] s
| run_cons s o s1 l s' : allowed o s -> run_op shutdown o s = Done s1 -> run s1 l s' -> run s (o :: l) s'.

(** Only what is at the head of the functors leaves them. *)
Definition later s s' : Prop :=
  alive s' = alive s /\ inLoop s' = inLoop s /\ exists ts, tasks s' = tasks s ++ ts.

#[local] Instance later_preorder : PreOrder later.
Proof.
  split; [intros s; split_and!; [done..|exists []; by rewrite app_nil_r]|].
  intros s1 s2 s3 (? & ? & k & Hk) (? & ? & l & Hl). split_and!; [congruence..|].
  exists (k ++ l). by rewrite Hl, Hk, app_assoc.
Qed.

Lemma later_same s s' : alive s' = alive s -> inLoop s' = inLoop s -> tasks s' = tasks s -> later s s'.
Proof. intros ? ? Ht. split_and!; [done..|]. exists []. by rewrite app_nil_r. Qed.

Lemma release_later c s s' : release c s = Done s' -> later s s' /\ connection_ s' = connection_ s.
Proof.
  unfold release. intros E. Connection.inv_done. destruct (owned c a s); Connection.inv_done; subst s';
    by split; [apply later_same|].
Qed.

Lemma closed_later c cb s s' : closed c cb s = Done s' -> later s s'.
Proof.
  unfold closed, removeConnection. intros E. destruct (alive s) eqn:Ea; [|done]. destruct cb.
  - Connection.inv_done. subst s'. destruct (_ && _); (split_and!; [done..|by eexists]).
  - Connection.inv_done. subst s'. split_and!; [done..|by eexists].
Qed.

Lemma happens_later c r s s' : happens c r s = Done s' -> later s s'.
Proof.
  unfold happens. intros E. destruct (conns s !! c) as [k|]; [|Connection.inv_done; by subst].
  Connection.inv_done. destruct a as [[o l] b]. cbn zeta in E.
  assert (later s (commit c k o l s)) as Hc by (by apply later_same).
  destruct b; Connection.inv_done; [|by subst]. apply closed_later in E1. apply release_later in E as [E _].
  etrans; [exact Hc|]. etrans; [exact E1|exact E].
Qed.

Lemma disconnect_later b s s' : disconnect shutdown b s = Done s' -> later s s'.
Proof.
  unfold disconnect. cbn [connection_ set_connect]. intros E. destruct (connection_ s).
  - apply happens_later in E. etrans; [|done]. by apply later_same.
  - Connection.inv_done. subst s'. by apply later_same.
Qed.

Lemma new_later c sockfd peer s s' : newConnection c sockfd peer s = Done s' -> later s s'.
Proof.
  unfold newConnection. intros E. Connection.inv_done. destruct a1 as [o l]. cbn zeta in E.
  Connection.inv_done. destruct a3 as [o' l']. Connection.inv_done. subst s'.
  assert (later s a1) as Ha; [|etrans; [exact Ha|by apply later_same]].
  cbn [connection_ set_next] in E3. destruct (connection_ s).
  - apply release_later in E3 as [E3 _]. etrans; [|exact E3]. by apply later_same.
  - Connection.inv_done. subst a1. by apply later_same.
Qed.

Lemma op_later o s s' : o <> OpRun -> run_op shutdown o s = Done s' -> later s s'.
Proof.
  destruct o as [| | |b|c sockfd peer|c a|c|c|c|]; cbn [run_op]; intros Hne E; try done.
  1-3: Connection.inv_done; subst s'; by apply later_same.
  - by eapply disconnect_later.
  - by eapply new_later.
  - by eapply happens_later.
  - by eapply happens_later.
  - unfold hold in E. destruct (conns s !! c); Connection.inv_done; subst s'; [by apply later_same|done].
  - unfold drop in E. destruct (conns s !! c); [|Connection.inv_done; by subst].
    apply release_later in E as [E _]. etrans; [|exact E]. by apply later_same.
Qed.

(** ** The first connection, and its end *)

(** No connection has closed yet. *)
Definition lone s : Prop :=
  tasks s = [] /\
  (connection_ s = None /\ conns s = ∅ /\ nextConnId_ s = 1 \/
   exists c k, connection_ s = Some c /\ conns s = {[c := k]} /\ nextConnId_ s = 2 /\
     sound (cobj k) (loop s) /\ up (state_of (cobj k)) /\ closeCallback k = ClientRemove).

(** The next functor of the client goes through a dangling reference. *)
Definition doomed s : Prop := head (tasks s) = Some DestroyRef.

Record Inv s : Prop := {
  inv_thread : inLoop s = true;
  inv_alive : alive s = true;
  inv_life : lone s \/ doomed s
}.

Lemma doomed_later s s' : doomed s -> later s s' -> doomed s'.
Proof. unfold doomed. intros Hd (_ & _ & ts & ->). by destruct (tasks s). Qed.

(** After the end of the connection. *)
Lemma closed_doomed c s : alive s = true -> inLoop s = true -> tasks s = [] -> connection_ s = Some c ->
  exists s', closed c ClientRemove s = Done s' /\ tasks s' = [DestroyRef] /\ connection_ s' = None /\
    conns s' = conns s /\ loop s' = loop s.
Proof.
  intros Ha Hl Ht Hc. unfold closed, removeConnection, assertInLoopThread. rewrite Ha, Hl. cbn [owner].
  rewrite Connection.bind_done, assert_decide by done. cbn [owner]. rewrite Connection.bind_done.
  eexists. split; [reflexivity|]. destruct (_ && _); cbn; by rewrite Ht.
Qed.

Lemma happens_inv c r s s' :
  (forall k l k' l' b, sound k l -> r k l = Ok (k', l', b) -> sound k' l' /\ turns b (state_of k) (state_of k')) ->
  Inv s -> happens c r s = Done s' -> Inv s'.
Proof.
  intros Hr [Hl Ha Hi] E. pose proof (happens_later _ _ _ _ E) as Hlat. pose proof Hlat as (Ha' & Hl' & _).
  split; [congruence..|]. destruct Hi as [[Ht Hi]|Hd]; [|right; by eapply doomed_later].
  unfold happens in E. destruct (conns s !! c) as [k|] eqn:Ek; [|Connection.inv_done; subst; left; by split].
  destruct Hi as [(_ & Hcs & _)|(d & k0 & Ec & Hcs & Hn & Hs & Hup & Hcb)]; [by rewrite Hcs in Ek|].
  rewrite Hcs in Ek. apply lookup_singleton_Some in Ek as [-> ->].
  Connection.inv_done. destruct a as [[o l] b]. destruct (Hr _ _ _ _ _ Hs E0) as [Hs' Hturn]. cbn zeta in E.
  rewrite Hcb in E. destruct b; Connection.inv_done.
  - right. destruct (closed_doomed c (commit c k o l s)) as (s1 & E2 & Hd & _); [done..|].
    assert (s1 = a) as -> by congruence. apply release_later in E as [E _].
    eapply doomed_later; [|exact E]. unfold doomed. by rewrite Hd.
  - subst s'. left. split; [done|]. right. exists c, (set_object o k). cbn. rewrite Hcs, insert_singleton_eq.
    split_and!; try done. unfold turns, up in *. intuition congruence.
Qed.

Lemma lone_release c k s : connection_ s = Some c -> conns s !! c = Some k -> release c s = Done s.
Proof.
  intros Ec Ek. unfold release, deref. rewrite Ek. cbn [owner]. rewrite Connection.bind_done. unfold owned.
  by rewrite bool_decide_true.
Qed.

(** More or fewer owners. *)
Lemma users_inv c k n s : Inv s -> conns s !! c = Some k ->
  Inv (set_conns (connection_ s) (<[c := set_users n k]> (conns s)) s).
Proof.
  intros [Hl Ha Hi] Ek. split; [done..|]. destruct Hi as [[Ht Hi]|Hd]; [|by right]. left. split; [done|].
  destruct Hi as [(_ & Hcs & _)|(d & k0 & Ec & Hcs & Hn & Hs & Hup & Hcb)]; [by rewrite Hcs in Ek|].
  rewrite Hcs in Ek. apply lookup_singleton_Some in Ek as [-> ->]. right. exists c, (set_users n k). cbn.
  by rewrite Hcs, insert_singleton_eq.
Qed.

Lemma new_inv_client c sockfd peer s s' : Inv s -> allowed (OpNew c sockfd peer) s ->
  newConnection c sockfd peer s = Done s' -> Inv s'.
Proof.
  intros [Hl Ha Hi] (Hc & Hcc & Hun) E. pose proof (new_later _ _ _ _ _ E) as Hlat. pose proof Hlat as (Ha' & Hl' & _).
  split; [congruence..|]. destruct Hi as [[Ht Hi]|Hd]; [|right; by eapply doomed_later].
  destruct Hi as [(_ & Hcs & Hn)|(? & ? & ? & _)]; [|congruence].
  unfold newConnection in E. Connection.inv_done. destruct a1 as [o l].
  destruct (Connection.construct_spec _ _ _ _ _ _ Hun E2) as (Hs & Hst & _). cbn [connection_ set_next] in E.
  rewrite Hc in E. rewrite Connection.bind_done in E. Connection.inv_done. destruct a2 as [o' l'].
  Connection.inv_done. subst s'. unfold deref in E3. cbn in E3. rewrite lookup_insert_eq in E3.
  apply Connection.owner_done_inv in E3. injection E3 as <-. cbn in E4.
  destruct (Connection.established_spec _ _ _ _ _ Hs Hst E4) as (Hs' & Hup & _).
  left. split; [done|]. right. eexists c, _. cbn. rewrite Hcs, insert_insert_eq, insert_empty.
  split_and!; try done. lia.
Qed.

Lemma client_op_inv o s s' : Inv s -> allowed o s -> run_op shutdown o s = Done s' -> Inv s'.
Proof.
  intros Hi Hok E.
  assert (forall r b l, Inv (set_connect r b l s)) as Hset.
  { intros r b l. destruct Hi as [? ? Hlife]. by split. }
  destruct o as [| | |b|c sockfd peer|c a|c|c|c|]; cbn [run_op] in E.
  1-3: Connection.inv_done; subst s'; apply Hset.
  - unfold disconnect in E. cbn [connection_ set_connect] in E. pose proof (Hset (retry_ s) false []) as Hd.
    destruct (connection_ s); [|Connection.inv_done; by subst].
    eapply happens_inv; [|exact Hd|exact E]. intros k l k' l' d Hs Er.
    by destruct (Connection.act_spec _ _ _ _ _ _ Hs Er) as (? & ? & _).
  - by eapply new_inv_client.
  - eapply happens_inv; [|exact Hi|exact E]. intros k l k' l' d Hs Er.
    by destruct (Connection.act_spec _ _ _ _ _ _ Hs Er) as (? & ? & _).
  - eapply happens_inv; [|exact Hi|exact E]. intros k l k' l' d Hs Er.
    by destruct (Connection.functor_spec _ _ _ _ _ Hs Er) as (? & ? & _).
  - unfold hold in E. destruct (conns s !! c) as [k|] eqn:Ek; Connection.inv_done; subst s'; [|done].
    by apply users_inv.
  - unfold drop in E. destruct (conns s !! c) as [k|] eqn:Ek; [|Connection.inv_done; by subst].
    pose proof (users_inv c k (pred (users k)) s Hi Ek) as Hi'. set (s1 := set_conns _ _ s) in *.
    destruct Hi' as [Hl1 Ha1 [[Ht1 Hi1]|Hd1]].
    2:{ apply release_later in E as [Hlat _]. pose proof Hlat as (? & ? & _).
        split; [congruence..|]. right. by eapply doomed_later. }
    destruct Hi1 as [(_ & Hcs & _)|(d & k0 & Ec & Hcs & Hrest)].
    { exfalso. unfold s1 in Hcs. cbn in Hcs. by apply insert_non_empty in Hcs. }
    assert (d = c) as ->.
    { assert (conns s1 !! c <> None) as Hc by (unfold s1; cbn; by rewrite lookup_insert_eq).
      rewrite Hcs in Hc. destruct (decide (d = c)); [done|]. by rewrite lookup_singleton_ne in Hc. }
    rewrite (lone_release c k0) in E by (done || by rewrite Hcs, lookup_singleton_eq).
    Connection.inv_done. subst s'. split; [done..|]. left. split; [done|]. right. by exists c, k0.
  - unfold run_task in E. destruct Hi as [Hl Ha [[Ht Hi]|Hd]].
    + rewrite Ht in E. Connection.inv_done. subst s'. split; [done..|left; by split].
    + unfold doomed in Hd. destruct (tasks s) as [|t ts]; [done|]. injection Hd as ->. done.
Qed.

Lemma client_run_inv s l s' : Inv s -> run s l s' -> Inv s'.
Proof. intros Hi Hr. revert Hi. induction Hr; [done|]. intros Hi. by eapply IHHr, client_op_inv. Qed.

(** When the connection closes. *)
Lemma close_ends c k r o l' s : Inv s -> lone s -> connection_ s = Some c -> conns s !! c = Some k ->
  r (cobj k) (loop s) = Ok (o, l', true) -> sound o l' -> state_of o = kDisconnected ->
  (users k = 0%nat -> happens c r s = OwnerFault AssertFailure) /\
  ((0 < users k)%nat -> exists s', happens c r s = Done s' /\ doomed s').
Proof.
  intros [Hl Ha _] [Ht Hi] Hc Ek E Hs Hst.
  destruct Hi as [(? & _)|(d & k0 & Ec & Hcs & _ & _ & _ & Hcb)]; [congruence|].
  rewrite Hcs in Ek. apply lookup_singleton_Some in Ek as [-> ->].
  destruct (closed_doomed c (commit c k o l' s)) as (s1 & E1 & Ht1 & Hc1 & Hcs1 & Hl1); [done..|].
  assert (happens c r s = release c s1) as ->.
  { unfold happens. rewrite Hcs, lookup_singleton_eq, E. cbn [callee]. rewrite Connection.bind_done.
    cbn zeta. rewrite Hcb, E1. apply Connection.bind_done. }
  unfold release, deref. rewrite Hcs1. cbn [conns commit set_loop set_conns]. rewrite lookup_insert_eq.
  cbn [owner]. rewrite Connection.bind_done. unfold owned. rewrite Hc1, Ht1.
  cbn [bool_decide existsb is_destroy orb users set_object]. split; intros Hu.
  - rewrite Hu, Hl1. cbn [Nat.ltb Nat.leb cobj set_object loop commit set_loop]. rewrite Connection.destruct_early; [done|done|by rewrite Hst].
  - rewrite (proj2 (Nat.ltb_lt _ _) Hu). exists s1. split; [done|]. unfold doomed. by rewrite Ht1.
Qed.

End Laws.

(** ** Properties *)

(** [C37] A client does not survive the end of its connection.  Whatever was called before,
    when an event or a functor of the connection ends with the close callback and
    nobody else owns the connection, it is destroyed while its channel is still
    registered, which fails an assertion; and if somebody does own it, the functor that
    should unregister the channel goes through a reference to a pointer that is gone.
    So either the loop cannot get past the next functor of the client, or the client
    has had one connection at most. *)
Theorem tcp_client_close_fatal {K L} `{Connection.ConnectionLaws K L} shutdown l (x : L) name
    (os : list (op K L)) s :
  run shutdown (new l x name) os s ->
  run_task s = OwnerFault UndefinedBehaviour \/
  nextConnId_ s <= 2 /\
  forall c k r o l', connection_ s = Some c -> conns s !! c = Some k ->
    r = Connection.run_functor \/ (exists a, r = Connection.act a) ->
    r (cobj k) (loop s) = Ok (o, l', true) ->
    (users k = 0%nat -> happens c r s = OwnerFault AssertFailure) /\
    ((0 < users k)%nat -> exists s', happens c r s = Done s' /\ run_task s' = OwnerFault UndefinedBehaviour).
Proof.
  intros Hr. assert (Inv s) as Hi.
  { eapply client_run_inv; [|exact Hr]. split; [done..|]. left. split; [done|by left]. }
  assert (forall t : TcpClient K L, doomed t -> run_task t = OwnerFault UndefinedBehaviour) as Hdoom.
  { intros t Hd. unfold doomed in Hd. unfold run_task. destruct (tasks t) as [|u ts]; [done|]. by injection Hd as ->. }
  destruct (inv_life _ Hi) as [Hlone|Hd]; [right|left; auto]. split.
  { destruct Hlone as [_ [(_ & _ & ->)|(? & ? & _ & _ & -> & _)]]; lia. }
  intros c k r o l' Hc Ek Hrr E.
  assert (sound (cobj k) (loop s) /\ up (state_of (cobj k))) as [Hs Hup].
  { destruct Hlone as [_ [(? & _)|(d & k0 & Ec & Hcs & _ & ? & ? & _)]]; [congruence|].
    rewrite Hcs in Ek. by apply lookup_singleton_Some in Ek as [-> ->]. }
  assert (sound o l' /\ state_of o = kDisconnected) as [Hs' Hst].
  { destruct Hrr as [->|[a ->]].
    - by destruct (Connection.functor_spec _ _ _ _ _ Hs E) as (? & [_ ?] & _).
    - by destruct (Connection.act_spec _ _ _ _ _ _ Hs E) as (? & [_ ?] & _). }
  destruct (close_ends c k r o l' s Hi Hlone Hc Ek E Hs' Hst) as [H1 H2]. split; [done|].
  intros Hu. destruct (H2 Hu) as (s' & ? & ?). eauto.
Qed.

(** A client that is destroyed first leaves its address in the close callback of its
    connection: if that outlives it, the end of the connection uses it. *)
Theorem tcp_client_destroyed_dangles {K L} `{Connection.Connection K L} forceClose unique
    (s s1 : TcpClient K L) c k r o l' :
  connection_ s = Some c -> destructor forceClose unique s = Done s1 ->
  conns s1 !! c = Some k -> r (cobj k) (loop s1) = Ok (o, l', true) ->
  happens c r s1 = OwnerFault UndefinedBehaviour.
Proof.
  intros Ec E Ek Er. assert (alive s1 = false) as Ha.
  { unfold destructor in E. rewrite Ec in E. Connection.inv_done. cbn zeta in E. Connection.inv_done.
    assert (forall t, release c (set_dead t) = Done s1 -> alive s1 = false) as Hrel.
    { intros t Et. unfold release in Et. Connection.inv_done. destruct (owned c _ _); Connection.inv_done; by subst s1. }
    by eapply Hrel. }
  unfold happens. rewrite Ek, Er. cbn [callee]. rewrite Connection.bind_done. cbn zeta.
  unfold closed. cbn [alive commit set_loop set_conns]. by rewrite Ha.
Qed.

(** ** Witnesses *)

(** A client of connections as in TcpConnection.v, in a loop on poll(2).  The peer
    closes after the user's answer. *)
Abbreviation Loop := OwnedConnection.Loop.
Abbreviation one_poll := OwnedConnection.one_poll.
Abbreviation client := (TcpClient (TcpConnection.TcpConnection Loop) Loop).

Definition call (o : TcpConnection.user_op) (b : bool) : @Connection.Action _ _ one_poll := OwnedConnection.Call b o.
Definition event (c : Z) (a : OwnedConnection.action) : @op _ _ one_poll := @OpConnection _ _ one_poll c a.
Definition client0 : client := @new _ _ 1 (LoopService.poll_loop 1) (bytes_of "client").
Definition client_ops : list (@op _ _ one_poll) :=
  [OpConnect; OpNew 5 7 (bytes_of "10.0.0.1:80");
   event 5 (OwnedConnection.Memory TcpConnection.mem1 ∅ TcpConnection.mem1_ok);
   event 5 OwnedConnection.ReadEvent; OpDisconnect true].
Definition client1 : client :=
  match @run_ops _ _ one_poll (call TcpConnection.Shutdown) client_ops client0 with Done s => s | _ => client0 end.

(** Only the connector's deliveries have a condition. *)
Lemma run_events {K L} `{Connection.ConnectionLaws K L} shutdown (os : list (op K L)) s s' :
  forallb (fun o => match o with OpNew _ _ _ => false | _ => true end) os = true ->
  run_ops shutdown os s = Done s' -> run shutdown s os s'.
Proof.
  revert s. induction os as [|o os IH]; intros s Hos E; cbn [run_ops] in E.
  { Connection.inv_done. subst. apply run_nil. }
  apply andb_true_iff in Hos as [Ho Hos]. Connection.inv_done.
  eapply run_cons; [by destruct o|done|by apply IH].
Qed.

Lemma client1_run : @run _ _ one_poll OwnedConnection.one_poll_laws (call TcpConnection.Shutdown) client0 client_ops client1.
Proof.
  eapply run_cons; [exact I|reflexivity|].
  eapply run_cons; [split; [reflexivity|split; reflexivity]|vm_compute; reflexivity|].
  apply run_events; [reflexivity|vm_compute; reflexivity].
Qed.

(** The peer closes after the user's answer. *)
Lemma tcp_client_close_fatal_witness :
  @run _ _ one_poll OwnedConnection.one_poll_laws (call TcpConnection.Shutdown) client0 client_ops client1 /\
  @connection_act _ _ one_poll 5 OwnedConnection.CloseEvent client1 = OwnerFault AssertFailure.
Proof.
  split; [exact client1_run|].
  destruct (@tcp_client_close_fatal _ _ one_poll OwnedConnection.one_poll_laws (call TcpConnection.Shutdown) 1
    (LoopService.poll_loop 1) (bytes_of "client") client_ops client1 client1_run) as [E|[_ Hc]];
    [vm_compute in E; discriminate E|].
  destruct (conns client1 !! 5) as [k|] eqn:Ek; [|vm_compute in Ek; discriminate Ek].
  destruct (@Connection.act _ _ one_poll OwnedConnection.CloseEvent (cobj k) (loop client1)) as [[[o l'] b]|f] eqn:Ea.
  2:{ vm_compute in Ek. injection Ek as <-. vm_compute in Ea. discriminate Ea. }
  assert (b = true) as ->.
  { vm_compute in Ek. injection Ek as <-. vm_compute in Ea. injection Ea as _ _ <-. reflexivity. }
  destruct (Hc 5 k (@Connection.act _ _ one_poll OwnedConnection.CloseEvent) o l') as [Hfail _];
    [reflexivity|exact Ek|right; exists OwnedConnection.CloseEvent; reflexivity|exact Ea|].
  apply Hfail. vm_compute in Ek. injection Ek as <-. reflexivity.
Defined.

(** Somebody else holds the connection when the client is destroyed, and the peer closes. *)
Definition held1 : client :=
  match @hold _ _ 5 client1 with Done s => s | _ => client0 end.
Definition gone1 : client :=
  match @destructor _ _ one_poll (call TcpConnection.ForceClose) false held1 with Done s => s | _ => client0 end.

Lemma tcp_client_destroyed_dangles_witness :
  @connection_act _ _ one_poll 5 OwnedConnection.CloseEvent gone1 = OwnerFault UndefinedBehaviour.
Proof.
  destruct (conns gone1 !! 5) as [k|] eqn:Ek; [|vm_compute in Ek; discriminate Ek].
  destruct (@Connection.act _ _ one_poll OwnedConnection.CloseEvent (cobj k) (loop gone1)) as [[[o l'] b]|f] eqn:Ea.
  2:{ vm_compute in Ek. injection Ek as <-. vm_compute in Ea. discriminate Ea. }
  assert (b = true) as ->.
  { vm_compute in Ek. injection Ek as <-. vm_compute in Ea. injection Ea as _ _ <-. reflexivity. }
  assert (connection_ held1 = Some 5) as Ec by (vm_compute; reflexivity).
  assert (@destructor _ _ one_poll (call TcpConnection.ForceClose) false held1 = Done gone1) as Ed
    by (vm_compute; reflexivity).
  exact (tcp_client_destroyed_dangles _ _ _ _ _ _ _ _ _ Ec Ed Ek Ea).
Defined.

End TcpClient.
