(* ===== verification/Logging.v ===== *)
(** * [dws::Logger]: Logging.h, Logging.cc

    A log line: the time with its per-thread cache, the thread, the level, the
    message, the source; the filter of the macros; what the destructor does. *)

From S2P Require Import Prelude Text Date TimeZone Timestamp LogStream Thread.

Module Logging.
Import LogStream (Buffer, item, Piece, CString, Char, Int32, insert, insert_all, SIZE, item_ok, texts).

Inductive LogLevel := TRACE | DEBUG | INFO | WARN | ERROR | FATAL.

#[global] Instance LogLevel_eqdec : EqDecision LogLevel.
Proof. solve_decision. Defined.

Definition level_number (l : LogLevel) : Z :=
  match l with TRACE => 0 | DEBUG => 1 | INFO => 2 | WARN => 3 | ERROR => 4 | FATAL => 5 end.
Definition LogLevelName (l : LogLevel) : list byte :=
  bytes_of match l with
           | TRACE => "TRACE " | DEBUG => "DEBUG " | INFO => "INFO  " | WARN => "WARN  "
           | ERROR => "ERROR " | FATAL => "FATAL "
           end.

(** Which environment variables are set. *)
Definition initLogLevel (env_trace env_debug : bool) : LogLevel :=
  if env_trace then TRACE else if env_debug then DEBUG else INFO.

(** The macros: [LOG_TRACE], [LOG_DEBUG], [LOG_INFO] and [LOG] ask for the level. *)
Definition enabled (g_logLevel level : LogLevel) : bool := level_number g_logLevel <=? level_number level.

(** [SourceFile]: what follows the last slash. *)
Fixpoint after_last_slash (l : list byte) : option (list byte) :=
  match l with
  | [] => None
  | b :: l =>
      match after_last_slash l with
      | Some k => Some k
      | None => if bool_decide (b = Byte.x2f) then Some l else None
      end
  end.
Definition SourceFile (name : list byte) : list byte := default name (after_last_slash name).

(** The thread-local cache of the formatted second. *)
Record cache := mkCache { t_time : list byte; t_lastSecond : Z }.
Definition empty_cache : cache := mkCache [] 0.

(** [T(str, len)] asserts the length; [strlen] of a text without a terminator. *)
Definition T (str : list byte) (len : Z) : result item :=
  _ ← assert_ (zlen str =? len); Ok (Piece str).

Definition date_text (dt : TimeZone.DateTime) : list byte :=
  Text.decimal_sp 4 (TimeZone.dt_year dt) ++ Text.decimal0 2 (TimeZone.dt_month dt) ++
  Text.decimal0 2 (TimeZone.dt_day dt) ++ bytes_of " " ++ Text.decimal0 2 (TimeZone.dt_hour dt) ++
  bytes_of ":" ++ Text.decimal0 2 (TimeZone.dt_minute dt) ++ bytes_of ":" ++
  Text.decimal0 2 (TimeZone.dt_second dt).

Definition broken_down (tz : TimeZone.TimeZone) (seconds : Z) : result TimeZone.DateTime :=
  if TimeZone.valid tz then '(dt, _) ← TimeZone.toLocalTime tz seconds; Ok dt
  else TimeZone.toUTCTime seconds.

(** [formatTime]: the two pieces, and the cache. *)
Definition formatTime (tz : TimeZone.TimeZone) (time : Timestamp.Timestamp) (c : cache)
  : result (list item * cache) :=
  let us := Timestamp.microSecondsSinceEpoch_ time in
  let seconds := Z.quot us Timestamp.kMicroSecondsPerSecond in
  let microseconds := wraps 32 (Z.rem us Timestamp.kMicroSecondsPerSecond) in
  c ← (if seconds =? t_lastSecond c then Ok c
       else
         dt ← broken_down tz seconds;
         _ ← assert_ (zlen (date_text dt) =? 17);
         Ok (mkCache (Text.snprintf 64 (date_text dt)) seconds));
  let '(suffix, len) := if TimeZone.valid tz then (" "%string, 8) else ("Z "%string, 9) in
  fmt ← LogStream.Fmt (bytes_of "." ++ Text.decimal0 6 microseconds ++ bytes_of suffix);
  _ ← assert_ (zlen fmt =? len);
  a ← T (t_time c) 17;
  b ← T fmt len;
  Ok ([a; b], c).

(** What the constructor inserts; [strerror]: the text of an error number. *)
Definition Impl (strerror : Z -> list byte) (tz : TimeZone.TimeZone) (gettid : Z) (level : LogLevel)
    (savedErrno : Z) (time : Timestamp.Timestamp) (c : cache) (l : CurrentThread.locals)
  : result (list item * cache * CurrentThread.locals) :=
  '(stamp, c) ← formatTime tz time c;
  let l := snd (CurrentThread.tid gettid l) in
  thread ← T (CurrentThread.t_tidString l) (CurrentThread.t_tidStringLength l);
  name ← T (LogLevelName level) 6;
  let error := if savedErrno =? 0 then []
               else [CString (Some (strerror savedErrno)); CString (Some (bytes_of " (errno="));
                     Int32 savedErrno; CString (Some (bytes_of ") "))] in
  Ok (stamp ++ [thread; name] ++ error, c, l).

Definition finish (basename : list byte) (line : Z) : list item :=
  [CString (Some (bytes_of " - ")); Piece basename; Char Byte.x3a; Int32 line; Char Byte.x0a].

(** A logger's life: constructed, given [message], destroyed.  The text goes to the
    output function; after FATAL the process ends.  [func]: the constructor with a
    function's name. *)
Definition log (strerror : Z -> list byte) (tz : TimeZone.TimeZone) (gettid : Z) (level : LogLevel)
    (savedErrno : Z) (file : list byte) (line : Z) (func : option (list byte)) (message : list item)
    (time : Timestamp.Timestamp) (c : cache) (l : CurrentThread.locals)
  : result (list byte * bool * cache * CurrentThread.locals) :=
  '(prefix, c, l) ← Impl strerror tz gettid level savedErrno time c l;
  let func := match func with Some f => [CString (Some f); Char Byte.x20] | None => [] end in
  b ← insert_all (prefix ++ func ++ message ++ finish (SourceFile file) line) (FixedBuffer.new SIZE);
  Ok (FixedBuffer.toString b, bool_decide (level = FATAL), c, l).

(** ** The global settings *)

(** The output and flush functions by name; 0 and 0 are [defaultOutput] and
    [defaultFlush], which write to stdout and flush it. *)
Record settings := mkSettings {
  g_logLevel : LogLevel; g_output : Z; g_flush : Z; g_logTimeZone : TimeZone.TimeZone
}.
Definition defaults (env_trace env_debug : bool) : settings :=
  mkSettings (initLogLevel env_trace env_debug) 0 0 None.
Definition setLogLevel (level : LogLevel) (s : settings) : settings :=
  mkSettings level (g_output s) (g_flush s) (g_logTimeZone s).
Definition setOutput (out : Z) (s : settings) : settings :=
  mkSettings (g_logLevel s) out (g_flush s) (g_logTimeZone s).
Definition setFlush (flush : Z) (s : settings) : settings :=
  mkSettings (g_logLevel s) (g_output s) flush (g_logTimeZone s).
(** The caches of the threads are not told. *)
Definition setTimeZone (tz : TimeZone.TimeZone) (s : settings) : settings :=
  mkSettings (g_logLevel s) (g_output s) (g_flush s) tz.

(** What the destructor calls: the output function with a line, then, before the
    process is aborted, the flush function. *)
Inductive call := Output (f : Z) (line : list byte) | Flush (f : Z) | Abort.
Definition destructor (s : settings) (text : list byte) (fatal : bool) : list call :=
  Output (g_output s) text :: if fatal then [Flush (g_flush s); Abort] else [].

(** ** The time of a line *)

(** The minutes after an [int8_t]: their hour and minute, as [%02d] prints them. *)
Lemma minute_widths m : -128 <= m <= 127 ->
  zlen (Text.decimal0 2 (wraps 8 (m ÷ 60))) = 2 /\
  zlen (Text.decimal0 2 (wraps 8 (Z.rem m 60))) = if Z.rem m 60 <=? -10 then 3 else 2.
Proof.
  intros Hm.
  assert (forallb (fun k => let m := Z.of_nat k - 128 in
    (zlen (Text.decimal0 2 (wraps 8 (m ÷ 60))) =? 2) &&
    (zlen (Text.decimal0 2 (wraps 8 (Z.rem m 60))) =? if Z.rem m 60 <=? -10 then 3 else 2)) (seq 0 256) = true)
    as H by (vm_compute; reflexivity).
  rewrite forallb_forall in H. specialize (H (Z.to_nat (m + 128))).
  cbv zeta in H. rewrite Z2Nat.id in H by lia. replace (m + 128 - 128) with m in H by lia.
  assert (In (Z.to_nat (m + 128)) (seq 0 256)) as Hin by (apply in_seq; lia).
  apply H in Hin. zprop. done.
Qed.

Lemma zlen_decimal_sp4 y : 1000 <= y < 10000 -> zlen (Text.decimal_sp 4 y) = 4.
Proof.
  intros Hy. unfold Text.decimal_sp. rewrite zlen_app, zlen_zreplicate. unfold Text.decimal.
  zcase (y <? 0); [lia|]. pose proof (Text.length_udec (Text.dec_fuel y) y 4). unfold zlen. lia.
Qed.

(** The minutes of the day, as [fillHMS] keeps them. *)
Definition kept_minutes (t : Z) : Z := wraps 8 (TimeZone.second_of_day t / 60).

Lemma zlen_date_text t ymd : 1000 <= Date.year ymd < 10000 -> Date.valid_ymd ymd = true ->
  zlen (date_text (TimeZone.fillHMS (TimeZone.second_of_day t)
    (TimeZone.mkDateTime (Date.year ymd) (Date.month ymd) (Date.day ymd) 0 0 0))) =
  if Z.rem (kept_minutes t) 60 <=? -10 then 18 else 17.
Proof.
  intros Hy Hv. unfold Date.valid_ymd in Hv. zprop.
  assert (Date.days_in_month (Date.year ymd) (Date.month ymd) <= 31).
  { unfold Date.days_in_month. repeat case_match; lia. }
  assert (0 <= TimeZone.second_of_day t < 86400) as Hs.
  { unfold TimeZone.second_of_day, TimeZone.kSecondsPerDay. change (24 * 60 * 60) with 86400. div_lia. }
  unfold date_text, TimeZone.fillHMS. cbn [TimeZone.dt_year TimeZone.dt_month TimeZone.dt_day
    TimeZone.dt_hour TimeZone.dt_minute TimeZone.dt_second].
  rewrite (Z.quot_div_nonneg (TimeZone.second_of_day t)), (Z.rem_mod_nonneg (TimeZone.second_of_day t)) by lia.
  fold (kept_minutes t). pose proof (wraps_range 8 (TimeZone.second_of_day t / 60) ltac:(lia)) as Hm.
  fold (kept_minutes t) in Hm. change (2 ^ (8 - 1)) with 128 in Hm.
  destruct (minute_widths (kept_minutes t) ltac:(lia)) as [E1 E2].
  pose proof (Z.mod_pos_bound (TimeZone.second_of_day t) 60 ltac:(lia)).
  rewrite !zlen_app, zlen_decimal_sp4, E1, E2 by lia. rewrite (wraps_small 8 (_ mod 60)) by (cbn; lia).
  rewrite !(Text.decimal0_width 2 _ 2) by (cbn; lia || done).
  change (zlen (bytes_of " ")) with 1. change (zlen (bytes_of ":")) with 1. case_match; lia.
Qed.

(** The cache holds the text of its second in the zone in use; at first it is empty. *)
Definition cache_ok (tz : TimeZone.TimeZone) (c : cache) : Prop :=
  t_lastSecond c = 0 \/
  exists dt, broken_down tz (t_lastSecond c) = Ok dt /\ t_time c = date_text dt /\ zlen (date_text dt) = 17.

(** Without a zone the time is marked as UTC. *)
Definition micro_text (tz : TimeZone.TimeZone) (us : Z) : list byte :=
  bytes_of "." ++ Text.decimal0 6 (us mod 1000000) ++ bytes_of (if TimeZone.valid tz then " " else "Z ").

Lemma T_ok s n : zlen s = n -> T s n = Ok (Piece s).
Proof. intros <-. unfold T. by rewrite Z.eqb_refl. Qed.

Lemma formatTime_broken tz us c dt :
  cache_ok tz c -> 1000000 <= us -> broken_down tz (us / 1000000) = Ok dt ->
  formatTime tz (Timestamp.mkTimestamp us) c =
    if zlen (date_text dt) =? 17
    then Ok ([Piece (date_text dt); Piece (micro_text tz us)], mkCache (date_text dt) (us / 1000000))
    else Err AssertFailure.
Proof.
  intros Hc Hus Hdt. pose proof (Z.mod_pos_bound us 1000000 ltac:(lia)).
  unfold formatTime, Timestamp.kMicroSecondsPerSecond. change (1000 * 1000) with 1000000.
  cbn [Timestamp.microSecondsSinceEpoch_]. rewrite Z.quot_div_nonneg, Z.rem_mod_nonneg by lia.
  assert (1 <= us / 1000000) by (apply Z.div_le_lower_bound; lia).
  assert (zlen (micro_text tz us) = if TimeZone.valid tz then 8 else 9) as Hz.
  { unfold micro_text. rewrite !zlen_app, (Text.decimal0_width 6 _ 6) by (cbn; lia). by destruct (TimeZone.valid tz). }
  rewrite (wraps_small 32) by (cbn; lia).
  set (c' := mkCache (date_text dt) (us / 1000000)).
  assert ((if us / 1000000 =? t_lastSecond c then Ok c
           else dt ← broken_down tz (us / 1000000);
                _ ← assert_ (zlen (date_text dt) =? 17);
                Ok (mkCache (Text.snprintf 64 (date_text dt)) (us / 1000000))) =
          if zlen (date_text dt) =? 17 then Ok c' else Err AssertFailure) as ->.
  { zcase (us / 1000000 =? t_lastSecond c).
    - destruct Hc as [Hc|(dt' & Edt & Ht & Hl)]; [lia|]. rewrite <- E, Hdt in Edt. injection Edt as <-.
      rewrite Hl. cbn. unfold c'. destruct c as [x y]; cbn in *. by rewrite Ht, E.
    - rewrite Hdt, bind_ok. zcase (zlen (date_text dt) =? 17); [|done].
      unfold Text.snprintf. by rewrite ztake_all by lia. }
  zcase (zlen (date_text dt) =? 17); [|done]. rewrite bind_ok. unfold LogStream.Fmt, micro_text in *.
  destruct (TimeZone.valid tz); rewrite Hz; (rewrite (assert_true (_ <? 32)), !bind_ok by done);
    (rewrite Hz, (assert_true (_ =? _)), bind_ok by done);
    rewrite (T_ok (t_time c') 17 E), bind_ok; rewrite (T_ok _ _ Hz); by rewrite bind_ok.
Qed.

(** Within the cached second the date is the cached one, whatever the zone is now:
    a change of zone is not seen before the next second. *)
Lemma formatTime_cached tz us c : 0 <= us -> t_lastSecond c = us / 1000000 -> zlen (t_time c) = 17 ->
  exists suffix, formatTime tz (Timestamp.mkTimestamp us) c = Ok ([Piece (t_time c); Piece suffix], c).
Proof.
  intros Hus Hc Hl. unfold formatTime, Timestamp.kMicroSecondsPerSecond. change (1000 * 1000) with 1000000.
  cbn [Timestamp.microSecondsSinceEpoch_]. rewrite Z.quot_div_nonneg, Z.rem_mod_nonneg by lia.
  rewrite Hc, Z.eqb_refl, bind_ok. pose proof (Z.mod_pos_bound us 1000000 ltac:(lia)).
  rewrite (wraps_small 32) by (cbn; lia). unfold LogStream.Fmt.
  assert (forall suffix : string, zlen (bytes_of "." ++ Text.decimal0 6 (us mod 1000000) ++ bytes_of suffix) =
    7 + zlen (bytes_of suffix)) as Hz.
  { intros suffix. rewrite !zlen_app, (Text.decimal0_width 6 _ 6) by (cbn; lia).
    change (zlen (bytes_of ".")) with 1. lia. }
  destruct (TimeZone.valid tz); cbv beta iota zeta; rewrite Hz; change (zlen (bytes_of " ")) with 1;
    change (zlen (bytes_of "Z ")) with 2; (rewrite (assert_true (_ <? 32)), !bind_ok by done);
    (rewrite Hz, (assert_true (_ =? _)), bind_ok by done); rewrite (T_ok _ _ Hl), bind_ok, T_ok by (by rewrite Hz);
    rewrite bind_ok; by eexists.
Qed.

(** ** Properties *)

(** Logging aborts the process for much of the day.  The minutes of the day pass
    through an [int8_t]; where the kept value leaves a remainder of -10 or less, the
    formatted time is a character too long and the assertion on its length fails.
    At all other times the line starts with the date and the kept time. *)
Theorem logging_minutes_abort us c dt :
  cache_ok None c -> 1000000 <= us ->
  Date.jdn_min <= TimeZone.day_of (us / 1000000) <= Date.jdn_max ->
  TimeZone.toUTCTime (us / 1000000) = Ok dt -> 1000 <= TimeZone.dt_year dt < 10000 ->
  formatTime None (Timestamp.mkTimestamp us) c =
    if Z.rem (kept_minutes (us / 1000000)) 60 <=? -10 then Err AssertFailure
    else Ok ([Piece (date_text dt); Piece (micro_text None us)], mkCache (date_text dt) (us / 1000000)).
Proof.
  intros Hc Hus Hd Hdt Hy. destruct (TimeZone.BreakTime_eq _ Hd) as (ymd & _ & Hv & _ & Eb).
  rewrite (formatTime_broken None us c dt Hc Hus Hdt). unfold TimeZone.toUTCTime in Hdt.
  rewrite Eb in Hdt. injection Hdt as <-. rewrite zlen_date_text by done. by destruct (_ <=? -10).
Qed.

(** 2024-01-01 at 02:18: the 138 minutes become -118. *)
Lemma logging_minutes_abort_witness :
  formatTime None (Timestamp.mkTimestamp (1704075480 * 1000000)) empty_cache = Err AssertFailure.
Proof.
  rewrite (logging_minutes_abort (1704075480 * 1000000) empty_cache
    (TimeZone.mkDateTime 2024 1 1 (-1) (-58) 0)).
  - reflexivity.
  - left. reflexivity.
  - lia.
  - split; vm_compute; discriminate.
  - vm_compute. reflexivity.
  - cbn. lia.
Defined.

(** The minutes of a day in which every line aborts the process: 02:17 is the first
    and 23:59 the last of 523. *)
Example aborting_minutes :
  let bad := List.filter (fun m => Z.rem (wraps 8 m) 60 <=? -10) (map Z.of_nat (seq 0 1440)) in
  length bad = 523%nat /\ head bad = Some (2 * 60 + 17) /\ last bad = Some (23 * 60 + 59).
Proof. vm_compute. split_and!; reflexivity. Qed.

Lemma tid_text_ok gettid l : CurrentThread.t_cachedTid l = 0 \/
    zlen (CurrentThread.t_tidString l) = CurrentThread.t_tidStringLength l ->
  0 < gettid < 2 ^ 31 ->
  let l' := snd (CurrentThread.tid gettid l) in
  zlen (CurrentThread.t_tidString l') = CurrentThread.t_tidStringLength l'.
Proof.
  intros Hl Hg. unfold CurrentThread.tid, CurrentThread.cacheTid.
  zcase (CurrentThread.t_cachedTid l =? 0); [|by destruct Hl]. cbn.
  unfold Text.snprintf. apply f_equal. apply ztake_all. unfold Text.decimal_sp.
  rewrite !zlen_app, zlen_zreplicate. change (zlen [Byte.x20]) with 1.
  pose proof (Text.zlen_decimal_le gettid 10). lia.
Qed.

(** [C25] The log line, from one second after the epoch on.  Whatever the zone, and
    as long as the cache is of that zone, the text of the date decides.  If it is not
    17 characters long the process is aborted by an assertion: with the minutes in an
    [int8_t] that happens in more than a third of the minutes of a day
    ([logging_minutes_abort], [aborting_minutes]).  If it is, and the whole text
    fits the buffer of 4000 bytes, the output function gets exactly one line:
    date, time, microseconds, thread, level, the error if there was one, the function
    if it was given, the message, the source file without its directories, and its
    line number; whether the process goes on depends on the level alone. *)
Theorem logging_line strerror tz gettid level err file line func message us c l dt :
  cache_ok tz c -> 1000000 <= us -> broken_down tz (us / 1000000) = Ok dt ->
  0 < gettid < 2 ^ 31 -> CurrentThread.t_cachedTid l = 0 \/
    zlen (CurrentThread.t_tidString l) = CurrentThread.t_tidStringLength l ->
  in_s 32 err = true -> in_s 32 line = true -> Forall item_ok message ->
  let text :=
    date_text dt ++ micro_text tz us ++ CurrentThread.t_tidString (snd (CurrentThread.tid gettid l)) ++
    LogLevelName level ++
    (if err =? 0 then [] else strerror err ++ bytes_of " (errno=" ++ Text.decimal err ++ bytes_of ") ") ++
    (match func with Some f => f ++ bytes_of " " | None => [] end) ++ texts message ++
    bytes_of " - " ++ SourceFile file ++ bytes_of ":" ++ Text.decimal line ++ [Byte.x0a] in
  zlen text + LogStream.kMaxNumericSize <= SIZE ->
  log strerror tz gettid level err file line func message (Timestamp.mkTimestamp us) c l =
    if zlen (date_text dt) =? 17
    then Ok (text, bool_decide (level = FATAL), mkCache (date_text dt) (us / 1000000),
             snd (CurrentThread.tid gettid l))
    else Err AssertFailure.
Proof.
  intros Hc Hus Hdt Hg Hl He Hline Hm text Hfit. unfold log, Impl.
  rewrite (formatTime_broken tz us c dt Hc Hus Hdt). destruct (_ =? 17); [|done]. rewrite bind_ok.
  cbv beta iota zeta.
  rewrite (T_ok _ _ (tid_text_ok gettid l Hl Hg)), bind_ok, T_ok by by destruct level.
  rewrite !bind_ok. cbv beta iota zeta. set (items := _ ++ _ ++ message ++ _).
  assert (texts items = text /\ Forall item_ok items) as [Et Hok].
  { unfold items, text, texts. split.
    - rewrite !map_app, !concat_app. destruct (err =? 0), func; cbn;
        repeat first [rewrite <- app_assoc | rewrite <- app_comm_cons | rewrite app_nil_r]; done.
    - assert (Forall item_ok (message ++ finish (SourceFile file) line)) as Hrest
        by (apply Forall_app; split; [done|by repeat constructor]).
      destruct (err =? 0), func; cbn; repeat (apply Forall_cons; split; [done|]); done. }
  destruct (LogStream.log_stream_items items (FixedBuffer.new SIZE) Hok) as (b & E & T').
  - by apply FixedBuffer.new_wf.
  - rewrite Et. cbn [FixedBuffer.cur_ FixedBuffer.new]. lia.
  - rewrite E, bind_ok, T', Et. done.
Qed.

(** 2024-01-01 02:00:00.5, thread 4242, an error of [net/Poller.cc:7]. *)
Lemma logging_line_witness :
  log (fun _ => bytes_of "Bad file") None 4242 ERROR 9 (bytes_of "net/Poller.cc") 7 None
    [CString (Some (bytes_of "poll "))] (Timestamp.mkTimestamp (1704074400 * 1000000 + 500000)) empty_cache
    CurrentThread.initial =
  Ok (bytes_of "20240101 02:00:00.500000Z  4242 ERROR Bad file (errno=9) poll  - Poller.cc:7" ++ [Byte.x0a],
      false, mkCache (bytes_of "20240101 02:00:00") 1704074400, CurrentThread.mkLocals 4242 (bytes_of " 4242 ") 6 (bytes_of "unknown")).
Proof.
  rewrite (logging_line (fun _ => bytes_of "Bad file") None 4242 ERROR 9 (bytes_of "net/Poller.cc") 7 None
    [CString (Some (bytes_of "poll "))] (1704074400 * 1000000 + 500000) empty_cache
    CurrentThread.initial (TimeZone.mkDateTime 2024 1 1 2 0 0)).
  all: try reflexivity; try (left; reflexivity); try lia.
  - repeat constructor.
  - apply (bool_decide_eq_true_1 _). vm_compute. reflexivity.
Defined.

End Logging.
